(** * Order-book market simulator: a shallow embedding of [main.c]

    The engine of [main.c] keeps its whole state in global variables: a pool
    of [limitOrder] records, a stack of free records, one singly-linked list
    of resting orders per price, the bid and the ask, the list of the user's
    resting orders and the user's ledger.  The embedding gathers these
    globals in one record, [state], and turns every C function into a
    function from states to outcomes.

    - Pointers into the pool are slot numbers ([nat]); [NULL] is [None].
    - [u32], [u64] and [int] values are integers of [Z] with the wrap-around
      written out ([u32], [u64], [i32] below).
    - [exit(1)], an access outside an array and a loop that would not
      terminate are the faults of the type [outcome].
    - The floating-point arithmetic of [rd] and [rl] is outside the model:
      every random draw of the engine is an input of the step that consumes
      it.  [setSeed] and [random] are modelled on their own, and so are the
      functions that write the text of the display and the editing keys. *)

From Stdlib Require Import ZArith List Bool Lia Arith Sorted.
Import ListNotations.
Local Open Scope Z_scope.

(** ** Machine integers *)

Definition u32 (z : Z) : Z := z mod 2 ^ 32.
Definition u64 (z : Z) : Z := z mod 2 ^ 64.
(** The value of a 32-bit [int] after a wrapping conversion. *)
Definition i32 (z : Z) : Z := (z + 2 ^ 31) mod 2 ^ 32 - 2 ^ 31.

Definition UINT_MAX : Z := 2 ^ 32 - 1.
Definition ULLONG_MAX : Z := 2 ^ 64 - 1.

(** ** Constants and settings of [main.c] *)

Definition NUM_PRICES : Z := 100000.
Definition MAX_NUM_USER_LIMIT_ORDERS : nat := 100.

Definition averageMarketOrderSize : Z := 8.
Definition frameLengthNS : Z := 100000000.
Definition initialBidMin : Z := 500.
Definition initialBidMax : Z := 500.
Definition initialSpreadMin : Z := 1.
Definition initialSpreadMax : Z := 1.
Definition realisticUserMarketOrders : bool := true.

(** ** Faults *)

Inductive fault : Type :=
| PoolExhausted        (* "Ran out of free limit orders available for use." *)
| BuySideExhausted     (* "Deleted all limit buy orders." / "Filled all buy limit orders ..." *)
| SellSideExhausted    (* "Deleted all limit sell orders." / "Filled all sell limit orders ..." *)
| OutOfBounds          (* an array indexed outside its bounds *)
| OutOfFuel.           (* a pointer loop that did not reach NULL *)

Inductive outcome (A : Type) : Type :=
| Ok (a : A)
| Fault (f : fault).
Arguments Ok {A} a.
Arguments Fault {A} f.

Definition bind {A B : Type} (x : outcome A) (k : A -> outcome B) : outcome B :=
  match x with
  | Ok a => k a
  | Fault f => Fault f
  end.

Notation "x <- e1 ;; e2" := (bind e1 (fun x => e2))
  (at level 61, e1 at next level, right associativity).
Notation "' pat <- e1 ;; e2" := (bind e1 (fun x => match x with pat => e2 end))
  (at level 61, pat pattern, e1 at next level, right associativity).

(** ** Data model *)

Module limitOrder.
(** [typedef struct { u32 size; u32 p; u64 expirationTime;
                      struct limitOrder* next; bool user; } limitOrder;] *)
Record t : Type := mk {
  size : Z;
  p : Z;
  expirationTime : Z;
  next : option nat;
  user : bool
}.

Definition with_size (z : Z) (o : t) : t :=
  mk z (p o) (expirationTime o) (next o) (user o).
Definition with_expirationTime (e : Z) (o : t) : t :=
  mk (size o) (p o) e (next o) (user o).
Definition with_next (n : option nat) (o : t) : t :=
  mk (size o) (p o) (expirationTime o) n (user o).

(** A record of the block returned by [calloc]. *)
Definition zero : t := mk 0 0 0 None false.
End limitOrder.

Definition limitOrder : Type := limitOrder.t.

(** The block of records, addressed by slot number. *)
Definition memory : Type := nat -> limitOrder.

Definition upd (m : memory) (h : nat) (o : limitOrder) : memory :=
  fun h' => if Nat.eqb h' h then o else m h'.

Definition upd_head (hd : Z -> option nat) (p : Z) (v : option nat) : Z -> option nat :=
  fun q => if Z.eqb q p then v else hd q.

(** The globals of [main.c].  [freeLimitOrders] lists the stack from its top
    ([freeLimitOrders[numFreeLimitOrders - 1]]) down to its bottom, so that
    [numFreeLimitOrders] is its length; [userLimitOrders] lists the array
    from index 0, and [numUserLimitOrders] is its length. *)
Record state : Type := mkState {
  poolSize : nat;
  pool : memory;
  freeLimitOrders : list nat;
  limitOrderHead : Z -> option nat;
  bid : Z;
  ask : Z;
  userLimitOrders : list nat;
  balance : Z;
  sharesOpen : Z;
  fillTiesInStackOrder : bool
}.

Definition numFreeLimitOrders (s : state) : nat := length (freeLimitOrders s).
Definition numUserLimitOrders (s : state) : nat := length (userLimitOrders s).

Definition with_pool (m : memory) (s : state) : state :=
  mkState (poolSize s) m (freeLimitOrders s) (limitOrderHead s) (bid s) (ask s)
          (userLimitOrders s) (balance s) (sharesOpen s) (fillTiesInStackOrder s).
Definition with_free (f : list nat) (s : state) : state :=
  mkState (poolSize s) (pool s) f (limitOrderHead s) (bid s) (ask s)
          (userLimitOrders s) (balance s) (sharesOpen s) (fillTiesInStackOrder s).
Definition with_heads (hd : Z -> option nat) (s : state) : state :=
  mkState (poolSize s) (pool s) (freeLimitOrders s) hd (bid s) (ask s)
          (userLimitOrders s) (balance s) (sharesOpen s) (fillTiesInStackOrder s).
Definition with_bid (b : Z) (s : state) : state :=
  mkState (poolSize s) (pool s) (freeLimitOrders s) (limitOrderHead s) b (ask s)
          (userLimitOrders s) (balance s) (sharesOpen s) (fillTiesInStackOrder s).
Definition with_ask (a : Z) (s : state) : state :=
  mkState (poolSize s) (pool s) (freeLimitOrders s) (limitOrderHead s) (bid s) a
          (userLimitOrders s) (balance s) (sharesOpen s) (fillTiesInStackOrder s).
Definition with_user (u : list nat) (s : state) : state :=
  mkState (poolSize s) (pool s) (freeLimitOrders s) (limitOrderHead s) (bid s) (ask s)
          u (balance s) (sharesOpen s) (fillTiesInStackOrder s).
Definition with_ledger (b q : Z) (s : state) : state :=
  mkState (poolSize s) (pool s) (freeLimitOrders s) (limitOrderHead s) (bid s) (ask s)
          (userLimitOrders s) b q (fillTiesInStackOrder s).

(** [limitOrderHead[p]] read as the C code reads it: the array has
    [NUM_PRICES] entries. *)
Definition inRange (p : Z) : bool := (0 <=? p) && (p <? NUM_PRICES).

Definition readHead (s : state) (p : Z) : outcome (option nat) :=
  if inRange p then Ok (limitOrderHead s p) else Fault OutOfBounds.

(** [limitOrderHead[p] = v] *)
Definition writeHead (p : Z) (v : option nat) (s : state) : outcome state :=
  if inRange p then Ok (with_heads (upd_head (limitOrderHead s) p v) s)
  else Fault OutOfBounds.

(** [freeLimitOrders[numFreeLimitOrders++] = h]; the array has [poolSize]
    entries. *)
Definition release (h : nat) (s : state) : outcome state :=
  if (numFreeLimitOrders s <? poolSize s)%nat
  then Ok (with_free (h :: freeLimitOrders s) s)
  else Fault OutOfBounds.

(** [h->next = n] *)
Definition setNext (h : nat) (n : option nat) (s : state) : state :=
  with_pool (upd (pool s) h (limitOrder.with_next n (pool s h))) s.

(** ** [setup] *)

(** All prices empty, every record of the block on the free stack
    ([freeLimitOrders[i] = lo + i]), no user order.  [poolSize] and
    [fillTiesInStackOrder] are globals with initialisers (1000000 and 0);
    they are arguments here. *)
Definition setup (n : nat) (stackOrder : bool) : state :=
  mkState n (fun _ => limitOrder.zero) (rev (seq 0 n)) (fun _ => None)
          0 UINT_MAX [] 0 0 stackOrder.

(** ** [addLimitOrder] *)

(** [while (curr->next != NULL) curr = curr->next;] *)
Fixpoint lastOrder (fuel : nat) (m : memory) (curr : nat) : outcome nat :=
  match limitOrder.next (m curr) with
  | None => Ok curr
  | Some nx =>
      match fuel with
      | O => Fault OutOfFuel
      | S fuel' => lastOrder fuel' m nx
      end
  end.

Definition addLimitOrder (p size expirationTime : Z) (user : bool) (s : state)
  : outcome state :=
  match freeLimitOrders s with
  | [] => Fault PoolExhausted
  | lo :: rest =>
      let s1 := with_pool (upd (pool s) lo (limitOrder.mk size p expirationTime None user))
                          (with_free rest s) in
      s2 <- (if user
             then if (numUserLimitOrders s1 <? MAX_NUM_USER_LIMIT_ORDERS)%nat
                  then Ok (with_user (userLimitOrders s1 ++ [lo]) s1)
                  else Fault OutOfBounds
             else Ok s1) ;;
      curr <- readHead s2 p ;;
      match curr with
      | None => writeHead p (Some lo) s2
      | Some c =>
          if fillTiesInStackOrder s2 then
            (* Add from the front and fill from the front. *)
            writeHead p (Some lo) (setNext lo (Some c) s2)
          else
            (* Add from the back and fill from the front. *)
            last <- lastOrder (poolSize s2) (pool s2) c ;;
            Ok (setNext last (Some lo) s2)
      end
  end.

(** ** [updateLimitOrders] *)

(** The first loop: expired orders at the head of the list.  The result is
    the order the second loop starts from, or [None] when the function
    returned from inside the loop. *)
Fixpoint sweepHead (fuel : nat) (p t : Z) (curr : nat) (s : state)
  : outcome (state * option nat) :=
  if limitOrder.expirationTime (pool s curr) <=? t then
    match fuel with
    | O => Fault OutOfFuel
    | S fuel' =>
        s1 <- release curr s ;;
        s2 <- writeHead p (limitOrder.next (pool s1 curr)) s1 ;;
        match limitOrder.next (pool s2 curr) with
        | None => Ok (s2, None)
        | Some c => sweepHead fuel' p t c s2
        end
    end
  else Ok (s, Some curr).

(** The second loop: expired orders behind a surviving one. *)
Fixpoint sweepTail (fuel : nat) (t : Z) (curr : nat) (s : state) : outcome state :=
  match limitOrder.next (pool s curr) with
  | None => Ok s
  | Some nx =>
      match fuel with
      | O => Fault OutOfFuel
      | S fuel' =>
          if limitOrder.expirationTime (pool s nx) <=? t then
            s1 <- release nx s ;;
            sweepTail fuel' t curr (setNext curr (limitOrder.next (pool s1 nx)) s1)
          else sweepTail fuel' t nx s
      end
  end.

Definition updateLimitOrders (p t : Z) (s : state) : outcome state :=
  curr <- readHead s p ;;
  match curr with
  | None => Ok s
  | Some c =>
      '(s1, c1) <- sweepHead (poolSize s) p t c s ;;
      match c1 with
      | None => Ok s1
      | Some c' => sweepTail (poolSize s) t c' s1
      end
  end.

(** ** [fillOrders] *)

(** The deletion of a filled order from [userLimitOrders]: the first entry
    equal to [h] is removed and the entries behind it move down. *)
Fixpoint deleteUserOrder (h : nat) (l : list nat) : list nat :=
  match l with
  | [] => []
  | x :: l' => if Nat.eqb x h then l' else x :: deleteUserOrder h l'
  end.

(** The ledger update of a fill of [q] shares at price [p]; [isSell] says
    that the market order sells, so that the resting order buys. *)
Definition settle (isSell : bool) (q p : Z) (s : state) : state :=
  if isSell
  then with_ledger (i32 (balance s - u32 (q * p))) (i32 (sharesOpen s + q)) s
  else with_ledger (i32 (balance s + u32 (q * p))) (i32 (sharesOpen s - q)) s.

(** The loop of [fillOrders], from the order [curr] on; [size] and [o] are
    the values behind the pointers [size] and [o]. *)
Fixpoint fillLoop (fuel : nat) (p : Z) (isSell : bool) (curr : option nat)
         (size o : Z) (s : state) : outcome (state * Z * Z) :=
  match curr with
  | None => Ok (s, size, o)
  | Some c =>
      match fuel with
      | O => Fault OutOfFuel
      | S fuel' =>
          let sz := limitOrder.size (pool s c) in
          if sz <=? size then
            (* Completely fill the limit order and remove it. *)
            let o1 := u32 (o + u32 (sz * p)) in
            let size1 := size - sz in
            s1 <- release c s ;;
            let s2 := if limitOrder.user (pool s1 c)
                      then with_user (deleteUserOrder c (userLimitOrders s1))
                                     (settle isSell sz p s1)
                      else s1 in
            s3 <- writeHead p (limitOrder.next (pool s2 c)) s2 ;;
            fillLoop fuel' p isSell (limitOrder.next (pool s3 c)) size1 o1 s3
          else
            (* Partially fill the limit order. *)
            let o1 := u32 (o + u32 (size * p)) in
            let s1 := with_pool (upd (pool s) c
                                     (limitOrder.with_size (sz - size) (pool s c))) s in
            let s2 := if limitOrder.user (pool s1 c)
                      then settle isSell size p s1
                      else s1 in
            Ok (s2, 0, o1)
      end
  end.

Definition fillOrders (p size o : Z) (isSell : bool) (s : state)
  : outcome (state * Z * Z) :=
  curr <- readHead s p ;;
  fillLoop (poolSize s) p isSell curr size o s.

(** ** [marketSell] and [marketBuy] *)

(** The loop [for (u32 p = bid; size > 0; p--)].  The price only goes down
    and the loop leaves through [exit(1)] once it wraps around, so
    [bid + 2] rounds are enough. *)
Fixpoint marketSellLoop (fuel : nat) (p size t o : Z) (s : state)
  : outcome (state * Z) :=
  if 0 <? size then
    match fuel with
    | O => Fault OutOfFuel
    | S fuel' =>
        if p =? UINT_MAX then Fault BuySideExhausted else
        hd <- readHead s p ;;
        match hd with
        | None => marketSellLoop fuel' (u32 (p - 1)) size t o s
        | Some _ =>
            s1 <- updateLimitOrders p t (with_bid p s) ;;
            '(s2, size', o') <- fillOrders p size o true s1 ;;
            marketSellLoop fuel' (u32 (p - 1)) size' t o' s2
        end
    end
  else Ok (s, o).

Definition marketSell (size t : Z) (s : state) : outcome (state * Z) :=
  marketSellLoop (Z.to_nat (bid s) + 2) (bid s) size t 0 s.

(** The loop [for (u32 p = ask; size > 0; p++)], which leaves through
    [exit(1)] at [NUM_PRICES]. *)
Fixpoint marketBuyLoop (fuel : nat) (p size t o : Z) (s : state)
  : outcome (state * Z) :=
  if 0 <? size then
    match fuel with
    | O => Fault OutOfFuel
    | S fuel' =>
        if NUM_PRICES <=? p then Fault SellSideExhausted else
        hd <- readHead s p ;;
        match hd with
        | None => marketBuyLoop fuel' (u32 (p + 1)) size t o s
        | Some _ =>
            s1 <- updateLimitOrders p t (with_ask p s) ;;
            '(s2, size', o') <- fillOrders p size o false s1 ;;
            marketBuyLoop fuel' (u32 (p + 1)) size' t o' s2
        end
    end
  else Ok (s, o).

Definition marketBuy (size t : Z) (s : state) : outcome (state * Z) :=
  marketBuyLoop (Z.to_nat (NUM_PRICES - ask s) + 1) (ask s) size t 0 s.

(** ** [updateBidAndAsk] *)

Fixpoint lowerBid (fuel : nat) (s : state) : outcome state :=
  hd <- readHead s (bid s) ;;
  match hd with
  | Some _ => Ok s
  | None =>
      match fuel with
      | O => Fault OutOfFuel
      | S fuel' =>
          let b := u32 (bid s - 1) in
          if b =? UINT_MAX then Fault BuySideExhausted
          else lowerBid fuel' (with_bid b s)
      end
  end.

Fixpoint raiseAsk (fuel : nat) (s : state) : outcome state :=
  hd <- readHead s (ask s) ;;
  match hd with
  | Some _ => Ok s
  | None =>
      match fuel with
      | O => Fault OutOfFuel
      | S fuel' =>
          let a := u32 (ask s + 1) in
          if NUM_PRICES <=? a then Fault SellSideExhausted
          else raiseAsk fuel' (with_ask a s)
      end
  end.

Definition updateBidAndAsk (s : state) : outcome state :=
  s1 <- lowerBid (Z.to_nat (bid s) + 1) s ;;
  raiseAsk (Z.to_nat (NUM_PRICES - ask s1)) s1.


(** ** Text: [intToStringFixed], [intToString], [priceToStringFixed],
       [priceToString] *)

(** A [char] is its code; a [char*] is an address in a memory of
    characters. *)
Definition buffer : Type := Z -> Z.

(** [b[i] = c] *)
Definition store (b : buffer) (i c : Z) : buffer :=
  fun j => if j =? i then c else b j.

Definition CH_0 : Z := 48.       (* '0' *)
Definition CH_9 : Z := 57.       (* '9' *)
Definition CH_DOT : Z := 46.     (* '.' *)
Definition CH_MINUS : Z := 45.   (* '-' *)
Definition CH_SPACE : Z := 32.   (* ' ' *)
Definition CH_BAR : Z := 124.    (* '|' *)
Definition CH_NL : Z := 10.      (* '\n' *)

(** [for (int i = ...; p != 0; i--) { s[i] = '0' + (p % 10); p /= 10; }],
    the loop that ends [intToStringFixed] (from [i = 3]) and
    [priceToStringFixed] (from [i = 2]); [p] is a [u32]. *)
Fixpoint digitsDown (fuel : nat) (i p s : Z) (b : buffer) : outcome buffer :=
  if p =? 0 then Ok b
  else
    match fuel with
    | O => Fault OutOfFuel
    | S fuel' => digitsDown fuel' (i - 1) (p / 10) s (store b (s + i) (CH_0 + p mod 10))
    end.

(** [void intToStringFixed(u32 p, char* s)] *)
Definition intToStringFixed (p s : Z) (b : buffer) : outcome buffer :=
  let b1 := store b (s + 3) CH_0 in
  if p =? 0 then Ok b1
  else if 9999 <? p then
    Ok (store (store (store (store b1 s CH_9) (s + 1) CH_9) (s + 2) CH_9) (s + 3) CH_9)
  else digitsDown 10 3 p s b1.

(** [while (p / x >= 10) x *= 10;] with [x] a [u32] and [p] converted to
    [unsigned] for the division. *)
Fixpoint powerLoop (fuel : nat) (p x : Z) : outcome Z :=
  if 10 <=? p / x then
    match fuel with
    | O => Fault OutOfFuel
    | S fuel' => powerLoop fuel' p (u32 (x * 10))
    end
  else Ok x.

(** [while (x > 0) { s[i++] = '0' + ((p / x) % 10); x /= 10; }] *)
Fixpoint writeDigits (fuel : nat) (p x s i : Z) (b : buffer) : outcome (buffer * Z) :=
  if 0 <? x then
    match fuel with
    | O => Fault OutOfFuel
    | S fuel' =>
        writeDigits fuel' p (x / 10) s (i + 1) (store b (s + i) (CH_0 + (p / x) mod 10))
    end
  else Ok (b, i).

(** [if (p < 0) { p *= -1; s[0] = '-'; s++; }]: the sign of [intToString]
    and of [priceToString].  The product is taken to wrap around for
    [INT_MIN], the one value for which C leaves it undefined. *)
Definition writeSign (p s : Z) (b : buffer) : Z * Z * buffer :=
  if p <? 0 then (i32 (p * -1), s + 1, store b s CH_MINUS) else (p, s, b).

(** [char* intToString(int p, char* s)]: the buffer and the address behind
    the last character written. *)
Definition intToString (p s : Z) (b : buffer) : outcome (buffer * Z) :=
  if p =? 0 then Ok (store b s CH_0, s + 1)
  else
    let '(p1, s1, b1) := writeSign p s b in
    x <- powerLoop 10 (u32 p1) 1 ;;
    '(b2, i) <- writeDigits 10 (u32 p1) x s1 0 b1 ;;
    Ok (b2, s1 + i).

(** [void priceToStringFixed(u32 p, char* s)] *)
Definition priceToStringFixed (p s : Z) (b : buffer) : outcome buffer :=
  let b1 := store (store (store (store b (s + 2) CH_0) (s + 3) CH_DOT) (s + 4) CH_0)
                  (s + 5) CH_0 in
  if p =? 0 then Ok b1
  else if 99999 <? p then
    Ok (store (store (store (store (store b1 s CH_9) (s + 1) CH_9) (s + 3) CH_9)
                     (s + 4) CH_9) (s + 5) CH_9)
  else
    let b2 := store b1 (s + 5) (CH_0 + p mod 10) in
    let p1 := p / 10 in
    let b3 := store b2 (s + 4) (CH_0 + p1 mod 10) in
    let p2 := p1 / 10 in
    digitsDown 10 2 p2 s b3.

(** [char* priceToString(int p, char* s)]; the divisions are those of
    [int], which round towards zero. *)
Definition priceToString (p s : Z) (b : buffer) : outcome (buffer * Z) :=
  let '(p1, s0, b0) := writeSign p s b in
  '(b1, s1) <- intToString (Z.quot p1 100) s0 b0 ;;
  let b2 := store b1 s1 CH_DOT in
  let b3 := store b2 (s1 + 1) (CH_0 + Z.rem (Z.quot p1 10) 10) in
  let b4 := store b3 (s1 + 2) (CH_0 + Z.rem p1 10) in
  Ok (b4, s1 + 3).

(** ** A line of [printOrderBook] *)

Definition lineWidth : Z := 21.

(** [while (curr != NULL) { x += curr->size; c++; curr = curr->next; }] *)
Fixpoint levelVolume (fuel : nat) (m : memory) (curr : option nat) (x c : Z)
  : outcome (Z * Z) :=
  match curr with
  | None => Ok (x, c)
  | Some h =>
      match fuel with
      | O => Fault OutOfFuel
      | S fuel' =>
          levelVolume fuel' m (limitOrder.next (m h))
                      (u32 (x + limitOrder.size (m h))) (u32 (c + 1))
      end
  end.

(** [for (int j = 0; j < lineWidth; j++) s[i * lineWidth + j] = ' ';] *)
Fixpoint blankLine (n : nat) (a : Z) (b : buffer) : buffer :=
  match n with
  | O => b
  | S n' => blankLine n' (a + 1) (store b a CH_SPACE)
  end.

(** The body of the loop over the prices: the line [i] of the text is
    written for the price [p]. *)
Definition printLine (p i : Z) (s : state) (b : buffer) : outcome buffer :=
  curr <- readHead s p ;;
  '(x, _) <- levelVolume (poolSize s) (pool s) curr 0 0 ;;
  let a := i * lineWidth in
  let b1 := blankLine (Z.to_nat lineWidth) a b in
  let b2 := store (store (store b1 (a + 5) CH_BAR) (a + 14) CH_BAR) (a + 20) CH_NL in
  b3 <- priceToStringFixed p (a + 7) b2 ;;
  b4 <- (if p <=? bid s then intToStringFixed x a b3 else Ok b3) ;;
  if ask s <=? p then intToStringFixed x (a + 16) b4 else Ok b4.

(** ** The lines of [printOrderBook] *)

Definition numOrderBookLines : Z := 19.

(** [for (u32 p = maxPrice; p >= minPrice; p--)] with the line
    [int i = maxPrice - p] for the price [p].  The loop runs at most twenty
    times before it ends or reads outside [limitOrderHead]. *)
Fixpoint printLines (fuel : nat) (p minPrice maxPrice : Z) (s : state) (b : buffer)
  : outcome buffer :=
  if minPrice <=? p then
    match fuel with
    | O => Fault OutOfFuel
    | S fuel' =>
        b1 <- printLine p (i32 (u32 (maxPrice - p))) s b ;;
        printLines fuel' (u32 (p - 1)) minPrice maxPrice s b1
    end
  else Ok b.

(** The part of [printOrderBook] that writes the book: the window of
    [numOrderBookLines] prices around the middle of the bid and the ask,
    the highest price first, and the end of the text. *)
Definition printBook (s : state) (b : buffer) : outcome buffer :=
  let numLinesAbovePrice := Z.quot numOrderBookLines 2 in
  let numLinesBelowPrice := numOrderBookLines - 1 - numLinesAbovePrice in
  let price := u32 (bid s + ask s) / 2 in
  let minPrice := u32 (price - numLinesBelowPrice) in
  let maxPrice := u32 (price + numLinesAbovePrice) in
  b1 <- printLines 20 maxPrice minPrice maxPrice s b ;;
  Ok (store b1 (numOrderBookLines * lineWidth) 0).
(** ** [mainCycle] *)

(** [for (u32 p = 0; p < NUM_PRICES; p++) updateLimitOrders(p, targetTime);] *)
Fixpoint sweepFrom (n : nat) (p t : Z) (s : state) : outcome state :=
  match n with
  | O => Ok s
  | S n' => s1 <- updateLimitOrders p t s ;; sweepFrom n' (p + 1) t s1
  end.

Definition sweepAll (t : Z) (s : state) : outcome state :=
  sweepFrom (Z.to_nat NUM_PRICES) 0 t s.

(** The backspace key: every tracked order gets expiration time 0 and the
    list of tracked orders is emptied. *)
Definition withdrawAll (s : state) : state :=
  with_user []
    (with_pool
       (fold_left (fun m h => upd m h (limitOrder.with_expirationTime 0 (m h)))
                  (userLimitOrders s) (pool s))
       s).

(** What one synthetic order draws: [rd() < marketOrderProbability],
    [random() % 2], and the results of the calls of [rl] (values of type
    [u64]) for the distance, the size, the lifespan and the time to the next
    order. *)
Record draws : Type := mkDraws {
  isMarket : bool;
  isSell : bool;
  distance : Z;
  orderSize : Z;
  lifespan : Z;
  delta : Z
}.

(** What one frame reads: the keys found by the [_kbhit] loop, and the four
    sizes [userMarketBuySize], ..., which the editing keys set between
    frames. *)
Record keys : Type := mkKeys {
  buyMarket : bool;
  sellMarket : bool;
  buyLimit : bool;
  sellLimit : bool;
  backspace : bool;
  userMarketBuySize : Z;
  userMarketSellSize : Z;
  userLimitBuySize : Z;
  userLimitSellSize : Z
}.

(** The locals of [mainCycle] next to the globals. *)
Record sim : Type := mkSim {
  eng : state;
  nextOrderCreation : Z;
  targetTime : Z
}.

(** The branch [nextOrderCreation < targetTime]: one synthetic order. *)
Definition orderCreation (d : draws) (now : Z) (s : state) : outcome state :=
  if isMarket d then
    let size := u32 (orderSize d) in
    if isSell d
    then '(s', _) <- marketSell size now s ;; Ok s'
    else '(s', _) <- marketBuy size now s ;; Ok s'
  else
    if isSell d then
      (* Create a sell limit order above the bid. *)
      let p := u32 (bid s + distance d) in
      s1 <- addLimitOrder p (u32 (orderSize d)) (u64 (now + lifespan d)) false s ;;
      Ok (if p <? ask s1 then with_ask p s1 else s1)
    else
      (* Create a buy limit order below the ask. *)
      let p := u32 (ask s - distance d) in
      s1 <- addLimitOrder p (u32 (orderSize d)) (u64 (now + lifespan d)) false s ;;
      Ok (if bid s1 <? p then with_bid p s1 else s1).

(** The user's part of a frame.  In [balance -= marketBuy(...)] the ledger is
    read after the call. *)
Definition userOrders (k : keys) (now : Z) (s : state) : outcome state :=
  s1 <- (if buyMarket k then
           s' <- (if realisticUserMarketOrders
                  then '(s', o) <- marketBuy (userMarketBuySize k) now s ;;
                       Ok (with_ledger (i32 (balance s' - o)) (sharesOpen s') s')
                  else Ok (with_ledger (i32 (balance s - u32 (userMarketBuySize k * ask s)))
                                       (sharesOpen s) s)) ;;
           Ok (with_ledger (balance s') (i32 (sharesOpen s' + userMarketBuySize k)) s')
         else Ok s) ;;
  s2 <- (if sellMarket k then
           s' <- (if realisticUserMarketOrders
                  then '(s', o) <- marketSell (userMarketSellSize k) now s1 ;;
                       Ok (with_ledger (i32 (balance s' + o)) (sharesOpen s') s')
                  else Ok (with_ledger (i32 (balance s1 + u32 (userMarketSellSize k * bid s1)))
                                       (sharesOpen s1) s1)) ;;
           Ok (with_ledger (balance s') (i32 (sharesOpen s' - userMarketSellSize k)) s')
         else Ok s1) ;;
  s3 <- (if (numUserLimitOrders s2 <? MAX_NUM_USER_LIMIT_ORDERS)%nat then
           if buyLimit k then addLimitOrder (bid s2) (userLimitBuySize k) ULLONG_MAX true s2
           else if sellLimit k then addLimitOrder (ask s2) (userLimitSellSize k) ULLONG_MAX true s2
           else Ok s2
         else Ok s2) ;;
  Ok (if backspace k then withdrawAll s3 else s3).

(** The array [char s[3000]] of [printOrderBook] at its declaration; the
    lines of the book are written over it. *)
Definition screen : buffer := fun _ => 0.

(** The branch of a frame: sweep every price, refresh the bid and the ask,
    print the book, then serve the user.  [printOrderBook] changes no
    global: of its lines of the book, written into a local array and
    printed, the frame keeps only whether they could be written.  What
    [printOrderBook] prints below the book (the ledger, the user's orders
    and the menu) reads [balance], [sharesOpen], the sizes of the editing
    keys and the records [userLimitOrders[i]] for [i < numUserLimitOrders],
    and no other array. *)
Definition frame (k : keys) (now : Z) (s : state) : outcome state :=
  s1 <- sweepAll now s ;;
  s2 <- updateBidAndAsk s1 ;;
  text <- printBook s2 screen ;;
  userOrders k now s2.

(** One round of [while (1)]. *)
Definition mainCycleStep (d : draws) (k : keys) (x : sim) : outcome sim :=
  if nextOrderCreation x <? targetTime x then
    s' <- orderCreation d (nextOrderCreation x) (eng x) ;;
    Ok (mkSim s' (u64 (nextOrderCreation x + delta d)) (targetTime x))
  else
    s' <- frame k (targetTime x) (eng x) ;;
    Ok (mkSim s' (nextOrderCreation x) (u64 (targetTime x + frameLengthNS))).

(** ** [setupMarket] *)

(** [for (int k = 0; k < 10; k++) addLimitOrder(p, averageMarketOrderSize,
    startingTime + rl(...), 0);] where [life i] is the [i]-th lifespan drawn
    by [setupMarket]. *)
Fixpoint addTen (n : nat) (p startingTime : Z) (life : nat -> Z) (i : nat) (s : state)
  : outcome state :=
  match n with
  | O => Ok s
  | S n' =>
      s1 <- addLimitOrder p averageMarketOrderSize (u64 (startingTime + life i)) false s ;;
      addTen n' p startingTime life (S i) s1
  end.

(** [for (u32 p = bid; p >= bid - 10; p--)] *)
Fixpoint setupBuys (fuel : nat) (p : Z) (startingTime : Z) (life : nat -> Z) (i : nat)
         (s : state) : outcome state :=
  if u32 (bid s - 10) <=? p then
    match fuel with
    | O => Fault OutOfFuel
    | S fuel' =>
        s1 <- addTen 10 p startingTime life i s ;;
        setupBuys fuel' (u32 (p - 1)) startingTime life (i + 10)%nat s1
    end
  else Ok s.

(** [for (u32 p = ask; p <= ask + 10; p++)] *)
Fixpoint setupSells (fuel : nat) (p : Z) (startingTime : Z) (life : nat -> Z) (i : nat)
         (s : state) : outcome state :=
  if p <=? u32 (ask s + 10) then
    match fuel with
    | O => Fault OutOfFuel
    | S fuel' =>
        s1 <- addTen 10 p startingTime life i s ;;
        setupSells fuel' (u32 (p + 1)) startingTime life (i + 10)%nat s1
    end
  else Ok s.

(** [b] and [spread] are the two values computed from [rd()]; both loops run
    eleven times when nothing wraps around. *)
Definition setupMarket (b spread startingTime : Z) (life : nat -> Z) (s : state)
  : outcome state :=
  let s0 := with_ask (u32 (b + spread)) (with_bid b s) in
  s1 <- setupBuys 11 (bid s0) startingTime life 0%nat s0 ;;
  setupSells 11 (ask s1) startingTime life 110%nat s1.

(** [main]: [setup], [setupMarket], then [mainCycle] from [startingTime]. *)
Definition start (n : nat) (stackOrder : bool) (b spread startingTime : Z)
           (life : nat -> Z) : outcome sim :=
  s <- setupMarket b spread startingTime life (setup n stackOrder) ;;
  Ok (mkSim s startingTime startingTime).


(** ** The editing keys of [mainCycle] *)

Module Editor.
(** The globals that the editing keys read and write; the four sizes are
    those that a frame finds in [keys]. *)
Record t : Type := mk {
  userEditing : bool;
  userEditingNumber : Z;
  userSelected : Z;
  userMarketBuySize : Z;
  userMarketSellSize : Z;
  userLimitBuySize : Z;
  userLimitSellSize : Z
}.

(** The initialisers of [main.c]. *)
Definition initial : t := mk false 0 0 100 100 100 100.

(** What the [_kbhit] loop of one frame has found: [number[0..9]], TAB and
    ENTER. *)
Record input : Type := mkInput {
  number : Z -> bool;
  tab : bool;
  enter : bool
}.

Definition with_number (n : Z) (e : t) : t :=
  mk (userEditing e) n (userSelected e) (userMarketBuySize e) (userMarketSellSize e)
     (userLimitBuySize e) (userLimitSellSize e).
Definition with_selected (i : Z) (e : t) : t :=
  mk (userEditing e) (userEditingNumber e) i (userMarketBuySize e) (userMarketSellSize e)
     (userLimitBuySize e) (userLimitSellSize e).
Definition with_editing (on : bool) (e : t) : t :=
  mk on (userEditingNumber e) (userSelected e) (userMarketBuySize e) (userMarketSellSize e)
     (userLimitBuySize e) (userLimitSellSize e).

(** [for (int i = 0; i < 10; i++)
       if (number[i] && userEditingNumber < 100000000) {
         userEditingNumber *= 10; userEditingNumber += i; }] *)
Fixpoint typeDigits (n : nat) (i : Z) (number : Z -> bool) (x : Z) : Z :=
  match n with
  | O => x
  | S n' =>
      typeDigits n' (i + 1) number
        (if number i && (x <? 100000000) then u32 (u32 (x * 10) + i) else x)
  end.

(** [userEditing = 0; switch (userSelected) { case 0: ...; case 4: ... }] *)
Definition commit (e : t) : t :=
  let n := userEditingNumber e in
  let i := userSelected e in
  if i =? 0 then mk false n i n n n n
  else if i =? 1 then mk false n i n (userMarketSellSize e) (userLimitBuySize e) (userLimitSellSize e)
  else if i =? 2 then mk false n i (userMarketBuySize e) n (userLimitBuySize e) (userLimitSellSize e)
  else if i =? 3 then mk false n i (userMarketBuySize e) (userMarketSellSize e) n (userLimitSellSize e)
  else if i =? 4 then mk false n i (userMarketBuySize e) (userMarketSellSize e) (userLimitBuySize e) n
  else with_editing false e.

(** [userSelected = (userSelected + 1) % 5;] *)
Definition nextSelected (e : t) : t :=
  with_selected (Z.rem (userSelected e + 1) 5) e.

(** The editing part of a frame. *)
Definition editKeys (k : input) (e : t) : t :=
  if userEditing e then
    let e1 := with_number (typeDigits 10 0 (number k) (userEditingNumber e)) e in
    let e2 := if tab k || enter k then commit e1 else e1 in
    if tab k then nextSelected e2 else e2
  else
    let e1 := if tab k then nextSelected e else e in
    if enter k then with_number 0 (with_editing true e1) else e1.

(** The editing parts of successive frames. *)
Definition run (ks : list input) (e : t) : t :=
  fold_left (fun e k => editKeys k e) ks e.

(** The sizes that a frame reads, next to the keys of the orders. *)
Definition frameKeys (buyMarket sellMarket buyLimit sellLimit backspace : bool) (e : t)
  : keys :=
  mkKeys buyMarket sellMarket buyLimit sellLimit backspace
         (userMarketBuySize e) (userMarketSellSize e)
         (userLimitBuySize e) (userLimitSellSize e).
End Editor.

(** ** [setSeed] and [random] *)

Module Rng.
(** [u64 randState; u64 randPrev;] *)
Record t : Type := mk {
  randState : Z;
  randPrev : Z
}.
End Rng.

Definition setSeed (seed : Z) : Rng.t := Rng.mk seed 0.

(** The generator after the call, and the value returned. *)
Definition random (r : Rng.t) : Rng.t * Z :=
  let prev := u64 (Rng.randState r * 0x388a2b457eb2cf89) in
  let st := u64 (prev + Z.shiftr prev 1 + 0x2247aa1637b8f9d1) in
  (Rng.mk st prev, u64 (st * 0xc6ae4de299a7813d)).

(** The value returned by the call number [n] (from 0) of [random]. *)
Fixpoint draw (n : nat) (r : Rng.t) : Z :=
  match n with
  | O => snd (random r)
  | S n' => draw n' (fst (random r))
  end.
(** * Specification vocabulary *)

(** ** Lists of resting orders *)

(** [chain m x l]: following [next] from the pointer [x] in the memory [m]
    meets the records [l], in this order, and then [NULL]. *)
Inductive chain (m : memory) : option nat -> list nat -> Prop :=
| chain_nil : chain m None []
| chain_cons : forall h l,
    chain m (limitOrder.next (m h)) l -> chain m (Some h) (h :: l).

(** [level s p l]: the orders resting at price [p] are [l], from the head of
    the list to its tail. *)
Definition level (s : state) (p : Z) (l : list nat) : Prop :=
  chain (pool s) (limitOrderHead s p) l.

(** [reaches m x h]: the record [h] is met on the way from [x]. *)
Inductive reaches (m : memory) : option nat -> nat -> Prop :=
| reaches_here : forall h, reaches m (Some h) h
| reaches_next : forall c h,
    reaches m (limitOrder.next (m c)) h -> reaches m (Some c) h.

Definition restsAt (s : state) (p : Z) (h : nat) : Prop :=
  reaches (pool s) (limitOrderHead s p) h.

Definition onFreeList (s : state) (h : nat) : Prop :=
  In h (freeLimitOrders s).

(** A slot is free and rests nowhere, or it is not free and rests at exactly
    one price. *)
Definition slotAccounted (s : state) (h : nat) : Prop :=
  (onFreeList s h /\ forall p, ~ restsAt s p h) \/
  (~ onFreeList s h /\ exists p, restsAt s p h /\ forall q, restsAt s q h -> q = p).

(** The invariant of the pool: [B p] lists the orders resting at [p]. *)
Record rep (s : state) (B : Z -> list nat) : Prop := mkRep {
  rep_chain : forall p, level s p (B p);
  rep_free : NoDup (freeLimitOrders s);
  rep_sep : forall p h, In h (B p) -> ~ In h (freeLimitOrders s);
  rep_levels : forall p q h, In h (B p) -> In h (B q) -> p = q;
  rep_slots : forall h,
    (h < poolSize s)%nat <-> (In h (freeLimitOrders s) \/ exists p, In h (B p))
}.

(** The orders resting at price [p], from the head of the list to its tail,
    read off the state: at most [poolSize] records are followed. *)
Fixpoint walk (fuel : nat) (m : memory) (x : option nat) : list nat :=
  match x, fuel with
  | Some h, S fuel' => h :: walk fuel' m (limitOrder.next (m h))
  | _, _ => []
  end.

Definition ordersAt (s : state) (p : Z) : list nat :=
  walk (poolSize s) (pool s) (limitOrderHead s p).

(** The values of a 32-bit [int]. *)
Definition int32 (z : Z) : Prop := - 2 ^ 31 <= z < 2 ^ 31.

(** Well-formed states: the pool and the book fit together and the ledger
    holds values of type [int]. *)
Definition wf (s : state) : Prop :=
  rep s (ordersAt s) /\ int32 (balance s) /\ int32 (sharesOpen s).

(** States built from [setup] by the operations of the engine, in any order
    and with any arguments of the right C type. *)
Inductive built : state -> Prop :=
| built_setup : forall n stackOrder, built (setup n stackOrder)
| built_add : forall s p size e u s',
    built s -> addLimitOrder p size e u s = Ok s' -> built s'
| built_sweep : forall s p t s',
    built s -> updateLimitOrders p t s = Ok s' -> built s'
| built_fill : forall s p size o sell s' size' o',
    built s -> 0 <= o < 2 ^ 32 ->
    fillOrders p size o sell s = Ok (s', size', o') -> built s'
| built_withdraw : forall s, built s -> built (withdrawAll s)
| built_bid : forall s b, built s -> built (with_bid b s)
| built_ask : forall s a, built s -> built (with_ask a s)
| built_ledger : forall s b q,
    built s -> int32 b -> int32 q -> built (with_ledger b q s).

(** An order whose expiration time has come at time [t]. *)
Definition expired (m : memory) (t : Z) (h : nat) : bool :=
  limitOrder.expirationTime (m h) <=? t.

Definition alive (m : memory) (t : Z) (h : nat) : bool := negb (expired m t h).

(** [m'] is [m] up to the [next] fields of the records of [l]. *)
Definition relinked (l : list nat) (m m' : memory) : Prop :=
  forall h,
    m' h = limitOrder.with_next (limitOrder.next (m' h)) (m h) /\
    (~ In h l -> m' h = m h).

(** The globals outside the pool and the book are the same in both states. *)
Definition sameRest (s s' : state) : Prop :=
  poolSize s' = poolSize s /\ bid s' = bid s /\ ask s' = ask s /\
  userLimitOrders s' = userLimitOrders s /\ balance s' = balance s /\
  sharesOpen s' = sharesOpen s /\ fillTiesInStackOrder s' = fillTiesInStackOrder s.

(** There is room on the free stack for the records of [l]. *)
Definition room (s : state) (l : list nat) : Prop :=
  (length (freeLimitOrders s) + length l <= poolSize s)%nat.

(** ** What a request takes from one price *)

(** The portions that a request of [size] shares takes from the orders [l],
    head first: each order with the quantity taken from it.  An order no
    larger than what is still requested is taken whole; the first larger
    one is taken in part and ends the scan. *)
Fixpoint portions (m : memory) (l : list nat) (size : Z) : list (nat * Z) :=
  match l with
  | [] => []
  | h :: l' =>
      let sz := limitOrder.size (m h) in
      if sz <=? size then (h, sz) :: portions m l' (size - sz) else [(h, size)]
  end.

(** The orders taken whole. *)
Fixpoint filled (m : memory) (l : list nat) (size : Z) : list nat :=
  match l with
  | [] => []
  | h :: l' =>
      let sz := limitOrder.size (m h) in
      if sz <=? size then h :: filled m l' (size - sz) else []
  end.

(** The orders that stay; the first of them is the one taken in part. *)
Fixpoint unfilled (m : memory) (l : list nat) (size : Z) : list nat :=
  match l with
  | [] => []
  | h :: l' =>
      let sz := limitOrder.size (m h) in
      if sz <=? size then unfilled m l' (size - sz) else l
  end.

(** What is still requested behind the orders taken whole. *)
Fixpoint remaining (m : memory) (l : list nat) (size : Z) : Z :=
  match l with
  | [] => size
  | h :: l' =>
      let sz := limitOrder.size (m h) in
      if sz <=? size then remaining m l' (size - sz) else size
  end.

(** The memory after the fill: the order taken in part is smaller. *)
Definition afterFill (m : memory) (l : list nat) (size : Z) : memory :=
  match unfilled m l size with
  | [] => m
  | h :: _ =>
      upd m h (limitOrder.with_size (limitOrder.size (m h) - remaining m l size) (m h))
  end.

Definition quantity (F : list (nat * Z)) : Z :=
  fold_right (fun x a => snd x + a) 0 F.

(** The portions taken from orders of the user. *)
Definition userPortions (m : memory) (F : list (nat * Z)) : list (nat * Z) :=
  filter (fun x => limitOrder.user (m (fst x))) F.

Definition userOwned (m : memory) (l : list nat) : list nat :=
  filter (fun h => limitOrder.user (m h)) l.

Definition deleteUserOrders (hs : list nat) (u : list nat) : list nat :=
  fold_left (fun u h => deleteUserOrder h u) hs u.

(** The ledger after fills of [q] shares of the user's orders at price [p]
    by a market order that sells ([sell = true]) or buys. *)
Definition ledgerBalance (sell : bool) (b q p : Z) : Z :=
  if sell then i32 (b - q * p) else i32 (b + q * p).
Definition ledgerShares (sell : bool) (n q : Z) : Z :=
  if sell then i32 (n + q) else i32 (n - q).

(** The orders of a price after the record [lo] has joined them. *)
Definition inserted (stackOrder : bool) (lo : nat) (l : list nat) : list nat :=
  if stackOrder then lo :: l else l ++ [lo].

(** ** What a market order takes from the book *)

(** The prices a market order scans: from the bid down to 0 when it sells,
    from the ask up to [NUM_PRICES - 1] when it buys. *)
Fixpoint pricesStep (dir : Z) (n : nat) (p : Z) : list Z :=
  match n with
  | O => []
  | S n' => p :: pricesStep dir n' (p + dir)
  end.

Definition pricesFrom (sell : bool) (p : Z) : list Z :=
  if sell
  then pricesStep (-1) (Z.to_nat (p + 1)) p
  else pricesStep 1 (Z.to_nat (NUM_PRICES - p)) p.

(** The portions that a market order of [size] shares, arriving at time [t],
    takes along the prices [ps]: at each price, from the orders that have
    not expired, head first; each portion is a price, an order and a
    quantity. *)
Fixpoint bookPortions (s : state) (t : Z) (ps : list Z) (size : Z)
  : list (Z * nat * Z) :=
  match ps with
  | [] => []
  | p :: ps' =>
      if 0 <? size then
        let F := portions (pool s) (filter (alive (pool s) t) (ordersAt s p)) size in
        map (fun x => (p, fst x, snd x)) F ++ bookPortions s t ps' (size - quantity F)
      else []
  end.

(** The sum of price times quantity, and the sum of the quantities. *)
Definition notional (P : list (Z * nat * Z)) : Z :=
  fold_right (fun x a => fst (fst x) * snd x + a) 0 P.

Definition volume (P : list (Z * nat * Z)) : Z :=
  fold_right (fun x a => snd x + a) 0 P.

(** The two loops of [marketSell] and [marketBuy] written as one, for the
    proofs that hold for both. *)
Fixpoint marketLoop (sell : bool) (fuel : nat) (p size t o : Z) (s : state)
  : outcome (state * Z) :=
  if 0 <? size then
    match fuel with
    | O => Fault OutOfFuel
    | S fuel' =>
        if (if sell then p =? UINT_MAX else NUM_PRICES <=? p)
        then Fault (if sell then BuySideExhausted else SellSideExhausted) else
        hd <- readHead s p ;;
        match hd with
        | None => marketLoop sell fuel' (u32 (if sell then p - 1 else p + 1)) size t o s
        | Some _ =>
            s1 <- updateLimitOrders p t (if sell then with_bid p s else with_ask p s) ;;
            '(s2, size', o') <- fillOrders p size o sell s1 ;;
            marketLoop sell fuel' (u32 (if sell then p - 1 else p + 1)) size' t o' s2
        end
    end
  else Ok (s, o).

(** Two states that differ at most in the bid and the ask. *)
Definition sameButQuotes (s s' : state) : Prop :=
  poolSize s' = poolSize s /\ pool s' = pool s /\
  freeLimitOrders s' = freeLimitOrders s /\ limitOrderHead s' = limitOrderHead s /\
  userLimitOrders s' = userLimitOrders s /\ balance s' = balance s /\
  sharesOpen s' = sharesOpen s /\ fillTiesInStackOrder s' = fillTiesInStackOrder s.

(** The quote on the side that a market order scans, and the prices from
    [z] to [v] in the direction of the scan. *)
Definition quote (sell : bool) (s : state) : Z := if sell then bid s else ask s.

Definition scanned (sell : bool) (z v q : Z) : Prop :=
  if sell then v <= q <= z else z <= q <= v.

(** ** Runs of [mainCycle] *)

(** What the model assumes of the random draws: the distance returned by
    [rl] is at least 1 and small enough for [bid + distance] not to wrap
    around (with the average 3.0 of [main.c] it is at most 134). *)
Definition validDraws (d : draws) : Prop :=
  1 <= distance d <= 2 ^ 32 - NUM_PRICES.

(** The four sizes of the user are values of type [u32]. *)
Definition validKeys (k : keys) : Prop :=
  0 <= userMarketBuySize k < 2 ^ 32 /\ 0 <= userMarketSellSize k < 2 ^ 32 /\
  0 <= userLimitBuySize k < 2 ^ 32 /\ 0 <= userLimitSellSize k < 2 ^ 32.

(** The states of the engine after [setup], [setupMarket] and any number of
    rounds of [mainCycle]. *)
Inductive reachable : sim -> Prop :=
| reachable_start : forall n stackOrder b spread t0 life x,
    initialBidMin <= b <= initialBidMax + 1 ->
    initialSpreadMin <= spread <= initialSpreadMax + 1 ->
    start n stackOrder b spread t0 life = Ok x ->
    reachable x
| reachable_step : forall d k x x',
    reachable x -> validDraws d -> validKeys k ->
    mainCycleStep d k x = Ok x' ->
    reachable x'.

(** The bid is below the ask and both are prices of the book. *)
Definition quotesApart (s : state) : Prop :=
  0 <= bid s /\ bid s < ask s /\ ask s < NUM_PRICES.


(** ** Reading text *)

(** The [n] characters from the address [s] on. *)
Fixpoint chars (b : buffer) (s : Z) (n : nat) : list Z :=
  match n with
  | O => []
  | S n' => b s :: chars b (s + 1) n'
  end.

Definition isDigit (c : Z) : Prop := CH_0 <= c <= CH_9.

(** The number that the digits [l] denote behind the digits of [acc]. *)
Fixpoint readDigits (l : list Z) (acc : Z) : Z :=
  match l with
  | [] => acc
  | c :: l' => readDigits l' (acc * 10 + (c - CH_0))
  end.

(** [l] is the decimal numeral of [v]: digits only, at least one, no
    leading zero except for the numeral of 0. *)
Definition decimal (v : Z) (l : list Z) : Prop :=
  l <> [] /\ Forall isDigit l /\ (hd CH_0 l = CH_0 -> l = [CH_0]) /\
  readDigits l 0 = v.

(** The numeral of an [int]: a minus sign before the numeral of the
    absolute value of a negative number. *)
Definition signed (v : Z) (l : list Z) : Prop :=
  exists digits,
    decimal (Z.abs v) digits /\
    l = (if v <? 0 then [CH_MINUS] else []) ++ digits.

(** A price in cents written as an amount: the numeral of the units, a
    point and the two digits of the cents. *)
Definition amount (v : Z) (l : list Z) : Prop :=
  exists units c1 c0,
    decimal (v / 100) units /\ isDigit c1 /\ isDigit c0 /\
    readDigits [c1; c0] 0 = v mod 100 /\
    l = units ++ [CH_DOT; c1; c0].

(** [l] is [text] behind blanks, on [n] characters. *)
Definition rightAligned (n : nat) (text l : list Z) : Prop :=
  exists k, l = repeat CH_SPACE k ++ text /\ length l = n.

(** The digits of [p] from the power [10 ^ k] down to the units. *)
Fixpoint digitsFrom (k : nat) (p : Z) : list Z :=
  (CH_0 + (p / 10 ^ Z.of_nat k) mod 10) ::
  match k with
  | O => []
  | S k' => digitsFrom k' p
  end.

(** ** More vocabulary *)

(** The shares resting at a price: the sum of the sizes of its orders. *)
Definition sizeOf (m : memory) (l : list nat) : Z :=
  fold_right (fun h a => limitOrder.size (m h) + a) 0 l.

Definition sharesAt (s : state) (p : Z) : Z := sizeOf (pool s) (ordersAt s p).

(** The portions taken from orders of the user, along the prices. *)
Definition userBook (m : memory) (P : list (Z * nat * Z)) : list (Z * nat * Z) :=
  filter (fun x => limitOrder.user (m (snd (fst x)))) P.

(** What the editing keys keep: the number and the sizes stay below
    [10 ^ 9], the selection is one of the five lines of the menu. *)
Definition editorOk (e : Editor.t) : Prop :=
  0 <= Editor.userEditingNumber e < 1000000000 /\
  0 <= Editor.userSelected e < 5 /\
  0 <= Editor.userMarketBuySize e < 1000000000 /\
  0 <= Editor.userMarketSellSize e < 1000000000 /\
  0 <= Editor.userLimitBuySize e < 1000000000 /\
  0 <= Editor.userLimitSellSize e < 1000000000.

(** The frame in which ENTER alone is pressed, and the frame in which the
    digit [d] alone is pressed. *)
Definition pressEnter : Editor.input := Editor.mkInput (fun _ => false) false true.
Definition pressDigit (d : Z) : Editor.input :=
  Editor.mkInput (fun i => i =? d) false false.

(** The number typed digit after digit. *)
Definition typedNumber (ds : list Z) : Z := fold_left (fun x d => x * 10 + d) ds 0.

(** A field of a line of the book: the number [v], or 9999 in the place of
    a larger one, at the right of four characters when it is [shown], four
    blanks otherwise. *)
Definition volumeField (shown : bool) (v : Z) (l : list Z) : Prop :=
  if shown
  then exists digits, decimal (Z.min v 9999) digits /\ rightAligned 4 digits l
  else l = repeat CH_SPACE 4.

(** The price [p], in cents, as an amount at the right of six characters. *)
Definition priceField (p : Z) (l : list Z) : Prop :=
  exists text, amount p text /\ rightAligned 6 text l.

(** The shares that a market order arriving at time [t] finds along the
    prices [ps]: those of the orders that have not expired. *)
Definition available (s : state) (t : Z) (ps : list Z) : Z :=
  fold_right
    (fun p a => sizeOf (pool s) (filter (alive (pool s) t) (ordersAt s p)) + a) 0 ps.

(** Every resting order has a size that is not negative. *)
Definition sizesOk (s : state) : Prop :=
  forall p h, In h (ordersAt s p) -> 0 <= limitOrder.size (pool s h).

(** Every resting order is one of those that [setupMarket] creates: it has
    the size [averageMarketOrderSize], it is not the user's, and it carries
    the price of its list. *)
Definition setupOrders (s : state) : Prop :=
  forall q h, In h (ordersAt s q) ->
    limitOrder.size (pool s h) = averageMarketOrderSize /\
    limitOrder.user (pool s h) = false /\
    limitOrder.p (pool s h) = q.

(** The faults with which [main.c] itself stops the program ([exit(1)]
    behind a message).  The two others stand for what C leaves undefined or
    open: an access outside an array, and a loop that does not end. *)
Definition stops (f : fault) : Prop :=
  f = PoolExhausted \/ f = BuySideExhausted \/ f = SellSideExhausted.

(** An outcome without such an access and such a loop. *)
Definition safe {A : Type} (x : outcome A) : Prop :=
  match x with
  | Ok _ => True
  | Fault f => stops f
  end.

(** The window of [printOrderBook], nine prices below and nine above the
    middle of the bid and the ask, lies between the prices 1 and
    [NUM_PRICES - 1]. *)
Definition windowInBook (s : state) : Prop :=
  10 <= (bid s + ask s) / 2 <= NUM_PRICES - 10.

(** The prices of the synthetic limit order of [d] stay in the book. *)
Definition placeable (d : draws) (s : state) : Prop :=
  isMarket d = false ->
  if isSell d then bid s + distance d < NUM_PRICES else distance d <= ask s.

(** The 21 characters of the line of the price [p]: the buy volume, the
    price and the sell volume between their bars, and the newline. *)
Definition lineShows (s : state) (p : Z) (l : list Z) : Prop :=
  exists buy price sell,
    l = buy ++ [CH_SPACE; CH_BAR; CH_SPACE] ++ price ++ [CH_SPACE; CH_BAR; CH_SPACE]
            ++ sell ++ [CH_NL] /\
    volumeField (p <=? bid s) (u32 (sharesAt s p)) buy /\
    priceField p price /\
    volumeField (ask s <=? p) (u32 (sharesAt s p)) sell.

(** Every record of the pool holds a size of type [u32]. *)
Definition sizesU32 (s : state) : Prop :=
  forall h, 0 <= limitOrder.size (pool s h) < 2 ^ 32.

(** No order rests at a price between the bid and the ask. *)
Definition spreadEmpty (s : state) : Prop :=
  forall q, bid s < q < ask s -> ordersAt s q = [].

(** ** The book after a market order *)

Definition priceOf (x : Z * nat * Z) : Z := fst (fst x).
Definition orderOf (x : Z * nat * Z) : nat := snd (fst x).

(** A portion that is the whole of its order. *)
Definition takenWhole (m : memory) (x : Z * nat * Z) : bool :=
  snd x =? limitOrder.size (m (orderOf x)).

(** The quantity that the portions [P] take from the order [h] without
    taking the whole of it. *)
Definition takenInPart (m : memory) (P : list (Z * nat * Z)) (h : nat) : Z :=
  volume (filter (fun x => Nat.eqb (orderOf x) h && negb (takenWhole m x)) P).

(** The shares that a market order of [size] shares still asks for when its
    scan of the prices [ps] arrives at the price [q]; 0 when the scan ends
    before [q]. *)
Fixpoint requestAt (s : state) (t : Z) (ps : list Z) (size : Z) (q : Z) : Z :=
  match ps with
  | [] => 0
  | p :: ps' =>
      if 0 <? size then
        if q =? p then size
        else requestAt s t ps'
               (size - quantity (portions (pool s) (filter (alive (pool s) t) (ordersAt s p))
                                          size)) q
      else 0
  end.

(** The orders resting at the price [q] after the market order: at a price
    that the scan reaches with shares still to take, the expired orders are
    gone and so are the orders taken whole, from the head of the list on;
    a price that the scan does not reach is as before. *)
Definition bookAfter (s : state) (t : Z) (ps : list Z) (size : Z) (q : Z) : list nat :=
  if 0 <? requestAt s t ps size q
  then unfilled (pool s) (filter (alive (pool s) t) (ordersAt s q)) (requestAt s t ps size q)
  else ordersAt s q.

(** The records that the market order releases, in the order of their
    release: price after price, the expired orders of the price and then
    its orders taken whole, each time from the head of the list on. *)
Fixpoint releasedAlong (s : state) (t : Z) (ps : list Z) (size : Z) : list nat :=
  match ps with
  | [] => []
  | p :: ps' =>
      if 0 <? size then
        let live := filter (alive (pool s) t) (ordersAt s p) in
        filter (expired (pool s) t) (ordersAt s p)
        ++ filled (pool s) live size
        ++ releasedAlong s t ps' (size - quantity (portions (pool s) live size))
      else []
  end.

(** At the prices [ps] the two states hold the same orders with the same
    sizes and expiration times. *)
Definition sameAt (s s' : state) (ps : list Z) : Prop :=
  forall q, In q ps ->
    ordersAt s' q = ordersAt s q /\
    forall h, In h (ordersAt s q) ->
      limitOrder.size (pool s' h) = limitOrder.size (pool s h) /\
      limitOrder.expirationTime (pool s' h) = limitOrder.expirationTime (pool s h).

(** ** Entries of the list of tracked orders *)

(** [l'] is [l] without its first entry [h]; [l] itself when [h] is not an
    entry. *)
Definition firstRemoved (h : nat) (l l' : list nat) : Prop :=
  (~ In h l /\ l' = l) \/
  (exists l1 l2, l = l1 ++ h :: l2 /\ ~ In h l1 /\ l' = l1 ++ l2).

(** [l'] is [l] after the first entries of the orders [hs] have been
    removed, one order after the other. *)
Inductive entriesRemoved : list nat -> list nat -> list nat -> Prop :=
| entriesRemoved_nil : forall l, entriesRemoved [] l l
| entriesRemoved_cons : forall h hs l l1 l',
    firstRemoved h l l1 -> entriesRemoved hs l1 l' -> entriesRemoved (h :: hs) l l'.
(** ** Example states *)

(** The state of an outcome; a fault gives the empty engine. *)
Definition force (x : outcome state) : state :=
  match x with
  | Ok s => s
  | Fault _ => setup 0 false
  end.

(** A pool of six records with bid 100 and ask 105, and no order yet. *)
Definition emptyBook (stackOrder : bool) : state :=
  with_ask 105 (with_bid 100 (setup 6 stackOrder)).

(** Three sell orders at 105 with expiration times 10, 50 and 20, then one
    buy order at 100. *)
Definition book1 : state := force (addLimitOrder 105 5 10 false (emptyBook false)).
Definition book2 : state := force (addLimitOrder 105 7 50 false book1).
Definition book3 : state := force (addLimitOrder 105 3 20 false book2).
Definition book4 : state := force (addLimitOrder 100 4 60 false book3).

(** The user's buy order of 30000000 shares at 100, alone in the book. *)
Definition largeUserBuy : state :=
  force (addLimitOrder 100 30000000 ULLONG_MAX true (emptyBook false)).

(** A buy order of a participant at 100 with the user's buy order of 10
    shares behind it. *)
Definition mixedBuys1 : state := force (addLimitOrder 100 4 60 false (emptyBook false)).
Definition mixedBuys : state := force (addLimitOrder 100 10 ULLONG_MAX true mixedBuys1).

(** The user's buy order of 10 shares at 100 with a buy order of 5 shares
    of a participant behind it. *)
Definition userFirst1 : state :=
  force (addLimitOrder 100 10 ULLONG_MAX true (emptyBook false)).
Definition userFirst : state := force (addLimitOrder 100 5 60 false userFirst1).

(** The user's sell order of 50000000 shares at 105, alone in the book. *)
Definition largeUserSell : state :=
  force (addLimitOrder 105 50000000 ULLONG_MAX true (emptyBook false)).


(** A run of [mainCycle]: the market is set up with bid 500 and ask 501 in
    a pool of 300 records, every lifespan drawn being 5000; the first round
    is a frame without keys, the second a market buy of 80 shares. *)
Definition forceSim (x : outcome sim) : sim :=
  match x with
  | Ok x => x
  | Fault _ => mkSim (setup 0 false) 0 0
  end.

Definition noKeys : keys := mkKeys false false false false false 100 100 100 100.
Definition buy80 : draws := mkDraws true false 1 80 1 1000.

Definition sim0 : sim := forceSim (start 300 false 500 1 1000 (fun _ => 5000)).
Definition sim1 : sim := forceSim (mainCycleStep buy80 noKeys sim0).
Definition sim2 : sim := forceSim (mainCycleStep buy80 noKeys sim1).

(** The scenario of the two buy orders at 100: the bid is 100 and the ask
    101; the user presses the key of a limit buy with size 10, then a
    participant's limit buy of 5 shares arrives one tick below the ask. *)
Definition quietBook (stackOrder : bool) : state :=
  with_ask 101 (with_bid 100 (setup 6 stackOrder)).

Definition userBuy10 : keys := mkKeys false false true false false 100 100 10 100.
Definition synBuy5 : draws := mkDraws false false 1 5 1000 1.

Definition twoBuys1 (stackOrder : bool) : state :=
  force (userOrders userBuy10 0 (quietBook stackOrder)).
Definition twoBuys (stackOrder : bool) : state :=
  force (orderCreation synBuy5 0 (twoBuys1 stackOrder)).

(** A participant's limit sell and limit buy, both two ticks from the
    opposite quote. *)
Definition synSell2 : draws := mkDraws false true 2 7 1000 1.
Definition synBuy2 : draws := mkDraws false false 2 7 1000 1.

(** The key of a limit buy pressed in [n] frames in a row. *)
Fixpoint pressLimitBuy (n : nat) (s : state) : state :=
  match n with
  | O => s
  | S n' => pressLimitBuy n' (force (userOrders userBuy10 0 s))
  end.

(** A book in which the user has 100 resting orders and 28 records are
    still free. *)
Definition fullBook : state :=
  pressLimitBuy 100 (with_ask 101 (with_bid 100 (setup 128 false))).


(** The key of a market buy of 10 shares, pressed alone. *)
Definition marketBuy10 : keys := mkKeys true false false false false 10 100 100 100.

(** A participant's limit buy drawn 200 ticks below the ask. *)
Definition synBuy200 : draws := mkDraws false false 200 7 1000 1.
(** * Basic facts *)

Lemma bind_Ok {A B : Type} (x : outcome A) (k : A -> outcome B) (r : B) :
  bind x k = Ok r -> exists a, x = Ok a /\ k a = Ok r.
Proof.
  destruct x as [a|f]; simpl; intros H; [eauto | discriminate].
Qed.

Ltac inv_bind H :=
  let a := fresh "a" in
  let Ha := fresh "Ha" in
  apply bind_Ok in H; destruct H as (a & Ha & H).

Lemma upd_same (m : memory) h o : upd m h o h = o.
Proof. unfold upd. now rewrite Nat.eqb_refl. Qed.

Lemma upd_other (m : memory) h o h' : h' <> h -> upd m h o h' = m h'.
Proof. unfold upd. intros N. apply Nat.eqb_neq in N. now rewrite N. Qed.

Lemma upd_head_same hd p v : upd_head hd p v p = v.
Proof. unfold upd_head. now rewrite Z.eqb_refl. Qed.

Lemma upd_head_other hd p v q : q <> p -> upd_head hd p v q = hd q.
Proof. unfold upd_head. intros N. apply Z.eqb_neq in N. now rewrite N. Qed.

Lemma inRange_iff p : inRange p = true <-> 0 <= p < NUM_PRICES.
Proof. unfold inRange. rewrite andb_true_iff, Z.leb_le, Z.ltb_lt. tauto. Qed.

Lemma readHead_Ok s p x : readHead s p = Ok x -> inRange p = true /\ x = limitOrderHead s p.
Proof. unfold readHead. destruct (inRange p); intros H; inversion H; auto. Qed.

Lemma writeHead_Ok p v s s' :
  writeHead p v s = Ok s' ->
  inRange p = true /\ s' = with_heads (upd_head (limitOrderHead s) p v) s.
Proof. unfold writeHead. destruct (inRange p); intros H; inversion H; auto. Qed.

Lemma release_Ok h s s' :
  release h s = Ok s' ->
  (numFreeLimitOrders s < poolSize s)%nat /\ s' = with_free (h :: freeLimitOrders s) s.
Proof.
  unfold release. destruct (Nat.ltb_spec (numFreeLimitOrders s) (poolSize s));
    intros H'; inversion H'; auto.
Qed.

(** ** Chains *)

Lemma chain_det m x l1 : chain m x l1 -> forall l2, chain m x l2 -> l1 = l2.
Proof.
  induction 1; intros l2 H2; inversion H2; subst; auto.
  f_equal. auto.
Qed.

Lemma chain_split m x l :
  chain m x l -> forall h, In h l ->
  exists l1 l2, l = l1 ++ h :: l2 /\ chain m (Some h) (h :: l2).
Proof.
  induction 1; intros h' Hin; [contradiction|].
  destruct Hin as [->|Hin].
  - exists [], l. split; [reflexivity | now constructor].
  - destruct (IHchain _ Hin) as (l1 & l2 & -> & Hc).
    exists (h :: l1), l2. split; [reflexivity | assumption].
Qed.

Lemma chain_NoDup m x l : chain m x l -> NoDup l.
Proof.
  induction 1; constructor; auto.
  intros Hin.
  destruct (chain_split _ _ _ H _ Hin) as (l1 & l2 & E & Hc).
  assert (E2 : h :: l2 = h :: l) by (eapply chain_det; [eassumption | now constructor]).
  inversion E2; subst l2.
  apply (f_equal (@length nat)) in E. rewrite length_app in E. simpl in E. lia.
Qed.

Lemma chain_frame m m' x l :
  chain m x l ->
  (forall h, In h l -> limitOrder.next (m' h) = limitOrder.next (m h)) ->
  chain m' x l.
Proof.
  induction 1; intros E; constructor.
  rewrite E by (left; reflexivity). apply IHchain.
  intros h' Hin. apply E. now right.
Qed.

Lemma chain_tail m h l : chain m (Some h) (h :: l) -> chain m (limitOrder.next (m h)) l.
Proof. intros H; inversion H; auto. Qed.

Lemma chain_Some_inv m h l : chain m (Some h) l -> exists l', l = h :: l' /\ chain m (limitOrder.next (m h)) l'.
Proof. intros H; inversion H; eauto. Qed.

Lemma chain_None_inv m l : chain m None l -> l = [].
Proof. intros H; inversion H; auto. Qed.

Lemma reaches_chain m x l : chain m x l -> forall h, reaches m x h <-> In h l.
Proof.
  induction 1; intros h'.
  - split; [intros R; inversion R | contradiction].
  - split.
    + intros R; inversion R; subst; [now left | right; now apply IHchain].
    + intros [->|Hin]; [constructor | apply reaches_next; now apply IHchain].
Qed.

Lemma chain_nil_inv m x : chain m x [] -> x = None.
Proof. intros H; inversion H; auto. Qed.

Lemma chain_cons_inv m x c l :
  chain m x (c :: l) -> x = Some c /\ chain m (limitOrder.next (m c)) l.
Proof. intros H; inversion H; auto. Qed.

Lemma NoDup_app_disjoint {A} (l1 l2 : list A) :
  NoDup (l1 ++ l2) -> forall a, In a l1 -> ~ In a l2.
Proof.
  induction l1 as [|x l1 IH]; simpl; intros ND a Hin; [contradiction|].
  inversion ND as [|y l N ND']; subst.
  destruct Hin as [->|Hin]; [|now apply IH].
  intros H2. apply N. apply in_or_app. now right.
Qed.

(** * The expiration sweep *)

Lemma relinked_refl l m : relinked l m m.
Proof. intros h. split; [now destruct (m h) | auto]. Qed.

Lemma relinked_data l m m' h :
  relinked l m m' ->
  limitOrder.size (m' h) = limitOrder.size (m h) /\
  limitOrder.p (m' h) = limitOrder.p (m h) /\
  limitOrder.expirationTime (m' h) = limitOrder.expirationTime (m h) /\
  limitOrder.user (m' h) = limitOrder.user (m h).
Proof. intros R. destruct (R h) as [E _]. rewrite E. simpl. auto. Qed.

Lemma relinked_expired l m m' t h : relinked l m m' -> expired m' t h = expired m t h.
Proof.
  intros R. unfold expired.
  destruct (relinked_data _ _ _ h R) as (_ & _ & E & _). now rewrite E.
Qed.

Lemma relinked_trans l1 l2 l m1 m2 m3 :
  relinked l1 m1 m2 -> relinked l2 m2 m3 -> incl l1 l -> incl l2 l ->
  relinked l m1 m3.
Proof.
  intros R1 R2 I1 I2 h.
  destruct (R1 h) as [E1 F1], (R2 h) as [E2 F2]. split.
  - rewrite E2. rewrite E1. reflexivity.
  - intros N. rewrite F2, F1; auto.
Qed.

Lemma state_eta s : with_pool (pool s) (with_free (freeLimitOrders s) s) = s.
Proof. now destruct s. Qed.

Lemma sameRest_refl s : sameRest s s.
Proof. repeat split. Qed.

Lemma sweepTail_spec t : forall suf fuel curr s,
  chain (pool s) (Some curr) (curr :: suf) ->
  (length suf <= fuel)%nat ->
  room s suf ->
  exists m',
    sweepTail fuel t curr s =
      Ok (with_pool m' (with_free (rev (filter (expired (pool s) t) suf)
                                     ++ freeLimitOrders s) s)) /\
    chain m' (Some curr) (curr :: filter (alive (pool s) t) suf) /\
    relinked (curr :: suf) (pool s) m'.
Proof.
  induction suf as [|nx suf IH]; intros fuel curr s Hc Hf Hr.
  - exists (pool s). pose proof (chain_tail _ _ _ Hc) as Hn.
    inversion Hn as [E|].
    split; [|split; [exact Hc | apply relinked_refl]].
    destruct fuel; simpl; rewrite <- E; simpl; now rewrite state_eta.
  - pose proof (chain_NoDup _ _ _ Hc) as ND.
    apply chain_tail in Hc. inversion Hc as [|h l Hc' E]; subst h l.
    destruct fuel as [|fuel]; [simpl in Hf; lia|].
    simpl sweepTail. rewrite <- E.
    unfold room in Hr. simpl in Hr, Hf.
    assert (Hx : expired (pool s) t nx = (limitOrder.expirationTime (pool s nx) <=? t))
      by reflexivity.
    destruct (limitOrder.expirationTime (pool s nx) <=? t) eqn:Hexp.
    + unfold release, numFreeLimitOrders.
      destruct (Nat.ltb_spec (length (freeLimitOrders s)) (poolSize s)); [|lia].
      simpl bind.
      set (s2 := setNext curr _ _).
      assert (Hc2 : chain (pool s2) (Some curr) (curr :: suf)).
      { constructor. unfold s2; simpl. rewrite upd_same. simpl.
        eapply chain_frame; [exact Hc'|].
        intros h Hin. rewrite upd_other; [reflexivity|].
        intros ->. inversion ND; subst. apply H2. now right. }
      destruct (IH fuel curr s2 Hc2) as (m' & Hrun & Hch & Hrel).
      { lia. }
      { unfold room, s2; simpl. lia. }
      assert (R2 : relinked (curr :: nx :: suf) (pool s) (pool s2)).
      { intros h. unfold s2; simpl. destruct (Nat.eq_dec h curr) as [->|N].
        - rewrite upd_same. split; [reflexivity|]. intros N; exfalso; apply N; now left.
        - rewrite upd_other by assumption. split; [now destruct (pool s h) | auto]. }
      assert (Eexp : forall h, expired (pool s2) t h = expired (pool s) t h).
      { intros h. eapply relinked_expired; eassumption. }
      exists m'. split; [|split].
      * rewrite Hrun. unfold s2; simpl. f_equal. unfold with_pool, with_free; simpl.
        f_equal. simpl filter. rewrite Hx. simpl.
        rewrite <- app_assoc. simpl.
        f_equal. f_equal. apply filter_ext. intros h. apply Eexp.
      * simpl filter. unfold alive at 1. rewrite Hx. simpl.
        erewrite filter_ext; [exact Hch|].
        intros h. unfold alive. now rewrite Eexp.
      * eapply relinked_trans; [exact R2 | exact Hrel | apply incl_refl |].
        intros h [->|Hin]; [now left | right; now right].
    + rewrite <- E in Hc.
      destruct (IH fuel nx s Hc) as (m' & Hrun & Hch & Hrel).
      { lia. }
      { unfold room; lia. }
      exists m'. split; [|split].
      * rewrite Hrun. simpl filter. rewrite Hx. reflexivity.
      * simpl filter. unfold alive at 1. rewrite Hx. simpl.
        constructor.
        destruct (Hrel curr) as [_ F]. rewrite F.
        -- rewrite <- E. exact Hch.
        -- inversion ND; subst. assumption.
      * intros h. destruct (Hrel h) as [E1 F1]. split; [exact E1|].
        intros N. apply F1. intros Hin. apply N. now right.
Qed.

Lemma sweepHead_alive fuel p t curr s :
  expired (pool s) t curr = false -> sweepHead fuel p t curr s = Ok (s, Some curr).
Proof. unfold expired. intros H. destruct fuel; simpl; now rewrite H. Qed.

Lemma sweepHead_spec p t (Hp : inRange p = true) : forall l fuel curr s,
  chain (pool s) (Some curr) (curr :: l) ->
  limitOrderHead s p = Some curr ->
  (length (curr :: l) <= fuel)%nat ->
  room s (curr :: l) ->
  exists s' c1 dead rest,
    sweepHead fuel p t curr s = Ok (s', c1) /\
    curr :: l = dead ++ rest /\
    forallb (expired (pool s) t) dead = true /\
    chain (pool s) c1 rest /\
    (forall c, c1 = Some c -> alive (pool s) t c = true) /\
    limitOrderHead s' p = c1 /\
    (forall q, q <> p -> limitOrderHead s' q = limitOrderHead s q) /\
    freeLimitOrders s' = rev dead ++ freeLimitOrders s /\
    pool s' = pool s /\ sameRest s s'.
Proof.
  induction l as [|c l IH]; intros fuel curr s Hc Hh Hf Hr.
  all: destruct (expired (pool s) t curr) eqn:Hx.
  all: try (exists s, (Some curr), []; eexists;
            split; [now apply sweepHead_alive|];
            repeat split; auto;
            intros c' Ec; inversion Ec; subst; unfold alive; now rewrite Hx).
  all: destruct fuel as [|fuel]; [simpl in Hf; lia|].
  all: simpl sweepHead; unfold expired in Hx; rewrite Hx.
  all: unfold room in Hr; simpl in Hr, Hf.
  all: unfold release, numFreeLimitOrders.
  all: destruct (Nat.ltb_spec (length (freeLimitOrders s)) (poolSize s)); [|lia].
  all: simpl bind; unfold writeHead; rewrite Hp; simpl bind.
  all: pose proof (chain_tail _ _ _ Hc) as Ht.
  - destruct (limitOrder.next (pool s curr)) as [c'|] eqn:E; [inversion Ht|].
    eexists _, None, [curr], []. split; [reflexivity|].
    simpl. unfold expired. rewrite Hx.
    repeat split; auto;
      solve [ constructor | intros ? Ec; discriminate Ec
            | now rewrite upd_head_same | intros q N; now rewrite upd_head_other ].
  - destruct (limitOrder.next (pool s curr)) as [c'|] eqn:E; [|inversion Ht].
    assert (c' = c) by (inversion Ht; reflexivity). subst c'.
    set (s2 := with_heads _ _).
    destruct (IH fuel c s2) as (s' & c1 & dead & rest & Hrun & Esplit & Hdead & Hch & Hal & Hhd & Hoth & Hfree & Hpool & Hrest).
    { exact Ht. }
    { unfold s2; simpl. now rewrite upd_head_same. }
    { simpl; lia. }
    { unfold room, s2; simpl. lia. }
    exists s', c1, (curr :: dead), rest. split; [exact Hrun|].
    repeat split; try apply Hrest.
    + simpl. now rewrite Esplit.
    + simpl. unfold expired at 1. rewrite Hx. exact Hdead.
    + exact Hch.
    + exact Hal.
    + exact Hhd.
    + intros q N. rewrite (Hoth q N). unfold s2; simpl. now rewrite upd_head_other.
    + rewrite Hfree. unfold s2; simpl. now rewrite <- app_assoc.
    + exact Hpool.
Qed.

Lemma filter_none {A} (f : A -> bool) l : forallb f l = true -> filter (fun x => negb (f x)) l = [].
Proof.
  induction l as [|a l IH]; simpl; [reflexivity|].
  rewrite andb_true_iff. intros [-> H]. simpl. auto.
Qed.

Lemma filter_all {A} (f : A -> bool) l : forallb f l = true -> filter f l = l.
Proof.
  induction l as [|a l IH]; simpl; [reflexivity|].
  rewrite andb_true_iff. intros [-> H]. f_equal; auto.
Qed.

(** The sweep of one price, on the list of that price alone. *)
Lemma updateLimitOrders_spec s p t l :
  inRange p = true -> level s p l -> room s l ->
  exists s',
    updateLimitOrders p t s = Ok s' /\
    level s' p (filter (alive (pool s) t) l) /\
    freeLimitOrders s' = rev (filter (expired (pool s) t) l) ++ freeLimitOrders s /\
    relinked l (pool s) (pool s') /\
    (forall q, q <> p -> limitOrderHead s' q = limitOrderHead s q) /\
    sameRest s s'.
Proof.
  intros Hp Hl Hr. unfold updateLimitOrders, readHead. rewrite Hp. simpl bind.
  unfold level in Hl.
  destruct (limitOrderHead s p) as [c|] eqn:Hh.
  - destruct (chain_Some_inv _ _ _ Hl) as (l' & -> & _).
    destruct (sweepHead_spec p t Hp l' (poolSize s) c s Hl Hh)
      as (s1 & c1 & dead & rest & Hrun & Esplit & Hdead & Hch & Hal & Hhd & Hoth & Hfree & Hpool & Hrest).
    { unfold room in Hr. lia. }
    { exact Hr. }
    rewrite Hrun. simpl bind. rewrite Esplit.
    rewrite !filter_app.
    unfold alive at 1. rewrite (filter_none _ _ Hdead), (filter_all _ _ Hdead). simpl.
    destruct c1 as [c'|].
    + destruct (chain_Some_inv _ _ _ Hch) as (suf & -> & _).
      destruct (sweepTail_spec t suf (poolSize s) c' s1) as (m' & Hrun2 & Hch2 & Hrel2).
      { now rewrite Hpool. }
      { unfold room in Hr. rewrite Esplit in Hr. rewrite length_app in Hr. simpl in Hr. lia. }
      { unfold room in *. rewrite Hfree, length_app, length_rev.
        destruct Hrest as (-> & _). rewrite Esplit in Hr. rewrite length_app in Hr.
        simpl in Hr. lia. }
      eexists. split; [exact Hrun2|].
      assert (Hac : alive (pool s) t c' = true) by (apply Hal; reflexivity).
      simpl filter. rewrite Hac.
      assert (Hec : expired (pool s) t c' = false)
        by (unfold alive in Hac; now apply negb_true_iff in Hac).
      rewrite Hec. rewrite Hpool in *.
      repeat split; try apply Hrest.
      * unfold level; simpl. rewrite Hhd. exact Hch2.
      * simpl. rewrite Hfree. now rewrite rev_app_distr, app_assoc.
      * simpl. apply (Hrel2 h).
      * simpl. intros N. apply (Hrel2 h). intros Hin. apply N.
        apply in_or_app. now right.
      * simpl. exact Hoth.
    + apply chain_None_inv in Hch. subst rest. simpl.
      exists s1. split; [reflexivity|].
      repeat split; try apply Hrest.
      * unfold level. rewrite Hhd. constructor.
      * rewrite Hfree. now rewrite !app_nil_r.
      * rewrite Hpool. now destruct (pool s h).
      * now rewrite Hpool.
      * exact Hoth.
  - apply chain_None_inv in Hl. subst l. simpl.
    exists s. split; [reflexivity|]. repeat split; auto.
    + unfold level. rewrite Hh. constructor.
    + now destruct (pool s h).
Qed.

(** * The invariant of the pool *)

Lemma rep_level s B p l : rep s B -> level s p l -> B p = l.
Proof. intros R L. eapply chain_det; [apply (rep_chain _ _ R) | exact L]. Qed.

Lemma rep_NoDup s B p : rep s B -> NoDup (B p).
Proof. intros R. eapply chain_NoDup. apply (rep_chain _ _ R p). Qed.

Lemma rep_room s B p : rep s B -> room s (B p).
Proof.
  intros R. unfold room.
  assert (ND : NoDup (freeLimitOrders s ++ B p)).
  { apply NoDup_app; [apply (rep_free _ _ R) | eapply rep_NoDup; eassumption |].
    intros h Hf Hb. exact (rep_sep _ _ R _ _ Hb Hf). }
  assert (I : incl (freeLimitOrders s ++ B p) (seq 0 (poolSize s))).
  { intros h Hin. apply in_seq. split; [lia|]. simpl.
    apply (rep_slots _ _ R). apply in_app_or in Hin. destruct Hin; [now left | right; eauto]. }
  pose proof (NoDup_incl_length ND I) as L.
  rewrite length_app, length_seq in L. exact L.
Qed.

Lemma setup_rep n b : rep (setup n b) (fun _ => []).
Proof.
  constructor; simpl.
  - intros p. constructor.
  - apply NoDup_rev. apply seq_NoDup.
  - intros p h [].
  - intros p q h [].
  - intros h. rewrite <- in_rev, in_seq. split.
    + intros H. left. lia.
    + intros [H|[p []]]. lia.
Qed.

(** The invariant yields the accounting of every slot. *)
Lemma rep_slotAccounted s B h :
  rep s B -> (h < poolSize s)%nat -> slotAccounted s h.
Proof.
  intros R Hh. unfold slotAccounted, onFreeList, restsAt.
  assert (RB : forall p h', reaches (pool s) (limitOrderHead s p) h' <-> In h' (B p)).
  { intros p h'. apply reaches_chain. apply (rep_chain _ _ R). }
  apply (rep_slots _ _ R) in Hh. destruct Hh as [Hf | [p Hp]].
  - left. split; [exact Hf|]. intros p Hr. apply RB in Hr.
    exact (rep_sep _ _ R _ _ Hr Hf).
  - right. split.
    + intros Hf. exact (rep_sep _ _ R _ _ Hp Hf).
    + exists p. split; [now apply RB|].
      intros q Hq. apply RB in Hq. exact (rep_levels _ _ R _ _ _ Hq Hp).
Qed.

(** Changes of the globals outside the pool and the book. *)
Lemma rep_same_book s s' B :
  rep s B ->
  poolSize s' = poolSize s -> freeLimitOrders s' = freeLimitOrders s ->
  limitOrderHead s' = limitOrderHead s ->
  (forall h, limitOrder.next (pool s' h) = limitOrder.next (pool s h)) ->
  rep s' B.
Proof.
  intros R Ep Ef Eh En. constructor.
  - intros p. unfold level. rewrite Eh. eapply chain_frame; [apply (rep_chain _ _ R)|].
    intros h _. apply En.
  - rewrite Ef. apply (rep_free _ _ R).
  - rewrite Ef. apply (rep_sep _ _ R).
  - apply (rep_levels _ _ R).
  - rewrite Ep, Ef. apply (rep_slots _ _ R).
Qed.

Lemma filter_partition {A} (f : A -> bool) l x :
  In x l <-> In x (filter f l) \/ In x (filter (fun y => negb (f y)) l).
Proof.
  rewrite !filter_In. destruct (f x); simpl; intuition congruence.
Qed.

(** The sweep of one price keeps the invariant. *)
Lemma updateLimitOrders_rep s B p t :
  rep s B -> inRange p = true ->
  exists s',
    updateLimitOrders p t s = Ok s' /\
    rep s' (fun q => if q =? p then filter (alive (pool s) t) (B p) else B q) /\
    freeLimitOrders s' = rev (filter (expired (pool s) t) (B p)) ++ freeLimitOrders s /\
    relinked (B p) (pool s) (pool s') /\
    (forall q, q <> p -> limitOrderHead s' q = limitOrderHead s q) /\
    sameRest s s'.
Proof.
  intros R Hp.
  destruct (updateLimitOrders_spec s p t (B p) Hp (rep_chain _ _ R p) (rep_room _ _ p R))
    as (s' & Hrun & Hl & Hf & Hrel & Hoth & Hrest).
  exists s'. split; [exact Hrun|]. split; [|auto].
  constructor.
  - intros q. destruct (Z.eqb_spec q p) as [->|N]; [exact Hl|].
    unfold level. rewrite (Hoth q N).
    eapply chain_frame; [apply (rep_chain _ _ R q)|].
    intros h Hin. destruct (Hrel h) as [_ F]. rewrite F; [reflexivity|].
    intros Hin'. apply N. exact (rep_levels _ _ R _ _ _ Hin Hin').
  - rewrite Hf. apply NoDup_app.
    + apply NoDup_rev. apply NoDup_filter. eapply rep_NoDup; eassumption.
    + apply (rep_free _ _ R).
    + intros h Hin Hfree. apply in_rev, filter_In in Hin.
      exact (rep_sep _ _ R _ _ (proj1 Hin) Hfree).
  - intros q h Hin. rewrite Hf. intros Hfree. apply in_app_or in Hfree.
    destruct Hfree as [Hd|Hfree].
    + apply in_rev, filter_In in Hd. destruct Hd as [Hd He].
      destruct (Z.eqb_spec q p) as [->|N].
      * apply filter_In in Hin. unfold alive in Hin. rewrite He in Hin.
        destruct Hin; discriminate.
      * apply N. exact (rep_levels _ _ R _ _ _ Hin Hd).
    + destruct (Z.eqb_spec q p) as [->|N].
      * apply filter_In in Hin. exact (rep_sep _ _ R _ _ (proj1 Hin) Hfree).
      * exact (rep_sep _ _ R _ _ Hin Hfree).
  - intros q1 q2 h H1 H2.
    apply (rep_levels _ _ R q1 q2 h).
    + destruct (Z.eqb_spec q1 p) as [->|N]; [apply filter_In in H1; tauto | exact H1].
    + destruct (Z.eqb_spec q2 p) as [->|N]; [apply filter_In in H2; tauto | exact H2].
  - intros h. destruct Hrest as (-> & _). rewrite (rep_slots _ _ R h), Hf. split.
    + intros [Hfree | [q Hq]].
      * left. apply in_or_app. now right.
      * destruct (Z.eqb_spec q p) as [->|N].
        -- apply (filter_partition (expired (pool s) t)) in Hq. destruct Hq as [Hq|Hq].
           ++ left. apply in_or_app. left. now apply in_rev in Hq.
           ++ right. exists p. now rewrite Z.eqb_refl.
        -- right. exists q. apply Z.eqb_neq in N. now rewrite N.
    + intros [Hfree | [q Hq]].
      * apply in_app_or in Hfree. destruct Hfree as [Hd|Hfree]; [|now left].
        right. exists p. apply in_rev, filter_In in Hd. tauto.
      * right. destruct (Z.eqb_spec q p) as [E|N].
        -- exists p. apply filter_In in Hq. tauto.
        -- exists q. exact Hq.
Qed.

(** * Fills at one price *)

Lemma u32_idem_l a b : u32 (u32 a + b) = u32 (a + b).
Proof. unfold u32. now rewrite Zplus_mod_idemp_l. Qed.

Lemma u32_idem_r a b : u32 (a + u32 b) = u32 (a + b).
Proof. unfold u32. now rewrite Zplus_mod_idemp_r. Qed.

Lemma u32_small z : 0 <= z < 2 ^ 32 -> u32 z = z.
Proof. unfold u32. apply Z.mod_small. Qed.

Lemma i32_int32 z : int32 (i32 z).
Proof.
  unfold int32, i32.
  pose proof (Z.mod_pos_bound (z + 2 ^ 31) (2 ^ 32) ltac:(lia)). lia.
Qed.

Lemma i32_small z : int32 z -> i32 z = z.
Proof. unfold int32, i32. intros H. rewrite Z.mod_small; lia. Qed.

Lemma i32_add_l a b : i32 (i32 a + b) = i32 (a + b).
Proof.
  unfold i32. f_equal.
  replace ((a + 2 ^ 31) mod 2 ^ 32 - 2 ^ 31 + b + 2 ^ 31)
    with ((a + 2 ^ 31) mod 2 ^ 32 + b) by lia.
  rewrite Zplus_mod_idemp_l. f_equal. lia.
Qed.

Lemma i32_add_u32 a b : i32 (a + u32 b) = i32 (a + b).
Proof.
  unfold i32, u32. f_equal.
  replace (a + b mod 2 ^ 32 + 2 ^ 31) with ((a + 2 ^ 31) + b mod 2 ^ 32) by lia.
  rewrite Zplus_mod_idemp_r. f_equal. lia.
Qed.

Lemma i32_sub_u32 a b : i32 (a - u32 b) = i32 (a - b).
Proof.
  unfold i32, u32. f_equal.
  replace (a - b mod 2 ^ 32 + 2 ^ 31) with ((a + 2 ^ 31) - b mod 2 ^ 32) by lia.
  rewrite Zminus_mod_idemp_r. f_equal. lia.
Qed.

Lemma ledgerBalance_step sell b q1 q p :
  ledgerBalance sell (if sell then i32 (b - u32 (q1 * p)) else i32 (b + u32 (q1 * p))) q p
  = ledgerBalance sell b (q1 + q) p.
Proof.
  unfold ledgerBalance. destruct sell.
  - rewrite i32_sub_u32.
    replace (i32 (b - q1 * p) - q * p) with (i32 (b - q1 * p) + (- (q * p))) by lia.
    rewrite i32_add_l. f_equal. lia.
  - rewrite i32_add_u32, i32_add_l. f_equal. lia.
Qed.

Lemma ledgerShares_step sell n q1 q :
  ledgerShares sell (if sell then i32 (n + q1) else i32 (n - q1)) q
  = ledgerShares sell n (q1 + q).
Proof.
  unfold ledgerShares. destruct sell.
  - rewrite i32_add_l. f_equal. lia.
  - replace (i32 (n - q1) - q) with (i32 (n - q1) + (- q)) by lia.
    rewrite i32_add_l. f_equal. lia.
Qed.

Lemma ledgerBalance_zero sell b p : int32 b -> ledgerBalance sell b 0 p = b.
Proof.
  intros H. unfold ledgerBalance.
  destruct sell; rewrite Z.mul_0_l, ?Z.sub_0_r, ?Z.add_0_r; now apply i32_small.
Qed.

Lemma ledgerShares_zero sell n : int32 n -> ledgerShares sell n 0 = n.
Proof.
  intros H. unfold ledgerShares.
  destruct sell; rewrite ?Z.sub_0_r, ?Z.add_0_r; now apply i32_small.
Qed.

Lemma ledger_int32 sell b n q p :
  int32 (ledgerBalance sell b q p) /\ int32 (ledgerShares sell n q).
Proof. unfold ledgerBalance, ledgerShares. destruct sell; split; apply i32_int32. Qed.

Lemma u32_acc o a b p : u32 (u32 (o + u32 (a * p)) + b * p) = u32 (o + (a + b) * p).
Proof.
  unfold u32. rewrite Zplus_mod_idemp_l.
  replace (o + (a * p) mod 2 ^ 32 + b * p) with ((o + b * p) + (a * p) mod 2 ^ 32) by lia.
  rewrite Zplus_mod_idemp_r. f_equal. lia.
Qed.

Lemma quantity_cons h q F : quantity ((h, q) :: F) = q + quantity F.
Proof. reflexivity. Qed.

Lemma Ok3_eq {A B C : Type} (a x : A) (b y : B) (c z : C) :
  a = x -> b = y -> c = z -> Ok (a, b, c) = Ok (x, y, z).
Proof. now intros -> -> ->. Qed.

Lemma settle_eq sell q p s :
  settle sell q p s
  = with_ledger (if sell then i32 (balance s - u32 (q * p)) else i32 (balance s + u32 (q * p)))
                (if sell then i32 (sharesOpen s + q) else i32 (sharesOpen s - q)) s.
Proof. unfold settle. now destruct sell. Qed.

Lemma fillLoop_spec p sell (Hp : inRange p = true) : forall l fuel curr size o s,
  chain (pool s) curr l ->
  limitOrderHead s p = curr ->
  (length l <= fuel)%nat ->
  room s l ->
  0 <= o < 2 ^ 32 ->
  int32 (balance s) -> int32 (sharesOpen s) ->
  exists s',
    fillLoop fuel p sell curr size o s
      = Ok (s', size - quantity (portions (pool s) l size),
            u32 (o + quantity (portions (pool s) l size) * p)) /\
    pool s' = afterFill (pool s) l size /\
    level s' p (unfilled (pool s) l size) /\
    (forall q, q <> p -> limitOrderHead s' q = limitOrderHead s q) /\
    freeLimitOrders s' = rev (filled (pool s) l size) ++ freeLimitOrders s /\
    userLimitOrders s'
      = deleteUserOrders (userOwned (pool s) (filled (pool s) l size)) (userLimitOrders s) /\
    balance s' = ledgerBalance sell (balance s)
                   (quantity (userPortions (pool s) (portions (pool s) l size))) p /\
    sharesOpen s' = ledgerShares sell (sharesOpen s)
                      (quantity (userPortions (pool s) (portions (pool s) l size))) /\
    poolSize s' = poolSize s /\ bid s' = bid s /\ ask s' = ask s /\
    fillTiesInStackOrder s' = fillTiesInStackOrder s.
Proof.
  induction l as [|c l IH]; intros fuel curr size o s Hc Hh Hf Hr Ho Hb Hn.
  - apply chain_nil_inv in Hc. subst curr. exists s.
    assert (E : fillLoop fuel p sell None size o s = Ok (s, size, o)) by (now destruct fuel).
    rewrite E. simpl.
    rewrite Z.sub_0_r, Z.add_0_r, (u32_small _ Ho).
    rewrite ledgerBalance_zero, ledgerShares_zero by assumption.
    unfold afterFill, level; simpl. rewrite Hh.
    repeat split; auto. constructor.
  - pose proof Hc as Hc0.
    apply chain_cons_inv in Hc. destruct Hc as [Ec Hc]. subst curr.
    destruct fuel as [|fuel]; [simpl in Hf; lia|].
    unfold room in Hr. simpl in Hr, Hf.
    simpl fillLoop. simpl portions. simpl filled. unfold afterFill. simpl unfilled.
    simpl remaining.
    destruct (limitOrder.size (pool s c) <=? size) eqn:Hsz.
    + unfold release, numFreeLimitOrders.
      destruct (Nat.ltb_spec (length (freeLimitOrders s)) (poolSize s)); [|lia].
      simpl bind. unfold writeHead. rewrite Hp. simpl bind.
      rewrite !settle_eq.
      match goal with
      | |- exists s', fillLoop _ _ _ ?nx _ _ ?st = _ /\ _ =>
          assert (Enx : nx = limitOrder.next (pool s c)); [|set (s3 := st)]
      end.
      { simpl. destruct (limitOrder.user (pool s c)); reflexivity. }
      fold s3 in Enx. rewrite Enx.
      assert (Epool : pool s3 = pool s).
      { unfold s3. simpl. destruct (limitOrder.user (pool s c)); reflexivity. }
      destruct (IH fuel (limitOrder.next (pool s c)) (size - limitOrder.size (pool s c))
                   (u32 (o + u32 (limitOrder.size (pool s c) * p))) s3)
        as (s' & Hrun & Hpool & Hlev & Hoth & Hfree & Huser & Hbal & Hsh & Hps & Hbid & Hask & Hflag).
      { now rewrite Epool. }
      { unfold s3; simpl. rewrite upd_head_same.
        destruct (limitOrder.user (pool s c)); reflexivity. }
      { lia. }
      { unfold room, s3; simpl. destruct (limitOrder.user (pool s c)); simpl; lia. }
      { unfold u32. apply Z.mod_pos_bound. lia. }
      { unfold s3; simpl. destruct (limitOrder.user (pool s c)); simpl; [|assumption].
        destruct sell; simpl; apply i32_int32. }
      { unfold s3; simpl. destruct (limitOrder.user (pool s c)); simpl; [|assumption].
        destruct sell; simpl; apply i32_int32. }
      rewrite Epool in *.
      exists s'. split; [|split; [|split; [|split; [|split; [|split; [|split; [|split]]]]]]].
      * rewrite Hrun. f_equal. f_equal; [f_equal|].
        -- rewrite quantity_cons. lia.
        -- rewrite quantity_cons. apply u32_acc.
      * exact Hpool.
      * exact Hlev.
      * intros q N. rewrite (Hoth q N). unfold s3; simpl. rewrite upd_head_other by assumption.
        destruct (limitOrder.user (pool s c)); reflexivity.
      * rewrite Hfree. unfold s3; simpl. simpl. rewrite <- app_assoc. simpl.
        destruct (limitOrder.user (pool s c)); reflexivity.
      * rewrite Huser. unfold s3, userOwned; simpl.
        destruct (limitOrder.user (pool s c)); reflexivity.
      * rewrite Hbal. unfold s3, userPortions; simpl.
        destruct (limitOrder.user (pool s c)); simpl; [|reflexivity].
        apply ledgerBalance_step.
      * rewrite Hsh. unfold s3, userPortions; simpl.
        destruct (limitOrder.user (pool s c)); simpl; [|reflexivity].
        apply ledgerShares_step.
      * rewrite Hps, Hbid, Hask, Hflag. unfold s3; simpl.
        destruct (limitOrder.user (pool s c)); simpl; auto.
    + rewrite !settle_eq. simpl. rewrite upd_same. simpl.
      unfold userPortions, userOwned; simpl.
      assert (Hlev : forall s0, pool s0 = upd (pool s) c
                         (limitOrder.with_size (limitOrder.size (pool s c) - size) (pool s c)) ->
                       limitOrderHead s0 = limitOrderHead s -> level s0 p (c :: l)).
      { intros s0 E0 E1. unfold level. rewrite E0, E1, Hh. eapply chain_frame; [exact Hc0|].
        intros h _. unfold upd. destruct (Nat.eqb_spec h c) as [->|]; reflexivity. }
      assert (Eo : u32 (o + u32 (size * p)) = u32 (o + (size + 0) * p)).
      { rewrite u32_idem_r. f_equal. lia. }
      assert (Es : 0 = size - (size + 0)) by lia.
      destruct (limitOrder.user (pool s c)); simpl;
        change (quantity [(c, size)]) with (size + 0);
        (eexists; split; [apply Ok3_eq; [reflexivity | exact Es | exact Eo]|]);
        (split; [reflexivity|]);
        (split; [now apply Hlev|]).
      * repeat split; auto; unfold ledgerBalance, ledgerShares; simpl;
          destruct sell; rewrite ?i32_sub_u32, ?i32_add_u32; f_equal; lia.
      * unfold quantity; simpl.
        rewrite ledgerBalance_zero, ledgerShares_zero by assumption.
        repeat split; auto.
Qed.

Lemma filled_unfilled m l : forall size, filled m l size ++ unfilled m l size = l.
Proof.
  induction l as [|h l IH]; intros size; simpl; [reflexivity|].
  destruct (limitOrder.size (m h) <=? size); simpl; [now rewrite IH | reflexivity].
Qed.

Lemma afterFill_next m l size h :
  limitOrder.next (afterFill m l size h) = limitOrder.next (m h).
Proof.
  unfold afterFill. destruct (unfilled m l size) as [|c r]; [reflexivity|].
  unfold upd. destruct (Nat.eqb_spec h c) as [->|]; reflexivity.
Qed.

Lemma afterFill_data m l size h :
  limitOrder.p (afterFill m l size h) = limitOrder.p (m h) /\
  limitOrder.expirationTime (afterFill m l size h) = limitOrder.expirationTime (m h) /\
  limitOrder.user (afterFill m l size h) = limitOrder.user (m h).
Proof.
  unfold afterFill. destruct (unfilled m l size) as [|c r]; [auto|].
  unfold upd. destruct (Nat.eqb_spec h c) as [->|]; auto.
Qed.

Lemma afterFill_other m l size h : ~ In h l -> afterFill m l size h = m h.
Proof.
  intros N. unfold afterFill.
  destruct (unfilled m l size) as [|c r] eqn:E; [reflexivity|].
  apply upd_other. intros ->. apply N.
  rewrite <- (filled_unfilled m l size), E. apply in_or_app. right. now left.
Qed.

(** Part of the orders of one price is released, the rest stays in order. *)
Lemma rep_remove s s' B p removed kept :
  rep s B ->
  NoDup removed ->
  (forall h, In h (B p) <-> In h removed \/ In h kept) ->
  (forall h, In h removed -> ~ In h kept) ->
  level s' p kept ->
  (forall q, q <> p -> limitOrderHead s' q = limitOrderHead s q) ->
  (forall h, ~ In h (B p) -> limitOrder.next (pool s' h) = limitOrder.next (pool s h)) ->
  freeLimitOrders s' = rev removed ++ freeLimitOrders s ->
  poolSize s' = poolSize s ->
  rep s' (fun q => if q =? p then kept else B q).
Proof.
  intros R ND Hpart Hdis Hl Hoth Hnext Hf Hps.
  constructor.
  - intros q. destruct (Z.eqb_spec q p) as [->|N]; [exact Hl|].
    unfold level. rewrite (Hoth q N).
    eapply chain_frame; [apply (rep_chain _ _ R q)|].
    intros h Hin. apply Hnext.
    intros Hin'. apply N. exact (rep_levels _ _ R _ _ _ Hin Hin').
  - rewrite Hf. apply NoDup_app.
    + now apply NoDup_rev.
    + apply (rep_free _ _ R).
    + intros h Hin Hfree. apply in_rev in Hin.
      apply (rep_sep _ _ R p h); [apply Hpart; now left | exact Hfree].
  - intros q h Hin. rewrite Hf. intros Hfree. apply in_app_or in Hfree.
    destruct Hfree as [Hd|Hfree].
    + apply in_rev in Hd.
      destruct (Z.eqb_spec q p) as [->|N].
      * exact (Hdis _ Hd Hin).
      * apply N. apply (rep_levels _ _ R _ _ _ Hin). apply Hpart. now left.
    + destruct (Z.eqb_spec q p) as [->|N].
      * apply (rep_sep _ _ R p h); [apply Hpart; now right | exact Hfree].
      * exact (rep_sep _ _ R _ _ Hin Hfree).
  - intros q1 q2 h H1 H2.
    apply (rep_levels _ _ R q1 q2 h).
    + destruct (Z.eqb_spec q1 p) as [->|N]; [apply Hpart; now right | exact H1].
    + destruct (Z.eqb_spec q2 p) as [->|N]; [apply Hpart; now right | exact H2].
  - intros h. rewrite Hps, (rep_slots _ _ R h), Hf. split.
    + intros [Hfree | [q Hq]].
      * left. apply in_or_app. now right.
      * destruct (Z.eqb_spec q p) as [->|N].
        -- apply Hpart in Hq. destruct Hq as [Hq|Hq].
           ++ left. apply in_or_app. left. now apply in_rev in Hq.
           ++ right. exists p. now rewrite Z.eqb_refl.
        -- right. exists q. apply Z.eqb_neq in N. now rewrite N.
    + intros [Hfree | [q Hq]].
      * apply in_app_or in Hfree. destruct Hfree as [Hd|Hfree]; [|now left].
        right. exists p. apply in_rev in Hd. apply Hpart. now left.
      * right. destruct (Z.eqb_spec q p) as [E|N].
        -- exists p. apply Hpart. now right.
        -- exists q. exact Hq.
Qed.

(** [fillOrders] on a well-formed state. *)
Lemma fillOrders_rep s B p size o sell :
  rep s B -> inRange p = true -> 0 <= o < 2 ^ 32 ->
  int32 (balance s) -> int32 (sharesOpen s) ->
  exists s',
    fillOrders p size o sell s
      = Ok (s', size - quantity (portions (pool s) (B p) size),
            u32 (o + quantity (portions (pool s) (B p) size) * p)) /\
    rep s' (fun q => if q =? p then unfilled (pool s) (B p) size else B q) /\
    pool s' = afterFill (pool s) (B p) size /\
    freeLimitOrders s' = rev (filled (pool s) (B p) size) ++ freeLimitOrders s /\
    userLimitOrders s'
      = deleteUserOrders (userOwned (pool s) (filled (pool s) (B p) size))
                         (userLimitOrders s) /\
    balance s' = ledgerBalance sell (balance s)
                   (quantity (userPortions (pool s) (portions (pool s) (B p) size))) p /\
    sharesOpen s' = ledgerShares sell (sharesOpen s)
                      (quantity (userPortions (pool s) (portions (pool s) (B p) size))) /\
    poolSize s' = poolSize s /\ bid s' = bid s /\ ask s' = ask s /\
    fillTiesInStackOrder s' = fillTiesInStackOrder s.
Proof.
  intros R Hp Ho Hb Hn.
  unfold fillOrders, readHead. rewrite Hp. simpl bind.
  destruct (fillLoop_spec p sell Hp (B p) (poolSize s) (limitOrderHead s p) size o s)
    as (s' & Hrun & Hpool & Hlev & Hoth & Hfree & Huser & Hbal & Hsh & Hps & Hbid & Hask & Hflag);
    auto.
  { apply (rep_chain _ _ R). }
  { pose proof (rep_room _ _ p R) as Hr. unfold room in Hr. lia. }
  { now apply rep_room. }
  exists s'. split; [exact Hrun|]. split; [|repeat split; assumption].
  pose proof (rep_NoDup _ _ p R) as ND.
  rewrite <- (filled_unfilled (pool s) (B p) size) in ND.
  eapply rep_remove with (removed := filled (pool s) (B p) size); eauto.
  - eapply NoDup_app_remove_r. exact ND.
  - intros h. rewrite <- (filled_unfilled (pool s) (B p) size) at 1. apply in_app_iff.
  - apply NoDup_app_disjoint. exact ND.
  - intros h _. rewrite Hpool. apply afterFill_next.
Qed.

(** * Insertion *)

Lemma last_default {A} (l : list A) d d' : l <> [] -> last l d = last l d'.
Proof.
  induction l as [|a l IH]; [congruence|]. intros _.
  destruct l as [|b l]; [reflexivity|]. apply IH. discriminate.
Qed.

Lemma lastOrder_spec m : forall l fuel c,
  chain m (Some c) (c :: l) -> (length l <= fuel)%nat ->
  lastOrder fuel m c = Ok (last l c).
Proof.
  induction l as [|c' l IH]; intros fuel c Hc Hf.
  - apply chain_tail, chain_nil_inv in Hc. destruct fuel; simpl; now rewrite Hc.
  - apply chain_tail in Hc. pose proof Hc as Hc'.
    apply chain_cons_inv in Hc. destruct Hc as [E _].
    destruct fuel as [|fuel]; [simpl in Hf; lia|].
    simpl lastOrder. rewrite E. rewrite E in Hc'.
    rewrite (IH fuel c' Hc') by (simpl in Hf; lia).
    f_equal. destruct l as [|c'' l]; [reflexivity|].
    change (last (c' :: c'' :: l) c) with (last (c'' :: l) c).
    apply last_default. discriminate.
Qed.

Lemma last_In {A} (l : list A) d : l <> [] -> In (last l d) l.
Proof.
  induction l as [|a l IH]; [congruence|]. intros _.
  destruct l as [|b l]; [now left | right; apply IH; discriminate].
Qed.

(** Linking a fresh record behind the last one of a list. *)
Lemma chain_snoc m lo : forall l x,
  chain m x l -> l <> [] -> ~ In lo l -> limitOrder.next (m lo) = None ->
  chain (upd m (last l lo) (limitOrder.with_next (Some lo) (m (last l lo)))) x (l ++ [lo]).
Proof.
  induction l as [|h l IH]; intros x Hc Hne Hlo Hn; [congruence|].
  pose proof (chain_NoDup _ _ _ Hc) as ND.
  apply chain_cons_inv in Hc. destruct Hc as [-> Hc].
  destruct l as [|h' l].
  - simpl. constructor. rewrite upd_same. simpl. constructor.
    rewrite upd_other by (intros ->; apply Hlo; now left).
    rewrite Hn. constructor.
  - change (last (h :: h' :: l) lo) with (last (h' :: l) lo).
    simpl app. constructor.
    assert (Hl : In (last (h' :: l) lo) (h' :: l)) by (apply last_In; discriminate).
    rewrite upd_other.
    + apply IH; auto; [discriminate | intros Hin; apply Hlo; now right].
    + intros E. apply NoDup_cons_iff in ND. destruct ND as [N _].
      apply N. rewrite E. exact Hl.
Qed.

(** A record leaves the free stack and joins the orders of one price. *)
Lemma rep_insert s s' B p lo rest newl :
  rep s B ->
  freeLimitOrders s = lo :: rest ->
  (forall h, In h newl <-> h = lo \/ In h (B p)) ->
  level s' p newl ->
  (forall q, q <> p -> limitOrderHead s' q = limitOrderHead s q) ->
  (forall h, ~ In h (B p) -> h <> lo -> limitOrder.next (pool s' h) = limitOrder.next (pool s h)) ->
  freeLimitOrders s' = rest ->
  poolSize s' = poolSize s ->
  rep s' (fun q => if q =? p then newl else B q).
Proof.
  intros R Hfree Hnew Hl Hoth Hnext Hf Hps.
  pose proof (rep_free _ _ R) as NDf. rewrite Hfree in NDf.
  inversion NDf as [|y l0 Nlo NDr]; subst y l0.
  assert (Hlo : forall q, ~ In lo (B q)).
  { intros q Hin. apply (rep_sep _ _ R _ _ Hin). rewrite Hfree. now left. }
  constructor.
  - intros q. destruct (Z.eqb_spec q p) as [->|N]; [exact Hl|].
    unfold level. rewrite (Hoth q N).
    eapply chain_frame; [apply (rep_chain _ _ R q)|].
    intros h Hin. apply Hnext.
    + intros Hin'. apply N. exact (rep_levels _ _ R _ _ _ Hin Hin').
    + intros ->. exact (Hlo _ Hin).
  - now rewrite Hf.
  - intros q h Hin. rewrite Hf. intros Hr.
    assert (Hfr : In h (freeLimitOrders s)) by (rewrite Hfree; now right).
    destruct (Z.eqb_spec q p) as [->|N].
    + apply Hnew in Hin. destruct Hin as [->|Hin]; [exact (Nlo Hr)|].
      exact (rep_sep _ _ R _ _ Hin Hfr).
    + exact (rep_sep _ _ R _ _ Hin Hfr).
  - intros q1 q2 h H1 H2.
    destruct (Z.eqb_spec q1 p) as [->|N1], (Z.eqb_spec q2 p) as [->|N2]; auto.
    + apply Hnew in H1. destruct H1 as [->|H1]; [destruct (Hlo _ H2)|].
      exact (rep_levels _ _ R _ _ _ H1 H2).
    + apply Hnew in H2. destruct H2 as [->|H2]; [destruct (Hlo _ H1)|].
      exact (rep_levels _ _ R _ _ _ H1 H2).
    + exact (rep_levels _ _ R _ _ _ H1 H2).
  - intros h. rewrite Hps, (rep_slots _ _ R h), Hf, Hfree. split.
    + intros [[->|Hr] | [q Hq]].
      * right. exists p. rewrite Z.eqb_refl. apply Hnew. now left.
      * now left.
      * right. destruct (Z.eqb_spec q p) as [E|N].
        -- exists p. rewrite Z.eqb_refl. apply Hnew. right. now rewrite <- E.
        -- exists q. apply Z.eqb_neq in N. now rewrite N.
    + intros [Hr | [q Hq]].
      * left. now right.
      * destruct (Z.eqb_spec q p) as [E|N].
        -- apply Hnew in Hq. destruct Hq as [->|Hq]; [left; now left | right; eauto].
        -- right; eauto.
Qed.

Lemma addLimitOrder_rep s B p size e u lo rest :
  rep s B -> freeLimitOrders s = lo :: rest -> inRange p = true ->
  (u = true -> (numUserLimitOrders s < MAX_NUM_USER_LIMIT_ORDERS)%nat) ->
  exists s',
    addLimitOrder p size e u s = Ok s' /\
    rep s' (fun q => if q =? p then inserted (fillTiesInStackOrder s) lo (B p) else B q) /\
    freeLimitOrders s' = rest /\
    pool s' lo = limitOrder.mk size p e (limitOrder.next (pool s' lo)) u /\
    (forall h, h <> lo ->
       pool s' h = limitOrder.with_next (limitOrder.next (pool s' h)) (pool s h)) /\
    userLimitOrders s' = (if u then userLimitOrders s ++ [lo] else userLimitOrders s) /\
    poolSize s' = poolSize s /\ bid s' = bid s /\ ask s' = ask s /\
    balance s' = balance s /\ sharesOpen s' = sharesOpen s /\
    fillTiesInStackOrder s' = fillTiesInStackOrder s.
Proof.
  intros R Hfree Hp Hu.
  assert (Hlo : forall q, ~ In lo (B q)).
  { intros q Hin. apply (rep_sep _ _ R _ _ Hin). rewrite Hfree. now left. }
  set (m1 := upd (pool s) lo (limitOrder.mk size p e None u)).
  assert (Hc1 : chain m1 (limitOrderHead s p) (B p)).
  { eapply chain_frame; [apply (rep_chain _ _ R p)|].
    intros h Hin. unfold m1. rewrite upd_other; [reflexivity|].
    intros ->. exact (Hlo _ Hin). }
  assert (Hm1 : limitOrder.next (m1 lo) = None) by (unfold m1; now rewrite upd_same).
  assert (Hroom : (length (B p) < poolSize s)%nat).
  { pose proof (rep_room _ _ p R) as Hr. unfold room in Hr. rewrite Hfree in Hr.
    simpl in Hr. lia. }
  unfold addLimitOrder. rewrite Hfree. fold m1.
  assert (Huser : (if u
                   then if (numUserLimitOrders (with_pool m1 (with_free rest s))
                            <? MAX_NUM_USER_LIMIT_ORDERS)%nat
                        then Ok (with_user (userLimitOrders (with_pool m1 (with_free rest s)) ++ [lo])
                                           (with_pool m1 (with_free rest s)))
                        else Fault OutOfBounds
                   else Ok (with_pool m1 (with_free rest s)))
                  = Ok (with_user (if u then userLimitOrders s ++ [lo] else userLimitOrders s)
                                  (with_pool m1 (with_free rest s)))).
  { destruct u; [|reflexivity].
    specialize (Hu eq_refl). apply Nat.ltb_lt in Hu.
    unfold numUserLimitOrders in *. simpl. now rewrite Hu. }
  rewrite Huser. simpl bind. unfold readHead. rewrite Hp. simpl bind.
  destruct (limitOrderHead s p) as [c|] eqn:Hh.
  - simpl fillTiesInStackOrder.
    destruct (fillTiesInStackOrder s) eqn:Hst.
    + (* head insertion *)
      unfold writeHead. rewrite Hp.
      eexists. split; [reflexivity|]. simpl.
      split; [|repeat split; auto].
      * eapply rep_insert with (lo := lo) (rest := rest); eauto.
        -- intros h. simpl. intuition.
        -- unfold level; simpl. rewrite upd_head_same. constructor.
           rewrite upd_same. simpl.
           eapply chain_frame; [exact Hc1|].
           intros h Hin. rewrite upd_other; [reflexivity|].
           intros ->. exact (Hlo _ Hin).
        -- intros q N. simpl. now rewrite upd_head_other.
        -- intros h _ N. simpl. rewrite upd_other by assumption.
           unfold m1. now rewrite upd_other.
      * rewrite upd_same. unfold m1. now rewrite upd_same.
      * intros h N. rewrite upd_other by assumption. unfold m1.
        rewrite upd_other by assumption. now destruct (pool s h).
    + (* tail insertion *)
      destruct (chain_Some_inv _ _ _ Hc1) as (l' & El & _).
      rewrite El in Hc1.
      simpl poolSize. simpl pool.
      rewrite (lastOrder_spec m1 l' (poolSize s) c Hc1)
        by (rewrite El in Hroom; simpl in Hroom; lia).
      simpl bind.
      assert (Elast : last l' c = last (B p) lo).
      { rewrite El. destruct l' as [|c' l']; [reflexivity|].
        change (last (c :: c' :: l') lo) with (last (c' :: l') lo).
        apply last_default. discriminate. }
      assert (Hin_last : In (last (B p) lo) (B p)).
      { apply last_In. rewrite El. discriminate. }
      rewrite Elast.
      eexists. split; [reflexivity|]. simpl.
      split; [|repeat split; auto].
      * eapply rep_insert with (lo := lo) (rest := rest); eauto.
        -- intros h. simpl. rewrite in_app_iff. simpl. intuition.
        -- unfold level; simpl. rewrite <- El in Hc1.
           rewrite Hh. apply chain_snoc; auto.
           rewrite El. discriminate.
        -- intros h N1 N2. simpl. rewrite upd_other.
           ++ unfold m1. now rewrite upd_other.
           ++ intros ->. exact (N1 Hin_last).
      * rewrite upd_other by (intros E; apply (Hlo p); rewrite E; exact Hin_last).
        unfold m1. now rewrite upd_same.
      * intros h N.
        destruct (Nat.eq_dec h (last (B p) lo)) as [E|N'].
        -- rewrite <- E. rewrite !upd_same. simpl. unfold m1.
           rewrite upd_other by assumption. reflexivity.
        -- rewrite !upd_other by assumption. unfold m1.
           rewrite upd_other by assumption. now destruct (pool s h).
  - (* empty price *)
    assert (El : B p = []).
    { pose proof (rep_chain _ _ R p) as L. unfold level in L. rewrite Hh in L.
      now apply chain_None_inv in L. }
    unfold writeHead. rewrite Hp.
    eexists. split; [reflexivity|]. simpl.
    split; [|repeat split; auto].
    + eapply rep_insert with (lo := lo) (rest := rest); eauto.
      * intros h. rewrite El. unfold inserted. destruct (fillTiesInStackOrder s); simpl; intuition.
      * unfold level; simpl. rewrite upd_head_same. rewrite El.
        assert (Ei : inserted (fillTiesInStackOrder s) lo [] = [lo])
          by (unfold inserted; now destruct (fillTiesInStackOrder s)).
        rewrite Ei. constructor. rewrite Hm1. constructor.
      * intros q N. simpl. now rewrite upd_head_other.
      * intros h _ N. simpl. unfold m1. now rewrite upd_other.
    + unfold m1. now rewrite upd_same.
    + intros h N. unfold m1. rewrite upd_other by assumption. now destruct (pool s h).
Qed.

(** * Well-formed states *)

Lemma walk_chain m : forall l x fuel,
  chain m x l -> (length l <= fuel)%nat -> walk fuel m x = l.
Proof.
  induction l as [|h l IH]; intros x fuel Hc Hf.
  - apply chain_nil_inv in Hc. subst x. now destruct fuel.
  - apply chain_cons_inv in Hc. destruct Hc as [-> Hc].
    destruct fuel as [|fuel]; [simpl in Hf; lia|].
    simpl. f_equal. apply IH; [exact Hc | simpl in Hf; lia].
Qed.

Lemma rep_ordersAt s B p : rep s B -> ordersAt s p = B p.
Proof.
  intros R. unfold ordersAt. apply walk_chain; [apply (rep_chain _ _ R)|].
  pose proof (rep_room _ _ p R) as Hr. unfold room in Hr. lia.
Qed.

Lemma rep_ext s B B' : (forall p, B p = B' p) -> rep s B -> rep s B'.
Proof.
  intros E R. constructor.
  - intros p. rewrite <- E. apply (rep_chain _ _ R).
  - apply (rep_free _ _ R).
  - intros p h. rewrite <- E. apply (rep_sep _ _ R).
  - intros p q h. rewrite <- !E. apply (rep_levels _ _ R).
  - intros h. rewrite (rep_slots _ _ R h). split; intros [H|[p H]]; auto; right; exists p.
    + now rewrite <- E.
    + now rewrite E.
Qed.

Lemma rep_canonical s B : rep s B -> rep s (ordersAt s).
Proof.
  intros R. apply (rep_ext s B); [|exact R].
  intros p. symmetry. now apply rep_ordersAt.
Qed.

Lemma wf_intro s B : rep s B -> int32 (balance s) -> int32 (sharesOpen s) -> wf s.
Proof. intros R Hb Hn. split; [eapply rep_canonical; eassumption | auto]. Qed.

Lemma int32_0 : int32 0.
Proof. unfold int32. lia. Qed.

Lemma addLimitOrder_Ok p size e u s s' :
  addLimitOrder p size e u s = Ok s' ->
  exists lo rest,
    freeLimitOrders s = lo :: rest /\ inRange p = true /\
    (u = true -> (numUserLimitOrders s < MAX_NUM_USER_LIMIT_ORDERS)%nat).
Proof.
  unfold addLimitOrder. destruct (freeLimitOrders s) as [|lo rest]; [discriminate|].
  intros H. exists lo, rest. split; [reflexivity|].
  inv_bind H. inv_bind H. apply readHead_Ok in Ha0. split; [tauto|].
  intros ->. unfold numUserLimitOrders in *. simpl in Ha.
  destruct (Nat.ltb_spec (length (userLimitOrders s)) MAX_NUM_USER_LIMIT_ORDERS);
    [assumption | discriminate].
Qed.

Lemma updateLimitOrders_Ok p t s s' : updateLimitOrders p t s = Ok s' -> inRange p = true.
Proof. unfold updateLimitOrders. intros H. inv_bind H. now apply readHead_Ok in Ha. Qed.

Lemma fillOrders_Ok p size o sell s r : fillOrders p size o sell s = Ok r -> inRange p = true.
Proof. unfold fillOrders. intros H. inv_bind H. now apply readHead_Ok in Ha. Qed.

Lemma withdraw_fold_next l : forall (m : memory) h,
  limitOrder.next
    (fold_left (fun m h => upd m h (limitOrder.with_expirationTime 0 (m h))) l m h)
  = limitOrder.next (m h).
Proof.
  induction l as [|x l IH]; intros m h; simpl; [reflexivity|].
  rewrite IH. unfold upd. destruct (Nat.eqb_spec h x) as [->|]; reflexivity.
Qed.

(** The operations keep states well-formed. *)

Lemma wf_setup n b : wf (setup n b).
Proof. apply (wf_intro _ _ (setup_rep n b)); apply int32_0. Qed.

Lemma wf_addLimitOrder p size e u s s' :
  wf s -> addLimitOrder p size e u s = Ok s' -> wf s'.
Proof.
  intros (R & Hb & Hn) H.
  destruct (addLimitOrder_Ok _ _ _ _ _ _ H) as (lo & rest & Hf & Hp & Hu).
  destruct (addLimitOrder_rep s _ p size e u lo rest R Hf Hp Hu)
    as (s'' & Hrun & R' & _ & _ & _ & _ & _ & _ & _ & Eb & En & _).
  rewrite Hrun in H. inversion H; subst s''.
  apply (wf_intro _ _ R'); congruence.
Qed.

Lemma wf_updateLimitOrders p t s s' :
  wf s -> updateLimitOrders p t s = Ok s' -> wf s'.
Proof.
  intros (R & Hb & Hn) H.
  pose proof (updateLimitOrders_Ok _ _ _ _ H) as Hp.
  destruct (updateLimitOrders_rep s _ p t R Hp)
    as (s'' & Hrun & R' & _ & _ & _ & (_ & _ & _ & _ & Eb & En & _)).
  rewrite Hrun in H. inversion H; subst s''.
  apply (wf_intro _ _ R'); congruence.
Qed.

Lemma wf_fillOrders p size o sell s s' size' o' :
  wf s -> 0 <= o < 2 ^ 32 -> fillOrders p size o sell s = Ok (s', size', o') -> wf s'.
Proof.
  intros (R & Hb & Hn) Ho H.
  pose proof (fillOrders_Ok _ _ _ _ _ _ H) as Hp.
  destruct (fillOrders_rep s _ p size o sell R Hp Ho Hb Hn)
    as (s'' & Hrun & R' & _ & _ & _ & Eb & En & _).
  rewrite Hrun in H. inversion H; subst s''.
  apply (wf_intro _ _ R'); [rewrite Eb | rewrite En]; apply ledger_int32; exact 0.
Qed.

Lemma wf_withdrawAll s : wf s -> wf (withdrawAll s).
Proof.
  intros (R & Hb & Hn). apply (wf_intro _ (ordersAt s)); auto.
  eapply rep_same_book; [exact R | reflexivity | reflexivity | reflexivity |].
  intros h. unfold withdrawAll; simpl. apply withdraw_fold_next.
Qed.

Lemma wf_with_bid b s : wf s -> wf (with_bid b s).
Proof.
  intros (R & Hb & Hn). apply (wf_intro _ (ordersAt s)); auto.
  eapply rep_same_book; [exact R | reflexivity ..].
Qed.

Lemma wf_with_ask a s : wf s -> wf (with_ask a s).
Proof.
  intros (R & Hb & Hn). apply (wf_intro _ (ordersAt s)); auto.
  eapply rep_same_book; [exact R | reflexivity ..].
Qed.

Lemma wf_with_ledger b q s : wf s -> int32 b -> int32 q -> wf (with_ledger b q s).
Proof.
  intros (R & _ & _) Hb Hq. apply (wf_intro _ (ordersAt s)); auto.
  eapply rep_same_book; [exact R | reflexivity ..].
Qed.

Lemma built_wf s : built s -> wf s.
Proof.
  induction 1.
  - apply wf_setup.
  - eapply wf_addLimitOrder; eassumption.
  - eapply wf_updateLimitOrders; eassumption.
  - eapply wf_fillOrders; eassumption.
  - now apply wf_withdrawAll.
  - now apply wf_with_bid.
  - now apply wf_with_ask.
  - now apply wf_with_ledger.
Qed.

(** * Market orders *)

Lemma marketSellLoop_eq : forall fuel p size t o s,
  marketSellLoop fuel p size t o s = marketLoop true fuel p size t o s.
Proof.
  induction fuel as [|fuel IH]; intros p size t o s; simpl; [reflexivity|].
  destruct (0 <? size); [|reflexivity].
  destruct (p =? UINT_MAX); [reflexivity|].
  destruct (readHead s p) as [[c|]|f]; simpl; [|apply IH|reflexivity].
  destruct (updateLimitOrders p t (with_bid p s)) as [s1|f]; simpl; [|reflexivity].
  destruct (fillOrders p size o true s1) as [[[s2 size'] o']|f]; simpl; [apply IH|reflexivity].
Qed.

Lemma marketBuyLoop_eq : forall fuel p size t o s,
  marketBuyLoop fuel p size t o s = marketLoop false fuel p size t o s.
Proof.
  induction fuel as [|fuel IH]; intros p size t o s; simpl; [reflexivity|].
  destruct (0 <? size); [|reflexivity].
  destruct (NUM_PRICES <=? p); [reflexivity|].
  destruct (readHead s p) as [[c|]|f]; simpl; [|apply IH|reflexivity].
  destruct (updateLimitOrders p t (with_ask p s)) as [s1|f]; simpl; [|reflexivity].
  destruct (fillOrders p size o false s1) as [[[s2 size'] o']|f]; simpl; [apply IH|reflexivity].
Qed.

Lemma pricesFrom_buy p :
  0 <= p < NUM_PRICES -> pricesFrom false p = p :: pricesFrom false (p + 1).
Proof.
  intros H. unfold pricesFrom.
  replace (Z.to_nat (NUM_PRICES - p)) with (S (Z.to_nat (NUM_PRICES - (p + 1)))) by lia.
  reflexivity.
Qed.

Lemma pricesFrom_sell p :
  0 <= p -> pricesFrom true p = p :: pricesFrom true (p - 1).
Proof.
  intros H. unfold pricesFrom.
  replace (Z.to_nat (p + 1)) with (S (Z.to_nat (p - 1 + 1))) by lia.
  reflexivity.
Qed.

Lemma pricesStep_In dir : forall n p q,
  In q (pricesStep dir n p) -> exists k, (k < n)%nat /\ q = p + Z.of_nat k * dir.
Proof.
  induction n as [|n IH]; intros p q H; simpl in H; [contradiction|].
  destruct H as [<-|H].
  - exists 0%nat. split; lia.
  - destruct (IH _ _ H) as (k & Hk & ->). exists (S k). split; lia.
Qed.

Lemma pricesFrom_beyond sell p q :
  In q (pricesFrom sell p) -> if sell then 0 <= q <= p else p <= q < NUM_PRICES.
Proof.
  unfold pricesFrom. destruct sell; intros H; apply pricesStep_In in H;
    destruct H as (k & Hk & ->); lia.
Qed.

Lemma portions_ext m m' l :
  (forall h, In h l -> limitOrder.size (m' h) = limitOrder.size (m h)) ->
  forall size, portions m' l size = portions m l size.
Proof.
  induction l as [|h l IH]; intros E size; simpl; [reflexivity|].
  rewrite E by now left.
  destruct (limitOrder.size (m h) <=? size); [|reflexivity].
  f_equal. apply IH. intros h' Hin. apply E. now right.
Qed.

Lemma quantity_portions_le m l : forall size,
  0 <= size -> 0 <= size - quantity (portions m l size).
Proof.
  induction l as [|h l IH]; intros size Hs; simpl.
  - unfold quantity; simpl. lia.
  - destruct (Z.leb_spec (limitOrder.size (m h)) size).
    + rewrite quantity_cons. specialize (IH (size - limitOrder.size (m h))). lia.
    + rewrite quantity_cons. unfold quantity; simpl. lia.
Qed.

Lemma notional_app P Q : notional (P ++ Q) = notional P + notional Q.
Proof. unfold notional. induction P as [|x P IH]; simpl; [reflexivity | rewrite IH; lia]. Qed.

Lemma volume_app P Q : volume (P ++ Q) = volume P + volume Q.
Proof. unfold volume. induction P as [|x P IH]; simpl; [reflexivity | rewrite IH; lia]. Qed.

Lemma notional_level p F :
  notional (map (fun x : nat * Z => (p, fst x, snd x)) F) = quantity F * p.
Proof.
  unfold notional, quantity. induction F as [|x F IH]; simpl; [reflexivity | rewrite IH; lia].
Qed.

Lemma volume_level p F :
  volume (map (fun x : nat * Z => (p, fst x, snd x)) F) = quantity F.
Proof.
  unfold volume, quantity. induction F as [|x F IH]; simpl; [reflexivity | now rewrite IH].
Qed.

(** The portions depend on the prices scanned only. *)
Lemma bookPortions_ext s s' t ps :
  (forall q, In q ps ->
     ordersAt s' q = ordersAt s q /\
     forall h, In h (ordersAt s q) ->
       limitOrder.size (pool s' h) = limitOrder.size (pool s h) /\
       limitOrder.expirationTime (pool s' h) = limitOrder.expirationTime (pool s h)) ->
  forall size, bookPortions s' t ps size = bookPortions s t ps size.
Proof.
  induction ps as [|p ps IH]; intros E size; simpl; [reflexivity|].
  destruct (0 <? size); [|reflexivity].
  destruct (E p (or_introl eq_refl)) as [E1 E2]. rewrite E1.
  assert (Ef : filter (alive (pool s') t) (ordersAt s p)
               = filter (alive (pool s) t) (ordersAt s p)).
  { apply filter_ext_in. intros h Hin. unfold alive, expired.
    now rewrite (proj2 (E2 h Hin)). }
  rewrite Ef.
  assert (Ep : portions (pool s') (filter (alive (pool s) t) (ordersAt s p)) size
               = portions (pool s) (filter (alive (pool s) t) (ordersAt s p)) size).
  { apply portions_ext. intros h Hin. apply filter_In in Hin. apply E2. tauto. }
  rewrite Ep. f_equal. apply IH. intros q Hq. apply E. now right.
Qed.

Lemma bookPortions_done s t ps size : size <= 0 -> bookPortions s t ps size = [].
Proof.
  intros H. destruct ps; simpl; [reflexivity|].
  destruct (Z.ltb_spec 0 size); [lia | reflexivity].
Qed.

Lemma walk_None fuel m : walk fuel m None = [].
Proof. now destruct fuel. Qed.

Lemma u32_minus_one : u32 (-1) = UINT_MAX.
Proof. reflexivity. Qed.

Lemma wf_quote (sell : bool) z s : wf s -> wf (if sell then with_bid z s else with_ask z s).
Proof. destruct sell; [apply wf_with_bid | apply wf_with_ask]. Qed.

(** The scan of a market order, for the two directions at once: the state
    stays well-formed, the amount accumulated is the notional of the
    portions modulo [2 ^ 32], the portions add up to the size of the order,
    and the quote on the side of the scan moves to a scanned price. *)
Lemma marketLoop_spec sell t : forall fuel z size o s s' o',
  wf s -> 0 <= o < 2 ^ 32 -> 0 <= size -> -1 <= z <= UINT_MAX ->
  marketLoop sell fuel (u32 z) size t o s = Ok (s', o') ->
  wf s' /\
  o' = u32 (o + notional (bookPortions s t (pricesFrom sell z) size)) /\
  volume (bookPortions s t (pricesFrom sell z) size) = size /\
  (if sell then ask s' = ask s /\ (bid s' = bid s \/ 0 <= bid s' <= z)
   else bid s' = bid s /\ (ask s' = ask s \/ z <= ask s' < NUM_PRICES)).
Proof.
  assert (Done : forall p size o s s' o',
             wf s -> 0 <= o < 2 ^ 32 -> 0 <= size -> (0 <? size) = false ->
             Ok (s, o) = Ok (s', o') ->
             forall ps,
             wf s' /\ o' = u32 (o + notional (bookPortions s t ps size)) /\
             volume (bookPortions s t ps size) = size /\
             (if sell then ask s' = ask s /\ (bid s' = bid s \/ 0 <= bid s' <= p)
              else bid s' = bid s /\ (ask s' = ask s \/ p <= ask s' < NUM_PRICES))).
  { intros p size o s s' o' W Ho Hs Hlt E ps. inversion E; subst s' o'.
    apply Z.ltb_ge in Hlt. rewrite bookPortions_done by assumption.
    unfold notional, volume; simpl. rewrite Z.add_0_r, (u32_small _ Ho).
    split; [exact W|]. split; [reflexivity|]. split; [lia|].
    destruct sell; auto. }
  induction fuel as [|fuel IH]; intros z size o s s' o' W Ho Hs Hz Hrun.
  { simpl in Hrun. destruct (0 <? size) eqn:Hlt; [discriminate|].
    eapply Done; eauto. }
  simpl in Hrun. destruct (0 <? size) eqn:Hlt; [|eapply Done; eauto].
  assert (Hzr : 0 <= z < NUM_PRICES /\ u32 z = z).
  { destruct (Z.eq_dec z (-1)) as [->|Nz].
    - rewrite u32_minus_one in Hrun. destruct sell; simpl in Hrun; discriminate.
    - assert (Ez : u32 z = z) by (apply u32_small; unfold UINT_MAX in Hz; lia).
      rewrite Ez in Hrun. split; [|exact Ez].
      destruct (if sell then z =? UINT_MAX else NUM_PRICES <=? z); [discriminate|].
      apply bind_Ok in Hrun. destruct Hrun as (hd & Hhd & _).
      apply readHead_Ok in Hhd. now apply inRange_iff. }
  destruct Hzr as [Hzr Ez]. rewrite Ez in Hrun.
  assert (Hexit : (if sell then z =? UINT_MAX else NUM_PRICES <=? z) = false).
  { destruct sell; [apply Z.eqb_neq; unfold UINT_MAX, NUM_PRICES in *; lia
                   | apply Z.leb_gt; lia]. }
  rewrite Hexit in Hrun.
  assert (Hp : inRange z = true) by now apply inRange_iff.
  unfold readHead in Hrun. rewrite Hp in Hrun. simpl bind in Hrun.
  set (z' := if sell then z - 1 else z + 1) in *.
  assert (Hz' : -1 <= z' <= UINT_MAX)
    by (unfold z', UINT_MAX, NUM_PRICES in *; destruct sell; lia).
  assert (Eprices : pricesFrom sell z = z :: pricesFrom sell z').
  { unfold z'. destruct sell; [apply pricesFrom_sell | apply pricesFrom_buy]; lia. }
  rewrite Eprices. simpl bookPortions. rewrite Hlt.
  destruct W as (R & Hb & Hn).
  destruct (limitOrderHead s z) as [c|] eqn:Hh.
  - (* a price with orders *)
    set (s1 := if sell then with_bid z s else with_ask z s) in *.
    assert (W1 : wf s1) by (apply wf_quote; exact (conj R (conj Hb Hn))).
    assert (Es1 : pool s1 = pool s /\ ordersAt s1 = ordersAt s /\
                  balance s1 = balance s /\ sharesOpen s1 = sharesOpen s /\
                  freeLimitOrders s1 = freeLimitOrders s)
      by (unfold s1; destruct sell; repeat split).
    destruct Es1 as (Epool1 & Eord1 & Ebal1 & Esh1 & Efree1).
    destruct W1 as (R1 & _ & _).
    destruct (updateLimitOrders_rep s1 _ z t R1 Hp)
      as (s2 & Hrun2 & R2 & Hfree2 & Hrel2 & Hoth2 & Hrest2).
    rewrite Hrun2 in Hrun. simpl bind in Hrun.
    rewrite Epool1, Eord1 in *.
    set (live := filter (alive (pool s) t) (ordersAt s z)) in *.
    destruct Hrest2 as (Eps2 & Ebid2 & Eask2 & Eusr2 & Ebal2 & Esh2 & Efl2).
    destruct (fillOrders_rep s2 _ z size o sell R2 Hp Ho)
      as (s3 & Hrun3 & R3 & Hpool3 & Hfree3 & Husr3 & Hbal3 & Hsh3 & Hps3 & Hbid3 & Hask3 & Hfl3).
    { rewrite Ebal2, Ebal1. exact Hb. }
    { rewrite Esh2, Esh1. exact Hn. }
    rewrite Z.eqb_refl in *.
    assert (Eport : portions (pool s2) live size = portions (pool s) live size).
    { apply portions_ext. intros h _. apply (relinked_data _ _ _ h Hrel2). }
    rewrite Eport in *.
    set (F := portions (pool s) live size) in *.
    rewrite Hrun3 in Hrun. simpl bind in Hrun.
    assert (W3 : wf s3).
    { apply (wf_intro _ _ R3); [rewrite Hbal3 | rewrite Hsh3]; apply ledger_int32; exact 0. }
    assert (Hs' : 0 <= size - quantity F) by (apply quantity_portions_le; assumption).
    assert (Ho' : 0 <= u32 (o + quantity F * z) < 2 ^ 32)
      by (unfold u32; apply Z.mod_pos_bound; lia).
    destruct (IH z' _ _ _ _ _ W3 Ho' Hs' Hz' Hrun) as (W' & Eo' & Evol & Hq).
    assert (Ebook : bookPortions s3 t (pricesFrom sell z') (size - quantity F)
                    = bookPortions s t (pricesFrom sell z') (size - quantity F)).
    { apply bookPortions_ext. intros q Hq'.
      assert (Nq : q <> z).
      { apply pricesFrom_beyond in Hq'. unfold z' in Hq'. destruct sell; lia. }
      assert (Eq3 : ordersAt s3 q = ordersAt s q).
      { rewrite (rep_ordersAt _ _ q R3).
        apply Z.eqb_neq in Nq. now rewrite !Nq. }
      split; [exact Eq3|].
      intros h Hin.
      assert (Nin : ~ In h (ordersAt s z)).
      { intros Hin'. apply Nq. exact (rep_levels _ _ R _ _ _ Hin Hin'). }
      rewrite Hpool3, afterFill_other.
      - destruct (relinked_data _ _ _ h Hrel2) as (E1 & _ & E2 & _). auto.
      - intros Hin'. apply Nin. unfold live in Hin'. apply filter_In in Hin'. tauto. }
    rewrite Ebook in *.
    split; [exact W'|]. split; [|split].
    + rewrite Eo', notional_app, notional_level, u32_idem_l. f_equal. lia.
    + rewrite volume_app, volume_level. lia.
    + rewrite Hbid3, Hask3, Ebid2, Eask2 in Hq.
      unfold s1, z' in *. destruct sell; simpl in Hq; destruct Hq as [Hq1 Hq2];
        (split; [exact Hq1|]); right; lia.
  - (* an empty price *)
    assert (El : ordersAt s z = []) by (unfold ordersAt; rewrite Hh; apply walk_None).
    rewrite El. simpl. try unfold quantity; simpl. rewrite Z.sub_0_r.
    destruct (IH z' _ _ _ _ _ (conj R (conj Hb Hn)) Ho Hs Hz' Hrun) as (W' & Eo' & Evol & Hq).
    split; [exact W'|]. split; [exact Eo'|]. split; [exact Evol|].
    unfold z' in *. destruct sell; destruct Hq as [Hq1 Hq2];
      (split; [exact Hq1|]); destruct Hq2; auto; right; lia.
Qed.

(** * The refresh of the bid and the ask *)

Lemma sameButQuotes_refl s : sameButQuotes s s.
Proof. repeat split. Qed.

Lemma sameButQuotes_trans s1 s2 s3 :
  sameButQuotes s1 s2 -> sameButQuotes s2 s3 -> sameButQuotes s1 s3.
Proof.
  unfold sameButQuotes. intros (A1 & A2 & A3 & A4 & A5 & A6 & A7 & A8)
                               (B1 & B2 & B3 & B4 & B5 & B6 & B7 & B8).
  repeat split; congruence.
Qed.

Lemma sameButQuotes_ordersAt s s' p : sameButQuotes s s' -> ordersAt s' p = ordersAt s p.
Proof.
  intros (A1 & A2 & _ & A4 & _). unfold ordersAt. now rewrite A1, A2, A4.
Qed.

Lemma sameButQuotes_wf s s' : sameButQuotes s s' -> wf s -> wf s'.
Proof.
  intros (A1 & A2 & A3 & A4 & A5 & A6 & A7 & A8) (R & Hb & Hn).
  apply (wf_intro _ (ordersAt s)); [|congruence|congruence].
  eapply rep_same_book; [exact R | assumption | assumption | assumption |].
  intros h. now rewrite A2.
Qed.

Lemma lowerBid_spec : forall fuel s s',
  lowerBid fuel s = Ok s' ->
  sameButQuotes s s' /\ ask s' = ask s /\
  0 <= bid s' <= bid s /\ bid s < NUM_PRICES /\
  limitOrderHead s (bid s') <> None /\
  (forall q, bid s' < q <= bid s -> limitOrderHead s q = None).
Proof.
  induction fuel as [|fuel IH]; intros s s' H; simpl in H;
    inv_bind H; apply readHead_Ok in Ha; destruct Ha as [Hr ->];
    apply inRange_iff in Hr;
    destruct (limitOrderHead s (bid s)) as [c|] eqn:Hh; try discriminate.
  - inversion H; subst s'. rewrite Hh.
    repeat split; auto; try lia; try discriminate; try (intros q Hq; lia).
  - inversion H; subst s'. rewrite Hh.
    repeat split; auto; try lia; try discriminate; try (intros q Hq; lia).
  - destruct (u32 (bid s - 1) =? UINT_MAX) eqn:Hw; [discriminate|].
    apply Z.eqb_neq in Hw.
    assert (Eb : u32 (bid s - 1) = bid s - 1).
    { destruct (Z.eq_dec (bid s) 0) as [E0|N0].
      - rewrite E0 in Hw. exfalso. apply Hw. reflexivity.
      - apply u32_small. unfold NUM_PRICES in Hr. lia. }
    rewrite Eb in H.
    destruct (IH _ _ H) as (S1 & A1 & A2 & A3 & A4 & A5).
    simpl in *. split.
    + eapply sameButQuotes_trans; [|exact S1]. repeat split.
    + repeat split; auto; try lia.
      intros q Hq. destruct (Z.eq_dec q (bid s)) as [->|N]; [exact Hh|].
      apply A5. lia.
Qed.

Lemma raiseAsk_spec : forall fuel s s',
  raiseAsk fuel s = Ok s' ->
  sameButQuotes s s' /\ bid s' = bid s /\
  ask s <= ask s' < NUM_PRICES /\ 0 <= ask s /\
  limitOrderHead s (ask s') <> None /\
  (forall q, ask s <= q < ask s' -> limitOrderHead s q = None).
Proof.
  induction fuel as [|fuel IH]; intros s s' H; simpl in H;
    inv_bind H; apply readHead_Ok in Ha; destruct Ha as [Hr ->];
    apply inRange_iff in Hr;
    destruct (limitOrderHead s (ask s)) as [c|] eqn:Hh; try discriminate.
  - inversion H; subst s'. rewrite Hh.
    repeat split; auto; try lia; try discriminate; try (intros q Hq; lia).
  - inversion H; subst s'. rewrite Hh.
    repeat split; auto; try lia; try discriminate; try (intros q Hq; lia).
  - assert (Ea : u32 (ask s + 1) = ask s + 1)
      by (apply u32_small; unfold NUM_PRICES in Hr; lia).
    rewrite Ea in H.
    destruct (NUM_PRICES <=? ask s + 1) eqn:Hw; [discriminate|].
    destruct (IH _ _ H) as (S1 & A1 & A2 & A3 & A4 & A5).
    simpl in *. split.
    + eapply sameButQuotes_trans; [|exact S1]. repeat split.
    + repeat split; auto; try lia.
      intros q Hq. destruct (Z.eq_dec q (ask s)) as [->|N]; [exact Hh|].
      apply A5. lia.
Qed.

(** After [updateBidAndAsk] the lists of the bid and of the ask are not
    empty, the prices passed over are empty, and nothing else has changed. *)
Lemma updateBidAndAsk_spec s s' :
  updateBidAndAsk s = Ok s' ->
  sameButQuotes s s' /\
  0 <= bid s' <= bid s /\ ask s <= ask s' < NUM_PRICES /\
  limitOrderHead s' (bid s') <> None /\ limitOrderHead s' (ask s') <> None /\
  (forall q, bid s' < q <= bid s -> limitOrderHead s' q = None) /\
  (forall q, ask s <= q < ask s' -> limitOrderHead s' q = None).
Proof.
  unfold updateBidAndAsk. intros H. inv_bind H.
  destruct (lowerBid_spec _ _ _ Ha) as (S1 & A1 & A2 & A3 & A4 & A5).
  destruct (raiseAsk_spec _ _ _ H) as (S2 & B1 & B2 & B3 & B4 & B5).
  pose proof (sameButQuotes_trans _ _ _ S1 S2) as S3.
  destruct S1 as (_ & _ & _ & Eh1 & _), S2 as (_ & _ & _ & Eh2 & _).
  split; [exact S3|].
  rewrite Eh2, Eh1, B1. rewrite Eh1 in B4, B5. rewrite A1 in B2, B5.
  repeat split; auto; lia.
Qed.

Lemma head_ordersAt s p : wf s -> (limitOrderHead s p = None <-> ordersAt s p = []).
Proof.
  intros (R & _ & _). pose proof (rep_chain _ _ R p) as L. unfold level in L.
  split; intros E.
  - unfold ordersAt. rewrite E. apply walk_None.
  - rewrite E in L. now apply chain_nil_inv in L.
Qed.

(** * One price of a market order *)

Lemma marketLoop_done sell fuel p size t o s :
  size <= 0 -> marketLoop sell fuel p size t o s = Ok (s, o).
Proof.
  intros H. destruct fuel; simpl; destruct (Z.ltb_spec 0 size); try lia; reflexivity.
Qed.

Lemma marketLoop_exit_false (sell : bool) z :
  0 <= z < NUM_PRICES -> (if sell then z =? UINT_MAX else NUM_PRICES <=? z) = false.
Proof.
  intros H. destruct sell; [apply Z.eqb_neq; unfold UINT_MAX, NUM_PRICES in *; lia
                           | apply Z.leb_gt; lia].
Qed.

(** An empty price is passed over. *)
Lemma marketLoop_skip sell t fuel z size o s :
  0 < size -> 0 <= z < NUM_PRICES -> limitOrderHead s z = None ->
  marketLoop sell (S fuel) z size t o s
  = marketLoop sell fuel (u32 (if sell then z - 1 else z + 1)) size t o s.
Proof.
  intros Hs Hz Hh. simpl.
  destruct (Z.ltb_spec 0 size); [|lia].
  rewrite (marketLoop_exit_false sell z Hz).
  unfold readHead. rewrite (proj2 (inRange_iff z) Hz). simpl. now rewrite Hh.
Qed.

(** A price with orders: the quote moves there, the expired orders are
    swept, the request is filled from the others, and the scan goes on. *)
Lemma marketLoop_step sell t fuel z size o s :
  wf s -> 0 <= o < 2 ^ 32 -> 0 < size -> 0 <= z < NUM_PRICES ->
  limitOrderHead s z <> None ->
  exists s3,
    marketLoop sell (S fuel) z size t o s
    = marketLoop sell fuel (u32 (if sell then z - 1 else z + 1))
        (size - quantity (portions (pool s) (filter (alive (pool s) t) (ordersAt s z)) size))
        t
        (u32 (o + quantity (portions (pool s) (filter (alive (pool s) t) (ordersAt s z)) size) * z))
        s3 /\
    wf s3 /\
    (if sell then bid s3 = z /\ ask s3 = ask s else ask s3 = z /\ bid s3 = bid s) /\
    ordersAt s3 z = unfilled (pool s) (filter (alive (pool s) t) (ordersAt s z)) size /\
    (forall q, q <> z -> ordersAt s3 q = ordersAt s q) /\
    freeLimitOrders s3
      = rev (filled (pool s) (filter (alive (pool s) t) (ordersAt s z)) size)
        ++ rev (filter (expired (pool s) t) (ordersAt s z)) ++ freeLimitOrders s /\
    balance s3
      = ledgerBalance sell (balance s)
          (quantity (userPortions (pool s)
             (portions (pool s) (filter (alive (pool s) t) (ordersAt s z)) size))) z /\
    sharesOpen s3
      = ledgerShares sell (sharesOpen s)
          (quantity (userPortions (pool s)
             (portions (pool s) (filter (alive (pool s) t) (ordersAt s z)) size))) /\
    (forall h, ~ In h (ordersAt s z) ->
       limitOrder.size (pool s3 h) = limitOrder.size (pool s h) /\
       limitOrder.expirationTime (pool s3 h) = limitOrder.expirationTime (pool s h) /\
       limitOrder.user (pool s3 h) = limitOrder.user (pool s h)) /\
    poolSize s3 = poolSize s /\
    userLimitOrders s3
      = deleteUserOrders
          (userOwned (pool s) (filled (pool s) (filter (alive (pool s) t) (ordersAt s z)) size))
          (userLimitOrders s) /\
    (forall h,
       limitOrder.size (pool s3 h)
       = limitOrder.size
           (afterFill (pool s) (filter (alive (pool s) t) (ordersAt s z)) size h)).
Proof.
  intros W Ho Hs Hz Hh.
  assert (Hp : inRange z = true) by now apply inRange_iff.
  simpl marketLoop. destruct (Z.ltb_spec 0 size); [|lia].
  rewrite (marketLoop_exit_false sell z Hz).
  unfold readHead. rewrite Hp. simpl bind.
  destruct (limitOrderHead s z) as [c|] eqn:Ehd; [clear Hh|congruence].
  destruct W as (R & Hb & Hn).
  set (s1 := if sell then with_bid z s else with_ask z s) in *.
  assert (W1 : wf s1) by (apply wf_quote; exact (conj R (conj Hb Hn))).
  assert (Es1 : pool s1 = pool s /\ ordersAt s1 = ordersAt s /\
                balance s1 = balance s /\ sharesOpen s1 = sharesOpen s /\
                freeLimitOrders s1 = freeLimitOrders s /\ poolSize s1 = poolSize s /\
                (if sell then bid s1 = z /\ ask s1 = ask s else ask s1 = z /\ bid s1 = bid s))
    by (unfold s1; destruct sell; repeat split).
  destruct Es1 as (Epool1 & Eord1 & Ebal1 & Esh1 & Efree1 & Eps1 & Eq1).
  destruct W1 as (R1 & _ & _).
  destruct (updateLimitOrders_rep s1 _ z t R1 Hp)
    as (s2 & Hrun2 & R2 & Hfree2 & Hrel2 & Hoth2 & Hrest2).
  rewrite Hrun2. simpl bind.
  rewrite Epool1, Eord1 in *.
  set (live := filter (alive (pool s) t) (ordersAt s z)) in *.
  destruct Hrest2 as (Eps2 & Ebid2 & Eask2 & Eusr2 & Ebal2 & Esh2 & Efl2).
  destruct (fillOrders_rep s2 _ z size o sell R2 Hp Ho)
    as (s3 & Hrun3 & R3 & Hpool3 & Hfree3 & Husr3 & Hbal3 & Hsh3 & Hps3 & Hbid3 & Hask3 & Hfl3).
  { rewrite Ebal2, Ebal1. exact Hb. }
  { rewrite Esh2, Esh1. exact Hn. }
  rewrite Z.eqb_refl in *.
  assert (Eport : portions (pool s2) live size = portions (pool s) live size).
  { apply portions_ext. intros h _. apply (relinked_data _ _ _ h Hrel2). }
  assert (Esz : forall h, limitOrder.size (pool s2 h) = limitOrder.size (pool s h))
    by (intros h; apply (relinked_data _ _ _ h Hrel2)).
  assert (Eus : forall h, limitOrder.user (pool s2 h) = limitOrder.user (pool s h))
    by (intros h; apply (relinked_data _ _ _ h Hrel2)).
  assert (Efilled : forall l sz, filled (pool s2) l sz = filled (pool s) l sz).
  { induction l as [|h l IHl]; intros sz; simpl; [reflexivity|].
    rewrite Esz. destruct (limitOrder.size (pool s h) <=? sz); [|reflexivity].
    f_equal. apply IHl. }
  assert (Eunfilled : forall l sz, unfilled (pool s2) l sz = unfilled (pool s) l sz).
  { induction l as [|h l IHl]; intros sz; simpl; [reflexivity|].
    rewrite Esz. destruct (limitOrder.size (pool s h) <=? sz); [|reflexivity].
    apply IHl. }
  assert (Euser : forall F, userPortions (pool s2) F = userPortions (pool s) F).
  { intros F. unfold userPortions. apply filter_ext. intros x. apply Eus. }
  assert (Eowned : forall l, userOwned (pool s2) l = userOwned (pool s) l).
  { intros l. unfold userOwned. apply filter_ext. intros x. apply Eus. }
  assert (Eremaining : forall l sz, remaining (pool s2) l sz = remaining (pool s) l sz).
  { induction l as [|h l IHl]; intros sz; simpl; [reflexivity|].
    rewrite Esz. destruct (limitOrder.size (pool s h) <=? sz); [|reflexivity].
    apply IHl. }
  assert (Eafter : forall h, limitOrder.size (afterFill (pool s2) live size h)
                             = limitOrder.size (afterFill (pool s) live size h)).
  { intros h. unfold afterFill. rewrite Eunfilled, Eremaining.
    destruct (unfilled (pool s) live size) as [|c0 r]; [apply Esz|].
    unfold upd. destruct (Nat.eqb h c0); [simpl; now rewrite Esz | apply Esz]. }
  rewrite Eport, Efilled, Eunfilled, Euser, Eowned in *.
  rewrite Hrun3. simpl bind.
  exists s3. split; [reflexivity|].
  split; [apply (wf_intro _ _ R3); [rewrite Hbal3 | rewrite Hsh3]; apply ledger_int32; exact 0|].
  split; [rewrite Hbid3, Hask3, Ebid2, Eask2; exact Eq1|].
  split; [rewrite (rep_ordersAt _ _ z R3); now rewrite Z.eqb_refl|].
  split.
  { intros q N. rewrite (rep_ordersAt _ _ q R3). apply Z.eqb_neq in N. now rewrite !N. }
  split; [rewrite Hfree3, Hfree2, Efree1; reflexivity|].
  split; [rewrite Hbal3, Ebal2, Ebal1; reflexivity|].
  split; [rewrite Hsh3, Esh2, Esh1; reflexivity|].
  split.
  { intros h Nin. rewrite Hpool3, afterFill_other.
    - destruct (relinked_data _ _ _ h Hrel2) as (E1 & _ & E2 & E3). auto.
    - intros Hin. apply Nin. unfold live in Hin. apply filter_In in Hin. tauto. }
  split; [congruence|]. split.
  - rewrite Husr3, Eusr2. unfold s1. now destruct sell.
  - intros h. rewrite Hpool3. apply Eafter.
Qed.

Lemma unfilled_nil m l : forall size,
  0 < size - quantity (portions m l size) -> unfilled m l size = [].
Proof.
  induction l as [|h l IH]; intros size H; simpl in *; [reflexivity|].
  destruct (limitOrder.size (m h) <=? size).
  - rewrite quantity_cons in H. apply IH. lia.
  - rewrite quantity_cons in H. unfold quantity in H; simpl in H. lia.
Qed.

Lemma marketLoop_fault_outside sell t fuel z size o s r :
  0 < size -> z = -1 \/ NUM_PRICES <= z <= UINT_MAX ->
  marketLoop sell fuel (u32 z) size t o s = Ok r -> False.
Proof.
  intros Hs Hz H. destruct fuel; simpl in H; (destruct (Z.ltb_spec 0 size); [|lia]);
    [discriminate|].
  destruct Hz as [->|Hz].
  - rewrite u32_minus_one in H. destruct sell; simpl in H; discriminate.
  - rewrite u32_small in H by (unfold UINT_MAX, NUM_PRICES in Hz; lia).
    destruct sell.
    + destruct (z =? UINT_MAX); [discriminate|].
      unfold readHead in H.
      assert (E : inRange z = false).
      { unfold inRange. destruct (Z.ltb_spec z NUM_PRICES); [lia|]. apply andb_false_r. }
      rewrite E in H. discriminate.
    + destruct (Z.leb_spec NUM_PRICES z); [discriminate | lia].
Qed.

(** Where a market order leaves the quote of its side: either no price has
    been visited and the book is as before, or the quote is the last price
    visited; that price had orders, the prices scanned before it are empty
    and the prices outside the scan are as before. *)
Lemma marketLoop_quote sell t : forall fuel z size o s s' o',
  wf s -> 0 <= o < 2 ^ 32 -> -1 <= z <= NUM_PRICES ->
  marketLoop sell fuel (u32 z) size t o s = Ok (s', o') ->
  (quote sell s' = quote sell s /\ forall q, ordersAt s' q = ordersAt s q) \/
  (scanned sell z (quote sell s') (quote sell s') /\
   0 <= quote sell s' < NUM_PRICES /\
   limitOrderHead s (quote sell s') <> None /\
   (forall q, scanned sell z (quote sell s') q -> q <> quote sell s' -> ordersAt s' q = []) /\
   (forall q, ~ scanned sell z (quote sell s') q -> ordersAt s' q = ordersAt s q)).
Proof.
  induction fuel as [|fuel IH]; intros z size o s s' o' W Ho Hz Hrun.
  { simpl in Hrun. destruct (0 <? size); [discriminate|].
    inversion Hrun; subst. left. auto. }
  destruct (Z.ltb_spec 0 size) as [Hs|Hs].
  2:{ rewrite marketLoop_done in Hrun by assumption. inversion Hrun; subst. left. auto. }
  assert (Hzr : 0 <= z < NUM_PRICES).
  { destruct (Z.eq_dec z (-1)) as [E|N].
    - exfalso. apply (marketLoop_fault_outside sell t (S fuel) z size o s (s', o'));
        [exact Hs | left; exact E | exact Hrun].
    - destruct (Z.eq_dec z NUM_PRICES) as [E|N'].
      + exfalso. apply (marketLoop_fault_outside sell t (S fuel) z size o s (s', o'));
          [exact Hs | right; unfold UINT_MAX, NUM_PRICES in *; lia | exact Hrun].
      + lia. }
  assert (Ez : u32 z = z) by (apply u32_small; unfold NUM_PRICES in Hzr; lia).
  rewrite Ez in Hrun.
  set (z' := if sell then z - 1 else z + 1) in *.
  assert (Hz' : -1 <= z' <= NUM_PRICES) by (unfold z'; destruct sell; lia).
  destruct (limitOrderHead s z) as [c|] eqn:Hh.
  - (* a price with orders *)
    destruct (marketLoop_step sell t fuel z size o s W Ho Hs Hzr)
      as (s3 & Estep & W3 & Hq3 & Hz3 & Hoth3 & _).
    { rewrite Hh. discriminate. }
    rewrite Estep in Hrun. fold z' in Hrun.
    set (F := portions (pool s) (filter (alive (pool s) t) (ordersAt s z)) size) in *.
    assert (Eq3 : quote sell s3 = z) by (unfold quote; destruct sell; tauto).
    assert (Hhz : limitOrderHead s z <> None) by (rewrite Hh; discriminate).
    assert (Here : scanned sell z z z) by (unfold scanned; destruct sell; lia).
    destruct (Z.ltb_spec 0 (size - quantity F)) as [Hs'|Hs'].
    2:{ rewrite marketLoop_done in Hrun by assumption. inversion Hrun; subst s' o'.
        right. rewrite Eq3. repeat split; auto; try lia.
        - intros q Hq N. exfalso. unfold scanned in Hq. destruct sell; lia.
        - intros q Hq. apply Hoth3. intros ->. exact (Hq Here). }
    assert (Ho' : 0 <= u32 (o + quantity F * z) < 2 ^ 32)
      by (unfold u32; apply Z.mod_pos_bound; lia).
    assert (Hempty : ordersAt s3 z = []) by (rewrite Hz3; now apply unfilled_nil).
    destruct (IH z' _ _ _ _ _ W3 Ho' Hz' Hrun) as [(Eq & Hsame) | (Hv & Hvr & Hhv & Hpass & Hout)].
    + right. rewrite Eq, Eq3. repeat split; auto; try lia.
      * intros q Hq N. exfalso. unfold scanned in Hq. destruct sell; lia.
      * intros q Hq. rewrite Hsame. apply Hoth3. intros ->. exact (Hq Here).
    + set (v := quote sell s') in *.
      assert (Nv : v <> z) by (unfold scanned, z' in Hv; destruct sell; lia).
      right. repeat split; auto; try lia.
      * unfold scanned, z' in *. destruct sell; lia.
      * intros E. apply Hhv. apply (head_ordersAt s3 v W3).
        rewrite (Hoth3 v Nv). now apply (head_ordersAt s v W).
      * intros q Hq N. destruct (Z.eq_dec q z) as [->|Nq].
        -- rewrite Hout; [exact Hempty|]. unfold scanned, z'. destruct sell; lia.
        -- apply Hpass; [|exact N]. unfold scanned, z' in *. destruct sell; lia.
      * intros q Hq. rewrite Hout.
        -- apply Hoth3. intros ->. apply Hq. unfold scanned, z' in *. destruct sell; lia.
        -- intros Hq'. apply Hq. unfold scanned, z' in *. destruct sell; lia.
  - (* an empty price *)
    rewrite (marketLoop_skip sell t fuel z size o s Hs Hzr Hh) in Hrun. fold z' in Hrun.
    assert (Hempty : ordersAt s z = []) by (now apply head_ordersAt).
    destruct (IH z' _ _ _ _ _ W Ho Hz' Hrun) as [(Eq & Hsame) | (Hv & Hvr & Hhv & Hpass & Hout)].
    + left. auto.
    + set (v := quote sell s') in *.
      assert (Nv : v <> z) by (unfold scanned, z' in Hv; destruct sell; lia).
      right. repeat split; auto; try lia.
      * unfold scanned, z' in *. destruct sell; lia.
      * intros q Hq N. destruct (Z.eq_dec q z) as [->|Nq].
        -- rewrite Hout; [exact Hempty|]. unfold scanned, z'. destruct sell; lia.
        -- apply Hpass; [|exact N]. unfold scanned, z' in *. destruct sell; lia.
      * intros q Hq. apply Hout.
        intros Hq'. apply Hq. unfold scanned, z' in *. destruct sell; lia.
Qed.

(** A market order returns, or it stops with the fault of the side that it
    has exhausted: with the fuel of [marketSell] and [marketBuy] the scan
    never runs out of fuel and never leaves the array of prices. *)
Lemma marketLoop_returns sell t : forall fuel z size o s,
  wf s -> 0 <= o < 2 ^ 32 -> -1 <= z <= NUM_PRICES -> (sell = true -> z < NUM_PRICES) ->
  (if sell then z + 2 <= Z.of_nat fuel else NUM_PRICES - z + 1 <= Z.of_nat fuel) ->
  marketLoop sell fuel (u32 z) size t o s
    = Fault (if sell then BuySideExhausted else SellSideExhausted) \/
  exists s' o', marketLoop sell fuel (u32 z) size t o s = Ok (s', o').
Proof.
  induction fuel as [|fuel IH]; intros z size o s W Ho Hz Hsell Hfuel.
  { exfalso. destruct sell; lia. }
  destruct (Z.ltb_spec 0 size) as [Hs|Hs].
  2:{ right. rewrite marketLoop_done by assumption. eauto. }
  destruct (Z.eq_dec z (-1)) as [->|N1].
  { left. simpl. destruct (Z.ltb_spec 0 size); [|lia].
    rewrite u32_minus_one. now destruct sell. }
  destruct (Z.eq_dec z NUM_PRICES) as [->|N2].
  { left. simpl. destruct (Z.ltb_spec 0 size); [|lia].
    destruct sell; [specialize (Hsell eq_refl); lia|]. reflexivity. }
  assert (Hzr : 0 <= z < NUM_PRICES) by lia.
  assert (Ez : u32 z = z) by (apply u32_small; unfold NUM_PRICES in Hzr; lia).
  rewrite Ez.
  set (z' := if sell then z - 1 else z + 1).
  assert (Hz' : -1 <= z' <= NUM_PRICES) by (unfold z'; destruct sell; lia).
  assert (Hsell' : sell = true -> z' < NUM_PRICES) by (unfold z'; intros ->; lia).
  assert (Hfuel' : if sell then z' + 2 <= Z.of_nat fuel
                   else NUM_PRICES - z' + 1 <= Z.of_nat fuel)
    by (unfold z'; destruct sell; lia).
  destruct (limitOrderHead s z) as [c|] eqn:Hh.
  - destruct (marketLoop_step sell t fuel z size o s W Ho Hs Hzr)
      as (s3 & Estep & W3 & _).
    { rewrite Hh. discriminate. }
    rewrite Estep. fold z'. apply IH; auto.
    unfold u32. apply Z.mod_pos_bound. lia.
  - rewrite (marketLoop_skip sell t fuel z size o s Hs Hzr Hh). fold z'.
    apply IH; auto.
Qed.

(** ** The order of the portions *)

Lemma bookPortions_prices s t ps : forall size x,
  In x (bookPortions s t ps size) -> In (fst (fst x)) ps.
Proof.
  induction ps as [|p ps IH]; intros size x Hin; simpl in Hin; [contradiction|].
  destruct (0 <? size); [|contradiction].
  apply in_app_or in Hin. destruct Hin as [Hin|Hin].
  - apply in_map_iff in Hin. destruct Hin as (y & <- & _). now left.
  - right. eapply IH. exact Hin.
Qed.

(** The portions come in the order of the prices scanned. *)
Lemma bookPortions_sorted (R : Z -> Z -> Prop) s t ps :
  (forall p, R p p) -> StronglySorted R ps ->
  forall size, StronglySorted R (map (fun x => fst (fst x)) (bookPortions s t ps size)).
Proof.
  intros Rrefl. induction 1 as [|p ps Hs IH Hall]; intros size; simpl; [constructor|].
  destruct (0 <? size); [|constructor].
  rewrite map_app, map_map. simpl.
  set (F := portions _ _ _).
  assert (HP : forall sz, Forall (R p) (map (fun x => fst (fst x)) (bookPortions s t ps sz))).
  { intros sz. apply Forall_forall. intros q Hq. apply in_map_iff in Hq.
    destruct Hq as (x & <- & Hx). apply bookPortions_prices in Hx.
    rewrite Forall_forall in Hall. now apply Hall. }
  generalize (IH (size - quantity F)) (HP (size - quantity F)).
  generalize (map (fun x : Z * nat * Z => fst (fst x)) (bookPortions s t ps (size - quantity F))).
  intros L HL HPL. clearbody F.
  induction F as [|y F IHF]; simpl; [exact HL|].
  constructor; [exact IHF|].
  apply Forall_app. split; [|exact HPL].
  apply Forall_forall. intros q Hq. apply in_map_iff in Hq.
  destruct Hq as (x & <- & _). apply Rrefl.
Qed.

Lemma pricesFrom_sorted_buy p : StronglySorted Z.le (pricesFrom false p).
Proof.
  unfold pricesFrom. generalize (Z.to_nat (NUM_PRICES - p)) as n. intros n.
  revert p. induction n as [|n IH]; intros p; simpl; constructor.
  - apply IH.
  - apply Forall_forall. intros q Hq. apply pricesStep_In in Hq.
    destruct Hq as (k & _ & ->). lia.
Qed.

Lemma pricesFrom_sorted_sell p : StronglySorted Z.ge (pricesFrom true p).
Proof.
  unfold pricesFrom. generalize (Z.to_nat (p + 1)) as n. intros n.
  revert p. induction n as [|n IH]; intros p; simpl; constructor.
  - apply IH.
  - apply Forall_forall. intros q Hq. apply pricesStep_In in Hq.
    destruct Hq as (k & _ & ->). lia.
Qed.

(** At one price the orders are taken from the head of the list on. *)
Lemma portions_prefix m l : forall size,
  exists rest, l = map fst (portions m l size) ++ rest.
Proof.
  induction l as [|h l IH]; intros size; simpl; [exists []; reflexivity|].
  destruct (limitOrder.size (m h) <=? size); simpl.
  - destruct (IH (size - limitOrder.size (m h))) as (rest & E).
    exists rest. now rewrite <- E.
  - exists l. reflexivity.
Qed.

(** ** [marketSell] and [marketBuy] *)

(** The two market orders in terms of the common loop. *)
Lemma marketOrder_eq (sell : bool) size t s :
  0 <= quote sell s < NUM_PRICES ->
  (if sell then marketSell size t s else marketBuy size t s)
  = marketLoop sell (if sell then Z.to_nat (bid s) + 2 else Z.to_nat (NUM_PRICES - ask s) + 1)%nat
               (u32 (quote sell s)) size t 0 s.
Proof.
  intros H. rewrite u32_small by (unfold NUM_PRICES in H; lia).
  unfold quote. destruct sell; [apply marketSellLoop_eq | apply marketBuyLoop_eq].
Qed.

Lemma marketOrder_amount (sell : bool) size t s :
  wf s -> 0 <= size -> 0 <= quote sell s < NUM_PRICES ->
  (if sell then marketSell size t s else marketBuy size t s)
    = Fault (if sell then BuySideExhausted else SellSideExhausted) \/
  exists s',
    (if sell then marketSell size t s else marketBuy size t s)
      = Ok (s', u32 (notional (bookPortions s t (pricesFrom sell (quote sell s)) size))) /\
    wf s' /\
    volume (bookPortions s t (pricesFrom sell (quote sell s)) size) = size.
Proof.
  intros W Hs Hq. rewrite (marketOrder_eq sell size t s Hq).
  assert (Ho : 0 <= 0 < 2 ^ 32) by lia.
  assert (Hz : -1 <= quote sell s <= NUM_PRICES) by lia.
  destruct (marketLoop_returns sell t
              (if sell then Z.to_nat (bid s) + 2 else Z.to_nat (NUM_PRICES - ask s) + 1)%nat
              (quote sell s) size 0 s W Ho Hz) as [E | (s' & o' & E)].
  - intros _. lia.
  - unfold quote in *. destruct sell; lia.
  - now left.
  - right. exists s'.
    assert (Hz' : -1 <= quote sell s <= UINT_MAX) by (unfold UINT_MAX, NUM_PRICES in *; lia).
    destruct (marketLoop_spec sell t _ _ _ _ _ _ _ W Ho Hs Hz' E) as (W' & Eo & Ev & _).
    rewrite E, Eo. rewrite Z.add_0_l. auto.
Qed.


(** * The main cycle *)

Lemma addLimitOrder_keeps p size e u s s' :
  wf s -> addLimitOrder p size e u s = Ok s' ->
  wf s' /\ bid s' = bid s /\ ask s' = ask s /\ inRange p = true.
Proof.
  intros W H. split; [eapply wf_addLimitOrder; eassumption|].
  destruct W as (R & _ & _).
  destruct (addLimitOrder_Ok _ _ _ _ _ _ H) as (lo & rest & Hf & Hp & Hu).
  destruct (addLimitOrder_rep s _ p size e u lo rest R Hf Hp Hu)
    as (s'' & Hrun & _ & _ & _ & _ & _ & _ & Eb & Ea & _).
  rewrite Hrun in H. inversion H; subst s''. auto.
Qed.

Lemma updateLimitOrders_keeps p t s s' :
  wf s -> updateLimitOrders p t s = Ok s' ->
  wf s' /\ bid s' = bid s /\ ask s' = ask s.
Proof.
  intros W H. split; [eapply wf_updateLimitOrders; eassumption|].
  destruct W as (R & _ & _).
  pose proof (updateLimitOrders_Ok _ _ _ _ H) as Hp.
  destruct (updateLimitOrders_rep s _ p t R Hp)
    as (s'' & Hrun & _ & _ & _ & _ & (_ & Eb & Ea & _)).
  rewrite Hrun in H. inversion H; subst s''. auto.
Qed.

Lemma sweepFrom_keeps t : forall n p s s',
  wf s -> sweepFrom n p t s = Ok s' ->
  wf s' /\ bid s' = bid s /\ ask s' = ask s.
Proof.
  induction n as [|n IH]; intros p s s' W H; simpl in H.
  - inversion H; subst. auto.
  - inv_bind H. destruct (updateLimitOrders_keeps _ _ _ _ W Ha) as (W1 & Eb & Ea).
    destruct (IH _ _ _ W1 H) as (W' & Eb' & Ea'). split; [exact W'|]. split; congruence.
Qed.

Lemma addTen_keeps startingTime life : forall n p i s s',
  wf s -> addTen n p startingTime life i s = Ok s' ->
  wf s' /\ bid s' = bid s /\ ask s' = ask s.
Proof.
  induction n as [|n IH]; intros p i s s' W H; simpl in H.
  - inversion H; subst. auto.
  - inv_bind H. destruct (addLimitOrder_keeps _ _ _ _ _ _ W Ha) as (W1 & Eb & Ea & _).
    destruct (IH _ _ _ _ W1 H) as (W' & Eb' & Ea'). split; [exact W'|]. split; congruence.
Qed.

Lemma setupBuys_keeps startingTime life : forall fuel p i s s',
  wf s -> setupBuys fuel p startingTime life i s = Ok s' ->
  wf s' /\ bid s' = bid s /\ ask s' = ask s.
Proof.
  induction fuel as [|fuel IH]; intros p i s s' W H; cbn [setupBuys] in H;
    destruct (u32 (bid s - 10) <=? p) eqn:Hc; try discriminate;
    try (inversion H; subst; now auto).
  inv_bind H. destruct (addTen_keeps _ _ _ _ _ _ _ W Ha) as (W1 & Eb & Ea).
  destruct (IH _ _ _ _ W1 H) as (W' & Eb' & Ea'). split; [exact W'|]. split; congruence.
Qed.

Lemma setupSells_keeps startingTime life : forall fuel p i s s',
  wf s -> setupSells fuel p startingTime life i s = Ok s' ->
  wf s' /\ bid s' = bid s /\ ask s' = ask s.
Proof.
  induction fuel as [|fuel IH]; intros p i s s' W H; cbn [setupSells] in H;
    destruct (p <=? u32 (ask s + 10)) eqn:Hc; try discriminate;
    try (inversion H; subst; now auto).
  inv_bind H. destruct (addTen_keeps _ _ _ _ _ _ _ W Ha) as (W1 & Eb & Ea).
  destruct (IH _ _ _ _ W1 H) as (W' & Eb' & Ea'). split; [exact W'|]. split; congruence.
Qed.

Lemma start_keeps n stackOrder b spread t0 life x :
  initialBidMin <= b <= initialBidMax + 1 ->
  initialSpreadMin <= spread <= initialSpreadMax + 1 ->
  start n stackOrder b spread t0 life = Ok x ->
  wf (eng x) /\ quotesApart (eng x).
Proof.
  unfold initialBidMin, initialBidMax, initialSpreadMin, initialSpreadMax.
  intros Hb Hs H. unfold start in H. inv_bind H. inversion H; subst x. simpl.
  unfold setupMarket in Ha. inv_bind Ha.
  set (s0 := with_ask (u32 (b + spread)) (with_bid b (setup n stackOrder))) in *.
  assert (W0 : wf s0) by (apply wf_with_ask, wf_with_bid, wf_setup).
  destruct (setupBuys_keeps _ _ _ _ _ _ _ W0 Ha0) as (W1 & Eb1 & Ea1).
  destruct (setupSells_keeps _ _ _ _ _ _ _ W1 Ha) as (W2 & Eb2 & Ea2).
  split; [exact W2|]. unfold quotesApart. rewrite Eb2, Ea2, Eb1, Ea1. simpl.
  rewrite u32_small by lia. unfold NUM_PRICES. lia.
Qed.

(** A market order keeps the state well-formed and moves the quote of its
    side away from the other quote. *)
Lemma marketOrder_keeps (sell : bool) size t s s' o :
  wf s -> quotesApart s ->
  (if sell then marketSell size t s else marketBuy size t s) = Ok (s', o) ->
  wf s' /\ quotesApart s'.
Proof.
  intros W (H0 & H1 & H2) Hrun.
  assert (Hq : 0 <= quote sell s < NUM_PRICES) by (unfold quote; destruct sell; lia).
  rewrite (marketOrder_eq sell size t s Hq) in Hrun.
  destruct (Z.ltb_spec 0 size) as [Hs|Hs].
  2:{ rewrite marketLoop_done in Hrun by assumption. inversion Hrun; subst.
      split; [exact W | repeat split; assumption]. }
  assert (Ho : 0 <= 0 < 2 ^ 32) by lia.
  assert (Hz : -1 <= quote sell s <= UINT_MAX) by (unfold UINT_MAX, NUM_PRICES in *; lia).
  destruct (marketLoop_spec sell t _ _ _ _ _ _ _ W Ho (Z.lt_le_incl _ _ Hs) Hz Hrun)
    as (W' & _ & _ & Hquote).
  split; [exact W'|]. unfold quotesApart, quote in *.
  destruct sell; destruct Hquote as [E1 E2]; lia.
Qed.

Lemma orderCreation_keeps d now s s' :
  validDraws d -> wf s -> quotesApart s ->
  orderCreation d now s = Ok s' ->
  wf s' /\ quotesApart s'.
Proof.
  unfold validDraws. intros Hd W Q H. unfold orderCreation in H.
  pose proof Q as (H0 & H1 & H2).
  destruct (isMarket d).
  - destruct (isSell d); inv_bind H; destruct a as [s1 o]; inversion H; subst s'.
    + exact (marketOrder_keeps true _ _ _ _ _ W Q Ha).
    + exact (marketOrder_keeps false _ _ _ _ _ W Q Ha).
  - destruct (isSell d); inv_bind H; inversion H; subst s'; clear H;
      destruct (addLimitOrder_keeps _ _ _ _ _ _ W Ha) as (W1 & Eb & Ea & Hp);
      apply inRange_iff in Hp.
    + assert (Ep : u32 (bid s + distance d) = bid s + distance d)
        by (apply u32_small; unfold NUM_PRICES in *; lia).
      rewrite Ep in *.
      destruct (Z.ltb_spec (bid s + distance d) (ask a)).
      * split; [now apply wf_with_ask|]. unfold quotesApart; simpl. lia.
      * split; [exact W1|]. unfold quotesApart. lia.
    + assert (Ep : u32 (ask s - distance d) = ask s - distance d).
      { destruct (Z.le_gt_cases (distance d) (ask s)) as [Hle|Hgt].
        - apply u32_small. unfold NUM_PRICES in *. lia.
        - exfalso. unfold u32 in Hp.
          replace (ask s - distance d) with ((ask s - distance d + 2 ^ 32) + (-1) * 2 ^ 32) in Hp by lia.
          rewrite Z.mod_add in Hp by lia.
          rewrite Z.mod_small in Hp by (unfold NUM_PRICES in *; lia).
          lia. }
      rewrite Ep in *.
      destruct (Z.ltb_spec (bid a) (ask s - distance d)).
      * split; [now apply wf_with_bid|]. unfold quotesApart; simpl. lia.
      * split; [exact W1|]. unfold quotesApart. lia.
Qed.

Lemma userOrders_keeps k now s s' :
  wf s -> quotesApart s ->
  userOrders k now s = Ok s' ->
  wf s' /\ quotesApart s'.
Proof.
  intros W Q H. unfold userOrders in H. unfold realisticUserMarketOrders in H.
  inv_bind H. inv_bind H. inv_bind H. inversion H; subst s'; clear H.
  assert (S1 : wf a /\ quotesApart a).
  { destruct (buyMarket k); [|inversion Ha; subst; auto].
    inv_bind Ha. inversion Ha; subst a; clear Ha.
    inv_bind Ha2. destruct a as [s1 o]. inversion Ha2; subst a2; clear Ha2.
    destruct (marketOrder_keeps false _ _ _ _ _ W Q Ha) as (W1 & Q1).
    split; [|exact Q1]. simpl.
    apply wf_with_ledger; [apply wf_with_ledger; [exact W1 | apply i32_int32 | apply W1]
                          | apply i32_int32 | apply i32_int32]. }
  destruct S1 as (W1 & Q1).
  assert (S2 : wf a0 /\ quotesApart a0).
  { destruct (sellMarket k); [|inversion Ha0; subst; auto].
    inv_bind Ha0. inversion Ha0; subst a0; clear Ha0.
    inv_bind Ha2. destruct a0 as [s1 o]. inversion Ha2; subst a2; clear Ha2.
    destruct (marketOrder_keeps true _ _ _ _ _ W1 Q1 Ha0) as (W2 & Q2).
    split; [|exact Q2]. simpl.
    apply wf_with_ledger; [apply wf_with_ledger; [exact W2 | apply i32_int32 | apply W2]
                          | apply i32_int32 | apply i32_int32]. }
  destruct S2 as (W2 & Q2).
  assert (S3 : wf a1 /\ quotesApart a1).
  { destruct (numUserLimitOrders a0 <? MAX_NUM_USER_LIMIT_ORDERS)%nat;
      [|inversion Ha1; subst; auto].
    destruct (buyLimit k).
    - destruct (addLimitOrder_keeps _ _ _ _ _ _ W2 Ha1) as (W3 & Eb & Ea & _).
      split; [exact W3|]. unfold quotesApart in *. rewrite Eb, Ea. exact Q2.
    - destruct (sellLimit k); [|inversion Ha1; subst; auto].
      destruct (addLimitOrder_keeps _ _ _ _ _ _ W2 Ha1) as (W3 & Eb & Ea & _).
      split; [exact W3|]. unfold quotesApart in *. rewrite Eb, Ea. exact Q2. }
  destruct S3 as (W3 & Q3).
  destruct (backspace k); [|auto].
  split; [now apply wf_withdrawAll | exact Q3].
Qed.

Lemma refresh_keeps now s s1 s2 :
  wf s -> quotesApart s ->
  sweepAll now s = Ok s1 -> updateBidAndAsk s1 = Ok s2 ->
  wf s2 /\ quotesApart s2 /\ ordersAt s2 (bid s2) <> [] /\ ordersAt s2 (ask s2) <> [].
Proof.
  intros W (H0 & H1 & H2) Hs Hu.
  destruct (sweepFrom_keeps _ _ _ _ _ W Hs) as (W1 & Eb & Ea).
  destruct (updateBidAndAsk_spec _ _ Hu) as (S & Hb & Ha & Hhb & Hha & _).
  pose proof (sameButQuotes_wf _ _ S W1) as W2.
  split; [exact W2|]. split; [unfold quotesApart; lia|].
  split; intros N; [apply Hhb | apply Hha]; now apply (head_ordersAt s2 _ W2).
Qed.

Lemma mainCycleStep_keeps d k x x' :
  validDraws d -> wf (eng x) -> quotesApart (eng x) ->
  mainCycleStep d k x = Ok x' ->
  wf (eng x') /\ quotesApart (eng x').
Proof.
  intros Hd W Q H. unfold mainCycleStep in H.
  destruct (nextOrderCreation x <? targetTime x); inv_bind H; inversion H; subst x'; simpl.
  - eapply orderCreation_keeps; eassumption.
  - unfold frame in Ha. inv_bind Ha. inv_bind Ha. inv_bind Ha.
    destruct (refresh_keeps _ _ _ _ W Q Ha0 Ha1) as (W2 & Q2 & _).
    eapply userOrders_keeps; eassumption.
Qed.

Lemma reachable_keeps x : reachable x -> wf (eng x) /\ quotesApart (eng x).
Proof.
  induction 1 as [n so b spread t0 life x Hb Hs H | d k x x' Hr IH Hd Hk H].
  - eapply start_keeps; eassumption.
  - destruct IH as (W & Q). eapply mainCycleStep_keeps; eassumption.
Qed.

(** The sweep does not touch the list of the user's orders. *)
Lemma sweepTail_user t : forall fuel curr s s',
  sweepTail fuel t curr s = Ok s' -> userLimitOrders s' = userLimitOrders s.
Proof.
  induction fuel as [|fuel IH]; intros curr s s' H; simpl in H;
    destruct (limitOrder.next (pool s curr)) as [nx|]; try discriminate;
    try (now inversion H).
  destruct (limitOrder.expirationTime (pool s nx) <=? t).
  - inv_bind H. apply release_Ok in Ha. destruct Ha as [_ ->].
    apply IH in H. exact H.
  - apply IH in H. exact H.
Qed.

Lemma sweepHead_user p t : forall fuel curr s s' c,
  sweepHead fuel p t curr s = Ok (s', c) -> userLimitOrders s' = userLimitOrders s.
Proof.
  induction fuel as [|fuel IH]; intros curr s s' c H; simpl in H;
    destruct (limitOrder.expirationTime (pool s curr) <=? t); try discriminate;
    try (now inversion H).
  inv_bind H. apply release_Ok in Ha. destruct Ha as [_ ->].
  inv_bind H. apply writeHead_Ok in Ha. destruct Ha as [_ ->].
  simpl in H.
  destruct (limitOrder.next (pool s curr)) as [c'|].
  - apply IH in H. exact H.
  - now inversion H.
Qed.

Lemma updateLimitOrders_user p t s s' :
  updateLimitOrders p t s = Ok s' -> userLimitOrders s' = userLimitOrders s.
Proof.
  unfold updateLimitOrders. intros H. inv_bind H.
  destruct a as [c|]; [|now inversion H].
  inv_bind H. destruct a as [s1 c1].
  apply sweepHead_user in Ha0.
  destruct c1 as [c'|]; [|inversion H; subst; exact Ha0].
  apply sweepTail_user in H. congruence.
Qed.

Lemma sweepFrom_user t : forall n p s s',
  sweepFrom n p t s = Ok s' -> userLimitOrders s' = userLimitOrders s.
Proof.
  induction n as [|n IH]; intros p s s' H; simpl in H.
  - now inversion H.
  - inv_bind H. apply IH in H. apply updateLimitOrders_user in Ha. congruence.
Qed.

(** * The claims *)

Lemma built_emptyBook b : built (emptyBook b).
Proof. unfold emptyBook. apply built_ask, built_bid, built_setup. Qed.

Lemma built_book4 : built book4.
Proof.
  apply (built_add book3 100 4 60 false); [|vm_compute; reflexivity].
  apply (built_add book2 105 3 20 false); [|vm_compute; reflexivity].
  apply (built_add book1 105 7 50 false); [|vm_compute; reflexivity].
  apply (built_add (emptyBook false) 105 5 10 false); [|vm_compute; reflexivity].
  apply built_emptyBook.
Qed.

(** C2. After every operation of the engine (insertion of a limit order,
    expiration sweep, fill by a market order, and also the withdrawal of the
    user's orders and every change of the bid, the ask and the ledger), each
    slot of the pool is on the free list and rests at no price, or it is not
    on the free list and rests at exactly one price. *)
Theorem pool_slots_accounted (s : state) (h : nat) :
  built s -> (h < poolSize s)%nat -> slotAccounted s h.
Proof.
  intros Hb Hh. destruct (built_wf s Hb) as (R & _ & _).
  exact (rep_slotAccounted s _ h R Hh).
Qed.

Lemma pool_slots_accounted_witness : slotAccounted book4 4.
Proof.
  apply (pool_slots_accounted book4 4).
  - exact built_book4.
  - vm_compute. lia.
Defined.

(** C8. For every price [p] of the book and every time [t], the sweep
    [updateLimitOrders p t] of a well-formed state returns; the orders left
    at [p] are those whose expiration time is greater than [t], in their
    former order; the orders with expiration time at most [t] have been
    pushed on the free stack, head of the list first; the lists of the other
    prices and the contents of all orders are as before.  This covers runs
    of expired orders at the head of the list and expired orders behind
    surviving ones. *)
Theorem sweep_removes_exactly_expired (s : state) (p t : Z) :
  wf s -> 0 <= p < NUM_PRICES ->
  exists s',
    updateLimitOrders p t s = Ok s' /\
    wf s' /\
    ordersAt s' p = filter (alive (pool s) t) (ordersAt s p) /\
    freeLimitOrders s'
      = rev (filter (expired (pool s) t) (ordersAt s p)) ++ freeLimitOrders s /\
    (forall q, q <> p -> ordersAt s' q = ordersAt s q) /\
    (forall h,
       limitOrder.size (pool s' h) = limitOrder.size (pool s h) /\
       limitOrder.p (pool s' h) = limitOrder.p (pool s h) /\
       limitOrder.expirationTime (pool s' h) = limitOrder.expirationTime (pool s h) /\
       limitOrder.user (pool s' h) = limitOrder.user (pool s h)).
Proof.
  intros (R & Hb & Hn) Hp. apply inRange_iff in Hp.
  destruct (updateLimitOrders_rep s _ p t R Hp)
    as (s' & Hrun & R' & Hfree & Hrel & _ & Hrest).
  exists s'. split; [exact Hrun|].
  destruct Hrest as (_ & _ & _ & _ & Eb & En & _).
  split; [apply (wf_intro _ _ R'); congruence|].
  split; [rewrite (rep_ordersAt _ _ p R'); now rewrite Z.eqb_refl|].
  split; [exact Hfree|]. split.
  - intros q N. rewrite (rep_ordersAt _ _ q R'). apply Z.eqb_neq in N. now rewrite N.
  - intros h. exact (relinked_data _ _ _ h Hrel).
Qed.

Lemma sweep_removes_exactly_expired_witness :
  exists s',
    updateLimitOrders 105 30 book4 = Ok s' /\
    wf s' /\
    ordersAt s' 105 = filter (alive (pool book4) 30) (ordersAt book4 105) /\
    freeLimitOrders s'
      = rev (filter (expired (pool book4) 30) (ordersAt book4 105)) ++ freeLimitOrders book4 /\
    (forall q, q <> 105 -> ordersAt s' q = ordersAt book4 q) /\
    (forall h,
       limitOrder.size (pool s' h) = limitOrder.size (pool book4 h) /\
       limitOrder.p (pool s' h) = limitOrder.p (pool book4 h) /\
       limitOrder.expirationTime (pool s' h) = limitOrder.expirationTime (pool book4 h) /\
       limitOrder.user (pool s' h) = limitOrder.user (pool book4 h)).
Proof.
  apply (sweep_removes_exactly_expired book4 105 30).
  - apply built_wf. exact built_book4.
  - unfold NUM_PRICES. lia.
Defined.

Lemma built_largeUserBuy : built largeUserBuy.
Proof.
  apply (built_add (emptyBook false) 100 30000000 ULLONG_MAX true);
    [apply built_emptyBook | vm_compute; reflexivity].
Qed.

Lemma built_mixedBuys : built mixedBuys.
Proof.
  apply (built_add mixedBuys1 100 10 ULLONG_MAX true); [|vm_compute; reflexivity].
  apply (built_add (emptyBook false) 100 4 60 false);
    [apply built_emptyBook | vm_compute; reflexivity].
Qed.

Lemma built_userFirst : built userFirst.
Proof.
  apply (built_add userFirst1 100 5 60 false); [|vm_compute; reflexivity].
  apply (built_add (emptyBook false) 100 10 ULLONG_MAX true);
    [apply built_emptyBook | vm_compute; reflexivity].
Qed.

Lemma withdraw_fold_data l : forall (m : memory) h,
  let m' := fold_left (fun m h => upd m h (limitOrder.with_expirationTime 0 (m h))) l m in
  limitOrder.size (m' h) = limitOrder.size (m h) /\
  limitOrder.user (m' h) = limitOrder.user (m h) /\
  (In h l -> limitOrder.expirationTime (m' h) = 0) /\
  (~ In h l -> m' h = m h).
Proof.
  induction l as [|x l IH]; intros m h; simpl; [tauto|].
  destruct (IH (upd m x (limitOrder.with_expirationTime 0 (m x))) h) as (E1 & E2 & E3 & E4).
  rewrite E1, E2. unfold upd at 1 2.
  destruct (Nat.eqb_spec h x) as [->|N]; simpl.
  - repeat split; auto.
    + intros _. destruct (in_dec Nat.eq_dec x l) as [Hin|Hn]; [now apply E3|].
      rewrite (E4 Hn), upd_same. reflexivity.
    + intros Hn. exfalso. apply Hn. now left.
  - repeat split; auto.
    + intros [E|Hin]; [congruence | now apply E3].
    + intros Hn. rewrite E4 by (intros Hin; apply Hn; now right).
      now apply upd_other.
Qed.

Lemma built_largeUserSell : built largeUserSell.
Proof.
  apply (built_add (emptyBook false) 105 50000000 ULLONG_MAX true);
    [apply built_emptyBook | vm_compute; reflexivity].
Qed.






Lemma validDraws_buy80 : validDraws buy80.
Proof. unfold validDraws, buy80, NUM_PRICES. simpl. lia. Qed.

Lemma validKeys_noKeys : validKeys noKeys.
Proof. unfold validKeys, noKeys. simpl. lia. Qed.

Lemma reachable_sim0 : reachable sim0.
Proof.
  apply (reachable_start 300%nat false 500 1 1000 (fun _ => 5000));
    [unfold initialBidMin, initialBidMax; lia
    | unfold initialSpreadMin, initialSpreadMax; lia
    | vm_compute; reflexivity].
Qed.

Lemma reachable_sim2 : reachable sim2.
Proof.
  apply (reachable_step buy80 noKeys sim1);
    [| apply validDraws_buy80 | apply validKeys_noKeys | vm_compute; reflexivity].
  apply (reachable_step buy80 noKeys sim0);
    [| apply validDraws_buy80 | apply validKeys_noKeys | vm_compute; reflexivity].
  exact reachable_sim0.
Qed.

(** C1, as stated, fails: after the set-up of the market and one frame, a
    market buy of 80 shares takes the ten orders of 8 shares at the ask 501;
    in the state reached the ask is still 501 and no order rests there. *)
Lemma reachable_state_with_empty_ask :
  reachable sim2 /\
  ask (eng sim2) = 501 /\
  ordersAt (eng sim2) (ask (eng sim2)) = [].
Proof.
  split; [exact reachable_sim2|].
  split; vm_compute; reflexivity.
Qed.

(** C1 (amended).  In every state reached by [setup], [setupMarket] and any
    number of rounds of [mainCycle] (synthetic orders with distances that do
    not wrap around, frames with any keys) the bid is below the ask.  The
    lists of the bid and of the ask hold orders right after the refresh of
    a frame ([updateLimitOrders] on every price, then [updateBidAndAsk]);
    between two refreshes a market order may leave its quote on a price
    that it has emptied. *)
Theorem quotes_stay_apart (x : sim) :
  reachable x ->
  bid (eng x) < ask (eng x) /\
  forall s1 s2,
    sweepAll (targetTime x) (eng x) = Ok s1 -> updateBidAndAsk s1 = Ok s2 ->
    bid s2 < ask s2 /\ ordersAt s2 (bid s2) <> [] /\ ordersAt s2 (ask s2) <> [].
Proof.
  intros Hr. destruct (reachable_keeps x Hr) as (W & Q).
  split; [apply Q|].
  intros s1 s2 Hs Hu.
  destruct (refresh_keeps _ _ _ _ W Q Hs Hu) as (_ & Q2 & Hb & Ha).
  split; [apply Q2 | auto].
Qed.

Lemma quotes_stay_apart_witness :
  bid (eng sim2) < ask (eng sim2) /\
  forall s1 s2,
    sweepAll (targetTime sim2) (eng sim2) = Ok s1 -> updateBidAndAsk s1 = Ok s2 ->
    bid s2 < ask s2 /\ ordersAt s2 (bid s2) <> [] /\ ordersAt s2 (ask s2) <> [].
Proof.
  apply (quotes_stay_apart sim2). exact reachable_sim2.
Defined.

Lemma quotesApart_quietBook b : wf (quietBook b) /\ quotesApart (quietBook b).
Proof.
  split.
  - unfold quietBook. apply wf_with_ask, wf_with_bid, wf_setup.
  - unfold quotesApart, quietBook, NUM_PRICES. simpl. lia.
Qed.

Lemma wf_twoBuys b : wf (twoBuys b).
Proof.
  destruct (quotesApart_quietBook b) as (W & Q).
  assert (S1 : wf (twoBuys1 b) /\ quotesApart (twoBuys1 b)).
  { apply (userOrders_keeps userBuy10 0 (quietBook b)); auto;
      destruct b; vm_compute; reflexivity. }
  destruct S1 as (W1 & Q1).
  apply (orderCreation_keeps synBuy5 0 (twoBuys1 b)); auto.
  - unfold validDraws, synBuy5, NUM_PRICES. simpl. lia.
  - try (destruct b; vm_compute; reflexivity).
Qed.

(** C5, as stated, fails.  With head insertion ([fillTiesInStackOrder = 1])
    the participant's later order is at the head of the list of 100: the
    market sell of 12 shares fills it completely and takes 7 shares of the
    user's order, which stays tracked with 3 shares; the balance goes from
    0 to -700 and the position from 0 to 7.  With tail insertion the user's
    order is filled completely, and the balance goes from 0 to -1000 and
    the position from 0 to 10: the user has bought. *)
Lemma market_sell_after_two_buys :
  (ordersAt (twoBuys true) 100 = [4%nat; 5%nat] /\
   limitOrder.user (pool (twoBuys true) 5%nat) = true /\
   balance (twoBuys true) = 0 /\ sharesOpen (twoBuys true) = 0 /\
   exists s',
     marketSell 12 0 (twoBuys true) = Ok (s', 1200) /\
     ordersAt s' 100 = [5%nat] /\ limitOrder.size (pool s' 5%nat) = 3 /\
     userLimitOrders s' = [5%nat] /\
     balance s' = -700 /\ sharesOpen s' = 7) /\
  (ordersAt (twoBuys false) 100 = [5%nat; 4%nat] /\
   limitOrder.user (pool (twoBuys false) 5%nat) = true /\
   balance (twoBuys false) = 0 /\ sharesOpen (twoBuys false) = 0 /\
   exists s',
     marketSell 12 0 (twoBuys false) = Ok (s', 1200) /\
     ordersAt s' 100 = [4%nat] /\ limitOrder.size (pool s' 4%nat) = 3 /\
     userLimitOrders s' = [] /\
     balance s' = -1000 /\ sharesOpen s' = 10 /\
     balance s' <> balance (twoBuys false) + 1000 /\
     sharesOpen s' <> sharesOpen (twoBuys false) - 10).
Proof.
  split.
  - repeat (split; [vm_compute; reflexivity|]).
    eexists. split; [vm_compute; reflexivity|].
    repeat (split; [vm_compute; reflexivity|]). vm_compute; reflexivity.
  - repeat (split; [vm_compute; reflexivity|]).
    eexists. split; [vm_compute; reflexivity|].
    repeat (split; [vm_compute; reflexivity|]).
    split; vm_compute; discriminate.
Qed.

(** A market sell of 12 shares against two buy orders [a] and [b] that rest
    in this order at the bid 100 with sizes [sa <= 12 < sa + sb]. *)
Lemma sell_12_into_two_buys (s : state) (t : Z) (a b : nat) (sa sb : Z) :
  wf s -> bid s = 100 -> ordersAt s 100 = [a; b] ->
  limitOrder.size (pool s a) = sa -> limitOrder.size (pool s b) = sb ->
  sa <= 12 -> 12 - sa < sb ->
  t < limitOrder.expirationTime (pool s a) -> t < limitOrder.expirationTime (pool s b) ->
  exists s',
    marketSell 12 t s = Ok (s', 1200) /\
    ordersAt s' 100 = [b] /\ limitOrder.size (pool s' b) = sb - (12 - sa) /\
    userLimitOrders s' = deleteUserOrders (userOwned (pool s) [a]) (userLimitOrders s) /\
    balance s' = ledgerBalance true (balance s)
                   (quantity (userPortions (pool s) [(a, sa); (b, 12 - sa)])) 100 /\
    sharesOpen s' = ledgerShares true (sharesOpen s)
                      (quantity (userPortions (pool s) [(a, sa); (b, 12 - sa)])).
Proof.
  intros W Hb Hl Hsa Hsb Hle Hlt Hea Heb.
  assert (Hq : 0 <= quote true s < NUM_PRICES)
    by (unfold quote, NUM_PRICES; rewrite Hb; lia).
  pose proof (marketOrder_eq true 12 t s Hq) as E.
  cbv beta iota in E.
  replace (Z.to_nat (bid s) + 2)%nat with (S (Z.to_nat (bid s) + 1)) in E by lia.
  assert (Eq : u32 (quote true s) = 100) by (unfold quote; rewrite Hb; reflexivity).
  rewrite Eq in E. rewrite E. clear E.
  assert (Hh : limitOrderHead s 100 <> None).
  { intros N. apply (head_ordersAt s 100 W) in N. congruence. }
  assert (Hr : 0 <= 100 < NUM_PRICES) by (unfold NUM_PRICES; lia).
  assert (Ho : 0 <= 0 < 2 ^ 32) by lia.
  assert (H12 : 0 < 12) by lia.
  destruct (marketLoop_step true t (Z.to_nat (bid s) + 1) 100 12 0 s W Ho H12 Hr Hh)
    as (s3 & Estep & W3 & _ & Hl3 & _ & _ & Hbal & Hsh & _ & _ & Husr & Hsz).
  rewrite Hl in *.
  assert (Elive : filter (alive (pool s) t) [a; b] = [a; b]).
  { cbn [filter]. unfold alive, expired.
    destruct (Z.leb_spec (limitOrder.expirationTime (pool s a)) t); [lia|].
    destruct (Z.leb_spec (limitOrder.expirationTime (pool s b)) t); [lia | reflexivity]. }
  rewrite Elive in *.
  assert (La : (limitOrder.size (pool s a) <=? 12) = true) by (apply Z.leb_le; lia).
  assert (Lb : (limitOrder.size (pool s b) <=? 12 - limitOrder.size (pool s a)) = false)
    by (apply Z.leb_gt; lia).
  assert (Eport : portions (pool s) [a; b] 12 = [(a, sa); (b, 12 - sa)]).
  { cbn [portions]. rewrite La, Lb, Hsa. reflexivity. }
  assert (Eunf : unfilled (pool s) [a; b] 12 = [b]).
  { cbn [unfilled]. rewrite La, Lb. reflexivity. }
  assert (Efil : filled (pool s) [a; b] 12 = [a]).
  { cbn [filled]. rewrite La, Lb. reflexivity. }
  assert (Erem : remaining (pool s) [a; b] 12 = 12 - sa).
  { cbn [remaining]. rewrite La, Lb, Hsa. reflexivity. }
  rewrite Eport, Efil in *. rewrite Eunf in Hl3.
  assert (Equ : quantity [(a, sa); (b, 12 - sa)] = 12)
    by (rewrite !quantity_cons; change (quantity []) with 0; lia).
  rewrite Equ in Estep.
  rewrite (marketLoop_done true _ _ (12 - 12)) in Estep by lia.
  exists s3. split; [exact Estep|]. split; [exact Hl3|].
  split; [|split; [exact Husr | split; [exact Hbal | exact Hsh]]].
  rewrite Hsz. unfold afterFill. rewrite Eunf, Erem, upd_same. simpl. lia.
Qed.

(** C5 (amended).  An insertion puts the new record behind the orders of
    its price with tail insertion ([fillTiesInStackOrder = 0], the setting
    of [main.c]) and before them with head insertion.  So with tail
    insertion the user's buy order [u] of 10 shares at 100 rests before the
    later buy order [y] of 5 shares of a participant: a market sell of 12
    shares returns 1200, fills [u] completely, deletes it from
    [userLimitOrders] and leaves [y] with 3 shares; the balance goes down
    by 1000 and the position up by 10 (exactly so when the 32-bit [int]s do
    not overflow).  With head insertion [y] rests before [u]: [y] is filled
    completely, [u] keeps 3 shares and stays tracked; the balance goes down
    by 700 and the position up by 7. *)
Theorem market_sell_of_12_after_two_buys :
  (forall s p size e usr s',
     wf s -> addLimitOrder p size e usr s = Ok s' ->
     exists lo rest,
       freeLimitOrders s = lo :: rest /\
       ordersAt s' p = inserted (fillTiesInStackOrder s) lo (ordersAt s p) /\
       limitOrder.size (pool s' lo) = size /\ limitOrder.user (pool s' lo) = usr) /\
  (forall s t u y,
     wf s -> bid s = 100 -> ordersAt s 100 = [u; y] ->
     limitOrder.user (pool s u) = true -> limitOrder.user (pool s y) = false ->
     limitOrder.size (pool s u) = 10 -> limitOrder.size (pool s y) = 5 ->
     t < limitOrder.expirationTime (pool s u) -> t < limitOrder.expirationTime (pool s y) ->
     exists s',
       marketSell 12 t s = Ok (s', 1200) /\
       ordersAt s' 100 = [y] /\ limitOrder.size (pool s' y) = 3 /\
       userLimitOrders s' = deleteUserOrder u (userLimitOrders s) /\
       balance s' = i32 (balance s - 1000) /\ sharesOpen s' = i32 (sharesOpen s + 10) /\
       (int32 (balance s - 1000) -> balance s' = balance s - 1000) /\
       (int32 (sharesOpen s + 10) -> sharesOpen s' = sharesOpen s + 10)) /\
  (forall s t u y,
     wf s -> bid s = 100 -> ordersAt s 100 = [y; u] ->
     limitOrder.user (pool s u) = true -> limitOrder.user (pool s y) = false ->
     limitOrder.size (pool s u) = 10 -> limitOrder.size (pool s y) = 5 ->
     t < limitOrder.expirationTime (pool s u) -> t < limitOrder.expirationTime (pool s y) ->
     exists s',
       marketSell 12 t s = Ok (s', 1200) /\
       ordersAt s' 100 = [u] /\ limitOrder.size (pool s' u) = 3 /\
       userLimitOrders s' = userLimitOrders s /\
       balance s' = i32 (balance s - 700) /\ sharesOpen s' = i32 (sharesOpen s + 7) /\
       (int32 (balance s - 700) -> balance s' = balance s - 700) /\
       (int32 (sharesOpen s + 7) -> sharesOpen s' = sharesOpen s + 7)).
Proof.
  split; [|split].
  - intros s p size e usr s' W H.
    destruct W as (R & _ & _).
    destruct (addLimitOrder_Ok _ _ _ _ _ _ H) as (lo & rest & Hf & Hp & Hu).
    destruct (addLimitOrder_rep s _ p size e usr lo rest R Hf Hp Hu)
      as (s'' & Hrun & R' & _ & Elo & _).
    rewrite Hrun in H. inversion H; subst s''.
    exists lo, rest. split; [exact Hf|].
    split; [rewrite (rep_ordersAt _ _ p R'); now rewrite Z.eqb_refl|].
    rewrite Elo. simpl. auto.
  - intros s t u y W Hb Hl Hu Hy Hsu Hsy Heu Hey.
    destruct (sell_12_into_two_buys s t u y 10 5 W Hb Hl Hsu Hsy) as
      (s' & Hrun & Hl' & Hsz & Husr & Hbal & Hsh); try lia.
    exists s'. split; [exact Hrun|]. split; [exact Hl'|]. split; [exact Hsz|].
    unfold userOwned, userPortions in *. cbn [filter fst] in *. rewrite Hu, Hy in *.
    split; [exact Husr|].
    change (quantity [(u, 10)]) with 10 in *.
    unfold ledgerBalance, ledgerShares in *.
    split; [exact Hbal|]. split; [exact Hsh|].
    split; intros Hr; [rewrite Hbal | rewrite Hsh]; now apply i32_small.
  - intros s t u y W Hb Hl Hu Hy Hsu Hsy Heu Hey.
    destruct (sell_12_into_two_buys s t y u 5 10 W Hb Hl Hsy Hsu) as
      (s' & Hrun & Hl' & Hsz & Husr & Hbal & Hsh); try lia.
    exists s'. split; [exact Hrun|]. split; [exact Hl'|]. split; [exact Hsz|].
    unfold userOwned, userPortions in *. cbn [filter fst] in *. rewrite Hu, Hy in *.
    split; [exact Husr|].
    change (quantity [(u, 12 - 5)]) with 7 in *.
    unfold ledgerBalance, ledgerShares in *.
    split; [exact Hbal|]. split; [exact Hsh|].
    split; intros Hr; [rewrite Hbal | rewrite Hsh]; now apply i32_small.
Qed.

Lemma market_sell_of_12_after_two_buys_witness :
  exists s',
    marketSell 12 0 (twoBuys false) = Ok (s', 1200) /\
    ordersAt s' 100 = [4%nat] /\ limitOrder.size (pool s' 4%nat) = 3 /\
    userLimitOrders s' = deleteUserOrder 5%nat (userLimitOrders (twoBuys false)) /\
    balance s' = i32 (balance (twoBuys false) - 1000) /\
    sharesOpen s' = i32 (sharesOpen (twoBuys false) + 10) /\
    (int32 (balance (twoBuys false) - 1000) -> balance s' = balance (twoBuys false) - 1000) /\
    (int32 (sharesOpen (twoBuys false) + 10) ->
     sharesOpen s' = sharesOpen (twoBuys false) + 10).
Proof.
  apply (proj1 (proj2 market_sell_of_12_after_two_buys) (twoBuys false) 0 5%nat 4%nat).
  - apply wf_twoBuys.
  - vm_compute. reflexivity.
  - vm_compute. reflexivity.
  - vm_compute. reflexivity.
  - vm_compute. reflexivity.
  - vm_compute. reflexivity.
  - vm_compute. reflexivity.
  - vm_compute. reflexivity.
  - vm_compute. reflexivity.
Defined.

(** C6, as stated, fails: with bid 100 and ask 105 a participant's limit
    sell with distance 2 is placed at 102, below the ask, and the ask moves
    down to 102; a limit buy with distance 2 is placed at 103, above the
    bid, and the bid moves up to 103. *)
Lemma limit_orders_are_placed_inside_the_spread :
  bid book4 = 100 /\ ask book4 = 105 /\
  ordersAt book4 102 = [] /\ ordersAt book4 103 = [] /\
  (exists s',
     orderCreation synSell2 0 book4 = Ok s' /\
     ordersAt s' 102 = [1%nat] /\ 102 < ask book4 /\
     ask s' = 102 /\ bid s' = 100) /\
  (exists s',
     orderCreation synBuy2 0 book4 = Ok s' /\
     ordersAt s' 103 = [1%nat] /\ bid book4 < 103 /\
     bid s' = 103 /\ ask s' = 105).
Proof.
  repeat (split; [vm_compute; reflexivity|]).
  split; eexists; (split; [vm_compute; reflexivity|]);
    repeat (split; [vm_compute; reflexivity|]); vm_compute; reflexivity.
Qed.

(** C6 (amended).  A synthetic limit order takes its price from the
    opposite quote: a limit sell is placed [distance] ticks above the bid
    and a limit buy [distance] ticks below the ask, with [distance >= 1] as
    drawn by [rl] (the distribution of the draw is outside the model).  The
    order is a fresh record of the free stack with the drawn size and the
    expiration time [now + lifespan], inserted at that price by the
    tie-break policy.  Afterwards the quote of the order's own side moves
    to the new price if the order improves it: the ask becomes the minimum
    of the ask and the price of a sell, the bid the maximum of the bid and
    the price of a buy; the other quote stays. *)
Theorem limit_order_placement (s : state) (d : draws) (now : Z) (s' : state) :
  wf s -> quotesApart s -> validDraws d -> isMarket d = false ->
  orderCreation d now s = Ok s' ->
  exists lo rest p,
    freeLimitOrders s = lo :: rest /\ freeLimitOrders s' = rest /\
    p = (if isSell d then bid s + distance d else ask s - distance d) /\
    (if isSell d then bid s < p < NUM_PRICES else 0 <= p < ask s) /\
    ordersAt s' p = inserted (fillTiesInStackOrder s) lo (ordersAt s p) /\
    (forall q, q <> p -> ordersAt s' q = ordersAt s q) /\
    limitOrder.size (pool s' lo) = u32 (orderSize d) /\
    limitOrder.p (pool s' lo) = p /\
    limitOrder.expirationTime (pool s' lo) = u64 (now + lifespan d) /\
    limitOrder.user (pool s' lo) = false /\
    (if isSell d
     then ask s' = Z.min (ask s) p /\ bid s' = bid s
     else bid s' = Z.max (bid s) p /\ ask s' = ask s).
Proof.
  unfold validDraws. intros W (H0 & H1 & H2) Hd Hm H.
  unfold orderCreation in H. rewrite Hm in H.
  set (p := if isSell d then bid s + distance d else ask s - distance d).
  set (pc := if isSell d then u32 (bid s + distance d) else u32 (ask s - distance d)).
  assert (Hadd : exists s1,
             addLimitOrder pc (u32 (orderSize d)) (u64 (now + lifespan d)) false s = Ok s1 /\
             s' = (if isSell d
                   then if pc <? ask s1 then with_ask pc s1 else s1
                   else if bid s1 <? pc then with_bid pc s1 else s1)).
  { unfold pc. destruct (isSell d); inv_bind H; inversion H; subst s'; eauto. }
  clear H. destruct Hadd as (s1 & Hadd & Es').
  destruct (addLimitOrder_Ok _ _ _ _ _ _ Hadd) as (lo & rest & Hf & Hp & Hu).
  pose proof W as (R & _ & _).
  destruct (addLimitOrder_rep s _ pc (u32 (orderSize d)) (u64 (now + lifespan d))
                              false lo rest R Hf Hp Hu)
    as (s1' & Hrun & R1 & Hfree1 & Elo & _ & _ & _ & Eb & Ea & _).
  rewrite Hrun in Hadd. inversion Hadd; subst s1'. clear Hadd.
  apply inRange_iff in Hp.
  assert (Epc : pc = p /\ (if isSell d then bid s < p < NUM_PRICES else 0 <= p < ask s)).
  { unfold pc, p in *. destruct (isSell d).
    - rewrite u32_small in * by (unfold NUM_PRICES in *; lia). split; [reflexivity | lia].
    - destruct (Z.le_gt_cases (distance d) (ask s)) as [Hle|Hgt].
      + rewrite u32_small in * by (unfold NUM_PRICES in *; lia). split; [reflexivity | lia].
      + exfalso. unfold u32 in Hp.
        replace (ask s - distance d)
          with ((ask s - distance d + 2 ^ 32) + (-1) * 2 ^ 32) in Hp by lia.
        rewrite Z.mod_add in Hp by lia.
        rewrite Z.mod_small in Hp by (unfold NUM_PRICES in *; lia).
        lia. }
  destruct Epc as (Epc & Hrange). rewrite Epc in *. clear Epc.
  assert (Eord : forall q, ordersAt s' q = ordersAt s1 q).
  { intros q. rewrite Es'. destruct (isSell d).
    - destruct (p <? ask s1); reflexivity.
    - destruct (bid s1 <? p); reflexivity. }
  assert (Epool : pool s' = pool s1 /\ freeLimitOrders s' = freeLimitOrders s1).
  { rewrite Es'. destruct (isSell d).
    - destruct (p <? ask s1); split; reflexivity.
    - destruct (bid s1 <? p); split; reflexivity. }
  destruct Epool as (Epool & Efree).
  exists lo, rest, p. rewrite Epool, Efree.
  split; [exact Hf|]. split; [exact Hfree1|]. split; [reflexivity|]. split; [exact Hrange|].
  split; [rewrite Eord, (rep_ordersAt _ _ p R1); now rewrite Z.eqb_refl|].
  split.
  { intros q N. rewrite Eord, (rep_ordersAt _ _ q R1). apply Z.eqb_neq in N. now rewrite N. }
  rewrite Elo. simpl. repeat (split; [reflexivity|]).
  rewrite Es'. destruct (isSell d).
  - destruct (Z.ltb_spec p (ask s1)); simpl; split; lia.
  - destruct (Z.ltb_spec (bid s1) p); simpl; split; lia.
Qed.

Lemma limit_order_placement_witness :
  exists s' lo rest p,
    orderCreation synSell2 0 book4 = Ok s' /\
    freeLimitOrders book4 = lo :: rest /\ freeLimitOrders s' = rest /\
    p = (if isSell synSell2 then bid book4 + distance synSell2
         else ask book4 - distance synSell2) /\
    (if isSell synSell2 then bid book4 < p < NUM_PRICES else 0 <= p < ask book4) /\
    ordersAt s' p = inserted (fillTiesInStackOrder book4) lo (ordersAt book4 p) /\
    (forall q, q <> p -> ordersAt s' q = ordersAt book4 q) /\
    limitOrder.size (pool s' lo) = u32 (orderSize synSell2) /\
    limitOrder.p (pool s' lo) = p /\
    limitOrder.expirationTime (pool s' lo) = u64 (0 + lifespan synSell2) /\
    limitOrder.user (pool s' lo) = false /\
    (if isSell synSell2
     then ask s' = Z.min (ask book4) p /\ bid s' = bid book4
     else bid s' = Z.max (bid book4) p /\ ask s' = ask book4).
Proof.
  exists (force (orderCreation synSell2 0 book4)).
  assert (E : orderCreation synSell2 0 book4 = Ok (force (orderCreation synSell2 0 book4)))
    by (vm_compute; reflexivity).
  destruct (limit_order_placement book4 synSell2 0 (force (orderCreation synSell2 0 book4))
              (built_wf _ built_book4)) as (lo & rest & p & H); try exact E.
  - unfold quotesApart, NUM_PRICES. change (bid book4) with 100. change (ask book4) with 105. lia.
  - unfold validDraws, synSell2, NUM_PRICES. simpl. lia.
  - reflexivity.
  - exists lo, rest, p. split; [exact E | exact H].
Defined.

(** With a full list of tracked orders and no other key, the user's part of
    a frame returns the state as it is. *)
Lemma userOrders_full (s : state) (k : keys) (now : Z) :
  (MAX_NUM_USER_LIMIT_ORDERS <= numUserLimitOrders s)%nat ->
  buyMarket k = false -> sellMarket k = false -> backspace k = false ->
  userOrders k now s = Ok s.
Proof.
  intros Hfull Hb Hs Hw. unfold userOrders. rewrite Hb, Hs, Hw. simpl.
  destruct (Nat.ltb_spec (numUserLimitOrders s) MAX_NUM_USER_LIMIT_ORDERS); [lia|].
  reflexivity.
Qed.

(** C9, as stated, fails: the user has 100 resting orders; the key of a
    limit buy is pressed; the user's part of the frame returns without a
    fault, and the state is the one before: no record has left the free
    stack and nothing has been reported. *)
Lemma full_tracking_list_drops_order_silently :
  numUserLimitOrders fullBook = 100%nat /\
  numFreeLimitOrders fullBook = 28%nat /\
  buyLimit userBuy10 = true /\
  userOrders userBuy10 0 fullBook = Ok fullBook.
Proof.
  split; [vm_compute; reflexivity|].
  split; [vm_compute; reflexivity|].
  split; [reflexivity|].
  apply userOrders_full; try reflexivity; vm_compute; lia.
Qed.

(** C9 (amended).  When [userLimitOrders] is full ([numUserLimitOrders] is
    not below [MAX_NUM_USER_LIMIT_ORDERS]), the guard of [mainCycle] skips
    the submission of a user's limit order: [addLimitOrder] is not called,
    the state stays as it is and nothing is reported, neither a fault nor a
    message; a frame that finds the list full after its sweep and its
    refresh does no more than print the book.  (Below the limit the order
    is inserted.) *)
Theorem full_tracking_list_skips_limit_order (s : state) (k : keys) (now : Z) :
  (MAX_NUM_USER_LIMIT_ORDERS <= numUserLimitOrders s)%nat ->
  buyMarket k = false -> sellMarket k = false -> backspace k = false ->
  userOrders k now s = Ok s /\
  (forall s1 s2,
     sweepAll now s = Ok s1 -> updateBidAndAsk s1 = Ok s2 ->
     (MAX_NUM_USER_LIMIT_ORDERS <= numUserLimitOrders s2)%nat /\
     frame k now s = (text <- printBook s2 screen ;; Ok s2)).
Proof.
  intros Hfull Hb Hs Hw. split; [now apply userOrders_full|].
  intros s1 s2 H1 H2.
  assert (E : userLimitOrders s2 = userLimitOrders s).
  { destruct (updateBidAndAsk_spec _ _ H2) as ((_ & _ & _ & _ & E2 & _) & _).
    rewrite E2. unfold sweepAll in H1. now apply sweepFrom_user in H1. }
  assert (Hfull2 : (MAX_NUM_USER_LIMIT_ORDERS <= numUserLimitOrders s2)%nat)
    by (unfold numUserLimitOrders in *; now rewrite E).
  split; [exact Hfull2|].
  unfold frame. rewrite H1. simpl bind. rewrite H2. simpl bind.
  rewrite (userOrders_full s2 k now Hfull2 Hb Hs Hw). reflexivity.
Qed.

Lemma full_tracking_list_skips_limit_order_witness :
  userOrders userBuy10 0 fullBook = Ok fullBook /\
  (forall s1 s2,
     sweepAll 0 fullBook = Ok s1 -> updateBidAndAsk s1 = Ok s2 ->
     (MAX_NUM_USER_LIMIT_ORDERS <= numUserLimitOrders s2)%nat /\
     frame userBuy10 0 fullBook = (text <- printBook s2 screen ;; Ok s2)).
Proof.
  apply (full_tracking_list_skips_limit_order fullBook userBuy10 0).
  - vm_compute. lia.
  - reflexivity.
  - reflexivity.
  - reflexivity.
Defined.

(** * Text *)

Lemma store_same b i c j : j = i -> store b i c j = c.
Proof. intros ->. unfold store. now rewrite Z.eqb_refl. Qed.

Lemma store_other b i c j : j <> i -> store b i c j = b j.
Proof. unfold store. intros H. destruct (Z.eqb_spec j i); [contradiction|reflexivity]. Qed.

(** Decides the tests of [store] on addresses that differ by constants. *)
Ltac store_tac :=
  repeat match goal with
         | |- context [store ?b ?i ?c ?j] =>
             first [ rewrite (store_other b i c j) by lia
                   | rewrite (store_same b i c j) by lia ]
         end.

Lemma chars_length b : forall n s, length (chars b s n) = n.
Proof. induction n; intros s; simpl; [reflexivity|now rewrite IHn]. Qed.

Lemma chars_ext b b' : forall n s,
  (forall j, s <= j < s + Z.of_nat n -> b' j = b j) -> chars b' s n = chars b s n.
Proof.
  induction n as [|n IH]; intros s H; [reflexivity|].
  cbn [chars]. rewrite H by lia. f_equal. apply IH. intros j Hj. apply H. lia.
Qed.

Lemma chars_app b : forall n m s,
  chars b s (n + m) = chars b s n ++ chars b (s + Z.of_nat n) m.
Proof.
  induction n as [|n IH]; intros m s.
  - simpl. now rewrite Z.add_0_r.
  - cbn [chars Nat.add app]. rewrite IH.
    replace (s + 1 + Z.of_nat n) with (s + Z.of_nat (S n)) by lia. reflexivity.
Qed.

Lemma chars_blank b : forall n s,
  (forall j, s <= j < s + Z.of_nat n -> b j = CH_SPACE) -> chars b s n = repeat CH_SPACE n.
Proof.
  induction n as [|n IH]; intros s H; [reflexivity|].
  cbn [chars repeat]. rewrite H by lia. f_equal. apply IH. intros j Hj. apply H. lia.
Qed.

Lemma decimal_intro v l :
  l <> [] -> Forall isDigit l -> (hd CH_0 l = CH_0 -> l = [CH_0]) ->
  readDigits l 0 = v -> decimal v l.
Proof. unfold decimal. auto. Qed.

(** Linear arithmetic with divisions by constants. *)
Ltac dlia := Z.div_mod_to_equations; lia.

Ltac digits_tac :=
  cbn [readDigits hd] in *; unfold isDigit, CH_0, CH_9 in *;
  repeat match goal with
         | |- Forall _ (_ :: _) => constructor
         | |- Forall _ [] => constructor
         end.

Lemma intToStringFixed_spec (p s : Z) (b : buffer) :
  0 <= p < 2 ^ 32 ->
  (forall j, s <= j < s + 4 -> b j = CH_SPACE) ->
  exists b' digits,
    intToStringFixed p s b = Ok b' /\
    decimal (Z.min p 9999) digits /\
    rightAligned 4 digits (chars b' s 4) /\
    (forall j, j < s \/ s + 4 <= j -> b' j = b j).
Proof.
  intros Hp Hb. unfold intToStringFixed.
  destruct (Z.eqb_spec p 0) as [->|H0].
  { exists (store b (s + 3) CH_0), [CH_0]. split; [reflexivity|]. split; [|split].
    - apply decimal_intro; [discriminate| digits_tac; dlia | auto | reflexivity].
    - exists 3%nat. split; [|reflexivity]. cbn [chars repeat app]. store_tac.
      rewrite !Hb by lia. reflexivity.
    - intros j Hj. store_tac. reflexivity. }
  destruct (Z.ltb_spec 9999 p) as [Hbig|Hsmall].
  { eexists; exists [CH_9; CH_9; CH_9; CH_9]. split; [reflexivity|]. split; [|split].
    - apply decimal_intro; [discriminate| digits_tac; dlia | discriminate |].
      rewrite Z.min_r by lia. reflexivity.
    - exists 0%nat. split; [|reflexivity]. cbn [chars repeat app]. store_tac. reflexivity.
    - intros j Hj. store_tac. reflexivity. }
  rewrite Z.min_l by lia.
  cbn [digitsDown]. rewrite (proj2 (Z.eqb_neq p 0) H0).
  destruct (Z.eqb_spec (p / 10) 0) as [E1|E1].
  { eexists; exists [CH_0 + p mod 10]. split; [reflexivity|]. split; [|split].
    - apply decimal_intro; [discriminate| digits_tac; dlia | digits_tac; intros ?; exfalso; dlia | digits_tac; dlia].
    - exists 3%nat. split; [|reflexivity]. cbn [chars repeat app]. store_tac.
      rewrite !Hb by lia. reflexivity.
    - intros j Hj. store_tac. reflexivity. }
  destruct (Z.eqb_spec (p / 10 / 10) 0) as [E2|E2].
  { eexists; exists [CH_0 + (p / 10) mod 10; CH_0 + p mod 10].
    split; [reflexivity|]. split; [|split].
    - apply decimal_intro; [discriminate| digits_tac; dlia | digits_tac; intros ?; exfalso; dlia | digits_tac; dlia].
    - exists 2%nat. split; [|reflexivity]. cbn [chars repeat app]. store_tac.
      rewrite !Hb by lia. reflexivity.
    - intros j Hj. store_tac. reflexivity. }
  destruct (Z.eqb_spec (p / 10 / 10 / 10) 0) as [E3|E3].
  { eexists; exists [CH_0 + (p / 10 / 10) mod 10; CH_0 + (p / 10) mod 10; CH_0 + p mod 10].
    split; [reflexivity|]. split; [|split].
    - apply decimal_intro; [discriminate| digits_tac; dlia | digits_tac; intros ?; exfalso; dlia | digits_tac; dlia].
    - exists 1%nat. split; [|reflexivity]. cbn [chars repeat app]. store_tac.
      rewrite !Hb by lia. reflexivity.
    - intros j Hj. store_tac. reflexivity. }
  assert (E4 : p / 10 / 10 / 10 / 10 = 0) by dlia. rewrite E4. cbn [Z.eqb].
  eexists; exists [CH_0 + (p / 10 / 10 / 10) mod 10; CH_0 + (p / 10 / 10) mod 10;
                   CH_0 + (p / 10) mod 10; CH_0 + p mod 10].
  split; [reflexivity|]. split; [|split].
  - apply decimal_intro; [discriminate| digits_tac; dlia | digits_tac; intros ?; exfalso; dlia | digits_tac; dlia].
  - exists 0%nat. split; [|reflexivity]. cbn [chars repeat app]. store_tac. reflexivity.
  - intros j Hj. store_tac. reflexivity.
Qed.

Lemma pow10_pos k : 0 < 10 ^ Z.of_nat k.
Proof. apply Z.pow_pos_nonneg; lia. Qed.

Lemma pow10_S k : 10 ^ Z.of_nat (S k) = 10 ^ Z.of_nat k * 10.
Proof. rewrite Nat2Z.inj_succ, Z.pow_succ_r by lia. lia. Qed.

Lemma powerLoop_spec p : 1 <= p < 2 ^ 32 -> forall fuel k,
  10 ^ Z.of_nat k <= p -> p < 10 ^ Z.of_nat (k + fuel) ->
  exists k',
    powerLoop fuel p (10 ^ Z.of_nat k) = Ok (10 ^ Z.of_nat k') /\
    10 ^ Z.of_nat k' <= p < 10 ^ Z.of_nat (S k') /\ (k' < k + fuel)%nat.
Proof.
  intros Hp. induction fuel as [|fuel IH]; intros k Hlo Hhi.
  { rewrite Nat.add_0_r in Hhi. lia. }
  cbn [powerLoop]. pose proof (pow10_pos k) as Hx.
  pose proof (Z.div_mod p (10 ^ Z.of_nat k) ltac:(lia)) as Hd.
  pose proof (Z.mod_pos_bound p (10 ^ Z.of_nat k) Hx) as Hm.
  destruct (Z.leb_spec 10 (p / 10 ^ Z.of_nat k)) as [Hc|Hc].
  - assert (Hn : 10 ^ Z.of_nat (S k) <= p) by (rewrite pow10_S; nia).
    replace (u32 (10 ^ Z.of_nat k * 10)) with (10 ^ Z.of_nat (S k)).
    + destruct (IH (S k) Hn) as (k' & E & B & L).
      { replace (S k + fuel)%nat with (k + S fuel)%nat by lia. exact Hhi. }
      exists k'. split; [exact E|]. split; [exact B|lia].
    + rewrite pow10_S in *. unfold u32. rewrite Z.mod_small; lia.
  - exists k. split; [reflexivity|]. split; [|lia]. rewrite pow10_S. nia.
Qed.

Lemma writeDigits_zero fuel p s i b : writeDigits fuel p 0 s i b = Ok (b, i).
Proof. destruct fuel; reflexivity. Qed.

Lemma writeDigits_spec p s : forall k fuel i b,
  (k < fuel)%nat ->
  exists b',
    writeDigits fuel p (10 ^ Z.of_nat k) s i b = Ok (b', i + Z.of_nat (S k)) /\
    chars b' (s + i) (S k) = digitsFrom k p /\
    (forall j, j < s + i \/ s + i + Z.of_nat (S k) <= j -> b' j = b j).
Proof.
  induction k as [|k IH]; intros fuel i b Hf.
  - destruct fuel as [|fuel]; [lia|]. cbn [writeDigits].
    change (10 ^ Z.of_nat 0) with 1. cbn [Z.ltb Z.compare].
    change (1 / 10) with 0. rewrite writeDigits_zero.
    eexists. split; [reflexivity|]. split.
    + cbn [chars digitsFrom]. store_tac. reflexivity.
    + intros j Hj. store_tac. reflexivity.
  - destruct fuel as [|fuel]; [lia|]. cbn [writeDigits].
    pose proof (pow10_pos (S k)) as Hx.
    rewrite (proj2 (Z.ltb_lt 0 _) Hx).
    replace (10 ^ Z.of_nat (S k) / 10) with (10 ^ Z.of_nat k)
      by (rewrite pow10_S, Z.div_mul; lia).
    destruct (IH fuel (i + 1) (store b (s + i) (CH_0 + (p / 10 ^ Z.of_nat (S k)) mod 10)))
      as (b' & E & C & F); [lia|].
    exists b'. split; [rewrite E; f_equal; f_equal; lia|]. split.
    + cbn [chars digitsFrom]. f_equal.
      * rewrite F by lia. store_tac. reflexivity.
      * replace (s + i + 1) with (s + (i + 1)) by lia. exact C.
    + intros j Hj. rewrite F by lia. store_tac. reflexivity.
Qed.

Lemma digitsFrom_isDigit p : forall k, Forall isDigit (digitsFrom k p).
Proof.
  induction k as [|k IH]; cbn [digitsFrom]; constructor; auto;
    unfold isDigit, CH_0, CH_9; dlia.
Qed.

Lemma digitsFrom_length p : forall k, length (digitsFrom k p) = S k.
Proof. induction k as [|k IH]; cbn [digitsFrom length]; [reflexivity|now rewrite IH]. Qed.

Lemma readDigits_digitsFrom p : forall k acc,
  readDigits (digitsFrom k p) acc
  = acc * 10 ^ Z.of_nat (S k) + p mod 10 ^ Z.of_nat (S k).
Proof.
  induction k as [|k IH]; intros acc.
  - cbn [digitsFrom readDigits]. change (10 ^ Z.of_nat 0) with 1.
    change (10 ^ Z.of_nat 1) with 10. rewrite Z.div_1_r. unfold CH_0. lia.
  - cbn [digitsFrom readDigits]. rewrite IH.
    rewrite (pow10_S (S k)).
    pose proof (pow10_pos (S k)) as Hx.
    rewrite (Z.rem_mul_r p (10 ^ Z.of_nat (S k)) 10) by lia.
    unfold CH_0. lia.
Qed.

Lemma decimal_digitsFrom p k :
  10 ^ Z.of_nat k <= p < 10 ^ Z.of_nat (S k) -> decimal p (digitsFrom k p).
Proof.
  intros Hp. pose proof (pow10_pos k) as Hx. apply decimal_intro.
  - destruct k; discriminate.
  - apply digitsFrom_isDigit.
  - intros H. exfalso.
    assert (E : hd CH_0 (digitsFrom k p) = CH_0 + (p / 10 ^ Z.of_nat k) mod 10)
      by (destruct k; reflexivity).
    rewrite E in H. rewrite pow10_S in Hp.
    pose proof (Z.div_mod p (10 ^ Z.of_nat k) ltac:(lia)) as Hd.
    pose proof (Z.mod_pos_bound p (10 ^ Z.of_nat k) Hx) as Hm.
    assert (1 <= p / 10 ^ Z.of_nat k < 10) by nia.
    rewrite Z.mod_small in H by lia. lia.
  - rewrite readDigits_digitsFrom. rewrite Z.mod_small by lia. lia.
Qed.

(** The digits that [intToString] writes for a positive number. *)
Lemma positive_digits p s1 b :
  1 <= p < 2 ^ 32 ->
  exists b' k,
    (x <- powerLoop 10 p 1 ;;
     '(b2, i) <- writeDigits 10 p x s1 0 b ;;
     Ok (b2, s1 + i)) = Ok (b', s1 + Z.of_nat (S k)) /\
    chars b' s1 (S k) = digitsFrom k p /\
    decimal p (digitsFrom k p) /\
    (forall j, j < s1 \/ s1 + Z.of_nat (S k) <= j -> b' j = b j).
Proof.
  intros Hp.
  destruct (powerLoop_spec p Hp 10 0) as (k & E & B & L).
  { change (10 ^ Z.of_nat 0) with 1. lia. }
  { change (10 ^ Z.of_nat (0 + 10)) with 10000000000. lia. }
  change (10 ^ Z.of_nat 0) with 1 in E. rewrite E. cbn [bind].
  destruct (writeDigits_spec p s1 k 10 0 b) as (b' & E' & C & F); [lia|].
  rewrite E'. cbn [bind]. exists b', k. split; [reflexivity|].
  rewrite Z.add_0_r in C, F. split; [exact C|]. split; [now apply decimal_digitsFrom|].
  intros j Hj. apply F. lia.
Qed.

Lemma intToString_spec (p s : Z) (b : buffer) :
  - 2 ^ 31 < p < 2 ^ 31 ->
  exists b' text,
    intToString p s b = Ok (b', s + Z.of_nat (length text)) /\
    signed p text /\
    chars b' s (length text) = text /\
    (forall j, j < s \/ s + Z.of_nat (length text) <= j -> b' j = b j).
Proof.
  intros Hp. unfold intToString.
  destruct (Z.eqb_spec p 0) as [->|H0].
  { exists (store b s CH_0), [CH_0]. split; [reflexivity|]. split; [|split].
    - exists [CH_0]. split; [|reflexivity].
      apply decimal_intro; [discriminate| digits_tac; lia | auto | reflexivity].
    - cbn [length chars]. store_tac. reflexivity.
    - intros j Hj. cbn [length] in Hj. store_tac. reflexivity. }
  unfold writeSign. destruct (Z.ltb_spec p 0) as [Hneg|Hpos].
  - assert (E1 : i32 (p * -1) = - p).
    { unfold i32. rewrite Z.mod_small; lia. }
    assert (E2 : u32 (- p) = - p) by (unfold u32; rewrite Z.mod_small; lia).
    rewrite E1, E2.
    destruct (positive_digits (- p) (s + 1) (store b s CH_MINUS)) as (b' & k & E & C & D & F);
      [lia|].
    exists b', (CH_MINUS :: digitsFrom k (- p)).
    cbn [length]. rewrite digitsFrom_length.
    split; [rewrite E; f_equal; f_equal; lia|]. split; [|split].
    + exists (digitsFrom k (- p)). rewrite Z.abs_neq by lia. split; [exact D|].
      rewrite (proj2 (Z.ltb_lt p 0) Hneg). reflexivity.
    + cbn [chars]. f_equal; [|exact C]. rewrite F by lia. store_tac. reflexivity.
    + intros j Hj. rewrite F by lia. store_tac. reflexivity.
  - assert (E2 : u32 p = p) by (unfold u32; rewrite Z.mod_small; lia).
    rewrite E2.
    destruct (positive_digits p s b) as (b' & k & E & C & D & F); [lia|].
    exists b', (digitsFrom k p). rewrite digitsFrom_length.
    split; [exact E|]. split; [|split].
    + exists (digitsFrom k p). rewrite Z.abs_eq by lia. split; [exact D|].
      rewrite (proj2 (Z.ltb_ge p 0) Hpos). reflexivity.
    + exact C.
    + exact F.
Qed.

Lemma signed_nonneg v text : 0 <= v -> signed v text -> decimal v text.
Proof.
  intros Hv (digits & D & ->). rewrite (proj2 (Z.ltb_ge v 0) Hv).
  rewrite Z.abs_eq in D by lia. exact D.
Qed.

Lemma priceToString_spec (p s : Z) (b : buffer) :
  - 2 ^ 31 < p < 2 ^ 31 ->
  exists b' text,
    priceToString p s b = Ok (b', s + Z.of_nat (length text)) /\
    (exists a, amount (Z.abs p) a /\ text = (if p <? 0 then [CH_MINUS] else []) ++ a) /\
    chars b' s (length text) = text /\
    (forall j, j < s \/ s + Z.of_nat (length text) <= j -> b' j = b j).
Proof.
  intros Hp. unfold priceToString, writeSign.
  assert (Hq : forall v, 0 <= v ->
            Z.quot v 100 = v / 100 /\ Z.rem (Z.quot v 10) 10 = (v / 10) mod 10 /\
            Z.rem v 10 = v mod 10).
  { intros v Hv. rewrite !Z.quot_div_nonneg by lia.
    rewrite !Z.rem_mod_nonneg by (try lia; dlia). auto. }
  assert (Hcents : forall v, 0 <= v ->
            readDigits [CH_0 + (v / 10) mod 10; CH_0 + v mod 10] 0 = v mod 100).
  { intros v Hv. cbn [readDigits]. unfold CH_0. dlia. }
  destruct (Z.ltb_spec p 0) as [Hneg|Hpos].
  - assert (E1 : i32 (p * -1) = - p).
    { unfold i32. rewrite Z.mod_small; lia. }
    rewrite E1. destruct (Hq (- p) ltac:(lia)) as (Q1 & Q2 & Q3). rewrite Q1, Q2, Q3.
    destruct (intToString_spec (- p / 100) (s + 1) (store b s CH_MINUS))
      as (b1 & units & E & S & C & F); [dlia|].
    apply signed_nonneg in S; [|dlia].
    rewrite E. cbn [bind].
    set (e := s + 1 + Z.of_nat (length units)) in *.
    eexists. exists (CH_MINUS :: units ++ [CH_DOT; CH_0 + (- p / 10) mod 10; CH_0 + - p mod 10]).
    split; [|split; [|split]].
    + f_equal. f_equal. cbn [length]. rewrite length_app. cbn [length]. lia.
    + exists (units ++ [CH_DOT; CH_0 + (- p / 10) mod 10; CH_0 + - p mod 10]).
      split; [|reflexivity]. rewrite Z.abs_neq by lia.
      exists units, (CH_0 + (- p / 10) mod 10), (CH_0 + - p mod 10).
      split; [exact S|]. split; [unfold isDigit, CH_0, CH_9; dlia|].
      split; [unfold isDigit, CH_0, CH_9; dlia|]. split; [now apply Hcents; lia|reflexivity].
    + cbn [length]. rewrite length_app. cbn [length chars]. f_equal.
      { store_tac. rewrite F by lia. store_tac. reflexivity. }
      rewrite chars_app. f_equal.
      * rewrite <- C at 2. apply chars_ext. intros j Hj. store_tac. reflexivity.
      * cbn [chars]. fold e. store_tac. reflexivity.
    + intros j Hj. cbn [length] in Hj. rewrite length_app in Hj. cbn [length] in Hj.
      store_tac. rewrite F by lia. store_tac. reflexivity.
  - destruct (Hq p ltac:(lia)) as (Q1 & Q2 & Q3). rewrite Q1, Q2, Q3.
    destruct (intToString_spec (p / 100) s b) as (b1 & units & E & S & C & F); [dlia|].
    apply signed_nonneg in S; [|dlia].
    rewrite E. cbn [bind].
    set (e := s + Z.of_nat (length units)) in *.
    eexists. exists (units ++ [CH_DOT; CH_0 + (p / 10) mod 10; CH_0 + p mod 10]).
    split; [|split; [|split]].
    + f_equal. f_equal. rewrite length_app. cbn [length]. lia.
    + exists (units ++ [CH_DOT; CH_0 + (p / 10) mod 10; CH_0 + p mod 10]).
      split; [|reflexivity]. rewrite Z.abs_eq by lia.
      exists units, (CH_0 + (p / 10) mod 10), (CH_0 + p mod 10).
      split; [exact S|]. split; [unfold isDigit, CH_0, CH_9; dlia|].
      split; [unfold isDigit, CH_0, CH_9; dlia|]. split; [now apply Hcents; lia|reflexivity].
    + rewrite length_app. cbn [length]. rewrite chars_app. f_equal.
      * rewrite <- C at 2. apply chars_ext. intros j Hj. store_tac. reflexivity.
      * cbn [chars]. fold e. store_tac. reflexivity.
    + intros j Hj. rewrite length_app in Hj. cbn [length] in Hj.
      store_tac. apply F. lia.
Qed.

Lemma priceToStringFixed_spec (p s : Z) (b : buffer) :
  0 <= p <= 99999 ->
  (forall j, s <= j < s + 2 -> b j = CH_SPACE) ->
  exists b' text,
    priceToStringFixed p s b = Ok b' /\
    amount p text /\
    rightAligned 6 text (chars b' s 6) /\
    (forall j, j < s \/ s + 6 <= j -> b' j = b j).
Proof.
  intros Hp Hb. unfold priceToStringFixed.
  destruct (Z.eqb_spec p 0) as [->|H0].
  { eexists. exists [CH_0; CH_DOT; CH_0; CH_0]. split; [reflexivity|]. split; [|split].
    - exists [CH_0], CH_0, CH_0. split; [|repeat split; unfold isDigit, CH_0, CH_9; lia].
      apply decimal_intro; [discriminate| digits_tac; lia | auto | reflexivity].
    - exists 2%nat. split; [|reflexivity]. cbn [chars repeat app]. store_tac.
      rewrite !Hb by lia. reflexivity.
    - intros j Hj. store_tac. reflexivity. }
  rewrite (proj2 (Z.ltb_ge 99999 p)) by lia.
  assert (Hc : isDigit (CH_0 + (p / 10) mod 10) /\ isDigit (CH_0 + p mod 10) /\
               readDigits [CH_0 + (p / 10) mod 10; CH_0 + p mod 10] 0 = p mod 100).
  { cbn [readDigits]. unfold isDigit, CH_0, CH_9. dlia. }
  destruct Hc as (Hc1 & Hc0 & Hcv).
  cbn [digitsDown].
  destruct (Z.eqb_spec (p / 10 / 10) 0) as [E1|E1].
  { eexists. exists [CH_0; CH_DOT; CH_0 + (p / 10) mod 10; CH_0 + p mod 10].
    split; [reflexivity|]. split; [|split].
    - exists [CH_0], (CH_0 + (p / 10) mod 10), (CH_0 + p mod 10).
      split; [|auto]. apply decimal_intro; [discriminate| digits_tac; lia | auto |].
      digits_tac; dlia.
    - exists 2%nat. split; [|reflexivity]. cbn [chars repeat app]. store_tac.
      rewrite !Hb by lia. reflexivity.
    - intros j Hj. store_tac. reflexivity. }
  destruct (Z.eqb_spec (p / 10 / 10 / 10) 0) as [E2|E2].
  { eexists. exists [CH_0 + (p / 10 / 10) mod 10; CH_DOT; CH_0 + (p / 10) mod 10; CH_0 + p mod 10].
    split; [reflexivity|]. split; [|split].
    - exists [CH_0 + (p / 10 / 10) mod 10], (CH_0 + (p / 10) mod 10), (CH_0 + p mod 10).
      split; [|auto].
      apply decimal_intro;
        [discriminate| digits_tac; dlia | digits_tac; intros ?; exfalso; dlia | digits_tac; dlia].
    - exists 2%nat. split; [|reflexivity]. cbn [chars repeat app]. store_tac.
      rewrite !Hb by lia. reflexivity.
    - intros j Hj. store_tac. reflexivity. }
  destruct (Z.eqb_spec (p / 10 / 10 / 10 / 10) 0) as [E3|E3].
  { eexists. exists [CH_0 + (p / 10 / 10 / 10) mod 10; CH_0 + (p / 10 / 10) mod 10; CH_DOT;
                     CH_0 + (p / 10) mod 10; CH_0 + p mod 10].
    split; [reflexivity|]. split; [|split].
    - exists [CH_0 + (p / 10 / 10 / 10) mod 10; CH_0 + (p / 10 / 10) mod 10],
        (CH_0 + (p / 10) mod 10), (CH_0 + p mod 10).
      split; [|auto].
      apply decimal_intro;
        [discriminate| digits_tac; dlia | digits_tac; intros ?; exfalso; dlia | digits_tac; dlia].
    - exists 1%nat. split; [|reflexivity]. cbn [chars repeat app]. store_tac.
      rewrite !Hb by lia. reflexivity.
    - intros j Hj. store_tac. reflexivity. }
  assert (E4 : p / 10 / 10 / 10 / 10 / 10 = 0) by dlia. rewrite E4. cbn [Z.eqb].
  eexists. exists [CH_0 + (p / 10 / 10 / 10 / 10) mod 10; CH_0 + (p / 10 / 10 / 10) mod 10;
                   CH_0 + (p / 10 / 10) mod 10; CH_DOT;
                   CH_0 + (p / 10) mod 10; CH_0 + p mod 10].
  split; [reflexivity|]. split; [|split].
  - exists [CH_0 + (p / 10 / 10 / 10 / 10) mod 10; CH_0 + (p / 10 / 10 / 10) mod 10;
           CH_0 + (p / 10 / 10) mod 10],
      (CH_0 + (p / 10) mod 10), (CH_0 + p mod 10).
    split; [|auto].
    apply decimal_intro;
      [discriminate| digits_tac; dlia | digits_tac; intros ?; exfalso; dlia | digits_tac; dlia].
  - exists 0%nat. split; [|reflexivity]. cbn [chars repeat app]. store_tac. reflexivity.
  - intros j Hj. store_tac. reflexivity.
Qed.

Lemma priceToStringFixed_large (p s : Z) (b : buffer) :
  99999 < p ->
  exists b',
    priceToStringFixed p s b = Ok b' /\
    chars b' s 6 = [CH_9; CH_9; CH_0; CH_9; CH_9; CH_9] /\
    (forall j, j < s \/ s + 6 <= j -> b' j = b j).
Proof.
  intros Hp. unfold priceToStringFixed.
  rewrite (proj2 (Z.eqb_neq p 0)) by lia. rewrite (proj2 (Z.ltb_lt 99999 p) Hp).
  eexists. split; [reflexivity|]. split.
  - cbn [chars]. store_tac. reflexivity.
  - intros j Hj. store_tac. reflexivity.
Qed.

(** * The editing keys *)

Lemma typeDigits_bound number : forall n i x,
  0 <= i -> i + Z.of_nat n <= 10 -> 0 <= x < 1000000000 ->
  0 <= Editor.typeDigits n i number x < 1000000000.
Proof.
  induction n as [|n IH]; intros i x Hi Hn Hx; cbn [Editor.typeDigits]; [exact Hx|].
  apply IH; [lia|lia|].
  destruct (number i); cbn [andb]; [|exact Hx].
  destruct (Z.ltb_spec x 100000000); [|exact Hx].
  unfold u32. rewrite (Z.mod_small (x * 10)) by lia. rewrite Z.mod_small by lia. lia.
Qed.

Lemma editorOk_initial : editorOk Editor.initial.
Proof. unfold editorOk, Editor.initial. cbn. lia. Qed.

Lemma editorOk_commit e : editorOk e -> editorOk (Editor.commit e).
Proof.
  unfold editorOk, Editor.commit. intros H.
  repeat match goal with
         | |- context [?a =? ?b] => destruct (Z.eqb_spec a b)
         end; cbn; lia.
Qed.

Lemma editorOk_nextSelected e : editorOk e -> editorOk (Editor.nextSelected e).
Proof.
  unfold editorOk, Editor.nextSelected. intros H. cbn.
  rewrite Z.rem_mod_nonneg by lia. split; [lia|]. split; [dlia|lia].
Qed.

Lemma editorOk_editKeys k e : editorOk e -> editorOk (Editor.editKeys k e).
Proof.
  intros H. unfold Editor.editKeys.
  destruct (Editor.userEditing e).
  - assert (H1 : editorOk (Editor.with_number
                             (Editor.typeDigits 10 0 (Editor.number k) (Editor.userEditingNumber e)) e)).
    { pose proof (typeDigits_bound (Editor.number k) 10 0 (Editor.userEditingNumber e)) as B.
      set (n := Editor.typeDigits 10 0 (Editor.number k) (Editor.userEditingNumber e)) in *.
      unfold editorOk in *. cbn [Editor.with_number Editor.userEditingNumber Editor.userSelected
        Editor.userMarketBuySize Editor.userMarketSellSize Editor.userLimitBuySize
        Editor.userLimitSellSize]. lia. }
    assert (H2 : forall c : bool,
               editorOk (if c then Editor.commit
                                     (Editor.with_number
                                        (Editor.typeDigits 10 0 (Editor.number k)
                                                           (Editor.userEditingNumber e)) e)
                         else Editor.with_number
                                (Editor.typeDigits 10 0 (Editor.number k)
                                                   (Editor.userEditingNumber e)) e)).
    { intros [|]; [now apply editorOk_commit|exact H1]. }
    destruct (Editor.tab k); [apply editorOk_nextSelected|]; apply H2.
  - assert (H1 : editorOk (if Editor.tab k then Editor.nextSelected e else e)).
    { destruct (Editor.tab k); [now apply editorOk_nextSelected|exact H]. }
    destruct (Editor.enter k); [|exact H1].
    unfold editorOk in *. cbn. lia.
Qed.

Lemma editorOk_run : forall ks e, editorOk e -> editorOk (Editor.run ks e).
Proof.
  unfold Editor.run. induction ks as [|k ks IH]; intros e H; cbn [fold_left]; [exact H|].
  apply IH. now apply editorOk_editKeys.
Qed.

Lemma typeDigits_single d : forall n i x,
  Editor.typeDigits n i (fun j => j =? d) x
  = if (i <=? d) && (d <? i + Z.of_nat n) && (x <? 100000000)
    then u32 (u32 (x * 10) + d) else x.
Proof.
  induction n as [|n IH]; intros i x; cbn [Editor.typeDigits].
  - destruct (Z.leb_spec i d), (Z.ltb_spec d (i + Z.of_nat 0)); cbn [andb]; try reflexivity; lia.
  - rewrite IH. destruct (Z.eqb_spec i d) as [->|Hd]; cbn [andb].
    + destruct (Z.ltb_spec x 100000000) as [Hx|Hx].
      * rewrite (proj2 (Z.leb_gt (d + 1) d)) by lia. cbn [andb].
        rewrite Z.leb_refl. rewrite (proj2 (Z.ltb_lt d (d + Z.of_nat (S n)))) by lia.
        reflexivity.
      * rewrite (proj2 (Z.leb_gt (d + 1) d)) by lia. cbn [andb].
        rewrite Bool.andb_false_r. reflexivity.
    + destruct (Z.leb_spec (i + 1) d), (Z.leb_spec i d),
        (Z.ltb_spec d (i + 1 + Z.of_nat n)), (Z.ltb_spec d (i + Z.of_nat (S n)));
        cbn [andb]; try reflexivity; lia.
Qed.

Lemma run_app ks1 ks2 e : Editor.run (ks1 ++ ks2) e = Editor.run ks2 (Editor.run ks1 e).
Proof. unfold Editor.run. apply fold_left_app. Qed.

Lemma run_digits : forall ds e,
  Editor.userEditing e = true ->
  Forall (fun d => 0 <= d <= 9) ds ->
  0 <= Editor.userEditingNumber e ->
  (Editor.userEditingNumber e + 1) * 10 ^ Z.of_nat (length ds) <= 10 ^ 9 ->
  Editor.run (map pressDigit ds) e
  = Editor.with_number (fold_left (fun x d => x * 10 + d) ds (Editor.userEditingNumber e)) e.
Proof.
  induction ds as [|d ds IH]; intros e He Hd H0 Hx.
  - destruct e; reflexivity.
  - inversion Hd as [|? ? Hd1 Hd2]; subst.
    change (Editor.run (map pressDigit (d :: ds)) e)
      with (Editor.run (map pressDigit ds) (Editor.editKeys (pressDigit d) e)).
    pose proof (pow10_pos (length ds)) as Hp.
    cbn [length] in Hx. rewrite pow10_S in Hx. change (10 ^ 9) with 1000000000 in *.
    assert (E : Editor.editKeys (pressDigit d) e
                = Editor.with_number (Editor.userEditingNumber e * 10 + d) e).
    { unfold Editor.editKeys. rewrite He. cbn [pressDigit Editor.number Editor.tab Editor.enter orb].
      rewrite typeDigits_single.
      rewrite (proj2 (Z.leb_le 0 d)) by lia.
      rewrite (proj2 (Z.ltb_lt d (0 + Z.of_nat 10))) by lia.
      rewrite (proj2 (Z.ltb_lt (Editor.userEditingNumber e) 100000000)) by nia.
      cbn [andb]. unfold u32. rewrite (Z.mod_small (_ * 10)) by nia.
      rewrite Z.mod_small by nia. reflexivity. }
    rewrite E, IH.
    + destruct e; reflexivity.
    + destruct e; exact He.
    + exact Hd2.
    + cbn [Editor.with_number Editor.userEditingNumber]. lia.
    + cbn [Editor.with_number Editor.userEditingNumber]. nia.
Qed.

(** * The generator *)

Lemma random_state r r' :
  Rng.randState r = Rng.randState r' -> random r = random r'.
Proof. intros H. unfold random. now rewrite H. Qed.

Lemma draw_state : forall n r r',
  Rng.randState r = Rng.randState r' -> draw n r = draw n r'.
Proof.
  intros n r r' H. apply random_state in H. destruct n; cbn [draw]; now rewrite H.
Qed.

(** * The lines of the book *)

Lemma levelVolume_spec m : forall l fuel curr x c,
  chain m curr l -> (length l <= fuel)%nat ->
  0 <= x < 2 ^ 32 -> 0 <= c < 2 ^ 32 ->
  levelVolume fuel m curr x c
  = Ok (u32 (x + sizeOf m l), u32 (c + Z.of_nat (length l))).
Proof.
  induction l as [|h l IH]; intros fuel curr x c Hc Hf Hx Hcn.
  - apply chain_nil_inv in Hc. subst curr. destruct fuel; cbn [levelVolume sizeOf fold_right length];
      rewrite !Z.add_0_r, !u32_small by lia; reflexivity.
  - apply chain_cons_inv in Hc. destruct Hc as (-> & Hc).
    destruct fuel as [|fuel]; [cbn [length] in Hf; lia|].
    cbn [levelVolume]. rewrite (IH fuel _ _ _ Hc).
    + unfold sizeOf. cbn [fold_right length]. f_equal. f_equal.
      * rewrite u32_idem_l. f_equal. lia.
      * rewrite u32_idem_l. f_equal. lia.
    + cbn [length] in Hf. lia.
    + unfold u32. apply Z.mod_pos_bound. lia.
    + unfold u32. apply Z.mod_pos_bound. lia.
Qed.

Lemma blankLine_spec : forall n a b j,
  blankLine n a b j = if (a <=? j) && (j <? a + Z.of_nat n) then CH_SPACE else b j.
Proof.
  induction n as [|n IH]; intros a b j; cbn [blankLine].
  - destruct (Z.leb_spec a j), (Z.ltb_spec j (a + Z.of_nat 0)); cbn [andb]; try reflexivity; lia.
  - rewrite IH. unfold store.
    destruct (Z.leb_spec (a + 1) j), (Z.ltb_spec j (a + 1 + Z.of_nat n)),
      (Z.leb_spec a j), (Z.ltb_spec j (a + Z.of_nat (S n))), (Z.eqb_spec j a);
      cbn [andb]; try reflexivity; lia.
Qed.

(** A volume field written, or left blank, by [printOrderBook]. *)
Lemma volumeField_written (shown : bool) (x a : Z) (b : buffer) :
  0 <= x < 2 ^ 32 ->
  (forall j, a <= j < a + 4 -> b j = CH_SPACE) ->
  exists b',
    (if shown then intToStringFixed x a b else Ok b) = Ok b' /\
    volumeField shown x (chars b' a 4) /\
    (forall j, j < a \/ a + 4 <= j -> b' j = b j).
Proof.
  intros Hx Hb. destruct shown.
  - destruct (intToStringFixed_spec x a b Hx Hb) as (b' & digits & E & D & R & F).
    exists b'. split; [exact E|]. split; [|exact F]. exists digits. auto.
  - exists b. split; [reflexivity|]. split; [|auto].
    unfold volumeField. apply (chars_blank b 4). intros j Hj. apply Hb. lia.
Qed.

Lemma printLine_spec (s : state) (p i : Z) (b : buffer) :
  wf s -> 0 <= p < NUM_PRICES ->
  exists b' buy price sell,
    printLine p i s b = Ok b' /\
    chars b' (i * lineWidth) 21
      = buy ++ [CH_SPACE; CH_BAR; CH_SPACE] ++ price ++ [CH_SPACE; CH_BAR; CH_SPACE]
            ++ sell ++ [CH_NL] /\
    volumeField (p <=? bid s) (u32 (sharesAt s p)) buy /\
    priceField p price /\
    volumeField (ask s <=? p) (u32 (sharesAt s p)) sell /\
    (forall j, j < i * lineWidth \/ i * lineWidth + lineWidth <= j -> b' j = b j).
Proof.
  intros (R & _) Hp. unfold printLine.
  assert (Hr : inRange p = true) by (apply inRange_iff; exact Hp).
  unfold readHead. rewrite Hr. cbn [bind].
  rewrite (levelVolume_spec (pool s) (ordersAt s p)); try lia.
  2:{ apply (rep_chain _ _ R). }
  2:{ pose proof (rep_room _ _ p R) as H. unfold room in H. lia. }
  cbn [bind]. rewrite Z.add_0_l. fold (sharesAt s p).
  set (x := u32 (sharesAt s p)).
  assert (Hx : 0 <= x < 2 ^ 32) by (unfold x, u32; apply Z.mod_pos_bound; lia).
  set (a := i * lineWidth).
  set (b2 := store (store (store (blankLine (Z.to_nat lineWidth) a b) (a + 5) CH_BAR)
                          (a + 14) CH_BAR) (a + 20) CH_NL).
  assert (B2 : forall j, b2 j = if (a <=? j) && (j <? a + 21)
                                then if j =? a + 20 then CH_NL
                                     else if (j =? a + 5) || (j =? a + 14) then CH_BAR
                                          else CH_SPACE
                                else b j).
  { intros j. unfold b2, store. rewrite blankLine_spec.
    change (Z.of_nat (Z.to_nat lineWidth)) with 21.
    destruct (Z.leb_spec a j), (Z.ltb_spec j (a + 21)), (Z.eqb_spec j (a + 20)),
      (Z.eqb_spec j (a + 5)), (Z.eqb_spec j (a + 14)); cbn [andb orb]; try reflexivity; lia. }
  assert (Blank : forall j, a <= j < a + 21 -> j <> a + 5 -> j <> a + 14 -> j <> a + 20 ->
                            b2 j = CH_SPACE).
  { intros j Hj H5 H14 H20. rewrite B2.
    rewrite (proj2 (Z.leb_le a j)), (proj2 (Z.ltb_lt j (a + 21))) by lia.
    rewrite (proj2 (Z.eqb_neq j (a + 20))), (proj2 (Z.eqb_neq j (a + 5))),
      (proj2 (Z.eqb_neq j (a + 14))) by lia.
    reflexivity. }
  destruct (priceToStringFixed_spec p (a + 7) b2) as (b3 & text & E3 & A3 & R3 & F3).
  { unfold NUM_PRICES in Hp. lia. }
  { intros j Hj. apply Blank; lia. }
  rewrite E3. cbn [bind].
  destruct (volumeField_written (p <=? bid s) x a b3 Hx) as (b4 & E4 & V4 & F4).
  { intros j Hj. rewrite F3 by lia. apply Blank; lia. }
  rewrite E4. cbn [bind].
  destruct (volumeField_written (ask s <=? p) x (a + 16) b4 Hx) as (b5 & E5 & V5 & F5).
  { intros j Hj. rewrite F4, F3 by lia. apply Blank; lia. }
  rewrite E5.
  assert (B5 : forall j, j < a + 16 \/ a + 20 <= j -> b5 j = b4 j)
    by (intros j Hj; apply F5; lia).
  assert (B4 : forall j, j < a \/ a + 4 <= j -> b4 j = b3 j)
    by (intros j Hj; apply F4; lia).
  assert (B3 : forall j, j < a + 7 \/ a + 13 <= j -> b3 j = b2 j)
    by (intros j Hj; apply F3; lia).
  assert (P1 : chars b5 (a + 4) 3 = [CH_SPACE; CH_BAR; CH_SPACE]).
  { cbn [chars]. rewrite !B5, !B4, !B3 by lia. rewrite !B2.
    repeat first [ rewrite (proj2 (Z.leb_le _ _)) by lia
                 | rewrite (proj2 (Z.ltb_lt _ _)) by lia
                 | rewrite (proj2 (Z.eqb_eq _ _)) by lia
                 | rewrite (proj2 (Z.eqb_neq _ _)) by lia ].
    reflexivity. }
  assert (P2 : chars b5 (a + 13) 3 = [CH_SPACE; CH_BAR; CH_SPACE]).
  { cbn [chars]. rewrite !B5, !B4, !B3 by lia. rewrite !B2.
    repeat first [ rewrite (proj2 (Z.leb_le _ _)) by lia
                 | rewrite (proj2 (Z.ltb_lt _ _)) by lia
                 | rewrite (proj2 (Z.eqb_eq _ _)) by lia
                 | rewrite (proj2 (Z.eqb_neq _ _)) by lia ].
    reflexivity. }
  assert (P3 : chars b5 (a + 20) 1 = [CH_NL]).
  { cbn [chars]. rewrite !B5, !B4, !B3 by lia. rewrite !B2.
    repeat first [ rewrite (proj2 (Z.leb_le _ _)) by lia
                 | rewrite (proj2 (Z.ltb_lt _ _)) by lia
                 | rewrite (proj2 (Z.eqb_eq _ _)) by lia
                 | rewrite (proj2 (Z.eqb_neq _ _)) by lia ].
    reflexivity. }
  exists b5, (chars b5 a 4), (chars b5 (a + 7) 6), (chars b5 (a + 16) 4).
  split; [reflexivity|]. split; [|split; [|split; [|split]]].
  - change 21%nat with (4 + (3 + (6 + (3 + (4 + 1)))))%nat.
    rewrite !chars_app. cbn [Z.of_nat Pos.of_succ_nat Pos.succ].
    replace (a + 4 + 3) with (a + 7) by lia.
    replace (a + 7 + 6) with (a + 13) by lia.
    replace (a + 13 + 3) with (a + 16) by lia.
    replace (a + 16 + 4) with (a + 20) by lia.
    rewrite P1, P2, P3. reflexivity.
  - replace (chars b5 a 4) with (chars b4 a 4); [exact V4|].
    symmetry. apply chars_ext. intros j Hj. apply B5. cbn in Hj. lia.
  - exists text. split; [exact A3|].
    replace (chars b5 (a + 7) 6) with (chars b3 (a + 7) 6); [exact R3|].
    symmetry. apply chars_ext. intros j Hj. cbn in Hj. rewrite B5, B4 by lia. reflexivity.
  - exact V5.
  - intros j Hj. fold a in Hj. unfold lineWidth in Hj.
    rewrite B5, B4, B3 by lia. rewrite B2.
    destruct (Z.leb_spec a j), (Z.ltb_spec j (a + 21)); cbn [andb]; try reflexivity; lia.
Qed.

(** * More of the engine *)

(** ** [updateBidAndAsk] always ends *)

Lemma lowerBid_total : forall fuel s,
  0 <= bid s < NUM_PRICES -> bid s + 1 <= Z.of_nat fuel ->
  (lowerBid fuel s = Fault BuySideExhausted /\
   forall q, 0 <= q <= bid s -> limitOrderHead s q = None) \/
  exists s', lowerBid fuel s = Ok s'.
Proof.
  induction fuel as [|fuel IH]; intros s Hb Hf; [lia|].
  cbn [lowerBid]. unfold readHead. rewrite (proj2 (inRange_iff (bid s)) Hb). cbn [bind].
  destruct (limitOrderHead s (bid s)) as [c|] eqn:Hh; [right; eauto|].
  destruct (Z.eq_dec (bid s) 0) as [E0|N0].
  - left. rewrite E0. change (u32 (0 - 1) =? UINT_MAX) with true. cbn iota.
    split; [reflexivity|]. intros q Hq. replace q with (bid s) by lia. exact Hh.
  - assert (Eb : u32 (bid s - 1) = bid s - 1)
      by (apply u32_small; unfold NUM_PRICES in Hb; lia).
    rewrite Eb. rewrite (proj2 (Z.eqb_neq (bid s - 1) UINT_MAX))
      by (unfold UINT_MAX, NUM_PRICES in *; lia).
    destruct (IH (with_bid (bid s - 1) s)) as [(E & Hn)|(s' & E)].
    + cbn [bid with_bid]. lia.
    + cbn [bid with_bid]. lia.
    + left. split; [exact E|]. intros q Hq. cbn [bid with_bid limitOrderHead] in Hn.
      destruct (Z.eq_dec q (bid s)) as [->|N]; [exact Hh|]. apply Hn. lia.
    + right. eauto.
Qed.

Lemma raiseAsk_total : forall fuel s,
  0 <= ask s < NUM_PRICES -> NUM_PRICES - ask s <= Z.of_nat fuel ->
  (raiseAsk fuel s = Fault SellSideExhausted /\
   forall q, ask s <= q < NUM_PRICES -> limitOrderHead s q = None) \/
  exists s', raiseAsk fuel s = Ok s'.
Proof.
  induction fuel as [|fuel IH]; intros s Ha Hf; [lia|].
  cbn [raiseAsk]. unfold readHead. rewrite (proj2 (inRange_iff (ask s)) Ha). cbn [bind].
  destruct (limitOrderHead s (ask s)) as [c|] eqn:Hh; [right; eauto|].
  assert (Ea : u32 (ask s + 1) = ask s + 1)
    by (apply u32_small; unfold NUM_PRICES in Ha; lia).
  rewrite Ea.
  destruct (Z.leb_spec NUM_PRICES (ask s + 1)) as [Hw|Hw].
  - left. split; [reflexivity|]. intros q Hq. replace q with (ask s) by lia. exact Hh.
  - destruct (IH (with_ask (ask s + 1) s)) as [(E & Hn)|(s' & E)].
    + cbn [ask with_ask]. lia.
    + cbn [ask with_ask]. lia.
    + left. split; [exact E|]. intros q Hq. cbn [ask with_ask limitOrderHead] in Hn.
      destruct (Z.eq_dec q (ask s)) as [->|N]; [exact Hh|]. apply Hn. lia.
    + right. eauto.
Qed.

Lemma updateBidAndAsk_total s :
  0 <= bid s < NUM_PRICES -> 0 <= ask s < NUM_PRICES ->
  (updateBidAndAsk s = Fault BuySideExhausted /\
   forall q, 0 <= q <= bid s -> limitOrderHead s q = None) \/
  (updateBidAndAsk s = Fault SellSideExhausted /\
   forall q, ask s <= q < NUM_PRICES -> limitOrderHead s q = None) \/
  exists s', updateBidAndAsk s = Ok s'.
Proof.
  intros Hb Ha. unfold updateBidAndAsk.
  destruct (lowerBid_total (Z.to_nat (bid s) + 1) s Hb) as [(E & Hn)|(s1 & E)]; [lia| |].
  - left. rewrite E. split; [reflexivity|exact Hn].
  - rewrite E. cbn [bind].
    destruct (lowerBid_spec _ _ _ E) as (S1 & A1 & _).
    destruct (raiseAsk_total (Z.to_nat (NUM_PRICES - ask s1)) s1) as [(E' & Hn)|(s' & E')];
      try (rewrite A1; lia).
    + right; left. split; [exact E'|]. intros q Hq.
      destruct S1 as (_ & _ & _ & Eh & _). rewrite <- Eh. apply Hn. rewrite A1. exact Hq.
    + right; right. eauto.
Qed.

(** ** The sweep of every price *)

Lemma sweep_level s p t :
  wf s -> inRange p = true ->
  exists s',
    updateLimitOrders p t s = Ok s' /\
    wf s' /\
    (forall q, ordersAt s' q
               = if q =? p then filter (alive (pool s) t) (ordersAt s q) else ordersAt s q) /\
    freeLimitOrders s'
      = rev (filter (expired (pool s) t) (ordersAt s p)) ++ freeLimitOrders s /\
    (forall h,
       limitOrder.size (pool s' h) = limitOrder.size (pool s h) /\
       limitOrder.p (pool s' h) = limitOrder.p (pool s h) /\
       limitOrder.expirationTime (pool s' h) = limitOrder.expirationTime (pool s h) /\
       limitOrder.user (pool s' h) = limitOrder.user (pool s h)) /\
    sameRest s s'.
Proof.
  intros (R & Hb & Hn) Hp.
  destruct (updateLimitOrders_rep s _ p t R Hp)
    as (s' & Hrun & R' & Hfree & Hrel & _ & Hrest).
  exists s'. split; [exact Hrun|].
  pose proof Hrest as (_ & _ & _ & _ & Eb & En & _).
  split; [apply (wf_intro _ _ R'); congruence|].
  split.
  { intros q. rewrite (rep_ordersAt _ _ q R').
    destruct (Z.eqb_spec q p) as [->|N]; reflexivity. }
  split; [exact Hfree|]. split; [|exact Hrest].
  intros h. exact (relinked_data _ _ _ h Hrel).
Qed.

Lemma sweepFrom_spec t : forall n p s,
  wf s -> 0 <= p -> p + Z.of_nat n <= NUM_PRICES ->
  exists s',
    sweepFrom n p t s = Ok s' /\
    wf s' /\
    (forall q, ordersAt s' q
               = if (p <=? q) && (q <? p + Z.of_nat n)
                 then filter (alive (pool s) t) (ordersAt s q) else ordersAt s q) /\
    (forall h,
       limitOrder.size (pool s' h) = limitOrder.size (pool s h) /\
       limitOrder.p (pool s' h) = limitOrder.p (pool s h) /\
       limitOrder.expirationTime (pool s' h) = limitOrder.expirationTime (pool s h) /\
       limitOrder.user (pool s' h) = limitOrder.user (pool s h)) /\
    sameRest s s'.
Proof.
  induction n as [|n IH]; intros p s W Hp Hn.
  - exists s. split; [reflexivity|]. split; [exact W|]. split; [|split].
    + intros q. destruct (Z.leb_spec p q), (Z.ltb_spec q (p + Z.of_nat 0));
        cbn [andb]; try reflexivity; lia.
    + intros h. auto.
    + apply sameRest_refl.
  - cbn [sweepFrom].
    destruct (sweep_level s p t W) as (s1 & E1 & W1 & L1 & _ & D1 & S1).
    { apply inRange_iff. lia. }
    rewrite E1. cbn [bind].
    destruct (IH (p + 1) s1 W1) as (s' & E' & W' & L' & D' & S'); [lia|lia|].
    exists s'. split; [exact E'|]. split; [exact W'|]. split; [|split].
    + intros q. rewrite L', L1.
      assert (Ef : forall l, filter (alive (pool s1) t) l = filter (alive (pool s) t) l).
      { intros l. apply filter_ext. intros h. unfold alive, expired.
        destruct (D1 h) as (_ & _ & -> & _). reflexivity. }
      rewrite Ef.
      destruct (Z.eqb_spec q p) as [->|N].
      * rewrite (proj2 (Z.leb_gt (p + 1) p)) by lia. cbn [andb].
        rewrite Z.leb_refl, (proj2 (Z.ltb_lt p (p + Z.of_nat (S n)))) by lia. reflexivity.
      * destruct (Z.leb_spec (p + 1) q), (Z.ltb_spec q (p + 1 + Z.of_nat n)),
          (Z.leb_spec p q), (Z.ltb_spec q (p + Z.of_nat (S n)));
          cbn [andb]; try reflexivity; lia.
    + intros h. destruct (D' h) as (A1 & A2 & A3 & A4), (D1 h) as (B1 & B2 & B3 & B4).
      repeat split; congruence.
    + unfold sameRest in *. intuition congruence.
Qed.

(** ** The list of the user's orders never outgrows its array *)

Lemma deleteUserOrder_length h : forall l,
  (length (deleteUserOrder h l) <= length l)%nat.
Proof.
  induction l as [|x l IH]; cbn [deleteUserOrder length]; [lia|].
  destruct (Nat.eqb x h); cbn [length]; lia.
Qed.

Lemma addLimitOrder_user p size e u s s' :
  addLimitOrder p size e u s = Ok s' ->
  exists lo,
    userLimitOrders s' = (if u then userLimitOrders s ++ [lo] else userLimitOrders s) /\
    (u = true -> (numUserLimitOrders s < MAX_NUM_USER_LIMIT_ORDERS)%nat).
Proof.
  unfold addLimitOrder. intros H.
  destruct (freeLimitOrders s) as [|lo rest]; [discriminate|].
  exists lo. inv_bind H. inv_bind H.
  apply readHead_Ok in Ha0. destruct Ha0 as (_ & ->).
  assert (Ea : userLimitOrders a
               = (if u then userLimitOrders s ++ [lo] else userLimitOrders s) /\
               (u = true -> (numUserLimitOrders s < MAX_NUM_USER_LIMIT_ORDERS)%nat)).
  { destruct u.
    - unfold numUserLimitOrders in *. cbn [userLimitOrders with_pool with_free] in Ha.
      destruct (Nat.ltb_spec (length (userLimitOrders s)) MAX_NUM_USER_LIMIT_ORDERS);
        [|discriminate].
      inversion Ha; subst a. split; [reflexivity|auto].
    - inversion Ha; subst a. split; [reflexivity|discriminate]. }
  destruct Ea as (Ea & Hu). split; [|exact Hu]. rewrite <- Ea.
  destruct (limitOrderHead a p).
  - destruct (fillTiesInStackOrder a).
    + apply writeHead_Ok in H. destruct H as (_ & ->). reflexivity.
    + inv_bind H. inversion H; subst s'. reflexivity.
  - apply writeHead_Ok in H. destruct H as (_ & ->). reflexivity.
Qed.

Lemma fillLoop_user_length p sell : forall fuel curr size o s s' size' o',
  fillLoop fuel p sell curr size o s = Ok (s', size', o') ->
  (numUserLimitOrders s' <= numUserLimitOrders s)%nat.
Proof.
  unfold numUserLimitOrders.
  induction fuel as [|fuel IH]; intros curr size o s s' size' o' H;
    cbn [fillLoop] in H; destruct curr as [c|]; try discriminate;
    try (inversion H; subst; lia).
  destruct (limitOrder.size (pool s c) <=? size).
  - inv_bind H. apply release_Ok in Ha. destruct Ha as (_ & ->).
    inv_bind H. apply writeHead_Ok in Ha. destruct Ha as (_ & ->).
    apply IH in H. cbn [userLimitOrders with_heads] in H.
    destruct (limitOrder.user (pool (with_free (c :: freeLimitOrders s) s) c)).
    + cbn [userLimitOrders with_user] in H.
      pose proof (deleteUserOrder_length c (userLimitOrders s)).
      cbn [userLimitOrders with_free] in H. lia.
    + cbn [userLimitOrders with_free] in H. lia.
  - inversion H; subst s' size' o'.
    destruct (limitOrder.user _); [unfold settle; destruct sell|]; cbn; lia.
Qed.

Lemma marketLoop_user_length sell t : forall fuel p size o s s' o',
  marketLoop sell fuel p size t o s = Ok (s', o') ->
  (numUserLimitOrders s' <= numUserLimitOrders s)%nat.
Proof.
  induction fuel as [|fuel IH]; intros p size o s s' o' H; cbn [marketLoop] in H;
    destruct (0 <? size); try discriminate; try (inversion H; subst; lia).
  destruct (if sell then p =? UINT_MAX else NUM_PRICES <=? p); [discriminate|].
  inv_bind H. apply readHead_Ok in Ha. destruct Ha as (_ & ->).
  destruct (limitOrderHead s p); [|now apply IH in H].
  inv_bind H. apply updateLimitOrders_user in Ha.
  inv_bind H. destruct a0 as [[s2 size2] o2].
  unfold fillOrders in Ha0. inv_bind Ha0. apply fillLoop_user_length in Ha0.
  apply IH in H. unfold numUserLimitOrders in *. rewrite Ha in Ha0.
  destruct sell; cbn [userLimitOrders with_bid with_ask] in Ha0; lia.
Qed.

Lemma marketOrder_user_length (sell : bool) size t s s' o :
  (if sell then marketSell size t s else marketBuy size t s) = Ok (s', o) ->
  (numUserLimitOrders s' <= numUserLimitOrders s)%nat.
Proof.
  unfold marketSell, marketBuy. rewrite marketSellLoop_eq, marketBuyLoop_eq.
  destruct sell; apply marketLoop_user_length.
Qed.

Lemma addTen_user startingTime life : forall n p i s s',
  addTen n p startingTime life i s = Ok s' -> userLimitOrders s' = userLimitOrders s.
Proof.
  induction n as [|n IH]; intros p i s s' H; cbn [addTen] in H.
  - inversion H; reflexivity.
  - inv_bind H. apply addLimitOrder_user in Ha. destruct Ha as (lo & E & _).
    apply IH in H. congruence.
Qed.

Lemma setupBuys_user startingTime life : forall fuel p i s s',
  setupBuys fuel p startingTime life i s = Ok s' -> userLimitOrders s' = userLimitOrders s.
Proof.
  induction fuel as [|fuel IH]; intros p i s s' H; cbn [setupBuys] in H;
    destruct (u32 (bid s - 10) <=? p); try discriminate;
    try (inversion H; subst; reflexivity).
  inv_bind H. apply addTen_user in Ha. apply IH in H. congruence.
Qed.

Lemma setupSells_user startingTime life : forall fuel p i s s',
  setupSells fuel p startingTime life i s = Ok s' -> userLimitOrders s' = userLimitOrders s.
Proof.
  induction fuel as [|fuel IH]; intros p i s s' H; cbn [setupSells] in H;
    destruct (p <=? u32 (ask s + 10)); try discriminate;
    try (inversion H; subst; reflexivity).
  inv_bind H. apply addTen_user in Ha. apply IH in H. congruence.
Qed.

Lemma start_user n stackOrder b spread t0 life x :
  start n stackOrder b spread t0 life = Ok x -> userLimitOrders (eng x) = [].
Proof.
  unfold start, setupMarket. intros H. inv_bind H. inversion H; subst x. cbn [eng].
  inv_bind Ha. apply setupBuys_user in Ha0. apply setupSells_user in Ha.
  rewrite Ha, Ha0. reflexivity.
Qed.

Lemma orderCreation_user_length d now s s' :
  orderCreation d now s = Ok s' ->
  (numUserLimitOrders s' <= numUserLimitOrders s)%nat.
Proof.
  unfold orderCreation. intros H. destruct (isMarket d).
  - destruct (isSell d); inv_bind H; destruct a as [s1 o]; inversion H; subst s'.
    + exact (marketOrder_user_length true _ _ _ _ _ Ha).
    + exact (marketOrder_user_length false _ _ _ _ _ Ha).
  - destruct (isSell d); inv_bind H; inversion H; subst s'; clear H;
      apply addLimitOrder_user in Ha; destruct Ha as (lo & E & _);
      unfold numUserLimitOrders;
      match goal with
      | |- context [if ?c then _ else _] => destruct c
      end; cbn [userLimitOrders with_ask with_bid]; rewrite E; lia.
Qed.

Lemma userOrders_user_length k now s s' :
  (numUserLimitOrders s <= MAX_NUM_USER_LIMIT_ORDERS)%nat ->
  userOrders k now s = Ok s' ->
  (numUserLimitOrders s' <= MAX_NUM_USER_LIMIT_ORDERS)%nat.
Proof.
  intros Hs H. unfold userOrders, realisticUserMarketOrders in H.
  inv_bind H. inv_bind H. inv_bind H. inversion H; subst s'; clear H.
  assert (S1 : (numUserLimitOrders a <= numUserLimitOrders s)%nat).
  { destruct (buyMarket k); [|inversion Ha; subst; lia].
    inv_bind Ha. inversion Ha; subst a; clear Ha.
    inv_bind Ha2. destruct a as [s1 o]. inversion Ha2; subst a2; clear Ha2.
    exact (marketOrder_user_length false _ _ _ _ _ Ha). }
  assert (S2 : (numUserLimitOrders a0 <= numUserLimitOrders a)%nat).
  { destruct (sellMarket k); [|inversion Ha0; subst; lia].
    inv_bind Ha0. inversion Ha0; subst a0; clear Ha0.
    inv_bind Ha2. destruct a0 as [s1 o]. inversion Ha2; subst a2; clear Ha2.
    exact (marketOrder_user_length true _ _ _ _ _ Ha0). }
  assert (S3 : (numUserLimitOrders a1 <= MAX_NUM_USER_LIMIT_ORDERS)%nat).
  { destruct (Nat.ltb_spec (numUserLimitOrders a0) MAX_NUM_USER_LIMIT_ORDERS) as [Hlt|Hge];
      [|inversion Ha1; subst; lia].
    assert (Hadd : forall p size e s3,
               addLimitOrder p size e true a0 = Ok s3 ->
               (numUserLimitOrders s3 <= MAX_NUM_USER_LIMIT_ORDERS)%nat).
    { intros p size e s3 E. apply addLimitOrder_user in E. destruct E as (lo & E & _).
      unfold numUserLimitOrders in *. rewrite E, length_app. cbn [length]. lia. }
    destruct (buyLimit k); [now apply Hadd in Ha1|].
    destruct (sellLimit k); [now apply Hadd in Ha1|].
    inversion Ha1; subst; lia. }
  destruct (backspace k); [|exact S3].
  unfold numUserLimitOrders, withdrawAll. cbn. lia.
Qed.

Lemma mainCycleStep_user_length d k x x' :
  (numUserLimitOrders (eng x) <= MAX_NUM_USER_LIMIT_ORDERS)%nat ->
  mainCycleStep d k x = Ok x' ->
  (numUserLimitOrders (eng x') <= MAX_NUM_USER_LIMIT_ORDERS)%nat.
Proof.
  intros Hx H. unfold mainCycleStep in H.
  destruct (nextOrderCreation x <? targetTime x); inv_bind H; inversion H; subst x'; cbn [eng].
  - apply orderCreation_user_length in Ha. lia.
  - unfold frame in Ha. inv_bind Ha. inv_bind Ha. inv_bind Ha.
    unfold sweepAll in Ha0. apply sweepFrom_user in Ha0.
    destruct (updateBidAndAsk_spec _ _ Ha1) as ((_ & _ & _ & _ & E & _) & _).
    apply (userOrders_user_length k (targetTime x) a1); [|exact Ha].
    unfold numUserLimitOrders in *. rewrite E, Ha0. exact Hx.
Qed.

Lemma reachable_user_length x :
  reachable x -> (numUserLimitOrders (eng x) <= MAX_NUM_USER_LIMIT_ORDERS)%nat.
Proof.
  induction 1 as [n stackOrder b spread t0 life x Hb Hs H | d k x x' Hx IH Hd Hk H].
  - apply start_user in H. unfold numUserLimitOrders. rewrite H. cbn. lia.
  - eapply mainCycleStep_user_length; eassumption.
Qed.

(** * More of the market orders *)

Lemma sizeOf_nonneg m l :
  (forall h, In h l -> 0 <= limitOrder.size (m h)) -> 0 <= sizeOf m l.
Proof.
  induction l as [|h l IH]; intros H; cbn [sizeOf fold_right]; [lia|].
  fold (sizeOf m l). pose proof (H h (or_introl eq_refl)).
  assert (0 <= sizeOf m l) by (apply IH; intros x Hx; apply H; now right). lia.
Qed.

Lemma quantity_portions_min m : forall l size,
  0 <= size -> (forall h, In h l -> 0 <= limitOrder.size (m h)) ->
  quantity (portions m l size) = Z.min size (sizeOf m l).
Proof.
  induction l as [|h l IH]; intros size Hs H; cbn [portions sizeOf fold_right].
  - cbn. lia.
  - fold (sizeOf m l).
    pose proof (H h (or_introl eq_refl)) as Hh.
    assert (Hl : 0 <= sizeOf m l) by (apply sizeOf_nonneg; intros x Hx; apply H; now right).
    destruct (Z.leb_spec (limitOrder.size (m h)) size) as [Hc|Hc].
    + rewrite quantity_cons, IH; [lia|lia|]. intros x Hx. apply H. now right.
    + rewrite quantity_cons. cbn. lia.
Qed.

Lemma available_nonneg s t ps : sizesOk s -> 0 <= available s t ps.
Proof.
  intros H. induction ps as [|p ps IH]; cbn [available fold_right]; [lia|].
  fold (available s t ps).
  assert (0 <= sizeOf (pool s) (filter (alive (pool s) t) (ordersAt s p))).
  { apply sizeOf_nonneg. intros h Hh. apply filter_In in Hh. apply (H p). tauto. }
  lia.
Qed.

Lemma volume_bookPortions_min s t : forall ps size,
  0 <= size -> sizesOk s ->
  volume (bookPortions s t ps size) = Z.min size (available s t ps).
Proof.
  induction ps as [|p ps IH]; intros size Hs H; cbn [bookPortions available fold_right].
  - cbn. lia.
  - fold (available s t ps). pose proof (available_nonneg s t ps H) as Ha.
    assert (Hl : 0 <= sizeOf (pool s) (filter (alive (pool s) t) (ordersAt s p))).
    { apply sizeOf_nonneg. intros h Hh. apply filter_In in Hh. apply (H p). tauto. }
    destruct (Z.ltb_spec 0 size) as [Hc|Hc]; [|cbn; lia].
    rewrite volume_app, volume_level.
    assert (Eq : quantity (portions (pool s) (filter (alive (pool s) t) (ordersAt s p)) size)
                 = Z.min size (sizeOf (pool s) (filter (alive (pool s) t) (ordersAt s p)))).
    { apply quantity_portions_min; [lia|].
      intros h Hh. apply filter_In in Hh. apply (H p). tauto. }
    rewrite IH by (try assumption; rewrite Eq; lia). rewrite Eq. lia.
Qed.

Lemma portions_In m : forall l size x, In x (portions m l size) -> In (fst x) l.
Proof.
  induction l as [|h l IH]; intros size x Hx; cbn [portions] in Hx; [contradiction|].
  destruct (limitOrder.size (m h) <=? size).
  - destruct Hx as [<-|Hx]; [now left|]. right. eapply IH. exact Hx.
  - destruct Hx as [<-|[]]. now left.
Qed.

Lemma bookPortions_In s t : forall ps size x,
  In x (bookPortions s t ps size) ->
  In (fst (fst x)) ps /\ In (snd (fst x)) (ordersAt s (fst (fst x))).
Proof.
  induction ps as [|p ps IH]; intros size x Hx; cbn [bookPortions] in Hx; [contradiction|].
  destruct (0 <? size); [|contradiction].
  apply in_app_or in Hx. destruct Hx as [Hx|Hx].
  - apply in_map_iff in Hx. destruct Hx as (y & <- & Hy). cbn [fst snd].
    split; [now left|]. apply portions_In in Hy. apply filter_In in Hy. tauto.
  - apply IH in Hx. split; [right|]; tauto.
Qed.

(** The portions at the prices still to be scanned are what they were
    before the step at the price [z]. *)
Lemma step_book s s3 t z ps size :
  wf s ->
  (forall q, q <> z -> ordersAt s3 q = ordersAt s q) ->
  (forall h, ~ In h (ordersAt s z) ->
     limitOrder.size (pool s3 h) = limitOrder.size (pool s h) /\
     limitOrder.expirationTime (pool s3 h) = limitOrder.expirationTime (pool s h) /\
     limitOrder.user (pool s3 h) = limitOrder.user (pool s h)) ->
  ~ In z ps ->
  bookPortions s3 t ps size = bookPortions s t ps size /\
  userBook (pool s3) (bookPortions s t ps size)
  = userBook (pool s) (bookPortions s t ps size).
Proof.
  intros (R & _) Hoth Hdata Hz.
  assert (Hout : forall q h, In q ps -> In h (ordersAt s q) -> ~ In h (ordersAt s z)).
  { intros q h Hq Hh Hh'. apply Hz.
    replace z with q; [exact Hq|]. exact (rep_levels _ _ R _ _ _ Hh Hh'). }
  split.
  - apply bookPortions_ext. intros q Hq.
    assert (Nq : q <> z) by (intros ->; contradiction).
    split; [now apply Hoth|]. intros h Hh.
    destruct (Hdata h (Hout q h Hq Hh)) as (E1 & E2 & _). auto.
  - unfold userBook. apply filter_ext_in. intros x Hx.
    apply bookPortions_In in Hx. destruct Hx as (Hq & Hh).
    destruct (Hdata _ (Hout _ _ Hq Hh)) as (_ & _ & E). exact E.
Qed.

Lemma pricesFrom_next (sell : bool) z :
  0 <= z < NUM_PRICES ->
  pricesFrom sell z = z :: pricesFrom sell (if sell then z - 1 else z + 1) /\
  ~ In z (pricesFrom sell (if sell then z - 1 else z + 1)).
Proof.
  intros Hz. split.
  - destruct sell; [apply pricesFrom_sell | apply pricesFrom_buy]; lia.
  - intros H. apply pricesFrom_beyond in H. destruct sell; lia.
Qed.

Lemma pricesFrom_outside (sell : bool) z :
  (if sell then z = -1 else z = NUM_PRICES) -> pricesFrom sell z = [].
Proof. destruct sell; intros ->; reflexivity. Qed.

(** A market order that stops with a fault has found fewer shares than it
    asked for. *)
Lemma marketLoop_fault_volume (sell : bool) t : forall fuel z size o s f,
  wf s -> 0 <= o < 2 ^ 32 -> 0 <= size ->
  (if sell then -1 <= z < NUM_PRICES else 0 <= z <= NUM_PRICES) ->
  marketLoop sell fuel (u32 z) size t o s = Fault f ->
  f <> OutOfFuel ->
  volume (bookPortions s t (pricesFrom sell z) size) < size.
Proof.
  induction fuel as [|fuel IH]; intros z size o s f W Ho Hsz Hz Hrun Hf.
  { cbn [marketLoop] in Hrun. destruct (0 <? size); [|discriminate].
    inversion Hrun; subst f. contradiction. }
  destruct (Z.ltb_spec 0 size) as [Hs|Hs].
  2:{ rewrite marketLoop_done in Hrun by assumption. discriminate. }
  destruct (Z.eq_dec z (if sell then -1 else NUM_PRICES)) as [E|N].
  { rewrite pricesFrom_outside by (destruct sell; exact E). cbn. exact Hs. }
  assert (Hzr : 0 <= z < NUM_PRICES) by (destruct sell; lia).
  assert (Ez : u32 z = z) by (apply u32_small; unfold NUM_PRICES in Hzr; lia).
  rewrite Ez in Hrun.
  destruct (pricesFrom_next sell z Hzr) as (Ep & Np).
  set (z' := if sell then z - 1 else z + 1) in *.
  assert (Hz' : if sell then -1 <= z' < NUM_PRICES else 0 <= z' <= NUM_PRICES)
    by (unfold z'; destruct sell; lia).
  rewrite Ep. cbn [bookPortions]. rewrite (proj2 (Z.ltb_lt 0 size) Hs).
  set (F := portions (pool s) (filter (alive (pool s) t) (ordersAt s z)) size).
  rewrite volume_app, volume_level.
  destruct (limitOrderHead s z) as [c|] eqn:Hh.
  - destruct (marketLoop_step sell t fuel z size o s W Ho Hs Hzr)
      as (s3 & Estep & W3 & _ & _ & Hoth3 & _ & _ & _ & Hdata3 & _).
    { rewrite Hh. discriminate. }
    rewrite Estep in Hrun. fold z' F in Hrun.
    assert (Hs' : 0 <= size - quantity F) by (apply quantity_portions_le; lia).
    assert (Ho' : 0 <= u32 (o + quantity F * z) < 2 ^ 32)
      by (unfold u32; apply Z.mod_pos_bound; lia).
    pose proof (IH z' _ _ _ _ W3 Ho' Hs' Hz' Hrun Hf) as Hv.
    destruct (step_book s s3 t z (pricesFrom sell z') (size - quantity F) W Hoth3 Hdata3 Np)
      as (Eb & _).
    rewrite Eb in Hv. lia.
  - rewrite (marketLoop_skip sell t fuel z size o s Hs Hzr Hh) in Hrun. fold z' in Hrun.
    assert (Hempty : ordersAt s z = []) by (now apply head_ordersAt).
    assert (EF : quantity F = 0) by (unfold F; rewrite Hempty; reflexivity).
    rewrite EF, Z.sub_0_r.
    pose proof (IH z' _ _ _ _ W Ho Hsz Hz' Hrun Hf) as Hv. lia.
Qed.

Lemma userBook_level m z F :
  userBook m (map (fun x : nat * Z => (z, fst x, snd x)) F)
  = map (fun x : nat * Z => (z, fst x, snd x)) (userPortions m F).
Proof.
  unfold userBook, userPortions.
  induction F as [|x F IH]; cbn [map filter fst snd]; [reflexivity|].
  destruct (limitOrder.user (m (fst x))); cbn [map]; now rewrite IH.
Qed.

Lemma userBook_app m P Q : userBook m (P ++ Q) = userBook m P ++ userBook m Q.
Proof. unfold userBook. apply filter_app. Qed.

(** The ledger after a market order: the fills of the user's resting
    orders along the scan, settled with wrap-around. *)
Lemma marketLoop_ledger (sell : bool) t : forall fuel z size o s s' o',
  wf s -> 0 <= o < 2 ^ 32 -> 0 <= size -> -1 <= z <= NUM_PRICES ->
  marketLoop sell fuel (u32 z) size t o s = Ok (s', o') ->
  balance s'
  = (if sell
     then i32 (balance s
               - notional (userBook (pool s) (bookPortions s t (pricesFrom sell z) size)))
     else i32 (balance s
               + notional (userBook (pool s) (bookPortions s t (pricesFrom sell z) size)))) /\
  sharesOpen s'
  = ledgerShares sell (sharesOpen s)
      (volume (userBook (pool s) (bookPortions s t (pricesFrom sell z) size))).
Proof.
  assert (Done : forall size s ps, wf s -> size <= 0 ->
            balance s
            = (if sell
               then i32 (balance s - notional (userBook (pool s) (bookPortions s t ps size)))
               else i32 (balance s + notional (userBook (pool s) (bookPortions s t ps size)))) /\
            sharesOpen s
            = ledgerShares sell (sharesOpen s)
                (volume (userBook (pool s) (bookPortions s t ps size)))).
  { intros size s ps (_ & Hb & Hn) Hs. rewrite bookPortions_done by assumption.
    cbn [userBook filter notional volume fold_right].
    rewrite Z.sub_0_r, Z.add_0_r, ledgerShares_zero by assumption.
    rewrite i32_small by assumption. destruct sell; auto. }
  induction fuel as [|fuel IH]; intros z size o s s' o' W Ho Hsz Hz Hrun.
  { cbn [marketLoop] in Hrun. destruct (Z.ltb_spec 0 size); [discriminate|].
    inversion Hrun; subst. now apply Done. }
  destruct (Z.ltb_spec 0 size) as [Hs|Hs].
  2:{ rewrite marketLoop_done in Hrun by assumption. inversion Hrun; subst. now apply Done. }
  assert (Hzr : 0 <= z < NUM_PRICES).
  { destruct (Z.eq_dec z (-1)) as [E|N].
    - exfalso. apply (marketLoop_fault_outside sell t (S fuel) z size o s (s', o'));
        [exact Hs | left; exact E | exact Hrun].
    - destruct (Z.eq_dec z NUM_PRICES) as [E|N'].
      + exfalso. apply (marketLoop_fault_outside sell t (S fuel) z size o s (s', o'));
          [exact Hs | right; unfold UINT_MAX, NUM_PRICES in *; lia | exact Hrun].
      + lia. }
  assert (Ez : u32 z = z) by (apply u32_small; unfold NUM_PRICES in Hzr; lia).
  rewrite Ez in Hrun.
  destruct (pricesFrom_next sell z Hzr) as (Ep & Np).
  set (z' := if sell then z - 1 else z + 1) in *.
  assert (Hz' : -1 <= z' <= NUM_PRICES) by (unfold z'; destruct sell; lia).
  rewrite Ep. cbn [bookPortions]. rewrite (proj2 (Z.ltb_lt 0 size) Hs).
  set (F := portions (pool s) (filter (alive (pool s) t) (ordersAt s z)) size).
  rewrite userBook_app, userBook_level, notional_app, volume_app, notional_level, volume_level.
  destruct (limitOrderHead s z) as [c|] eqn:Hh.
  - destruct (marketLoop_step sell t fuel z size o s W Ho Hs Hzr)
      as (s3 & Estep & W3 & _ & _ & Hoth3 & _ & Hbal3 & Hsh3 & Hdata3 & _).
    { rewrite Hh. discriminate. }
    rewrite Estep in Hrun. fold z' F in Hrun. fold F in Hbal3, Hsh3.
    assert (Hs' : 0 <= size - quantity F) by (apply quantity_portions_le; lia).
    assert (Ho' : 0 <= u32 (o + quantity F * z) < 2 ^ 32)
      by (unfold u32; apply Z.mod_pos_bound; lia).
    destruct (IH z' _ _ _ _ _ W3 Ho' Hs' Hz' Hrun) as (Eb & En).
    destruct (step_book s s3 t z (pricesFrom sell z') (size - quantity F) W Hoth3 Hdata3 Np)
      as (Ebook & Euser).
    rewrite Ebook, Euser in Eb, En.
    set (N := notional (userBook (pool s) (bookPortions s t (pricesFrom sell z')
                                                        (size - quantity F)))) in *.
    set (V := volume (userBook (pool s) (bookPortions s t (pricesFrom sell z')
                                                      (size - quantity F)))) in *.
    set (q := quantity (userPortions (pool s) F)) in *.
    split.
    + rewrite Eb, Hbal3. unfold ledgerBalance. destruct sell.
      * replace (i32 (balance s - q * z) - N) with (i32 (balance s - q * z) + - N) by lia.
        rewrite i32_add_l. f_equal. lia.
      * rewrite i32_add_l. f_equal. lia.
    + rewrite En, Hsh3. unfold ledgerShares. destruct sell.
      * rewrite i32_add_l. f_equal. lia.
      * replace (i32 (sharesOpen s - q) - V) with (i32 (sharesOpen s - q) + - V) by lia.
        rewrite i32_add_l. f_equal. lia.
  - rewrite (marketLoop_skip sell t fuel z size o s Hs Hzr Hh) in Hrun. fold z' in Hrun.
    assert (Hempty : ordersAt s z = []) by (now apply head_ordersAt).
    assert (EF : F = []) by (unfold F; rewrite Hempty; reflexivity).
    rewrite EF. cbn [userPortions filter quantity fold_right]. rewrite Z.sub_0_r.
    destruct (IH z' _ _ _ _ _ W Ho Hsz Hz' Hrun) as (Eb & En).
    rewrite Eb, En. split; [destruct sell; f_equal; lia | f_equal; lia].
Qed.

(** * The book after a market order *)

Lemma filled_incl m : forall l size h, In h (filled m l size) -> In h l.
Proof.
  induction l as [|x l IH]; intros size h H; cbn [filled] in H; [contradiction|].
  destruct (limitOrder.size (m x) <=? size); [|contradiction].
  destruct H as [->|H]; [now left | right; eapply IH; exact H].
Qed.

Lemma unfilled_incl m : forall l size h, In h (unfilled m l size) -> In h l.
Proof.
  induction l as [|x l IH]; intros size h H; cbn [unfilled] in H; [contradiction|].
  destruct (limitOrder.size (m x) <=? size); [right; eapply IH; exact H | exact H].
Qed.

Lemma filled_ext m m' l :
  (forall h, In h l -> limitOrder.size (m' h) = limitOrder.size (m h)) ->
  forall size, filled m' l size = filled m l size.
Proof.
  induction l as [|h l IH]; intros E size; cbn [filled]; [reflexivity|].
  rewrite E by now left.
  destruct (limitOrder.size (m h) <=? size); [|reflexivity].
  f_equal. apply IH. intros h' Hin. apply E. now right.
Qed.

Lemma unfilled_ext m m' l :
  (forall h, In h l -> limitOrder.size (m' h) = limitOrder.size (m h)) ->
  forall size, unfilled m' l size = unfilled m l size.
Proof.
  induction l as [|h l IH]; intros E size; cbn [unfilled]; [reflexivity|].
  rewrite E by now left.
  destruct (limitOrder.size (m h) <=? size); [|reflexivity].
  apply IH. intros h' Hin. apply E. now right.
Qed.

Lemma sameAt_live s s' t p ps :
  sameAt s s' (p :: ps) ->
  ordersAt s' p = ordersAt s p /\
  filter (alive (pool s') t) (ordersAt s p) = filter (alive (pool s) t) (ordersAt s p) /\
  filter (expired (pool s') t) (ordersAt s p) = filter (expired (pool s) t) (ordersAt s p) /\
  (forall size,
     portions (pool s') (filter (alive (pool s) t) (ordersAt s p)) size
     = portions (pool s) (filter (alive (pool s) t) (ordersAt s p)) size) /\
  (forall size,
     filled (pool s') (filter (alive (pool s) t) (ordersAt s p)) size
     = filled (pool s) (filter (alive (pool s) t) (ordersAt s p)) size) /\
  (forall size,
     unfilled (pool s') (filter (alive (pool s) t) (ordersAt s p)) size
     = unfilled (pool s) (filter (alive (pool s) t) (ordersAt s p)) size) /\
  sameAt s s' ps.
Proof.
  intros E. destruct (E p (or_introl eq_refl)) as [E1 E2].
  split; [exact E1|].
  split; [apply filter_ext_in; intros h Hin; unfold alive, expired;
          now rewrite (proj2 (E2 h Hin))|].
  split; [apply filter_ext_in; intros h Hin; unfold expired;
          now rewrite (proj2 (E2 h Hin))|].
  assert (Hsz : forall h, In h (filter (alive (pool s) t) (ordersAt s p)) ->
                  limitOrder.size (pool s' h) = limitOrder.size (pool s h)).
  { intros h Hin. apply filter_In in Hin. apply E2. tauto. }
  split; [intros size; now apply portions_ext|].
  split; [intros size; now apply filled_ext|].
  split; [intros size; now apply unfilled_ext|].
  intros q Hq. apply E. now right.
Qed.

Lemma requestAt_ext s s' t q : forall ps size,
  sameAt s s' ps -> requestAt s' t ps size q = requestAt s t ps size q.
Proof.
  induction ps as [|p ps IH]; intros size E; cbn [requestAt]; [reflexivity|].
  destruct (0 <? size); [|reflexivity].
  destruct (q =? p); [reflexivity|].
  destruct (sameAt_live s s' t p ps E) as (E1 & E2 & _ & E4 & _ & _ & E7).
  rewrite E1, E2, E4. now apply IH.
Qed.

Lemma releasedAlong_ext s s' t : forall ps size,
  sameAt s s' ps -> releasedAlong s' t ps size = releasedAlong s t ps size.
Proof.
  induction ps as [|p ps IH]; intros size E; cbn [releasedAlong]; [reflexivity|].
  destruct (0 <? size); [|reflexivity].
  destruct (sameAt_live s s' t p ps E) as (E1 & E2 & E3 & E4 & E5 & _ & E7).
  rewrite E1, E2, E3, E4, E5. f_equal. f_equal. now apply IH.
Qed.

Lemma requestAt_notin s t q : forall ps size, ~ In q ps -> requestAt s t ps size q = 0.
Proof.
  induction ps as [|p ps IH]; intros size N; cbn [requestAt]; [reflexivity|].
  destruct (0 <? size); [|reflexivity].
  destruct (Z.eqb_spec q p) as [->|Nq]; [exfalso; apply N; now left|].
  apply IH. intros H. apply N. now right.
Qed.

Lemma requestAt_done s t ps size q : size <= 0 -> requestAt s t ps size q = 0.
Proof.
  intros H. destruct ps; cbn [requestAt]; [reflexivity|].
  destruct (Z.ltb_spec 0 size); [lia | reflexivity].
Qed.

Lemma releasedAlong_done s t ps size : size <= 0 -> releasedAlong s t ps size = [].
Proof.
  intros H. destruct ps; cbn [releasedAlong]; [reflexivity|].
  destruct (Z.ltb_spec 0 size); [lia | reflexivity].
Qed.

Lemma requestAt_nonneg s t q : forall ps size, 0 <= size -> 0 <= requestAt s t ps size q.
Proof.
  induction ps as [|p ps IH]; intros size Hs; cbn [requestAt]; [lia|].
  destruct (Z.ltb_spec 0 size); [|lia].
  destruct (q =? p); [lia|]. apply IH. apply quantity_portions_le. lia.
Qed.

Lemma bookAfter_notin s t ps size q : ~ In q ps -> bookAfter s t ps size q = ordersAt s q.
Proof.
  intros N. unfold bookAfter. rewrite requestAt_notin by assumption. reflexivity.
Qed.

Lemma bookAfter_incl s t ps size q h :
  In h (bookAfter s t ps size q) -> In h (ordersAt s q).
Proof.
  unfold bookAfter. destruct (0 <? requestAt s t ps size q); [|auto].
  intros H. apply unfilled_incl in H. apply filter_In in H. tauto.
Qed.

(** At a price that the scan reaches, an order that rests there afterwards
    has not expired. *)
Lemma bookAfter_alive s t ps size q h :
  0 < requestAt s t ps size q ->
  In h (bookAfter s t ps size q) -> alive (pool s) t h = true.
Proof.
  intros Hr. unfold bookAfter. rewrite (proj2 (Z.ltb_lt _ _) Hr).
  intros H. apply unfilled_incl in H. apply filter_In in H. tauto.
Qed.

(** ** Portions taken in part, portions taken whole *)

Lemma takenInPart_app m P Q h :
  takenInPart m (P ++ Q) h = takenInPart m P h + takenInPart m Q h.
Proof. unfold takenInPart. now rewrite filter_app, volume_app. Qed.

Lemma takenInPart_level m z : forall l size h,
  takenInPart m (map (fun x : nat * Z => (z, fst x, snd x)) (portions m l size)) h
  = limitOrder.size (m h) - limitOrder.size (afterFill m l size h).
Proof.
  unfold takenInPart, afterFill.
  induction l as [|x l IH]; intros size h; cbn [portions unfilled remaining].
  - cbn. lia.
  - destruct (Z.leb_spec (limitOrder.size (m x)) size) as [Hc|Hc].
    + cbn [map filter fst snd]. unfold takenWhole at 1, orderOf at 1 2. cbn [fst snd].
      rewrite Z.eqb_refl, andb_false_r. apply IH.
    + cbn [map filter fst snd]. unfold takenWhole, orderOf. cbn [fst snd].
      rewrite (proj2 (Z.eqb_neq size (limitOrder.size (m x)))) by lia.
      rewrite andb_true_r. unfold upd.
      rewrite (Nat.eqb_sym x h).
      destruct (Nat.eqb_spec h x) as [->|N]; cbn; lia.
Qed.

Lemma takenInPart_ext m m' h P :
  (forall x, In x P -> limitOrder.size (m' (orderOf x)) = limitOrder.size (m (orderOf x))) ->
  takenInPart m' P h = takenInPart m P h.
Proof.
  intros E. unfold takenInPart. f_equal. apply filter_ext_in. intros x Hx.
  unfold takenWhole. now rewrite (E x Hx).
Qed.

Lemma takenWhole_level m z : forall l size,
  map orderOf (filter (takenWhole m)
                      (map (fun x : nat * Z => (z, fst x, snd x)) (portions m l size)))
  = filled m l size.
Proof.
  induction l as [|x l IH]; intros size; cbn [portions filled]; [reflexivity|].
  destruct (Z.leb_spec (limitOrder.size (m x)) size) as [Hc|Hc].
  - cbn [map filter fst snd].
    assert (E : takenWhole m (z, x, limitOrder.size (m x)) = true)
      by (unfold takenWhole, orderOf; cbn [fst snd]; apply Z.eqb_refl).
    rewrite E. cbn [map]. change (orderOf (z, x, limitOrder.size (m x))) with x.
    f_equal. apply IH.
  - cbn [map filter fst snd].
    assert (E : takenWhole m (z, x, size) = false)
      by (unfold takenWhole, orderOf; cbn [fst snd]; apply Z.eqb_neq; lia).
    rewrite E. reflexivity.
Qed.

Lemma filter_alive_expired m t l : filter (alive m t) (filter (expired m t) l) = [].
Proof.
  induction l as [|x l IH]; cbn [filter]; [reflexivity|].
  destruct (expired m t x) eqn:E; [|exact IH].
  cbn [filter]. unfold alive. rewrite E. exact IH.
Qed.

Lemma filter_alive_filled m t l size :
  filter (alive m t) (filled m (filter (alive m t) l) size)
  = filled m (filter (alive m t) l) size.
Proof.
  apply forallb_filter_id. apply forallb_forall. intros h H.
  apply filled_incl in H. apply filter_In in H. tauto.
Qed.

(** Among the records released, those that had not expired are the orders
    taken whole, in the order of the portions. *)
Lemma released_alive s t : forall ps size,
  filter (alive (pool s) t) (releasedAlong s t ps size)
  = map orderOf (filter (takenWhole (pool s)) (bookPortions s t ps size)).
Proof.
  induction ps as [|p ps IH]; intros size; cbn [releasedAlong bookPortions]; [reflexivity|].
  destruct (0 <? size); [|reflexivity].
  rewrite !filter_app, map_app, filter_alive_expired, filter_alive_filled, takenWhole_level.
  cbn [app]. f_equal. apply IH.
Qed.

(** ** The scan *)

Lemma marketLoop_after (sell : bool) t : forall fuel z size o s s' o',
  wf s -> 0 <= o < 2 ^ 32 -> 0 <= size -> -1 <= z <= NUM_PRICES ->
  marketLoop sell fuel (u32 z) size t o s = Ok (s', o') ->
  poolSize s' = poolSize s /\
  (forall q, ordersAt s' q = bookAfter s t (pricesFrom sell z) size q) /\
  freeLimitOrders s'
  = rev (releasedAlong s t (pricesFrom sell z) size) ++ freeLimitOrders s /\
  (forall h,
     limitOrder.size (pool s' h)
     = limitOrder.size (pool s h)
       - takenInPart (pool s) (bookPortions s t (pricesFrom sell z) size) h).
Proof.
  assert (Done : forall size s ps, size <= 0 ->
            poolSize s = poolSize s /\
            (forall q, ordersAt s q = bookAfter s t ps size q) /\
            freeLimitOrders s = rev (releasedAlong s t ps size) ++ freeLimitOrders s /\
            (forall h, limitOrder.size (pool s h)
                       = limitOrder.size (pool s h)
                         - takenInPart (pool s) (bookPortions s t ps size) h)).
  { intros size s ps Hs. split; [reflexivity|]. split; [|split].
    - intros q. unfold bookAfter. rewrite requestAt_done by assumption. reflexivity.
    - rewrite releasedAlong_done by assumption. reflexivity.
    - intros h. rewrite bookPortions_done by assumption. cbn. lia. }
  induction fuel as [|fuel IH]; intros z size o s s' o' W Ho Hsz Hz Hrun.
  { cbn [marketLoop] in Hrun. destruct (Z.ltb_spec 0 size); [discriminate|].
    inversion Hrun; subst. now apply Done. }
  destruct (Z.ltb_spec 0 size) as [Hs|Hs].
  2:{ rewrite marketLoop_done in Hrun by assumption. inversion Hrun; subst. now apply Done. }
  assert (Hzr : 0 <= z < NUM_PRICES).
  { destruct (Z.eq_dec z (-1)) as [E|N].
    - exfalso. apply (marketLoop_fault_outside sell t (S fuel) z size o s (s', o'));
        [exact Hs | left; exact E | exact Hrun].
    - destruct (Z.eq_dec z NUM_PRICES) as [E|N'].
      + exfalso. apply (marketLoop_fault_outside sell t (S fuel) z size o s (s', o'));
          [exact Hs | right; unfold UINT_MAX, NUM_PRICES in *; lia | exact Hrun].
      + lia. }
  assert (Ez : u32 z = z) by (apply u32_small; unfold NUM_PRICES in Hzr; lia).
  rewrite Ez in Hrun.
  destruct (pricesFrom_next sell z Hzr) as (Ep & Np).
  set (z' := if sell then z - 1 else z + 1) in *.
  assert (Hz' : -1 <= z' <= NUM_PRICES) by (unfold z'; destruct sell; lia).
  rewrite Ep. unfold bookAfter. cbn [requestAt releasedAlong bookPortions].
  rewrite (proj2 (Z.ltb_lt 0 size) Hs).
  set (live := filter (alive (pool s) t) (ordersAt s z)).
  set (F := portions (pool s) live size).
  destruct (limitOrderHead s z) as [c|] eqn:Hh.
  - destruct (marketLoop_step sell t fuel z size o s W Ho Hs Hzr)
      as (s3 & Estep & W3 & _ & Hat3 & Hoth3 & Hfree3 & _ & _ & Hdata3 & Hps3 & _ & Hsize3).
    { rewrite Hh. discriminate. }
    rewrite Estep in Hrun. fold z' live F in Hrun. fold live in Hat3, Hfree3, Hsize3.
    assert (Hs' : 0 <= size - quantity F) by (apply quantity_portions_le; lia).
    assert (Ho' : 0 <= u32 (o + quantity F * z) < 2 ^ 32)
      by (unfold u32; apply Z.mod_pos_bound; lia).
    destruct (IH z' _ _ _ _ _ W3 Ho' Hs' Hz' Hrun) as (Eps & Ebook & Efree & Esize).
    assert (Hout : forall q h, In q (pricesFrom sell z') -> In h (ordersAt s q) ->
                     ~ In h (ordersAt s z)).
    { intros q h Hq Hin Hin'. apply Np. destruct W as (R & _).
      replace z with q; [exact Hq|]. exact (rep_levels _ _ R _ _ _ Hin Hin'). }
    assert (Same : sameAt s s3 (pricesFrom sell z')).
    { intros q Hq. assert (Nq : q <> z) by (intros ->; contradiction).
      split; [now apply Hoth3|]. intros h Hin.
      destruct (Hdata3 h (Hout q h Hq Hin)) as (E1 & E2 & _). auto. }
    destruct (step_book s s3 t z (pricesFrom sell z') (size - quantity F) W Hoth3 Hdata3 Np)
      as (EP & _).
    split; [congruence|]. split; [|split].
    + intros q. rewrite Ebook. unfold bookAfter.
      destruct (Z.eqb_spec q z) as [->|Nq].
      * rewrite requestAt_notin by exact Np. cbn [Z.ltb Z.compare].
        rewrite (proj2 (Z.ltb_lt 0 size) Hs). exact Hat3.
      * rewrite (requestAt_ext s s3 t q _ _ Same).
        set (r := requestAt s t (pricesFrom sell z') (size - quantity F) q).
        rewrite (Hoth3 q Nq).
        destruct (0 <? r); [|reflexivity].
        assert (El : filter (alive (pool s3) t) (ordersAt s q)
                     = filter (alive (pool s) t) (ordersAt s q)).
        { apply filter_ext_in. intros h Hin. unfold alive, expired.
          assert (Nin : ~ In h (ordersAt s z)).
          { intros Hin'. apply Nq. destruct W as (R & _).
            exact (rep_levels _ _ R _ _ _ Hin Hin'). }
          destruct (Hdata3 h Nin) as (_ & E2 & _). now rewrite E2. }
        rewrite El. apply unfilled_ext. intros h Hin. apply filter_In in Hin.
        assert (Nin : ~ In h (ordersAt s z)).
        { intros Hin'. apply Nq. destruct W as (R & _).
          exact (rep_levels _ _ R _ _ _ (proj1 Hin) Hin'). }
        apply (Hdata3 h Nin).
    + rewrite Efree, Hfree3, (releasedAlong_ext s s3 t _ _ Same).
      rewrite !rev_app_distr, <- !app_assoc. reflexivity.
    + intros h. rewrite Esize, Hsize3, EP.
      rewrite takenInPart_app. unfold F.
      rewrite (takenInPart_level (pool s) z live size h).
      rewrite (takenInPart_ext (pool s) (pool s3) h).
      * lia.
      * intros x Hx. apply bookPortions_In in Hx. destruct Hx as (Hq & Hin).
        apply (Hdata3 _ (Hout _ _ Hq Hin)).
  - rewrite (marketLoop_skip sell t fuel z size o s Hs Hzr Hh) in Hrun. fold z' in Hrun.
    assert (Hempty : ordersAt s z = []) by (now apply head_ordersAt).
    assert (Elive : live = []) by (unfold live; rewrite Hempty; reflexivity).
    assert (EF : F = []) by (unfold F; rewrite Elive; reflexivity).
    rewrite EF, Elive, Hempty.
    cbn [filter filled map app quantity fold_right]. rewrite Z.sub_0_r.
    destruct (IH z' _ _ _ _ _ W Ho Hsz Hz' Hrun) as (Eps & Ebook & Efree & Esize).
    split; [exact Eps|]. split; [|split].
    + intros q. rewrite Ebook. unfold bookAfter.
      destruct (Z.eqb_spec q z) as [->|Nq]; [|reflexivity].
      rewrite requestAt_notin by exact Np. cbn [Z.ltb Z.compare].
      rewrite (proj2 (Z.ltb_lt 0 size) Hs), Hempty. reflexivity.
    + exact Efree.
    + exact Esize.
Qed.

(** * The book that [setupMarket] builds *)

Lemma inserted_In (b : bool) lo l h : In h (inserted b lo l) <-> h = lo \/ In h l.
Proof.
  unfold inserted. destruct b; cbn [In].
  - split; intros [H|H]; auto.
  - rewrite in_app_iff. cbn [In]. split; intros H; intuition auto.
Qed.

Lemma inserted_length (b : bool) lo l : length (inserted b lo l) = S (length l).
Proof.
  unfold inserted. destruct b; cbn [length]; [reflexivity|].
  rewrite length_app. cbn [length]. lia.
Qed.

(** One insertion of an order of [setupMarket]. *)
Lemma addLimitOrder_level s p e :
  wf s -> inRange p = true -> (1 <= numFreeLimitOrders s)%nat ->
  exists s',
    addLimitOrder p averageMarketOrderSize e false s = Ok s' /\
    wf s' /\ bid s' = bid s /\ ask s' = ask s /\
    S (numFreeLimitOrders s') = numFreeLimitOrders s /\
    (forall q, length (ordersAt s' q)
               = (length (ordersAt s q) + (if (q =? p)%Z then 1 else 0))%nat) /\
    (setupOrders s -> setupOrders s').
Proof.
  intros (R & Hb & Hn) Hp Hfree. unfold numFreeLimitOrders in *.
  destruct (freeLimitOrders s) as [|lo rest] eqn:Ef; [cbn [length] in Hfree; lia|].
  destruct (addLimitOrder_rep s _ p averageMarketOrderSize e false lo rest R Ef Hp)
    as (s' & Hrun & R' & Hfree' & Hlo & Hoth & _ & _ & Ebid & Eask & Ebal & Esh & _).
  { discriminate. }
  exists s'. split; [exact Hrun|].
  split; [apply (wf_intro _ _ R'); congruence|].
  split; [exact Ebid|]. split; [exact Eask|].
  split; [rewrite Hfree'; reflexivity|]. split.
  - intros q. rewrite (rep_ordersAt _ _ q R').
    destruct (Z.eqb_spec q p) as [->|N]; [rewrite inserted_length|]; lia.
  - intros Hs q h Hh. rewrite (rep_ordersAt _ _ q R') in Hh.
    destruct (Nat.eq_dec h lo) as [->|Nlo].
    + rewrite Hlo. cbn [limitOrder.size limitOrder.user limitOrder.p].
      split; [reflexivity|]. split; [reflexivity|].
      destruct (Z.eq_dec q p) as [E|N]; [now rewrite E|].
      rewrite (proj2 (Z.eqb_neq q p) N) in Hh.
      exfalso. apply (rep_sep _ _ R q lo Hh). rewrite Ef. now left.
    + rewrite (Hoth h Nlo).
      assert (Hold : In h (ordersAt s q)).
      { destruct (Z.eq_dec q p) as [E|N].
        - rewrite E in *. rewrite Z.eqb_refl in Hh.
          apply inserted_In in Hh. destruct Hh; [contradiction|assumption].
        - now rewrite (proj2 (Z.eqb_neq q p) N) in Hh. }
      destruct (Hs q h Hold) as (A1 & A2 & A3).
      destruct (pool s h); cbn in *. auto.
Qed.

Lemma addTen_levels startingTime life : forall n p i s,
  wf s -> inRange p = true -> (n <= numFreeLimitOrders s)%nat ->
  exists s',
    addTen n p startingTime life i s = Ok s' /\
    wf s' /\ bid s' = bid s /\ ask s' = ask s /\
    (numFreeLimitOrders s' + n = numFreeLimitOrders s)%nat /\
    (forall q, length (ordersAt s' q)
               = (length (ordersAt s q) + (if (q =? p)%Z then n else 0))%nat) /\
    (setupOrders s -> setupOrders s').
Proof.
  induction n as [|n IH]; intros p i s W Hp Hfree; cbn [addTen].
  - exists s. split; [reflexivity|]. split; [exact W|]. split; [reflexivity|].
    split; [reflexivity|]. split; [lia|]. split; [|auto].
    intros q. destruct (q =? p); lia.
  - destruct (addLimitOrder_level s p (u64 (startingTime + life i)) W Hp)
      as (s1 & E1 & W1 & Eb1 & Ea1 & Ef1 & L1 & S1); [lia|].
    rewrite E1. cbn [bind].
    destruct (IH p (S i) s1 W1 Hp) as (s' & E' & W' & Eb' & Ea' & Ef' & L' & S'); [lia|].
    exists s'. split; [exact E'|]. split; [exact W'|].
    split; [congruence|]. split; [congruence|]. split; [lia|]. split; [|auto].
    intros q. rewrite L', L1. destruct (q =? p); lia.
Qed.

Lemma setupBuys_levels startingTime life : forall fuel p i s,
  wf s -> 11 <= bid s < NUM_PRICES -> bid s - 11 <= p <= bid s ->
  p - bid s + 11 <= Z.of_nat fuel ->
  10 * (p - bid s + 11) <= Z.of_nat (numFreeLimitOrders s) ->
  exists s',
    setupBuys fuel p startingTime life i s = Ok s' /\
    wf s' /\ bid s' = bid s /\ ask s' = ask s /\
    Z.of_nat (numFreeLimitOrders s') = Z.of_nat (numFreeLimitOrders s) - 10 * (p - bid s + 11) /\
    (forall q, length (ordersAt s' q)
               = (length (ordersAt s q)
                  + (if ((bid s - 10 <=? q) && (q <=? p))%Z then 10 else 0))%nat) /\
    (setupOrders s -> setupOrders s').
Proof.
  induction fuel as [|fuel IH]; intros p i s W Hb Hp Hfuel Hfree;
    cbn [setupBuys];
    (assert (Eb : u32 (bid s - 10) = bid s - 10)
      by (apply u32_small; unfold NUM_PRICES in Hb; lia));
    rewrite Eb;
    destruct (Z.leb_spec (bid s - 10) p) as [Hc|Hc]; try lia.
  - exists s. split; [reflexivity|]. split; [exact W|]. split; [reflexivity|].
    split; [reflexivity|]. split; [lia|]. split; [|auto].
    intros q. destruct (Z.leb_spec (bid s - 10) q), (Z.leb_spec q p); cbn [andb]; lia.
  - destruct (addTen_levels startingTime life 10 p i s W)
      as (s1 & E1 & W1 & Eb1 & Ea1 & Ef1 & L1 & S1); [apply inRange_iff; lia|lia|].
    rewrite E1. cbn [bind].
    assert (Ep : u32 (p - 1) = p - 1) by (apply u32_small; unfold NUM_PRICES in Hb; lia).
    rewrite Ep.
    destruct (IH (p - 1) (i + 10)%nat s1 W1) as (s' & E' & W' & Eb' & Ea' & Ef' & L' & S');
      try (rewrite Eb1; lia).
    exists s'. split; [exact E'|]. split; [exact W'|].
    split; [congruence|]. split; [congruence|]. split; [rewrite Eb1 in Ef'; lia|].
    split; [|auto].
    intros q. rewrite L', L1, Eb1.
    destruct (Z.eqb_spec q p), (Z.leb_spec (bid s - 10) q), (Z.leb_spec q (p - 1)),
      (Z.leb_spec q p); cbn [andb]; lia.
  - exists s. split; [reflexivity|]. split; [exact W|]. split; [reflexivity|].
    split; [reflexivity|]. split; [lia|]. split; [|auto].
    intros q. destruct (Z.leb_spec (bid s - 10) q), (Z.leb_spec q p); cbn [andb]; lia.
Qed.

Lemma setupSells_levels startingTime life : forall fuel p i s,
  wf s -> 0 <= ask s -> ask s + 10 < NUM_PRICES -> ask s <= p <= ask s + 11 ->
  ask s + 11 - p <= Z.of_nat fuel ->
  10 * (ask s + 11 - p) <= Z.of_nat (numFreeLimitOrders s) ->
  exists s',
    setupSells fuel p startingTime life i s = Ok s' /\
    wf s' /\ bid s' = bid s /\ ask s' = ask s /\
    Z.of_nat (numFreeLimitOrders s') = Z.of_nat (numFreeLimitOrders s) - 10 * (ask s + 11 - p) /\
    (forall q, length (ordersAt s' q)
               = (length (ordersAt s q)
                  + (if ((p <=? q) && (q <=? ask s + 10))%Z then 10 else 0))%nat) /\
    (setupOrders s -> setupOrders s').
Proof.
  induction fuel as [|fuel IH]; intros p i s W Ha0 Ha Hp Hfuel Hfree;
    cbn [setupSells];
    (assert (Ea : u32 (ask s + 10) = ask s + 10)
      by (apply u32_small; unfold NUM_PRICES in Ha; lia));
    rewrite Ea;
    destruct (Z.leb_spec p (ask s + 10)) as [Hc|Hc]; try lia.
  - exists s. split; [reflexivity|]. split; [exact W|]. split; [reflexivity|].
    split; [reflexivity|]. split; [lia|]. split; [|auto].
    intros q. destruct (Z.leb_spec p q), (Z.leb_spec q (ask s + 10)); cbn [andb]; lia.
  - destruct (addTen_levels startingTime life 10 p i s W)
      as (s1 & E1 & W1 & Eb1 & Ea1 & Ef1 & L1 & S1); [apply inRange_iff; lia|lia|].
    rewrite E1. cbn [bind].
    assert (Ep : u32 (p + 1) = p + 1) by (apply u32_small; unfold NUM_PRICES in Ha; lia).
    rewrite Ep.
    destruct (IH (p + 1) (i + 10)%nat s1 W1) as (s' & E' & W' & Eb' & Ea' & Ef' & L' & S');
      try (rewrite Ea1; lia).
    exists s'. split; [exact E'|]. split; [exact W'|].
    split; [congruence|]. split; [congruence|]. split; [rewrite Ea1 in Ef'; lia|].
    split; [|auto].
    intros q. rewrite L', L1, Ea1.
    destruct (Z.eqb_spec q p), (Z.leb_spec (p + 1) q), (Z.leb_spec q (ask s + 10)),
      (Z.leb_spec p q); cbn [andb]; lia.
  - exists s. split; [reflexivity|]. split; [exact W|]. split; [reflexivity|].
    split; [reflexivity|]. split; [lia|]. split; [|auto].
    intros q. destruct (Z.leb_spec p q), (Z.leb_spec q (ask s + 10)); cbn [andb]; lia.
Qed.

Lemma ordersAt_setup n b q : ordersAt (setup n b) q = [].
Proof. unfold ordersAt, setup. cbn [limitOrderHead]. apply walk_None. Qed.

Lemma setupMarket_spec (n : nat) (stackOrder : bool) (b spread startingTime : Z)
      (life : nat -> Z) :
  11 <= b -> 0 <= spread -> b + spread + 10 < NUM_PRICES -> (220 <= n)%nat ->
  exists s',
    setupMarket b spread startingTime life (setup n stackOrder) = Ok s' /\
    wf s' /\ bid s' = b /\ ask s' = b + spread /\
    numFreeLimitOrders s' = (n - 220)%nat /\
    (forall q, length (ordersAt s' q)
               = ((if ((b - 10 <=? q) && (q <=? b))%Z then 10 else 0)
                  + (if ((b + spread <=? q) && (q <=? b + spread + 10))%Z then 10 else 0))%nat) /\
    setupOrders s'.
Proof.
  intros Hb Hs Ha Hn. unfold setupMarket.
  assert (Eu : u32 (b + spread) = b + spread)
    by (apply u32_small; unfold NUM_PRICES in Ha; lia).
  rewrite Eu. set (s0 := with_ask (b + spread) (with_bid b (setup n stackOrder))).
  assert (W0 : wf s0) by (apply wf_with_ask, wf_with_bid, wf_setup).
  assert (F0 : numFreeLimitOrders s0 = n).
  { unfold numFreeLimitOrders, s0, setup. cbn [freeLimitOrders with_ask with_bid].
    rewrite length_rev, length_seq. reflexivity. }
  assert (L0 : forall q, ordersAt s0 q = []) by (intros q; apply ordersAt_setup).
  assert (S0 : setupOrders s0) by (intros q h Hh; rewrite L0 in Hh; contradiction).
  change (bid s0) with b.
  destruct (setupBuys_levels startingTime life 11 b 0%nat s0 W0)
    as (s1 & E1 & W1 & Eb1 & Ea1 & Ef1 & L1 & S1);
    try (change (bid s0) with b; unfold NUM_PRICES in *; lia).
  rewrite E1. cbn [bind]. change (bid s0) with b in *. change (ask s0) with (b + spread) in *.
  rewrite Ea1.
  destruct (setupSells_levels startingTime life 11 (b + spread) 110%nat s1 W1)
    as (s2 & E2 & W2 & Eb2 & Ea2 & Ef2 & L2 & S2); try (rewrite Ea1; lia).
  exists s2. split; [exact E2|]. split; [exact W2|].
  split; [congruence|]. split; [congruence|].
  split; [rewrite Ea1, Ef1, F0 in Ef2; lia|]. split; [|auto].
  intros q. rewrite L2, L1, L0, Ea1. cbn [length]. lia.
Qed.

(** * Shares are neither made nor lost by a fill *)

Lemma sizeOf_ext m m' l :
  (forall h, In h l -> limitOrder.size (m' h) = limitOrder.size (m h)) ->
  sizeOf m' l = sizeOf m l.
Proof.
  induction l as [|h l IH]; intros H; cbn [sizeOf fold_right]; [reflexivity|].
  fold (sizeOf m' l) (sizeOf m l). rewrite H by now left.
  rewrite IH; [reflexivity|]. intros x Hx. apply H. now right.
Qed.

Lemma sizeOf_afterFill m : forall l size,
  NoDup l ->
  sizeOf (afterFill m l size) (unfilled m l size)
  = sizeOf m l - quantity (portions m l size).
Proof.
  induction l as [|h l IH]; intros size Hnd.
  - reflexivity.
  - inversion Hnd as [|? ? Hnot Hnd']; subst.
    unfold afterFill. cbn [unfilled remaining portions].
    destruct (Z.leb_spec (limitOrder.size (m h)) size) as [Hc|Hc].
    + fold (afterFill m l (size - limitOrder.size (m h))).
      rewrite IH by assumption. rewrite quantity_cons.
      cbn [sizeOf fold_right]. fold (sizeOf m l). lia.
    + rewrite quantity_cons. cbn [quantity fold_right sizeOf].
      rewrite upd_same. cbn [limitOrder.size limitOrder.with_size].
      fold (sizeOf (upd m h (limitOrder.with_size (limitOrder.size (m h) - size) (m h))) l).
      fold (sizeOf m l).
      rewrite (sizeOf_ext m _ l); [lia|].
      intros x Hx. rewrite upd_other; [reflexivity|]. intros ->. contradiction.
Qed.

Lemma fillOrders_shares s p size o sell :
  wf s -> inRange p = true -> 0 <= o < 2 ^ 32 ->
  exists s' size' o',
    fillOrders p size o sell s = Ok (s', size', o') /\
    wf s' /\
    sharesAt s' p = sharesAt s p - (size - size') /\
    (forall q, q <> p -> sharesAt s' q = sharesAt s q) /\
    o' = u32 (o + (size - size') * p).
Proof.
  intros (R & Hb & Hn) Hp Ho.
  destruct (fillOrders_rep s _ p size o sell R Hp Ho Hb Hn)
    as (s' & Hrun & R' & Hpool & _ & _ & Hbal & Hsh & _).
  set (F := portions (pool s) (ordersAt s p) size) in *.
  exists s', (size - quantity F), (u32 (o + quantity F * p)).
  split; [exact Hrun|]. split.
  { apply (wf_intro _ _ R'); [rewrite Hbal | rewrite Hsh]; apply ledger_int32; exact 0. }
  split; [|split].
  - unfold sharesAt. rewrite (rep_ordersAt _ _ p R'), Z.eqb_refl, Hpool.
    rewrite sizeOf_afterFill by (apply (rep_NoDup _ _ p R)). fold F. lia.
  - intros q N. unfold sharesAt. rewrite (rep_ordersAt _ _ q R').
    rewrite (proj2 (Z.eqb_neq q p) N). apply sizeOf_ext. intros h Hh.
    rewrite Hpool, afterFill_other; [reflexivity|].
    intros Hh'. apply N. exact (rep_levels _ _ R _ _ _ Hh Hh').
  - f_equal. lia.
Qed.

(** * A sweep that finds nothing expired *)

Lemma sweepTail_nothing t : forall suf fuel curr s,
  chain (pool s) (Some curr) (curr :: suf) ->
  (length suf <= fuel)%nat ->
  (forall h, In h suf -> alive (pool s) t h = true) ->
  sweepTail fuel t curr s = Ok s.
Proof.
  induction suf as [|nx suf IH]; intros fuel curr s Hc Hf Ha.
  - apply chain_cons_inv in Hc. destruct Hc as (_ & Hc). apply chain_nil_inv in Hc.
    destruct fuel; cbn [sweepTail]; rewrite Hc; reflexivity.
  - apply chain_cons_inv in Hc. destruct Hc as (_ & Hc).
    pose proof Hc as Hc'. apply chain_cons_inv in Hc'. destruct Hc' as (En & _).
    destruct fuel as [|fuel]; [cbn [length] in Hf; lia|].
    cbn [sweepTail]. rewrite En.
    pose proof (Ha nx (or_introl eq_refl)) as Hnx. unfold alive, expired in Hnx.
    apply negb_true_iff in Hnx. rewrite Hnx.
    apply IH.
    + rewrite <- En. exact Hc.
    + cbn [length] in Hf. lia.
    + intros h Hh. apply Ha. now right.
Qed.

Lemma updateLimitOrders_nothing s p t :
  wf s -> inRange p = true ->
  (forall h, In h (ordersAt s p) -> alive (pool s) t h = true) ->
  updateLimitOrders p t s = Ok s.
Proof.
  intros (R & _) Hp Ha. unfold updateLimitOrders, readHead. rewrite Hp. cbn [bind].
  pose proof (rep_chain _ _ R p) as Hc. unfold level in Hc.
  pose proof (rep_room _ _ p R) as Hroom. unfold room in Hroom.
  destruct (limitOrderHead s p) as [c|] eqn:Hh; [|reflexivity].
  destruct (chain_Some_inv _ _ _ Hc) as (suf & El & Hc').
  rewrite El in *. rewrite sweepHead_alive.
  - cbn [bind]. apply (sweepTail_nothing t suf).
    + constructor. exact Hc'.
    + cbn [length] in Hroom. lia.
    + intros h Hh'. apply Ha. now right.
  - pose proof (Ha c (or_introl eq_refl)) as H. unfold alive in H.
    now apply negb_true_iff in H.
Qed.

(** * A round of [mainCycle] is safe *)

Lemma safe_bind {A B : Type} (x : outcome A) (k : A -> outcome B) :
  safe x -> (forall a, x = Ok a -> safe (k a)) -> safe (bind x k).
Proof. destruct x as [a|f]; cbn [bind safe]; intros H1 H2; auto. Qed.

Lemma addLimitOrder_progress s p size e u :
  wf s -> inRange p = true ->
  (u = true -> (numUserLimitOrders s < MAX_NUM_USER_LIMIT_ORDERS)%nat) ->
  safe (addLimitOrder p size e u s).
Proof.
  intros (R & _) Hp Hu.
  destruct (freeLimitOrders s) as [|lo rest] eqn:Ef.
  - unfold addLimitOrder. rewrite Ef. cbn. unfold stops. auto.
  - destruct (addLimitOrder_rep s _ p size e u lo rest R Ef Hp Hu) as (s' & Hrun & _).
    rewrite Hrun. exact I.
Qed.

Lemma marketOrder_progress (sell : bool) size t s :
  wf s -> quotesApart s -> 0 <= size ->
  safe (if sell then marketSell size t s else marketBuy size t s).
Proof.
  intros W (H0 & H1 & H2) Hs.
  assert (Hq : 0 <= quote sell s < NUM_PRICES) by (unfold quote; destruct sell; lia).
  destruct (marketOrder_amount sell size t s W Hs Hq) as [E|(s' & E & _)]; rewrite E.
  - cbn. unfold stops. destruct sell; auto.
  - exact I.
Qed.

Lemma orderCreation_progress d now s :
  validDraws d -> placeable d s -> wf s -> quotesApart s ->
  safe (orderCreation d now s).
Proof.
  unfold validDraws, placeable. intros Hd Hpl W Q. unfold orderCreation.
  pose proof Q as (H0 & H1 & H2).
  assert (Hsz : 0 <= u32 (orderSize d)) by (unfold u32; apply Z.mod_pos_bound; lia).
  destruct (isMarket d).
  - destruct (isSell d).
    + apply safe_bind; [exact (marketOrder_progress true _ _ _ W Q Hsz)|].
      intros [s' o] _. exact I.
    + apply safe_bind; [exact (marketOrder_progress false _ _ _ W Q Hsz)|].
      intros [s' o] _. exact I.
  - specialize (Hpl eq_refl). destruct (isSell d).
    + apply safe_bind; [|intros; exact I].
      apply addLimitOrder_progress; [exact W | | discriminate].
      apply inRange_iff. rewrite u32_small by (unfold NUM_PRICES in *; lia). lia.
    + apply safe_bind; [|intros; exact I].
      apply addLimitOrder_progress; [exact W | | discriminate].
      apply inRange_iff. rewrite u32_small by (unfold NUM_PRICES in *; lia). lia.
Qed.

Lemma userOrders_progress k now s :
  validKeys k -> wf s -> quotesApart s -> safe (userOrders k now s).
Proof.
  intros (K1 & K2 & K3 & K4) W Q. unfold userOrders, realisticUserMarketOrders.
  assert (Step1 : forall s1,
             (if buyMarket k
              then s' <- ('(s', o) <- marketBuy (userMarketBuySize k) now s;;
                          Ok (with_ledger (i32 (balance s' - o)) (sharesOpen s') s'));;
                   Ok (with_ledger (balance s') (i32 (sharesOpen s' + userMarketBuySize k)) s')
              else Ok s) = Ok s1 -> wf s1 /\ quotesApart s1).
  { intros s1 E. destruct (buyMarket k); [|inversion E; subst; auto].
    inv_bind E. inversion E; subst s1; clear E.
    inv_bind Ha. destruct a0 as [s2 o]. inversion Ha; subst a; clear Ha.
    destruct (marketOrder_keeps false _ _ _ _ _ W Q Ha0) as (W1 & Q1).
    split; [|exact Q1].
    apply wf_with_ledger; [apply wf_with_ledger; [exact W1 | apply i32_int32 | apply W1]
                          | apply i32_int32 | apply i32_int32]. }
  apply safe_bind.
  { destruct (buyMarket k); [|exact I].
    apply safe_bind; [|intros; exact I].
    apply safe_bind; [|intros [s' o] _; exact I].
    apply (marketOrder_progress false); [exact W | exact Q | lia]. }
  intros s1 E1. destruct (Step1 s1 E1) as (W1 & Q1).
  assert (Step2 : forall s2,
             (if sellMarket k
              then s' <- ('(s', o) <- marketSell (userMarketSellSize k) now s1;;
                          Ok (with_ledger (i32 (balance s' + o)) (sharesOpen s') s'));;
                   Ok (with_ledger (balance s') (i32 (sharesOpen s' - userMarketSellSize k)) s')
              else Ok s1) = Ok s2 -> wf s2 /\ quotesApart s2).
  { intros s2 E. destruct (sellMarket k); [|inversion E; subst; auto].
    inv_bind E. inversion E; subst s2; clear E.
    inv_bind Ha. destruct a0 as [s3 o]. inversion Ha; subst a; clear Ha.
    destruct (marketOrder_keeps true _ _ _ _ _ W1 Q1 Ha0) as (W2 & Q2).
    split; [|exact Q2].
    apply wf_with_ledger; [apply wf_with_ledger; [exact W2 | apply i32_int32 | apply W2]
                          | apply i32_int32 | apply i32_int32]. }
  apply safe_bind.
  { destruct (sellMarket k); [|exact I].
    apply safe_bind; [|intros; exact I].
    apply safe_bind; [|intros [s' o] _; exact I].
    apply (marketOrder_progress true); [exact W1 | exact Q1 | lia]. }
  intros s2 E2. destruct (Step2 s2 E2) as (W2 & (H0 & H1 & H2)).
  apply safe_bind; [|intros; exact I].
  destruct (Nat.ltb_spec (numUserLimitOrders s2) MAX_NUM_USER_LIMIT_ORDERS) as [Hlt|Hge];
    [|exact I].
  destruct (buyLimit k).
  - apply addLimitOrder_progress; [exact W2 | apply inRange_iff; lia | auto].
  - destruct (sellLimit k); [|exact I].
    apply addLimitOrder_progress; [exact W2 | apply inRange_iff; lia | auto].
Qed.

(** * The window of the book *)

Lemma printLine_line (s : state) (p i : Z) (b : buffer) :
  wf s -> 0 <= p < NUM_PRICES ->
  exists b',
    printLine p i s b = Ok b' /\
    lineShows s p (chars b' (i * lineWidth) 21) /\
    (forall j, j < i * lineWidth \/ i * lineWidth + lineWidth <= j -> b' j = b j).
Proof.
  intros W Hp.
  destruct (printLine_spec s p i b W Hp) as (b' & buy & price & sell & E & C & V1 & V2 & V3 & F).
  exists b'. split; [exact E|]. split; [|exact F].
  exists buy, price, sell. auto.
Qed.

Lemma printLine_outside (s : state) (p i : Z) (b : buffer) :
  p < 0 \/ NUM_PRICES <= p -> printLine p i s b = Fault OutOfBounds.
Proof.
  intros Hp. unfold printLine, readHead.
  assert (E : inRange p = false).
  { unfold inRange. destruct (Z.leb_spec 0 p), (Z.ltb_spec p NUM_PRICES);
      cbn [andb]; try reflexivity; lia. }
  rewrite E. reflexivity.
Qed.

(** The lines of the prices from [p] down to [minPrice]. *)
Lemma printLines_window (s : state) (minPrice maxPrice : Z) :
  wf s -> 1 <= minPrice -> maxPrice < NUM_PRICES ->
  forall (n : nat) (fuel : nat) (p : Z) (b : buffer),
    p = minPrice + Z.of_nat n - 1 -> p <= maxPrice -> (n <= fuel)%nat ->
    exists b',
      printLines fuel p minPrice maxPrice s b = Ok b' /\
      (forall q, minPrice <= q <= p ->
         lineShows s q (chars b' ((maxPrice - q) * lineWidth) 21)) /\
      (forall j, j < (maxPrice - p) * lineWidth \/
                 (maxPrice - minPrice) * lineWidth + lineWidth <= j -> b' j = b j).
Proof.
  intros W Hmin Hmax.
  induction n as [|n IH]; intros fuel p b Hp Hle Hf.
  - exists b. split.
    + destruct fuel; cbn [printLines]; rewrite (proj2 (Z.leb_gt minPrice p)) by lia;
        reflexivity.
    + split; [intros q Hq; lia | auto].
  - destruct fuel as [|fuel]; [lia|]. cbn [printLines].
    rewrite (proj2 (Z.leb_le minPrice p)) by lia.
    assert (Ei : i32 (u32 (maxPrice - p)) = maxPrice - p).
    { unfold NUM_PRICES in *. rewrite u32_small by lia. apply i32_small. unfold int32. lia. }
    rewrite Ei.
    destruct (printLine_line s p (maxPrice - p) b W) as (b1 & E1 & L1 & F1);
      [unfold NUM_PRICES in *; lia|].
    rewrite E1. cbn [bind].
    assert (Ep : u32 (p - 1) = p - 1) by (apply u32_small; unfold NUM_PRICES in *; lia).
    rewrite Ep.
    destruct (IH fuel (p - 1) b1) as (b' & E' & L' & F'); [lia|lia|lia|].
    exists b'. split; [exact E'|]. unfold lineWidth in *. split.
    + intros q Hq. destruct (Z.eq_dec q p) as [->|N]; [|apply L'; lia].
      replace (chars b' ((maxPrice - p) * 21) 21) with (chars b1 ((maxPrice - p) * 21) 21);
        [exact L1|].
      symmetry. apply chars_ext. intros j Hj. apply F'. cbn in Hj. lia.
    + intros j Hj. rewrite F' by lia. apply F1. lia.
Qed.

(** With [minPrice = 0] the loop does not end at price 0: the price wraps
    around and the next round reads outside the book. *)
Lemma printLines_wraps (s : state) (maxPrice : Z) :
  wf s -> maxPrice < NUM_PRICES ->
  forall (n : nat) (fuel : nat) (z : Z) (b : buffer),
    z = Z.of_nat n - 1 -> z <= maxPrice -> (n < fuel)%nat ->
    printLines fuel (u32 z) 0 maxPrice s b = Fault OutOfBounds.
Proof.
  intros W Hmax.
  induction n as [|n IH]; intros fuel z b Hz Hle Hf.
  - destruct fuel as [|fuel]; [lia|]. replace z with (-1) by lia.
    rewrite u32_minus_one. cbn [printLines].
    change (0 <=? UINT_MAX) with true. cbn iota.
    rewrite printLine_outside; [reflexivity|]. right. unfold NUM_PRICES, UINT_MAX. lia.
  - destruct fuel as [|fuel]; [lia|].
    assert (Ez : u32 z = z) by (apply u32_small; unfold NUM_PRICES in *; lia).
    rewrite Ez. cbn [printLines]. rewrite (proj2 (Z.leb_le 0 z)) by lia.
    destruct (printLine_line s z (i32 (u32 (maxPrice - z))) b W) as (b1 & E1 & _);
      [lia|].
    rewrite E1. cbn [bind]. apply IH; lia.
Qed.

(** * The sizes of the orders stay values of type [u32] *)

Lemma sizesU32_ext s s' :
  (forall h, limitOrder.size (pool s' h) = limitOrder.size (pool s h)) ->
  sizesU32 s -> sizesU32 s'.
Proof. intros E H h. rewrite E. apply H. Qed.

Lemma sizesU32_setup n b : sizesU32 (setup n b).
Proof. intros h. cbn. lia. Qed.

Lemma addLimitOrder_sizes p size e u s s' :
  wf s -> sizesU32 s -> 0 <= size < 2 ^ 32 ->
  addLimitOrder p size e u s = Ok s' -> sizesU32 s'.
Proof.
  intros (R & _) Hs Hsz H.
  destruct (addLimitOrder_Ok _ _ _ _ _ _ H) as (lo & rest & Ef & Hp & Hu).
  destruct (addLimitOrder_rep s _ p size e u lo rest R Ef Hp Hu)
    as (s1 & Hrun & _ & _ & Hlo & Hoth & _).
  rewrite H in Hrun. inversion Hrun; subst s1.
  intros h. destruct (Nat.eq_dec h lo) as [->|N].
  - rewrite Hlo. cbn. exact Hsz.
  - rewrite (Hoth h N). destruct (pool s h) eqn:E. cbn.
    pose proof (Hs h) as B. rewrite E in B. exact B.
Qed.

Lemma updateLimitOrders_sizes p t s s' :
  wf s -> sizesU32 s -> updateLimitOrders p t s = Ok s' -> sizesU32 s'.
Proof.
  intros W Hs H. pose proof (updateLimitOrders_Ok _ _ _ _ H) as Hp.
  destruct (sweep_level s p t W Hp) as (s1 & E & _ & _ & _ & D & _).
  rewrite H in E. inversion E; subst s1.
  apply (sizesU32_ext s); [|exact Hs]. intros h. apply (D h).
Qed.

Lemma unfilled_head m : forall l size h r,
  0 <= size -> unfilled m l size = h :: r ->
  0 <= remaining m l size < limitOrder.size (m h).
Proof.
  induction l as [|x l IH]; intros size h r Hs E; cbn [unfilled remaining] in *;
    [discriminate|].
  destruct (Z.leb_spec (limitOrder.size (m x)) size) as [Hc|Hc].
  - apply (IH _ h r); [lia | exact E].
  - inversion E; subst. lia.
Qed.

Lemma afterFill_sizes m l size :
  0 <= size ->
  (forall h, 0 <= limitOrder.size (m h) < 2 ^ 32) ->
  forall h, 0 <= limitOrder.size (afterFill m l size h) < 2 ^ 32.
Proof.
  intros Hs Hm h. unfold afterFill.
  destruct (unfilled m l size) as [|h0 r] eqn:E; [apply Hm|].
  pose proof (unfilled_head m l size h0 r Hs E) as B.
  unfold upd. destruct (Nat.eqb h h0); [|apply Hm].
  cbn. pose proof (Hm h0). lia.
Qed.

Lemma marketLoop_sizes (sell : bool) t : forall fuel z size o s s' o',
  wf s -> sizesU32 s -> 0 <= o < 2 ^ 32 -> 0 <= size -> -1 <= z <= NUM_PRICES ->
  marketLoop sell fuel (u32 z) size t o s = Ok (s', o') ->
  sizesU32 s'.
Proof.
  induction fuel as [|fuel IH]; intros z size o s s' o' W Hsz Ho Hs Hz Hrun.
  { cbn [marketLoop] in Hrun. destruct (0 <? size); [discriminate|].
    inversion Hrun; subst. exact Hsz. }
  destruct (Z.ltb_spec 0 size) as [Hlt|Hlt].
  2:{ rewrite marketLoop_done in Hrun by assumption. inversion Hrun; subst. exact Hsz. }
  assert (Hzr : 0 <= z < NUM_PRICES).
  { destruct (Z.eq_dec z (-1)) as [E|N].
    - exfalso. apply (marketLoop_fault_outside sell t (S fuel) z size o s (s', o'));
        [exact Hlt | left; exact E | exact Hrun].
    - destruct (Z.eq_dec z NUM_PRICES) as [E|N'].
      + exfalso. apply (marketLoop_fault_outside sell t (S fuel) z size o s (s', o'));
          [exact Hlt | right; unfold UINT_MAX, NUM_PRICES in *; lia | exact Hrun].
      + lia. }
  assert (Ez : u32 z = z) by (apply u32_small; unfold NUM_PRICES in Hzr; lia).
  rewrite Ez in Hrun.
  set (z' := if sell then z - 1 else z + 1) in *.
  assert (Hz' : -1 <= z' <= NUM_PRICES) by (unfold z'; destruct sell; lia).
  destruct (limitOrderHead s z) as [c|] eqn:Hh.
  - destruct (marketLoop_step sell t fuel z size o s W Ho Hlt Hzr)
      as (s3 & Estep & W3 & _ & _ & _ & _ & _ & _ & _ & _ & _ & Hsize3).
    { rewrite Hh. discriminate. }
    rewrite Estep in Hrun. fold z' in Hrun.
    set (F := portions (pool s) (filter (alive (pool s) t) (ordersAt s z)) size) in *.
    assert (Hs' : 0 <= size - quantity F) by (apply quantity_portions_le; lia).
    assert (Ho' : 0 <= u32 (o + quantity F * z) < 2 ^ 32)
      by (unfold u32; apply Z.mod_pos_bound; lia).
    apply (IH z' (size - quantity F) (u32 (o + quantity F * z)) s3 s' o' W3);
      try assumption.
    intros h. rewrite Hsize3. apply afterFill_sizes; [lia | exact Hsz].
  - rewrite (marketLoop_skip sell t fuel z size o s Hlt Hzr Hh) in Hrun. fold z' in Hrun.
    apply (IH z' size o s s' o' W); assumption.
Qed.

Lemma marketOrder_sizes (sell : bool) size t s s' o :
  wf s -> quotesApart s -> sizesU32 s -> 0 <= size ->
  (if sell then marketSell size t s else marketBuy size t s) = Ok (s', o) ->
  sizesU32 s'.
Proof.
  intros W (H0 & H1 & H2) Hsz Hs Hrun.
  assert (Hq : 0 <= quote sell s < NUM_PRICES) by (unfold quote; destruct sell; lia).
  rewrite (marketOrder_eq sell size t s Hq) in Hrun.
  eapply (marketLoop_sizes sell t); [exact W | exact Hsz | | exact Hs | | exact Hrun]; lia.
Qed.

Lemma addTen_sizes startingTime life : forall n p i s s',
  wf s -> sizesU32 s -> addTen n p startingTime life i s = Ok s' -> sizesU32 s'.
Proof.
  induction n as [|n IH]; intros p i s s' W Hs H; cbn [addTen] in H.
  - inversion H; subst. exact Hs.
  - inv_bind H. destruct (addLimitOrder_keeps _ _ _ _ _ _ W Ha) as (W1 & _).
    apply (IH p (S i) a s' W1); [|exact H].
    eapply addLimitOrder_sizes; [exact W | exact Hs | | exact Ha].
    unfold averageMarketOrderSize. lia.
Qed.

Lemma setupBuys_sizes startingTime life : forall fuel p i s s',
  wf s -> sizesU32 s -> setupBuys fuel p startingTime life i s = Ok s' -> sizesU32 s'.
Proof.
  induction fuel as [|fuel IH]; intros p i s s' W Hs H; cbn [setupBuys] in H;
    destruct (u32 (bid s - 10) <=? p); try discriminate;
    try (inversion H; subst; exact Hs).
  inv_bind H. destruct (addTen_keeps _ _ _ _ _ _ _ W Ha) as (W1 & _).
  apply (IH (u32 (p - 1)) (i + 10)%nat a s' W1); [|exact H].
  exact (addTen_sizes _ _ _ _ _ _ _ W Hs Ha).
Qed.

Lemma setupSells_sizes startingTime life : forall fuel p i s s',
  wf s -> sizesU32 s -> setupSells fuel p startingTime life i s = Ok s' -> sizesU32 s'.
Proof.
  induction fuel as [|fuel IH]; intros p i s s' W Hs H; cbn [setupSells] in H;
    destruct (p <=? u32 (ask s + 10)); try discriminate;
    try (inversion H; subst; exact Hs).
  inv_bind H. destruct (addTen_keeps _ _ _ _ _ _ _ W Ha) as (W1 & _).
  apply (IH (u32 (p + 1)) (i + 10)%nat a s' W1); [|exact H].
  exact (addTen_sizes _ _ _ _ _ _ _ W Hs Ha).
Qed.

Lemma start_sizes n stackOrder b spread t0 life x :
  start n stackOrder b spread t0 life = Ok x -> sizesU32 (eng x).
Proof.
  intros H. unfold start in H. inv_bind H. inversion H; subst x. cbn [eng].
  unfold setupMarket in Ha. inv_bind Ha.
  set (s0 := with_ask (u32 (b + spread)) (with_bid b (setup n stackOrder))) in *.
  assert (W0 : wf s0) by (apply wf_with_ask, wf_with_bid, wf_setup).
  assert (S0 : sizesU32 s0) by (intros h; cbn; lia).
  destruct (setupBuys_keeps _ _ _ _ _ _ _ W0 Ha0) as (W1 & _).
  eapply setupSells_sizes; [exact W1 | | exact Ha].
  exact (setupBuys_sizes _ _ _ _ _ _ _ W0 S0 Ha0).
Qed.

Lemma orderCreation_sizes d now s s' :
  wf s -> quotesApart s -> sizesU32 s ->
  orderCreation d now s = Ok s' -> sizesU32 s'.
Proof.
  intros W Q Hs H. unfold orderCreation in H.
  assert (Hsz : 0 <= u32 (orderSize d) < 2 ^ 32) by (unfold u32; apply Z.mod_pos_bound; lia).
  destruct (isMarket d).
  - destruct (isSell d); inv_bind H; destruct a as [s1 o]; inversion H; subst s'.
    + exact (marketOrder_sizes true _ _ _ _ _ W Q Hs (proj1 Hsz) Ha).
    + exact (marketOrder_sizes false _ _ _ _ _ W Q Hs (proj1 Hsz) Ha).
  - destruct (isSell d); inv_bind H; inversion H; subst s'; clear H;
      pose proof (addLimitOrder_sizes _ _ _ _ _ _ W Hs Hsz Ha) as Hs1;
      match goal with
      | |- context [if ?c then _ else _] => destruct c
      end; exact Hs1.
Qed.

Lemma withdrawAll_sizes s : sizesU32 s -> sizesU32 (withdrawAll s).
Proof.
  intros Hs h. unfold withdrawAll. cbn [pool with_user with_pool].
  destruct (withdraw_fold_data (userLimitOrders s) (pool s) h) as (E & _).
  rewrite E. apply Hs.
Qed.

Lemma userOrders_sizes k now s s' :
  validKeys k -> wf s -> quotesApart s -> sizesU32 s ->
  userOrders k now s = Ok s' -> sizesU32 s'.
Proof.
  intros (K1 & K2 & K3 & K4) W Q Hs H. unfold userOrders, realisticUserMarketOrders in H.
  inv_bind H. inv_bind H. inv_bind H. inversion H; subst s'; clear H.
  assert (S1 : wf a /\ quotesApart a /\ sizesU32 a).
  { destruct (buyMarket k); [|inversion Ha; subst; auto].
    inv_bind Ha. inversion Ha; subst a; clear Ha.
    inv_bind Ha2. destruct a as [s1 o]. inversion Ha2; subst a2; clear Ha2.
    destruct (marketOrder_keeps false _ _ _ _ _ W Q Ha) as (W1 & Q1).
    pose proof (marketOrder_sizes false _ _ _ _ _ W Q Hs (proj1 K1) Ha) as Hs1.
    split; [|split; [exact Q1 | exact Hs1]].
    apply wf_with_ledger; [apply wf_with_ledger; [exact W1 | apply i32_int32 | apply W1]
                          | apply i32_int32 | apply i32_int32]. }
  destruct S1 as (W1 & Q1 & Hs1).
  assert (S2 : wf a0 /\ quotesApart a0 /\ sizesU32 a0).
  { destruct (sellMarket k); [|inversion Ha0; subst; auto].
    inv_bind Ha0. inversion Ha0; subst a0; clear Ha0.
    inv_bind Ha2. destruct a0 as [s1 o]. inversion Ha2; subst a2; clear Ha2.
    destruct (marketOrder_keeps true _ _ _ _ _ W1 Q1 Ha0) as (W2 & Q2).
    pose proof (marketOrder_sizes true _ _ _ _ _ W1 Q1 Hs1 (proj1 K2) Ha0) as Hs2.
    split; [|split; [exact Q2 | exact Hs2]].
    apply wf_with_ledger; [apply wf_with_ledger; [exact W2 | apply i32_int32 | apply W2]
                          | apply i32_int32 | apply i32_int32]. }
  destruct S2 as (W2 & Q2 & Hs2).
  assert (S3 : sizesU32 a1).
  { destruct (numUserLimitOrders a0 <? MAX_NUM_USER_LIMIT_ORDERS)%nat;
      [|inversion Ha1; subst; auto].
    destruct (buyLimit k); [exact (addLimitOrder_sizes _ _ _ _ _ _ W2 Hs2 K3 Ha1)|].
    destruct (sellLimit k); [exact (addLimitOrder_sizes _ _ _ _ _ _ W2 Hs2 K4 Ha1)|].
    inversion Ha1; subst; auto. }
  destruct (backspace k); [now apply withdrawAll_sizes | exact S3].
Qed.

Lemma mainCycleStep_sizes d k x x' :
  validKeys k -> wf (eng x) -> quotesApart (eng x) -> sizesU32 (eng x) ->
  mainCycleStep d k x = Ok x' -> sizesU32 (eng x').
Proof.
  intros Hk W Q Hs H. unfold mainCycleStep in H.
  destruct (nextOrderCreation x <? targetTime x); inv_bind H; inversion H; subst x'; cbn [eng].
  - eapply orderCreation_sizes; eassumption.
  - unfold frame in Ha. inv_bind Ha. inv_bind Ha. inv_bind Ha.
    destruct (refresh_keeps _ _ _ _ W Q Ha0 Ha1) as (W2 & Q2 & _).
    apply (userOrders_sizes k (targetTime x) a1); try assumption.
    destruct (updateBidAndAsk_spec _ _ Ha1) as ((_ & Ep & _) & _).
    intros h. rewrite Ep.
    unfold sweepAll in Ha0.
    destruct (sweepFrom_spec (targetTime x) (Z.to_nat NUM_PRICES) 0 (eng x) W)
      as (s1 & E1 & _ & _ & D & _).
    { lia. }
    { rewrite Z2Nat.id by (unfold NUM_PRICES; lia). lia. }
    rewrite Ha0 in E1. inversion E1; subst s1.
    destruct (D h) as (-> & _). apply Hs.
Qed.

Lemma reachable_sizes x : reachable x -> sizesU32 (eng x).
Proof.
  induction 1 as [n so b spread t0 life x Hb Hs H | d k x x' Hr IH Hd Hk H].
  - eapply start_sizes; eassumption.
  - destruct (reachable_keeps x Hr) as (W & Q).
    eapply mainCycleStep_sizes; eassumption.
Qed.

(** * A round of [mainCycle] *)

Lemma printBook_returns (s : state) (b : buffer) :
  wf s -> 0 <= bid s -> 0 <= ask s -> bid s + ask s < 2 ^ 32 -> windowInBook s ->
  exists b', printBook s b = Ok b'.
Proof.
  intros W Hb Ha Hsum (Hlo & Hhi). unfold printBook.
  change (Z.quot numOrderBookLines 2) with 9.
  change (numOrderBookLines - 1 - 9) with 9.
  rewrite (u32_small (bid s + ask s)) by lia.
  set (price := (bid s + ask s) / 2) in *.
  rewrite (u32_small (price - 9)), (u32_small (price + 9)) by (unfold NUM_PRICES in *; lia).
  destruct (printLines_window s (price - 9) (price + 9) W ltac:(lia) ltac:(lia)
                              19 20 (price + 9) b) as (b1 & E & _); try lia.
  rewrite E. cbn [bind]. eexists. reflexivity.
Qed.

Lemma frame_progress k now s :
  validKeys k -> wf s -> quotesApart s ->
  (forall s1 s2, sweepAll now s = Ok s1 -> updateBidAndAsk s1 = Ok s2 -> windowInBook s2) ->
  safe (frame k now s).
Proof.
  intros K W Q Hw. unfold frame. unfold sweepAll in *.
  destruct (sweepFrom_spec now (Z.to_nat NUM_PRICES) 0 s W) as (s1 & E1 & W1 & _ & _ & S1).
  { lia. }
  { rewrite Z2Nat.id by (unfold NUM_PRICES; lia). lia. }
  rewrite E1. cbn [bind].
  destruct S1 as (_ & Eb & Ea & _). destruct Q as (H0 & H1 & H2).
  destruct (updateBidAndAsk_total s1) as [(E & _)|[(E & _)|(s2 & E)]]; try lia.
  - rewrite E. cbn. unfold stops. auto.
  - rewrite E. cbn. unfold stops. auto.
  - rewrite E. cbn [bind].
    assert (Q1 : quotesApart s1) by (unfold quotesApart; lia).
    destruct (refresh_keeps now s s1 s2 W (conj H0 (conj H1 H2)) E1 E) as (W2 & Q2 & _).
    destruct (printBook_returns s2 screen W2) as (b' & Eb');
      [unfold quotesApart in Q2; lia | unfold quotesApart in Q2; lia
      | unfold quotesApart, NUM_PRICES in Q2; lia | exact (Hw s1 s2 E1 E) |].
    rewrite Eb'. cbn [bind].
    now apply userOrders_progress.
Qed.

Lemma mainCycleStep_progress d k x :
  validDraws d -> validKeys k -> placeable d (eng x) ->
  wf (eng x) -> quotesApart (eng x) ->
  (forall s1 s2, sweepAll (targetTime x) (eng x) = Ok s1 -> updateBidAndAsk s1 = Ok s2 ->
                 windowInBook s2) ->
  safe (mainCycleStep d k x).
Proof.
  intros Hd Hk Hp W Q Hw. unfold mainCycleStep.
  destruct (nextOrderCreation x <? targetTime x).
  - apply safe_bind; [|intros; exact I]. now apply orderCreation_progress.
  - apply safe_bind; [|intros; exact I]. now apply frame_progress.
Qed.

(** * Helpers of the further properties *)

Lemma typeDigits_none : forall n i x, Editor.typeDigits n i (fun _ => false) x = x.
Proof. induction n as [|n IH]; intros i x; cbn [Editor.typeDigits andb]; auto. Qed.

Lemma typed_bound : forall ds x,
  Forall (fun d => 0 <= d <= 9) ds -> 0 <= x ->
  0 <= fold_left (fun x d => x * 10 + d) ds x /\
  fold_left (fun x d => x * 10 + d) ds x + 1 <= (x + 1) * 10 ^ Z.of_nat (length ds).
Proof.
  induction ds as [|d ds IH]; intros x Hd Hx; cbn [fold_left length].
  - change (10 ^ Z.of_nat 0) with 1. lia.
  - inversion Hd as [|? ? Hd1 Hd2]; subst.
    destruct (IH (x * 10 + d) Hd2 ltac:(lia)) as (A & B).
    split; [exact A|]. rewrite pow10_S. pose proof (pow10_pos (length ds)). nia.
Qed.

Lemma pow10_le (n : nat) : (n <= 9)%nat -> 10 ^ Z.of_nat n <= 10 ^ 9.
Proof. intros H. apply Z.pow_le_mono_r; lia. Qed.

Lemma typed_run (e : Editor.t) (ds : list Z) :
  Editor.userEditing e = false ->
  Forall (fun d => 0 <= d <= 9) ds -> (length ds <= 9)%nat ->
  Editor.run (pressEnter :: map pressDigit ds ++ [pressEnter]) e
  = Editor.commit (Editor.with_number (typedNumber ds) (Editor.with_editing true e)) /\
  0 <= typedNumber ds < 10 ^ 9.
Proof.
  intros He Hd Hl.
  destruct (typed_bound ds 0 Hd ltac:(lia)) as (B0 & B1). fold (typedNumber ds) in B0, B1.
  pose proof (pow10_le _ Hl) as Hp. split; [|lia].
  change (Editor.run (pressEnter :: map pressDigit ds ++ [pressEnter]) e)
    with (Editor.run (map pressDigit ds ++ [pressEnter]) (Editor.editKeys pressEnter e)).
  assert (E1 : Editor.editKeys pressEnter e
               = Editor.with_number 0 (Editor.with_editing true e)).
  { unfold Editor.editKeys. rewrite He. reflexivity. }
  rewrite E1, run_app, run_digits.
  - cbn [Editor.run fold_left]. unfold Editor.editKeys.
    cbn [Editor.userEditing Editor.with_number Editor.with_editing pressEnter
         Editor.number Editor.tab Editor.enter orb Editor.userEditingNumber].
    rewrite typeDigits_none. destruct e; reflexivity.
  - reflexivity.
  - exact Hd.
  - cbn. lia.
  - cbn [Editor.userEditingNumber Editor.with_number]. lia.
Qed.

Lemma withdrawAll_ordersAt s p : wf s -> ordersAt (withdrawAll s) p = ordersAt s p.
Proof.
  intros (R & _). apply (rep_ordersAt (withdrawAll s) (ordersAt s) p).
  eapply rep_same_book; [exact R | reflexivity | reflexivity | reflexivity |].
  intros h. unfold withdrawAll. cbn [pool with_user with_pool]. apply withdraw_fold_next.
Qed.

(** The sizes of a state whose records all have sizes that are not
    negative. *)
Lemma sizesOk_pool s : (forall h, 0 <= limitOrder.size (pool s h)) -> sizesOk s.
Proof. intros H p h _. apply H. Qed.

Lemma sizesOk_book4 : sizesOk book4.
Proof.
  apply sizesOk_pool. intros h.
  do 7 (destruct h as [|h]; [vm_compute; discriminate|]). vm_compute. discriminate.
Qed.

(** A market order stops exactly when the book is short of shares. *)
Lemma marketOrder_short (s : state) (sell : bool) (size t : Z) :
  wf s -> sizesOk s -> 0 <= size -> 0 <= quote sell s < NUM_PRICES ->
  (available s t (pricesFrom sell (quote sell s)) < size /\
   (if sell then marketSell size t s else marketBuy size t s)
   = Fault (if sell then BuySideExhausted else SellSideExhausted)) \/
  (size <= available s t (pricesFrom sell (quote sell s)) /\
   exists s' o,
     (if sell then marketSell size t s else marketBuy size t s) = Ok (s', o)).
Proof.
  intros W Hsz Hs Hq.
  pose proof (volume_bookPortions_min s t (pricesFrom sell (quote sell s)) size Hs Hsz) as Ev.
  destruct (marketOrder_amount sell size t s W Hs Hq) as [E|(s' & E & _ & V)].
  - left. split; [|exact E].
    rewrite (marketOrder_eq sell size t s Hq) in E.
    assert (Hz : if sell then -1 <= quote sell s < NUM_PRICES
                 else 0 <= quote sell s <= NUM_PRICES) by (destruct sell; lia).
    assert (Hf : (if sell then BuySideExhausted else SellSideExhausted) <> OutOfFuel)
      by (destruct sell; discriminate).
    pose proof (marketLoop_fault_volume sell t _ _ size 0 s _ W ltac:(lia) Hs Hz E Hf).
    lia.
  - right. split; [lia|]. eauto.
Qed.

(** The length of a numeral. *)
Lemma readDigits_lower : forall l acc,
  Forall isDigit l -> 0 <= acc -> acc * 10 ^ Z.of_nat (length l) <= readDigits l acc.
Proof.
  induction l as [|c l IH]; intros acc Hd Ha; cbn [readDigits length].
  - change (10 ^ Z.of_nat 0) with 1. lia.
  - inversion Hd as [|? ? Hc Hl]; subst. unfold isDigit, CH_0, CH_9 in Hc.
    rewrite pow10_S. pose proof (pow10_pos (length l)) as Hp.
    specialize (IH (acc * 10 + (c - CH_0)) Hl ltac:(unfold CH_0; lia)).
    unfold CH_0 in *. nia.
Qed.

Lemma decimal_length v l (n : nat) :
  decimal v l -> v < 10 ^ Z.of_nat n -> (1 <= n)%nat -> (length l <= n)%nat.
Proof.
  intros (Hne & Hd & Hz & Hv) Hlt Hn.
  destruct l as [|c l]; [congruence|].
  destruct l as [|c' l']; [cbn [length]; lia|].
  destruct (Nat.le_gt_cases (length (c :: c' :: l')) n) as [Hle|Hgt]; [exact Hle|].
  exfalso.
  inversion Hd as [|? ? Hc Hl]; subst.
  assert (Hc1 : 1 <= c - CH_0).
  { unfold isDigit, CH_0, CH_9 in *. cbn [hd] in Hz.
    destruct (Z.eq_dec c 48) as [E|N]; [specialize (Hz E); discriminate | lia]. }
  change (readDigits (c :: c' :: l') 0)
    with (readDigits (c' :: l') (0 * 10 + (c - CH_0))) in Hlt.
  pose proof (readDigits_lower (c' :: l') (0 * 10 + (c - CH_0)) Hl ltac:(lia)) as Hlow.
  assert (Hpow : 10 ^ Z.of_nat n <= 10 ^ Z.of_nat (length (c' :: l'))).
  { apply Z.pow_le_mono_r; [lia|]. cbn [length] in *. lia. }
  pose proof (pow10_pos (length (c' :: l'))) as Hp.
  nia.
Qed.

(** * No order rests inside the spread *)

Lemma addLimitOrder_others p size e u s s' :
  wf s -> addLimitOrder p size e u s = Ok s' ->
  inRange p = true /\ forall q, q <> p -> ordersAt s' q = ordersAt s q.
Proof.
  intros (R & _) H.
  destruct (addLimitOrder_Ok _ _ _ _ _ _ H) as (lo & rest & Ef & Hp & Hu).
  destruct (addLimitOrder_rep s _ p size e u lo rest R Ef Hp Hu) as (s1 & Hrun & R' & _).
  rewrite H in Hrun. inversion Hrun; subst s1. split; [exact Hp|].
  intros q N. rewrite (rep_ordersAt _ _ q R'). now rewrite (proj2 (Z.eqb_neq q p) N).
Qed.

Lemma addTen_others startingTime life : forall n p i s s',
  wf s -> addTen n p startingTime life i s = Ok s' ->
  (n <> 0%nat -> inRange p = true) /\ forall q, q <> p -> ordersAt s' q = ordersAt s q.
Proof.
  induction n as [|n IH]; intros p i s s' W H; cbn [addTen] in H.
  - inversion H; subst. split; [congruence | auto].
  - inv_bind H. destruct (addLimitOrder_keeps _ _ _ _ _ _ W Ha) as (W1 & _).
    destruct (addLimitOrder_others _ _ _ _ _ _ W Ha) as (Hp & E1).
    destruct (IH p (S i) a s' W1 H) as (_ & E2).
    split; [auto|]. intros q N. rewrite E2, E1 by assumption. reflexivity.
Qed.

Lemma setupBuys_above startingTime life : forall fuel p i s s',
  wf s -> p <= bid s \/ NUM_PRICES <= p ->
  setupBuys fuel p startingTime life i s = Ok s' ->
  forall q, bid s < q < NUM_PRICES -> ordersAt s' q = ordersAt s q.
Proof.
  induction fuel as [|fuel IH]; intros p i s s' W Hp H; cbn [setupBuys] in H;
    destruct (u32 (bid s - 10) <=? p); try discriminate;
    try (inversion H; subst; reflexivity).
  inv_bind H. destruct (addTen_keeps _ _ _ _ _ _ _ W Ha) as (W1 & Eb & _).
  destruct (addTen_others _ _ _ _ _ _ _ W Ha) as (Hr & E1).
  specialize (Hr ltac:(discriminate)). apply inRange_iff in Hr.
  intros q Hq.
  rewrite (IH (u32 (p - 1)) (i + 10)%nat a s' W1); [apply E1; lia | | exact H | lia].
  rewrite Eb. destruct (Z.eq_dec p 0) as [->|N].
  - right. change (u32 (0 - 1)) with UINT_MAX. unfold UINT_MAX, NUM_PRICES. lia.
  - left. rewrite u32_small by (unfold NUM_PRICES in *; lia). lia.
Qed.

Lemma setupSells_below startingTime life : forall fuel p i s s',
  wf s -> ask s <= p ->
  setupSells fuel p startingTime life i s = Ok s' ->
  forall q, q < ask s -> ordersAt s' q = ordersAt s q.
Proof.
  induction fuel as [|fuel IH]; intros p i s s' W Hp H; cbn [setupSells] in H;
    destruct (p <=? u32 (ask s + 10)); try discriminate;
    try (inversion H; subst; reflexivity).
  inv_bind H. destruct (addTen_keeps _ _ _ _ _ _ _ W Ha) as (W1 & _ & Ea).
  destruct (addTen_others _ _ _ _ _ _ _ W Ha) as (Hr & E1).
  specialize (Hr ltac:(discriminate)). apply inRange_iff in Hr.
  intros q Hq.
  rewrite (IH (u32 (p + 1)) (i + 10)%nat a s' W1); [apply E1; lia | | exact H | lia].
  rewrite Ea, u32_small by (unfold NUM_PRICES in *; lia). lia.
Qed.

Lemma start_spread n stackOrder b spread t0 life x :
  initialBidMin <= b <= initialBidMax + 1 ->
  initialSpreadMin <= spread <= initialSpreadMax + 1 ->
  start n stackOrder b spread t0 life = Ok x ->
  spreadEmpty (eng x).
Proof.
  unfold initialBidMin, initialBidMax, initialSpreadMin, initialSpreadMax.
  intros Hb Hs H. unfold start in H. inv_bind H. inversion H; subst x. cbn [eng].
  unfold setupMarket in Ha. inv_bind Ha.
  assert (Eu : u32 (b + spread) = b + spread) by (apply u32_small; lia).
  rewrite Eu in *.
  set (s0 := with_ask (b + spread) (with_bid b (setup n stackOrder))) in *.
  assert (W0 : wf s0) by (apply wf_with_ask, wf_with_bid, wf_setup).
  destruct (setupBuys_keeps _ _ _ _ _ _ _ W0 Ha0) as (W1 & Eb1 & Ea1).
  destruct (setupSells_keeps _ _ _ _ _ _ _ W1 Ha) as (W2 & Eb2 & Ea2).
  intros q Hq. rewrite Eb2, Ea2, Eb1, Ea1 in Hq.
  change (bid s0) with b in *. change (ask s0) with (b + spread) in *.
  rewrite (setupSells_below _ _ _ _ _ _ _ W1 (Z.le_refl _) Ha) by (rewrite Ea1; cbn; lia).
  rewrite (setupBuys_above _ _ _ _ _ _ _ W0 (or_introl (Z.le_refl _)) Ha0)
    by (cbn; unfold NUM_PRICES; lia).
  apply ordersAt_setup.
Qed.

Lemma marketOrder_spread (sell : bool) size t s s' o :
  wf s -> quotesApart s -> spreadEmpty s -> 0 <= size ->
  (if sell then marketSell size t s else marketBuy size t s) = Ok (s', o) ->
  spreadEmpty s'.
Proof.
  intros W (H0 & H1 & H2) Hsp Hs Hrun.
  assert (Hq : 0 <= quote sell s < NUM_PRICES) by (unfold quote; destruct sell; lia).
  rewrite (marketOrder_eq sell size t s Hq) in Hrun.
  assert (Ho : 0 <= 0 < 2 ^ 32) by lia.
  assert (Hz : -1 <= quote sell s <= UINT_MAX) by (unfold UINT_MAX, NUM_PRICES in *; lia).
  assert (Hz' : -1 <= quote sell s <= NUM_PRICES) by lia.
  destruct (marketLoop_spec sell t _ _ _ _ _ _ _ W Ho Hs Hz Hrun) as (_ & _ & _ & Hother).
  destruct (marketLoop_quote sell t _ _ _ _ _ _ _ W Ho Hz' Hrun)
    as [(Eq & Hsame) | (Hv & Hvr & _ & Hpass & Hout)].
  - intros q Hq'. rewrite Hsame. apply Hsp.
    unfold quote in Eq. destruct sell; destruct Hother as (E1 & _); lia.
  - intros q Hq'. unfold quote, scanned in *. destruct sell; destruct Hother as (E1 & _).
    + destruct (Z.le_gt_cases q (bid s)) as [Hle|Hgt].
      * apply Hpass; lia.
      * rewrite Hout by lia. apply Hsp. lia.
    + destruct (Z.le_gt_cases (ask s) q) as [Hle|Hgt].
      * apply Hpass; lia.
      * rewrite Hout by lia. apply Hsp. lia.
Qed.

Lemma orderCreation_spread d now s s' :
  validDraws d -> wf s -> quotesApart s -> spreadEmpty s ->
  orderCreation d now s = Ok s' -> spreadEmpty s'.
Proof.
  unfold validDraws. intros Hd W Q Hsp H. unfold orderCreation in H.
  assert (Hsz : 0 <= u32 (orderSize d)) by (unfold u32; apply Z.mod_pos_bound; lia).
  destruct (isMarket d).
  - destruct (isSell d); inv_bind H; destruct a as [s1 o]; inversion H; subst s'.
    + exact (marketOrder_spread true _ _ _ _ _ W Q Hsp Hsz Ha).
    + exact (marketOrder_spread false _ _ _ _ _ W Q Hsp Hsz Ha).
  - destruct (isSell d); inv_bind H; inversion H; subst s'; clear H;
      destruct (addLimitOrder_keeps _ _ _ _ _ _ W Ha) as (_ & Eb & Ea & _);
      destruct (addLimitOrder_others _ _ _ _ _ _ W Ha) as (_ & Eo).
    + destruct (Z.ltb_spec (u32 (bid s + distance d)) (ask a)) as [Hlt|Hge];
        intros q Hq; cbn [bid ask with_ask] in Hq; change (ordersAt a q = []);
        (rewrite Eo by lia); apply Hsp; lia.
    + destruct (Z.ltb_spec (bid a) (u32 (ask s - distance d))) as [Hlt|Hge];
        intros q Hq; cbn [bid ask with_bid] in Hq; change (ordersAt a q = []);
        (rewrite Eo by lia); apply Hsp; lia.
Qed.

Lemma spreadEmpty_ledger b n s : spreadEmpty s -> spreadEmpty (with_ledger b n s).
Proof. intros H q Hq. exact (H q Hq). Qed.

Lemma userOrders_spread k now s s' :
  validKeys k -> wf s -> quotesApart s -> spreadEmpty s ->
  userOrders k now s = Ok s' -> spreadEmpty s'.
Proof.
  intros (K1 & K2 & K3 & K4) W Q Hsp H. unfold userOrders, realisticUserMarketOrders in H.
  inv_bind H. inv_bind H. inv_bind H. inversion H; subst s'; clear H.
  assert (S1 : wf a /\ quotesApart a /\ spreadEmpty a).
  { destruct (buyMarket k); [|inversion Ha; subst; auto].
    inv_bind Ha. inversion Ha; subst a; clear Ha.
    inv_bind Ha2. destruct a as [s1 o]. inversion Ha2; subst a2; clear Ha2.
    destruct (marketOrder_keeps false _ _ _ _ _ W Q Ha) as (W1 & Q1).
    pose proof (marketOrder_spread false _ _ _ _ _ W Q Hsp (proj1 K1) Ha) as Hs1.
    split; [|split; [exact Q1 | do 2 apply spreadEmpty_ledger; exact Hs1]].
    apply wf_with_ledger; [apply wf_with_ledger; [exact W1 | apply i32_int32 | apply W1]
                          | apply i32_int32 | apply i32_int32]. }
  destruct S1 as (W1 & Q1 & Hs1).
  assert (S2 : wf a0 /\ quotesApart a0 /\ spreadEmpty a0).
  { destruct (sellMarket k); [|inversion Ha0; subst; auto].
    inv_bind Ha0. inversion Ha0; subst a0; clear Ha0.
    inv_bind Ha2. destruct a0 as [s1 o]. inversion Ha2; subst a2; clear Ha2.
    destruct (marketOrder_keeps true _ _ _ _ _ W1 Q1 Ha0) as (W2 & Q2).
    pose proof (marketOrder_spread true _ _ _ _ _ W1 Q1 Hs1 (proj1 K2) Ha0) as Hs2.
    split; [|split; [exact Q2 | do 2 apply spreadEmpty_ledger; exact Hs2]].
    apply wf_with_ledger; [apply wf_with_ledger; [exact W2 | apply i32_int32 | apply W2]
                          | apply i32_int32 | apply i32_int32]. }
  destruct S2 as (W2 & Q2 & Hs2).
  assert (Hadd : forall p size e s3,
             p = bid a0 \/ p = ask a0 ->
             addLimitOrder p size e true a0 = Ok s3 -> spreadEmpty s3).
  { intros p size e s3 Hp E.
    destruct (addLimitOrder_keeps _ _ _ _ _ _ W2 E) as (_ & Eb & Ea & _).
    destruct (addLimitOrder_others _ _ _ _ _ _ W2 E) as (_ & Eo).
    intros q Hq. rewrite Eb, Ea in Hq. rewrite Eo by lia. now apply Hs2. }
  assert (S3 : wf a1 /\ spreadEmpty a1).
  { destruct (numUserLimitOrders a0 <? MAX_NUM_USER_LIMIT_ORDERS)%nat;
      [|inversion Ha1; subst; auto].
    destruct (buyLimit k).
    { split; [exact (proj1 (addLimitOrder_keeps _ _ _ _ _ _ W2 Ha1))|].
      exact (Hadd _ _ _ _ (or_introl eq_refl) Ha1). }
    destruct (sellLimit k).
    { split; [exact (proj1 (addLimitOrder_keeps _ _ _ _ _ _ W2 Ha1))|].
      exact (Hadd _ _ _ _ (or_intror eq_refl) Ha1). }
    inversion Ha1; subst; auto. }
  destruct S3 as (W3 & Hs3).
  destruct (backspace k); [|exact Hs3].
  intros q Hq. rewrite withdrawAll_ordersAt by exact W3. apply Hs3. exact Hq.
Qed.

Lemma refresh_spread now s s1 s2 :
  wf s -> quotesApart s -> spreadEmpty s ->
  sweepAll now s = Ok s1 -> updateBidAndAsk s1 = Ok s2 ->
  spreadEmpty s2.
Proof.
  intros W (H0 & H1 & H2) Hsp Hs Hu. unfold sweepAll in Hs.
  destruct (sweepFrom_spec now (Z.to_nat NUM_PRICES) 0 s W) as (s1' & E1 & W1 & L & _ & S1).
  { lia. }
  { rewrite Z2Nat.id by (unfold NUM_PRICES; lia). lia. }
  rewrite Hs in E1. inversion E1; subst s1'.
  destruct S1 as (_ & Eb & Ea & _).
  destruct (updateBidAndAsk_spec _ _ Hu) as (S & Hb & Ha & _ & _ & Hlow & Hhigh).
  pose proof (sameButQuotes_wf _ _ S W1) as W2.
  intros q Hq.
  destruct (Z.le_gt_cases q (bid s1)) as [Hle|Hgt].
  { apply (head_ordersAt s2 q W2). apply Hlow. lia. }
  destruct (Z.le_gt_cases (ask s1) q) as [Hle'|Hgt'].
  { apply (head_ordersAt s2 q W2). apply Hhigh. lia. }
  rewrite (sameButQuotes_ordersAt _ _ q S), L.
  rewrite (Hsp q) by lia.
  destruct ((0 <=? q) && (q <? 0 + Z.of_nat (Z.to_nat NUM_PRICES))); reflexivity.
Qed.

Lemma mainCycleStep_spread d k x x' :
  validDraws d -> validKeys k ->
  wf (eng x) -> quotesApart (eng x) -> spreadEmpty (eng x) ->
  mainCycleStep d k x = Ok x' -> spreadEmpty (eng x').
Proof.
  intros Hd Hk W Q Hsp H. unfold mainCycleStep in H.
  destruct (nextOrderCreation x <? targetTime x); inv_bind H; inversion H; subst x'; cbn [eng].
  - eapply orderCreation_spread; eassumption.
  - unfold frame in Ha. inv_bind Ha. inv_bind Ha. inv_bind Ha.
    destruct (refresh_keeps _ _ _ _ W Q Ha0 Ha1) as (W2 & Q2 & _).
    pose proof (refresh_spread _ _ _ _ W Q Hsp Ha0 Ha1) as Hs2.
    exact (userOrders_spread k (targetTime x) a1 a Hk W2 Q2 Hs2 Ha).
Qed.

Lemma reachable_spread x : reachable x -> spreadEmpty (eng x).
Proof.
  induction 1 as [n so b spread t0 life x Hb Hs H | d k x x' Hr IH Hd Hk H].
  - eapply start_spread; eassumption.
  - destruct (reachable_keeps x Hr) as (W & Q).
    eapply mainCycleStep_spread; eassumption.
Qed.

(** * Further properties of the code *)

(** ** The text of the display *)

(** [intToStringFixed] writes a volume on a field of four blanks: the field
    then holds the decimal numeral of [p], without leading zeros, at its
    right, behind blanks; a number above 9999 is shown as 9999.  No
    character outside the field is written, and the function returns for
    every [u32]. *)
Theorem volume_field_shows_number (p s : Z) (b : buffer) :
  0 <= p < 2 ^ 32 ->
  (forall j, s <= j < s + 4 -> b j = CH_SPACE) ->
  exists b' digits,
    intToStringFixed p s b = Ok b' /\
    decimal (Z.min p 9999) digits /\
    rightAligned 4 digits (chars b' s 4) /\
    (forall j, j < s \/ s + 4 <= j -> b' j = b j).
Proof. exact (intToStringFixed_spec p s b). Qed.

Lemma volume_field_shows_number_witness :
  exists b' digits,
    intToStringFixed 42 0 (fun _ => CH_SPACE) = Ok b' /\
    decimal (Z.min 42 9999) digits /\
    rightAligned 4 digits (chars b' 0 4) /\
    (forall j, j < 0 \/ 0 + 4 <= j -> b' j = CH_SPACE).
Proof.
  apply (volume_field_shows_number 42 0 (fun _ => CH_SPACE)); [lia | reflexivity].
Defined.

(** [intToString] writes the numeral of the [int] [p] from the address [s]
    on: a minus sign for a negative number, then the decimal digits of the
    absolute value without leading zeros; it returns the address behind
    the last character and writes nowhere else.  Reading the text back
    gives [p].  The text has at most 11 characters, so that with the
    closing 0 it fits the 100 characters that [printOrderBook] gives it.
    ([INT_MIN], whose negation C leaves undefined, is left out.) *)
Theorem intToString_writes_numeral (p s : Z) (b : buffer) :
  - 2 ^ 31 < p < 2 ^ 31 ->
  exists b' text,
    intToString p s b = Ok (b', s + Z.of_nat (length text)) /\
    signed p text /\
    (length text <= 11)%nat /\
    chars b' s (length text) = text /\
    (forall j, j < s \/ s + Z.of_nat (length text) <= j -> b' j = b j).
Proof.
  intros Hp. destruct (intToString_spec p s b Hp) as (b' & text & E & S & C & F).
  exists b', text. split; [exact E|]. split; [exact S|]. split; [|auto].
  destruct S as (digits & D & ->).
  assert (L : (length digits <= 10)%nat).
  { apply (decimal_length (Z.abs p)); [exact D | | lia].
    change (10 ^ Z.of_nat 10) with 10000000000. lia. }
  rewrite length_app. destruct (p <? 0); cbn [length]; lia.
Qed.

Lemma intToString_writes_numeral_witness :
  exists b' text,
    intToString (-1234) 0 (fun _ => CH_SPACE) = Ok (b', 0 + Z.of_nat (length text)) /\
    signed (-1234) text /\
    (length text <= 11)%nat /\
    chars b' 0 (length text) = text /\
    (forall j, j < 0 \/ 0 + Z.of_nat (length text) <= j -> b' j = CH_SPACE).
Proof.
  apply (intToString_writes_numeral (-1234) 0 (fun _ => CH_SPACE)). lia.
Defined.

(** [priceToStringFixed] writes a price of the book, at most 99999 cents,
    on a field of six characters whose first two are blank: the field then
    holds the amount (units, a point, two digits of cents) at its right,
    behind blanks.  No character outside the field is written. *)
Theorem price_field_shows_amount (p s : Z) (b : buffer) :
  0 <= p <= 99999 ->
  (forall j, s <= j < s + 2 -> b j = CH_SPACE) ->
  exists b' text,
    priceToStringFixed p s b = Ok b' /\
    amount p text /\
    rightAligned 6 text (chars b' s 6) /\
    (forall j, j < s \/ s + 6 <= j -> b' j = b j).
Proof. exact (priceToStringFixed_spec p s b). Qed.

Lemma price_field_shows_amount_witness :
  exists b' text,
    priceToStringFixed 10550 7 (fun _ => CH_SPACE) = Ok b' /\
    amount 10550 text /\
    rightAligned 6 text (chars b' 7 6) /\
    (forall j, j < 7 \/ 7 + 6 <= j -> b' j = CH_SPACE).
Proof.
  apply (price_field_shows_amount 10550 7 (fun _ => CH_SPACE)); [lia | reflexivity].
Defined.

(** For a price above 99999 [priceToStringFixed] overwrites the point: the
    field reads 990999, with the 0 that was written first in the place of
    the third 9, and holds no point at all. *)
Theorem price_field_above_range_has_no_point (p s : Z) (b : buffer) :
  99999 < p ->
  exists b',
    priceToStringFixed p s b = Ok b' /\
    chars b' s 6 = [CH_9; CH_9; CH_0; CH_9; CH_9; CH_9] /\
    ~ In CH_DOT (chars b' s 6) /\
    (forall j, j < s \/ s + 6 <= j -> b' j = b j).
Proof.
  intros Hp. destruct (priceToStringFixed_large p s b Hp) as (b' & E & C & F).
  exists b'. split; [exact E|]. split; [exact C|]. split; [|exact F].
  rewrite C. unfold CH_DOT, CH_9, CH_0. cbn [In]. lia.
Qed.

Lemma price_field_above_range_has_no_point_witness :
  exists b',
    priceToStringFixed 100000 0 (fun _ => CH_SPACE) = Ok b' /\
    chars b' 0 6 = [CH_9; CH_9; CH_0; CH_9; CH_9; CH_9] /\
    ~ In CH_DOT (chars b' 0 6) /\
    (forall j, j < 0 \/ 0 + 6 <= j -> b' j = CH_SPACE).
Proof.
  apply (price_field_above_range_has_no_point 100000 0 (fun _ => CH_SPACE)). lia.
Defined.

(** [priceToString] writes an [int] of cents as an amount: a minus sign for
    a negative number, the numeral of the units, a point and the two digits
    of the cents of the absolute value; it returns the address behind the
    last character and writes nowhere else.  The text has at most 12
    characters.  ([INT_MIN] is left out.) *)
Theorem priceToString_writes_amount (p s : Z) (b : buffer) :
  - 2 ^ 31 < p < 2 ^ 31 ->
  exists b' text,
    priceToString p s b = Ok (b', s + Z.of_nat (length text)) /\
    (exists a, amount (Z.abs p) a /\ text = (if p <? 0 then [CH_MINUS] else []) ++ a) /\
    (length text <= 12)%nat /\
    chars b' s (length text) = text /\
    (forall j, j < s \/ s + Z.of_nat (length text) <= j -> b' j = b j).
Proof.
  intros Hp. destruct (priceToString_spec p s b Hp) as (b' & text & E & A & C & F).
  exists b', text. split; [exact E|]. split; [exact A|]. split; [|auto].
  destruct A as (a & (units & c1 & c0 & D & _ & _ & _ & ->) & ->).
  assert (L : (length units <= 8)%nat).
  { apply (decimal_length (Z.abs p / 100)); [exact D | | lia].
    change (10 ^ Z.of_nat 8) with 100000000. dlia. }
  rewrite !length_app. destruct (p <? 0); cbn [length]; lia.
Qed.

Lemma priceToString_writes_amount_witness :
  exists b' text,
    priceToString (-5) 0 (fun _ => CH_SPACE) = Ok (b', 0 + Z.of_nat (length text)) /\
    (exists a, amount (Z.abs (-5)) a /\ text = (if -5 <? 0 then [CH_MINUS] else []) ++ a) /\
    (length text <= 12)%nat /\
    chars b' 0 (length text) = text /\
    (forall j, j < 0 \/ 0 + Z.of_nat (length text) <= j -> b' j = CH_SPACE).
Proof.
  apply (priceToString_writes_amount (-5) 0 (fun _ => CH_SPACE)). lia.
Defined.

(** The line that [printOrderBook] writes for a price [p] of the book, in a
    well-formed state: 21 characters, which are the buy volume, " | ", the
    price as an amount, " | ", the sell volume and a newline.  The volume is
    the sum of the sizes of all orders resting at [p], modulo [2 ^ 32] and
    shown as 9999 when it is larger; it is written in the buy field for
    [p <= bid] and in the sell field for [p >= ask], and the field is blank
    otherwise.  Nothing outside the line is written. *)
Theorem book_line_layout (s : state) (p i : Z) (b : buffer) :
  wf s -> 0 <= p < NUM_PRICES ->
  exists b' buy price sell,
    printLine p i s b = Ok b' /\
    chars b' (i * lineWidth) 21
      = buy ++ [CH_SPACE; CH_BAR; CH_SPACE] ++ price ++ [CH_SPACE; CH_BAR; CH_SPACE]
            ++ sell ++ [CH_NL] /\
    volumeField (p <=? bid s) (u32 (sharesAt s p)) buy /\
    priceField p price /\
    volumeField (ask s <=? p) (u32 (sharesAt s p)) sell /\
    (forall j, j < i * lineWidth \/ i * lineWidth + lineWidth <= j -> b' j = b j).
Proof. exact (printLine_spec s p i b). Qed.

Lemma book_line_layout_witness :
  exists b' buy price sell,
    printLine 105 0 book4 (fun _ => CH_SPACE) = Ok b' /\
    chars b' (0 * lineWidth) 21
      = buy ++ [CH_SPACE; CH_BAR; CH_SPACE] ++ price ++ [CH_SPACE; CH_BAR; CH_SPACE]
            ++ sell ++ [CH_NL] /\
    volumeField (105 <=? bid book4) (u32 (sharesAt book4 105)) buy /\
    priceField 105 price /\
    volumeField (ask book4 <=? 105) (u32 (sharesAt book4 105)) sell /\
    (forall j, j < 0 * lineWidth \/ 0 * lineWidth + lineWidth <= j -> b' j = CH_SPACE).
Proof.
  apply (book_line_layout book4 105 0 (fun _ => CH_SPACE)).
  - apply built_wf. exact built_book4.
  - unfold NUM_PRICES. lia.
Defined.

(** ** The editing keys *)

(** Whatever keys are pressed in whatever frames, from the sizes that
    [main.c] starts with: the number being typed and the four order sizes
    stay below [10 ^ 9], so that [userEditingNumber *= 10] never wraps
    around, the selection stays one of the five lines of the menu, and the
    sizes that a frame reads are values of type [u32]. *)
Theorem edited_sizes_stay_in_range (ks : list Editor.input) (bm sm bl sl bs : bool) :
  editorOk (Editor.run ks Editor.initial) /\
  validKeys (Editor.frameKeys bm sm bl sl bs (Editor.run ks Editor.initial)).
Proof.
  pose proof (editorOk_run ks _ editorOk_initial) as H. split; [exact H|].
  unfold editorOk in H. unfold validKeys, Editor.frameKeys.
  cbn [userMarketBuySize userMarketSellSize userLimitBuySize userLimitSellSize]. lia.
Qed.

(** Typing a size.  Outside the editing mode ENTER starts a number; at most
    nine digits, one per frame, are then appended to it; ENTER stores the
    number in the size of the selected line (line 0 stands for all four
    sizes) and leaves the editing mode.  The other sizes and the selection
    stay as they were. *)
Theorem typed_number_becomes_size (e : Editor.t) (ds : list Z) :
  Editor.userEditing e = false ->
  Forall (fun d => 0 <= d <= 9) ds -> (length ds <= 9)%nat ->
  let e' := Editor.run (pressEnter :: map pressDigit ds ++ [pressEnter]) e in
  let i := Editor.userSelected e in
  0 <= typedNumber ds < 10 ^ 9 /\
  Editor.userEditing e' = false /\
  Editor.userSelected e' = i /\
  Editor.userMarketBuySize e'
  = (if (i =? 0) || (i =? 1) then typedNumber ds else Editor.userMarketBuySize e) /\
  Editor.userMarketSellSize e'
  = (if (i =? 0) || (i =? 2) then typedNumber ds else Editor.userMarketSellSize e) /\
  Editor.userLimitBuySize e'
  = (if (i =? 0) || (i =? 3) then typedNumber ds else Editor.userLimitBuySize e) /\
  Editor.userLimitSellSize e'
  = (if (i =? 0) || (i =? 4) then typedNumber ds else Editor.userLimitSellSize e).
Proof.
  intros He Hd Hl e' i. destruct (typed_run e ds He Hd Hl) as (E & B).
  split; [exact B|]. unfold e'. rewrite E. unfold Editor.commit, i.
  destruct e as [ed n sel mb ms lb ls].
  cbn [Editor.userEditing Editor.userEditingNumber Editor.userSelected
       Editor.userMarketBuySize Editor.userMarketSellSize Editor.userLimitBuySize
       Editor.userLimitSellSize Editor.with_number Editor.with_editing].
  destruct (Z.eqb_spec sel 0) as [->|N0]; [cbn; auto 10|].
  destruct (Z.eqb_spec sel 1) as [->|N1]; [cbn; auto 10|].
  destruct (Z.eqb_spec sel 2) as [->|N2]; [cbn; auto 10|].
  destruct (Z.eqb_spec sel 3) as [->|N3]; [cbn; auto 10|].
  destruct (Z.eqb_spec sel 4) as [->|N4]; cbn; auto 10.
Qed.

Lemma typed_number_becomes_size_witness :
  let e' := Editor.run (pressEnter :: map pressDigit [2; 5; 0] ++ [pressEnter])
                       (Editor.with_selected 3 Editor.initial) in
  let i := Editor.userSelected (Editor.with_selected 3 Editor.initial) in
  0 <= typedNumber [2; 5; 0] < 10 ^ 9 /\
  Editor.userEditing e' = false /\
  Editor.userSelected e' = i /\
  Editor.userMarketBuySize e'
  = (if (i =? 0) || (i =? 1) then typedNumber [2; 5; 0]
     else Editor.userMarketBuySize (Editor.with_selected 3 Editor.initial)) /\
  Editor.userMarketSellSize e'
  = (if (i =? 0) || (i =? 2) then typedNumber [2; 5; 0]
     else Editor.userMarketSellSize (Editor.with_selected 3 Editor.initial)) /\
  Editor.userLimitBuySize e'
  = (if (i =? 0) || (i =? 3) then typedNumber [2; 5; 0]
     else Editor.userLimitBuySize (Editor.with_selected 3 Editor.initial)) /\
  Editor.userLimitSellSize e'
  = (if (i =? 0) || (i =? 4) then typedNumber [2; 5; 0]
     else Editor.userLimitSellSize (Editor.with_selected 3 Editor.initial)).
Proof.
  apply (typed_number_becomes_size (Editor.with_selected 3 Editor.initial) [2; 5; 0]).
  - reflexivity.
  - repeat constructor; lia.
  - cbn [length]. lia.
Defined.

(** ** The generator *)

(** The value that [random] returns gives its state away: the new state is
    the value times a constant, modulo [2 ^ 64].  So two generators that
    return the same value once return the same values ever after. *)
Theorem random_value_gives_state_away (r r' : Rng.t) :
  0 <= snd (random r) < 2 ^ 64 /\
  Rng.randState (fst (random r)) = u64 (snd (random r) * 0x0ec6368d53e65e15) /\
  (snd (random r) = snd (random r') ->
   forall n, draw n (fst (random r)) = draw n (fst (random r'))).
Proof.
  assert (Inv : forall x, Rng.randState (fst (random x))
                          = u64 (snd (random x) * 0x0ec6368d53e65e15)).
  { intros x. unfold random. cbn [fst snd Rng.randState].
    set (st := u64 (_ + _ + _)).
    assert (Hst : 0 <= st < 2 ^ 64) by (unfold st, u64; apply Z.mod_pos_bound; lia).
    unfold u64 at 1 2. rewrite Z.mul_mod_idemp_l by lia. rewrite <- Z.mul_assoc.
    rewrite <- Z.mul_mod_idemp_r by lia.
    change ((0xc6ae4de299a7813d * 0x0ec6368d53e65e15) mod 2 ^ 64) with 1.
    rewrite Z.mul_1_r, Z.mod_small by lia. reflexivity. }
  split; [|split].
  - unfold random. cbn [snd]. unfold u64 at 1. apply Z.mod_pos_bound. lia.
  - apply Inv.
  - intros E n. apply draw_state. rewrite !Inv, E. reflexivity.
Qed.

(** The step of the state of [random] is not one-to-one: two different
    seeds give the same sequence of values, from the first call on. *)
Theorem two_seeds_give_one_sequence :
  exists a b,
    0 <= a < 2 ^ 64 /\ 0 <= b < 2 ^ 64 /\ a <> b /\
    forall n, draw n (setSeed a) = draw n (setSeed b).
Proof.
  exists 0, 6959485273337677715.
  split; [lia|]. split; [lia|]. split; [discriminate|].
  intros [|n]; cbn [draw]; [vm_compute; reflexivity|].
  apply draw_state. vm_compute. reflexivity.
Qed.

(** ** The engine *)

(** [addLimitOrder] at a price of the book, in a well-formed state (and,
    for an order of the user, with room in [userLimitOrders]): it stops the
    program exactly when no record is free, with the message of the
    exhausted pool; otherwise it returns, one record has left the free
    stack, the list of the price is longer by one, the other lists are
    untouched, and the order is tracked if it is the user's. *)
Theorem addLimitOrder_fails_only_on_empty_pool (s : state) (p size e : Z) (u : bool) :
  wf s -> 0 <= p < NUM_PRICES ->
  (u = true -> (numUserLimitOrders s < MAX_NUM_USER_LIMIT_ORDERS)%nat) ->
  (numFreeLimitOrders s = 0%nat /\ addLimitOrder p size e u s = Fault PoolExhausted) \/
  (exists s',
     addLimitOrder p size e u s = Ok s' /\ wf s' /\
     S (numFreeLimitOrders s') = numFreeLimitOrders s /\
     numUserLimitOrders s' = (if u then S (numUserLimitOrders s) else numUserLimitOrders s) /\
     length (ordersAt s' p) = S (length (ordersAt s p)) /\
     (forall q, q <> p -> ordersAt s' q = ordersAt s q)).
Proof.
  intros (R & Hb & Hn) Hp Hu. apply inRange_iff in Hp.
  destruct (freeLimitOrders s) as [|lo rest] eqn:Ef.
  - left. unfold numFreeLimitOrders, addLimitOrder. rewrite Ef. auto.
  - right.
    destruct (addLimitOrder_rep s _ p size e u lo rest R Ef Hp Hu)
      as (s' & Hrun & R' & Hfree' & _ & _ & Husr & _ & _ & _ & Ebal & Esh & _).
    exists s'. split; [exact Hrun|].
    split; [apply (wf_intro _ _ R'); congruence|].
    unfold numFreeLimitOrders, numUserLimitOrders. rewrite Ef, Hfree', Husr.
    split; [reflexivity|]. split.
    { destruct u; [rewrite length_app; cbn [length]; lia | reflexivity]. }
    split.
    + rewrite (rep_ordersAt _ _ p R'), Z.eqb_refl. apply inserted_length.
    + intros q N. rewrite (rep_ordersAt _ _ q R'). now rewrite (proj2 (Z.eqb_neq q p) N).
Qed.

Lemma addLimitOrder_fails_only_on_empty_pool_witness :
  (numFreeLimitOrders book4 = 0%nat /\
   addLimitOrder 101 9 70 true book4 = Fault PoolExhausted) \/
  (exists s',
     addLimitOrder 101 9 70 true book4 = Ok s' /\ wf s' /\
     S (numFreeLimitOrders s') = numFreeLimitOrders book4 /\
     numUserLimitOrders s' = (if true then S (numUserLimitOrders book4)
                              else numUserLimitOrders book4) /\
     length (ordersAt s' 101) = S (length (ordersAt book4 101)) /\
     (forall q, q <> 101 -> ordersAt s' q = ordersAt book4 q)).
Proof.
  apply (addLimitOrder_fails_only_on_empty_pool book4 101 9 70 true).
  - apply built_wf. exact built_book4.
  - unfold NUM_PRICES. lia.
  - intros _. vm_compute. lia.
Defined.

(** [updateBidAndAsk], with the bid and the ask on prices of the book,
    always ends, in one of three ways: it stops the program with the
    message of the deleted buy orders, and then no price from 0 to the bid
    holds an order; or with the message of the deleted sell orders, and
    then no price from the ask upwards holds one; or it returns, with the
    bid on the highest price not above the old bid that holds an order and
    the ask on the lowest such price not below the old ask, everything else
    being as before. *)
Theorem updateBidAndAsk_ends_in_three_ways (s : state) :
  0 <= bid s < NUM_PRICES -> 0 <= ask s < NUM_PRICES ->
  (updateBidAndAsk s = Fault BuySideExhausted /\
   forall q, 0 <= q <= bid s -> limitOrderHead s q = None) \/
  (updateBidAndAsk s = Fault SellSideExhausted /\
   forall q, ask s <= q < NUM_PRICES -> limitOrderHead s q = None) \/
  (exists s',
     updateBidAndAsk s = Ok s' /\ sameButQuotes s s' /\
     0 <= bid s' <= bid s /\ ask s <= ask s' < NUM_PRICES /\
     limitOrderHead s (bid s') <> None /\ limitOrderHead s (ask s') <> None /\
     (forall q, bid s' < q <= bid s -> limitOrderHead s q = None) /\
     (forall q, ask s <= q < ask s' -> limitOrderHead s q = None)).
Proof.
  intros Hb Ha.
  destruct (updateBidAndAsk_total s Hb Ha) as [H|[H|(s' & E)]]; [now left | now right; left |].
  right; right. exists s'. split; [exact E|].
  destruct (updateBidAndAsk_spec _ _ E) as (S & B1 & B2 & B3 & B4 & B5 & B6).
  pose proof S as (_ & _ & _ & Eh & _). rewrite Eh in B3, B4, B5, B6.
  repeat (split; [assumption|]). assumption.
Qed.

Lemma updateBidAndAsk_ends_in_three_ways_witness :
  (updateBidAndAsk book4 = Fault BuySideExhausted /\
   forall q, 0 <= q <= bid book4 -> limitOrderHead book4 q = None) \/
  (updateBidAndAsk book4 = Fault SellSideExhausted /\
   forall q, ask book4 <= q < NUM_PRICES -> limitOrderHead book4 q = None) \/
  (exists s',
     updateBidAndAsk book4 = Ok s' /\ sameButQuotes book4 s' /\
     0 <= bid s' <= bid book4 /\ ask book4 <= ask s' < NUM_PRICES /\
     limitOrderHead book4 (bid s') <> None /\ limitOrderHead book4 (ask s') <> None /\
     (forall q, bid s' < q <= bid book4 -> limitOrderHead book4 q = None) /\
     (forall q, ask book4 <= q < ask s' -> limitOrderHead book4 q = None)).
Proof.
  apply (updateBidAndAsk_ends_in_three_ways book4).
  - change (bid book4) with 100. unfold NUM_PRICES. lia.
  - change (ask book4) with 105. unfold NUM_PRICES. lia.
Defined.

(** The backspace key and the sweep that follows.  After [withdrawAll] a
    sweep of the price [p] at any time [t >= 0] removes every order of [p]
    that the user had tracked: the record is back on the free stack and
    rests at [p] no more.  The orders of [p] that were not tracked and have
    not expired stay. *)
Theorem withdrawn_order_is_swept (s : state) (p t : Z) (h : nat) :
  wf s -> 0 <= p < NUM_PRICES -> 0 <= t ->
  In h (userLimitOrders s) -> In h (ordersAt s p) ->
  exists s',
    updateLimitOrders p t (withdrawAll s) = Ok s' /\
    wf s' /\
    ~ In h (ordersAt s' p) /\ In h (freeLimitOrders s') /\
    userLimitOrders s' = [] /\
    (forall h', In h' (ordersAt s p) -> ~ In h' (userLimitOrders s) ->
       t < limitOrder.expirationTime (pool s h') -> In h' (ordersAt s' p)).
Proof.
  intros W Hp Ht Hu Hh. apply inRange_iff in Hp.
  pose proof (wf_withdrawAll s W) as W1.
  destruct (sweep_level (withdrawAll s) p t W1 Hp) as (s' & E & W' & L & F & _ & S).
  exists s'. split; [exact E|]. split; [exact W'|].
  rewrite (L p), Z.eqb_refl, withdrawAll_ordersAt by assumption.
  rewrite F, withdrawAll_ordersAt by assumption.
  assert (Data : forall x,
             (In x (userLimitOrders s) ->
              limitOrder.expirationTime (pool (withdrawAll s) x) = 0) /\
             (~ In x (userLimitOrders s) -> pool (withdrawAll s) x = pool s x)).
  { intros x. destruct (withdraw_fold_data (userLimitOrders s) (pool s) x) as (_ & _ & A & B).
    split; [exact A | exact B]. }
  split; [|split; [|split]].
  - intros Hin. apply filter_In in Hin. destruct Hin as (_ & Hal).
    unfold alive, expired in Hal. rewrite (proj1 (Data h) Hu) in Hal.
    apply negb_true_iff, Z.leb_gt in Hal. lia.
  - apply in_or_app. left. apply -> in_rev. apply filter_In. split; [exact Hh|].
    unfold expired. rewrite (proj1 (Data h) Hu). apply Z.leb_le. exact Ht.
  - destruct S as (_ & _ & _ & Eu & _). rewrite Eu. reflexivity.
  - intros h' Hh' Hn Hal. apply filter_In. split; [exact Hh'|].
    unfold alive, expired. rewrite (proj2 (Data h') Hn).
    apply negb_true_iff, Z.leb_gt. exact Hal.
Qed.

Lemma withdrawn_order_is_swept_witness :
  exists s',
    updateLimitOrders 100 10 (withdrawAll mixedBuys) = Ok s' /\
    wf s' /\
    ~ In 4%nat (ordersAt s' 100) /\ In 4%nat (freeLimitOrders s') /\
    userLimitOrders s' = [] /\
    (forall h', In h' (ordersAt mixedBuys 100) -> ~ In h' (userLimitOrders mixedBuys) ->
       10 < limitOrder.expirationTime (pool mixedBuys h') -> In h' (ordersAt s' 100)).
Proof.
  apply (withdrawn_order_is_swept mixedBuys 100 10 4%nat).
  - apply built_wf. exact built_mixedBuys.
  - unfold NUM_PRICES. lia.
  - lia.
  - vm_compute. auto.
  - vm_compute. auto.
Defined.

(** The sweep of a frame ([updateLimitOrders] on every price, at the time
    [t]) returns in every well-formed state.  Afterwards every price of the
    book holds exactly its orders that had not expired, in their order, so
    that no order with an expiration time up to [t] rests anywhere in the
    book; the quotes, the ledger and the list of the user's orders are
    untouched. *)
Theorem frame_sweep_removes_expired (s : state) (t : Z) :
  wf s ->
  exists s',
    sweepAll t s = Ok s' /\ wf s' /\
    (forall q, 0 <= q < NUM_PRICES ->
       ordersAt s' q = filter (alive (pool s) t) (ordersAt s q)) /\
    (forall q h, 0 <= q < NUM_PRICES -> In h (ordersAt s' q) ->
       t < limitOrder.expirationTime (pool s' h)) /\
    sameRest s s'.
Proof.
  intros W. unfold sweepAll.
  destruct (sweepFrom_spec t (Z.to_nat NUM_PRICES) 0 s W) as (s' & E & W' & L & D & S).
  { lia. }
  { rewrite Z2Nat.id by (unfold NUM_PRICES; lia). lia. }
  rewrite Z2Nat.id in L by (unfold NUM_PRICES; lia).
  assert (L' : forall q, 0 <= q < NUM_PRICES ->
                         ordersAt s' q = filter (alive (pool s) t) (ordersAt s q)).
  { intros q Hq. rewrite L.
    rewrite (proj2 (Z.leb_le 0 q)), (proj2 (Z.ltb_lt q (0 + NUM_PRICES))) by lia.
    reflexivity. }
  exists s'. split; [exact E|]. split; [exact W'|]. split; [exact L'|]. split; [|exact S].
  intros q h Hq Hh. rewrite (L' q Hq) in Hh. apply filter_In in Hh.
  destruct Hh as (_ & Hal). unfold alive, expired in Hal.
  destruct (D h) as (_ & _ & -> & _). apply negb_true_iff, Z.leb_gt in Hal. exact Hal.
Qed.

Lemma frame_sweep_removes_expired_witness :
  exists s',
    sweepAll 30 book4 = Ok s' /\ wf s' /\
    (forall q, 0 <= q < NUM_PRICES ->
       ordersAt s' q = filter (alive (pool book4) 30) (ordersAt book4 q)) /\
    (forall q h, 0 <= q < NUM_PRICES -> In h (ordersAt s' q) ->
       30 < limitOrder.expirationTime (pool s' h)) /\
    sameRest book4 s'.
Proof.
  apply (frame_sweep_removes_expired book4 30).
  apply built_wf. exact built_book4.
Defined.

(** A sweep that finds no expired order at its price changes nothing at
    all.  So a second sweep of a price, at the same time or at an earlier
    one, returns the very state that the first sweep has left. *)
Theorem second_sweep_changes_nothing (s s1 : state) (p t t' : Z) :
  wf s -> 0 <= p < NUM_PRICES -> t' <= t ->
  updateLimitOrders p t s = Ok s1 ->
  updateLimitOrders p t' s1 = Ok s1.
Proof.
  intros W Hp Ht E. apply inRange_iff in Hp.
  destruct (sweep_level s p t W Hp) as (s' & E' & W' & L & _ & D & _).
  rewrite E in E'. inversion E'; subst s'.
  apply updateLimitOrders_nothing; [exact W' | exact Hp |].
  intros h Hh. rewrite (L p), Z.eqb_refl in Hh. apply filter_In in Hh.
  destruct Hh as (_ & Hal). unfold alive, expired in *.
  destruct (D h) as (_ & _ & -> & _).
  apply negb_true_iff, Z.leb_gt in Hal. apply negb_true_iff, Z.leb_gt. lia.
Qed.

Lemma second_sweep_changes_nothing_witness :
  updateLimitOrders 105 30 (force (updateLimitOrders 105 30 book4))
  = Ok (force (updateLimitOrders 105 30 book4)).
Proof.
  apply (second_sweep_changes_nothing book4 (force (updateLimitOrders 105 30 book4)) 105 30 30).
  - apply built_wf. exact built_book4.
  - unfold NUM_PRICES. lia.
  - lia.
  - vm_compute. reflexivity.
Defined.

(** A fill neither makes nor loses shares: [fillOrders] at a price [p] of
    the book returns in every well-formed state, the shares resting at [p]
    go down by exactly what the request has been served (the part of
    [size] that is not handed back), the amount goes up by that quantity
    times [p], modulo [2 ^ 32], and the shares resting at the other prices
    stay. *)
Theorem fill_conserves_shares (s : state) (p size o : Z) (sell : bool) :
  wf s -> 0 <= p < NUM_PRICES -> 0 <= o < 2 ^ 32 ->
  exists s' size' o',
    fillOrders p size o sell s = Ok (s', size', o') /\
    wf s' /\
    sharesAt s' p = sharesAt s p - (size - size') /\
    (forall q, q <> p -> sharesAt s' q = sharesAt s q) /\
    o' = u32 (o + (size - size') * p).
Proof.
  intros W Hp Ho. apply inRange_iff in Hp. now apply fillOrders_shares.
Qed.

Lemma fill_conserves_shares_witness :
  exists s' size' o',
    fillOrders 105 6 0 false book4 = Ok (s', size', o') /\
    wf s' /\
    sharesAt s' 105 = sharesAt book4 105 - (6 - size') /\
    (forall q, q <> 105 -> sharesAt s' q = sharesAt book4 q) /\
    o' = u32 (0 + (6 - size') * 105).
Proof.
  apply (fill_conserves_shares book4 105 6 0 false).
  - apply built_wf. exact built_book4.
  - unfold NUM_PRICES. lia.
  - lia.
Defined.

(** ** Market orders *)

(** When a market order fails.  In a well-formed state whose orders have
    sizes that are not negative, a market order of [size] shares at time
    [t] either returns, or it stops the program with the message of the
    side that it has exhausted; and it stops exactly when the shares of the
    orders that have not expired, from the quote of that side to the end
    of the book (price 0 for a sell, the highest price for a buy), are
    fewer than [size].  It never serves a part of the request and
    returns. *)
Theorem market_order_fails_iff_short (s : state) (sell : bool) (size t : Z) :
  wf s -> sizesOk s -> 0 <= size -> 0 <= quote sell s < NUM_PRICES ->
  (available s t (pricesFrom sell (quote sell s)) < size /\
   (if sell then marketSell size t s else marketBuy size t s)
   = Fault (if sell then BuySideExhausted else SellSideExhausted)) \/
  (size <= available s t (pricesFrom sell (quote sell s)) /\
   exists s' o,
     (if sell then marketSell size t s else marketBuy size t s) = Ok (s', o)).
Proof. exact (marketOrder_short s sell size t). Qed.

Lemma market_order_fails_iff_short_witness :
  (available book4 30 (pricesFrom false (quote false book4)) < 12 /\
   (if false then marketSell 12 30 book4 else marketBuy 12 30 book4)
   = Fault (if false then BuySideExhausted else SellSideExhausted)) \/
  (12 <= available book4 30 (pricesFrom false (quote false book4)) /\
   exists s' o,
     (if false then marketSell 12 30 book4 else marketBuy 12 30 book4) = Ok (s', o)).
Proof.
  apply (market_order_fails_iff_short book4 false 12 30).
  - apply built_wf. exact built_book4.
  - exact sizesOk_book4.
  - lia.
  - change (quote false book4) with 105. unfold NUM_PRICES. lia.
Defined.

(** The ledger of a market order of the user.  The key of a market buy,
    pressed alone in a well-formed state, either stops the program with
    the message of the exhausted sell side, or takes the portions [P] from
    the book: the balance goes down by the amount of [P] and the position
    up by the size of the order, and where [P] takes from resting orders of
    the user himself (the portions [U]), their fills are settled as well,
    so that the balance goes up by the amount of [U] and the position down
    by its volume; all of it in 32-bit arithmetic that wraps around.  The
    key of a market sell does the same with the signs exchanged. *)
Theorem user_market_order_ledger (s : state) (k : keys) (now : Z) (sell : bool) :
  wf s -> 0 <= quote sell s < NUM_PRICES ->
  0 <= (if sell then userMarketSellSize k else userMarketBuySize k) < 2 ^ 32 ->
  (if sell then sellMarket k else buyMarket k) = true ->
  (if sell then buyMarket k else sellMarket k) = false ->
  buyLimit k = false -> sellLimit k = false -> backspace k = false ->
  let size := if sell then userMarketSellSize k else userMarketBuySize k in
  let P := bookPortions s now (pricesFrom sell (quote sell s)) size in
  let U := userBook (pool s) P in
  userOrders k now s = Fault (if sell then BuySideExhausted else SellSideExhausted) \/
  exists s',
    userOrders k now s = Ok s' /\
    volume P = size /\
    balance s'
    = (if sell then i32 (balance s - notional U + notional P)
       else i32 (balance s + notional U - notional P)) /\
    sharesOpen s'
    = (if sell then i32 (sharesOpen s + volume U - size)
       else i32 (sharesOpen s - volume U + size)).
Proof.
  intros W Hq Hsz K1 K2 K3 K4 K5 size P U.
  assert (Hs : 0 <= size) by (unfold size; lia).
  pose proof (marketOrder_amount sell size now s W Hs Hq) as Hrun. fold P in Hrun.
  assert (Hled : forall s' o,
             (if sell then marketSell size now s else marketBuy size now s) = Ok (s', o) ->
             balance s' = (if sell then i32 (balance s - notional U)
                           else i32 (balance s + notional U)) /\
             sharesOpen s' = ledgerShares sell (sharesOpen s) (volume U)).
  { intros s' o E. rewrite (marketOrder_eq sell size now s Hq) in E.
    eapply (marketLoop_ledger sell now); [exact W | | exact Hs | | exact E]; lia. }
  unfold userOrders, realisticUserMarketOrders.
  destruct sell; cbn iota in *; rewrite K1, K2, K3, K4, K5.
  - (* the key of a market sell *)
    cbn [bind]. unfold size in *.
    destruct Hrun as [E|(s1 & E & _ & V)]; [left; rewrite E; reflexivity|].
    right. rewrite E. cbn [bind].
    destruct (Hled _ _ E) as (Eb & En).
    destruct (numUserLimitOrders _ <? MAX_NUM_USER_LIMIT_ORDERS)%nat; cbn [bind];
      (eexists; split; [reflexivity|]; split; [exact V|];
       cbn [balance sharesOpen with_ledger]; rewrite Eb, En; unfold ledgerShares; split;
       [ rewrite i32_add_u32, i32_add_l; f_equal; lia
       | replace (i32 (sharesOpen s + volume U) - userMarketSellSize k)
           with (i32 (sharesOpen s + volume U) + - userMarketSellSize k) by lia;
         rewrite i32_add_l; f_equal; lia ]).
  - (* the key of a market buy *)
    unfold size in *.
    destruct Hrun as [E|(s1 & E & _ & V)]; [left; rewrite E; reflexivity|].
    right. rewrite E. cbn [bind].
    destruct (Hled _ _ E) as (Eb & En).
    destruct (numUserLimitOrders _ <? MAX_NUM_USER_LIMIT_ORDERS)%nat; cbn [bind];
      (eexists; split; [reflexivity|]; split; [exact V|];
       cbn [balance sharesOpen with_ledger]; rewrite Eb, En; unfold ledgerShares; split;
       [ rewrite i32_sub_u32;
         replace (i32 (balance s + notional U) - notional P)
           with (i32 (balance s + notional U) + - notional P) by lia;
         rewrite i32_add_l; f_equal; lia
       | rewrite i32_add_l; f_equal; lia ]).
Qed.

Lemma user_market_order_ledger_witness :
  let size := if false then userMarketSellSize marketBuy10 else userMarketBuySize marketBuy10 in
  let P := bookPortions largeUserSell 0 (pricesFrom false (quote false largeUserSell)) size in
  let U := userBook (pool largeUserSell) P in
  userOrders marketBuy10 0 largeUserSell
  = Fault (if false then BuySideExhausted else SellSideExhausted) \/
  exists s',
    userOrders marketBuy10 0 largeUserSell = Ok s' /\
    volume P = size /\
    balance s'
    = (if false then i32 (balance largeUserSell - notional U + notional P)
       else i32 (balance largeUserSell + notional U - notional P)) /\
    sharesOpen s'
    = (if false then i32 (sharesOpen largeUserSell + volume U - size)
       else i32 (sharesOpen largeUserSell - volume U + size)).
Proof.
  apply (user_market_order_ledger largeUserSell marketBuy10 0 false).
  - apply built_wf. exact built_largeUserSell.
  - change (quote false largeUserSell) with 105. unfold NUM_PRICES. lia.
  - cbn. lia.
  - reflexivity.
  - reflexivity.
  - reflexivity.
  - reflexivity.
  - reflexivity.
Defined.

(** ** Runs of the simulator *)

(** In every state that a run reaches ([setup], [setupMarket], then any
    number of rounds of [mainCycle] with any keys): the pool and the book
    fit together, every record of the pool is either free or resting at
    exactly one price, and the user never has more than
    [MAX_NUM_USER_LIMIT_ORDERS] tracked orders, so that [userLimitOrders]
    is never written behind its end. *)
Theorem run_keeps_pool_and_tracking_list (x : sim) :
  reachable x ->
  wf (eng x) /\
  (numUserLimitOrders (eng x) <= MAX_NUM_USER_LIMIT_ORDERS)%nat /\
  forall h, (h < poolSize (eng x))%nat -> slotAccounted (eng x) h.
Proof.
  intros H. destruct (reachable_keeps x H) as (W & _).
  split; [exact W|]. split; [now apply reachable_user_length|].
  intros h Hh. destruct W as (R & _). exact (rep_slotAccounted _ _ h R Hh).
Qed.

Lemma run_keeps_pool_and_tracking_list_witness :
  wf (eng sim2) /\
  (numUserLimitOrders (eng sim2) <= MAX_NUM_USER_LIMIT_ORDERS)%nat /\
  forall h, (h < poolSize (eng sim2))%nat -> slotAccounted (eng sim2) h.
Proof.
  apply (run_keeps_pool_and_tracking_list sim2). exact reachable_sim2.
Defined.

(** A round of [mainCycle] from a state that a run has reached, with any
    keys and with draws whose limit price stays in the book, when the
    window that [printOrderBook] shows after the sweep and the refresh of a
    frame lies inside the book (its middle price is at least 10 and at most
    [NUM_PRICES - 10]): the round returns, or it stops the program with one
    of the three messages of [main.c] (no free record, no buy order left,
    no sell order left).  It never reads or writes outside
    [limitOrderHead], [freeLimitOrders] or [userLimitOrders], and each of
    its loops ends. *)
Theorem main_loop_round_is_safe (d : draws) (k : keys) (x : sim) :
  reachable x -> validDraws d -> validKeys k -> placeable d (eng x) ->
  (forall s1 s2,
     sweepAll (targetTime x) (eng x) = Ok s1 -> updateBidAndAsk s1 = Ok s2 ->
     windowInBook s2) ->
  safe (mainCycleStep d k x).
Proof.
  intros H Hd Hk Hp Hw. destruct (reachable_keeps x H) as (W & Q).
  now apply mainCycleStep_progress.
Qed.

Lemma main_loop_round_is_safe_witness :
  (nextOrderCreation sim0 <? targetTime sim0) = false /\
  safe (mainCycleStep buy80 noKeys sim0).
Proof.
  split; [vm_compute; reflexivity|].
  apply (main_loop_round_is_safe buy80 noKeys sim0).
  - exact reachable_sim0.
  - exact validDraws_buy80.
  - exact validKeys_noKeys.
  - intros H. discriminate H.
  - intros s1 s2 H1 H2.
    assert (E : (a <- sweepAll (targetTime sim0) (eng sim0) ;;
                 b <- updateBidAndAsk a ;; Ok (bid b, ask b)) = Ok (500, 501))
      by (vm_compute; reflexivity).
    rewrite H1 in E. cbn [bind] in E. rewrite H2 in E. cbn [bind] in E.
    injection E as Eb Ea. unfold windowInBook. rewrite Eb, Ea.
    unfold NUM_PRICES. split; [vm_compute; discriminate | vm_compute; discriminate].
Defined.

(** The book that [setupMarket] builds from the empty engine, when the
    initial bid is at least 11, the prices up to ten above the ask are
    prices of the book and the pool has 220 records or more: the call
    returns, the bid and the ask are the two values drawn, 220 records have
    left the free stack, each of the eleven prices from ten below the bid
    up to the bid and each of the eleven prices from the ask up to ten
    above it holds ten more orders, the other prices none, and every order
    has 8 shares, is not the user's and carries the price of its list. *)
Theorem setupMarket_builds_eleven_levels_a_side
        (n : nat) (stackOrder : bool) (b spread startingTime : Z) (life : nat -> Z) :
  11 <= b -> 0 <= spread -> b + spread + 10 < NUM_PRICES -> (220 <= n)%nat ->
  exists s',
    setupMarket b spread startingTime life (setup n stackOrder) = Ok s' /\
    wf s' /\ bid s' = b /\ ask s' = b + spread /\
    numFreeLimitOrders s' = (n - 220)%nat /\
    (forall q, length (ordersAt s' q)
               = ((if ((b - 10 <=? q) && (q <=? b))%Z then 10 else 0)
                  + (if ((b + spread <=? q) && (q <=? b + spread + 10))%Z then 10 else 0))%nat) /\
    setupOrders s'.
Proof. exact (setupMarket_spec n stackOrder b spread startingTime life). Qed.

Lemma setupMarket_builds_eleven_levels_a_side_witness :
  exists s',
    setupMarket 500 1 1000 (fun _ => 5000) (setup 300 false) = Ok s' /\
    wf s' /\ bid s' = 500 /\ ask s' = 500 + 1 /\
    numFreeLimitOrders s' = (300 - 220)%nat /\
    (forall q, length (ordersAt s' q)
               = ((if ((500 - 10 <=? q) && (q <=? 500))%Z then 10 else 0)
                  + (if ((500 + 1 <=? q) && (q <=? 500 + 1 + 10))%Z then 10 else 0))%nat) /\
    setupOrders s'.
Proof.
  apply (setupMarket_builds_eleven_levels_a_side 300 false 500 1 1000 (fun _ => 5000)).
  - lia.
  - lia.
  - unfold NUM_PRICES. lia.
  - lia.
Defined.

(** ** The window of the book *)

(** The book that [printOrderBook] writes.  In a well-formed state whose
    middle price (the mean of the bid and the ask, rounded down) is at
    least 10 and at most [NUM_PRICES - 10], the loop over the window
    returns after 19 lines: line [k], counted from 0 at the top, is the
    line of the price that lies [9 - k] above the middle price, with its
    volumes and its price; the text ends behind the last line, and nothing
    else is written. *)
Theorem book_window_shows_nineteen_prices (s : state) (b : buffer) :
  wf s -> 0 <= bid s -> 0 <= ask s -> bid s + ask s < 2 ^ 32 ->
  10 <= (bid s + ask s) / 2 -> (bid s + ask s) / 2 + 9 < NUM_PRICES ->
  exists b',
    printBook s b = Ok b' /\
    (forall k, 0 <= k < 19 ->
       lineShows s ((bid s + ask s) / 2 + 9 - k) (chars b' (k * lineWidth) 21)) /\
    b' (19 * lineWidth) = 0 /\
    (forall j, j < 0 \/ 19 * lineWidth < j -> b' j = b j).
Proof.
  intros W Hb Ha Hsum Hlo Hhi. unfold printBook.
  change (Z.quot numOrderBookLines 2) with 9.
  change (numOrderBookLines - 1 - 9) with 9.
  rewrite (u32_small (bid s + ask s)) by lia.
  set (price := (bid s + ask s) / 2) in *.
  rewrite (u32_small (price - 9)), (u32_small (price + 9)) by (unfold NUM_PRICES in *; lia).
  destruct (printLines_window s (price - 9) (price + 9) W ltac:(lia) Hhi
                              19 20 (price + 9) b) as (b1 & E & L & F); try lia.
  rewrite E. cbn [bind]. eexists. split; [reflexivity|].
  unfold numOrderBookLines, lineWidth in *. split; [|split].
  - intros k Hk.
    replace (chars (store b1 (19 * 21) 0) (k * 21) 21) with (chars b1 (k * 21) 21).
    + replace (k * 21) with ((price + 9 - (price + 9 - k)) * 21) by lia. apply L. lia.
    + symmetry. apply chars_ext. intros j Hj. cbn in Hj. apply store_other. lia.
  - apply store_same. reflexivity.
  - intros j Hj. rewrite store_other by lia. apply F. lia.
Qed.

Lemma book_window_shows_nineteen_prices_witness :
  exists b',
    printBook book4 (fun _ => CH_SPACE) = Ok b' /\
    (forall k, 0 <= k < 19 ->
       lineShows book4 ((bid book4 + ask book4) / 2 + 9 - k) (chars b' (k * lineWidth) 21)) /\
    b' (19 * lineWidth) = 0 /\
    (forall j, j < 0 \/ 19 * lineWidth < j -> b' j = CH_SPACE).
Proof.
  apply (book_window_shows_nineteen_prices book4 (fun _ => CH_SPACE)).
  - apply built_wf. exact built_book4.
  - change (bid book4) with 100. lia.
  - change (ask book4) with 105. lia.
  - change (bid book4) with 100. change (ask book4) with 105. lia.
  - change (bid book4) with 100. change (ask book4) with 105. cbn. lia.
  - change (bid book4) with 100. change (ask book4) with 105. unfold NUM_PRICES. cbn. lia.
Defined.

(** The window at the ends of the book.  With a middle price below 9 the
    lower end of the window wraps around and the loop writes no line at
    all; with the middle price 9 the loop does not end at price 0 and reads
    [limitOrderHead] outside its bounds, and so does its first round when
    the middle price is above [NUM_PRICES - 10]. *)
Theorem book_window_at_the_ends (s : state) (b : buffer) :
  wf s -> 0 <= bid s < NUM_PRICES -> 0 <= ask s < NUM_PRICES ->
  ((bid s + ask s) / 2 < 9 ->
   printBook s b = Ok (store b (numOrderBookLines * lineWidth) 0)) /\
  ((bid s + ask s) / 2 = 9 \/ NUM_PRICES <= (bid s + ask s) / 2 + 9 ->
   printBook s b = Fault OutOfBounds).
Proof.
  intros W Hb Ha. unfold printBook.
  change (Z.quot numOrderBookLines 2) with 9.
  change (numOrderBookLines - 1 - 9) with 9.
  rewrite (u32_small (bid s + ask s)) by (unfold NUM_PRICES in *; lia).
  set (price := (bid s + ask s) / 2).
  assert (Hp : 0 <= price < NUM_PRICES) by (unfold price, NUM_PRICES in *; dlia).
  rewrite (u32_small (price + 9)) by (unfold NUM_PRICES in *; lia).
  split.
  - intros Hlt.
    assert (Em : u32 (price - 9) = 2 ^ 32 + price - 9).
    { unfold u32. rewrite <- (Z.mod_add _ 1) by lia.
      rewrite Z.mod_small; unfold NUM_PRICES in *; lia. }
    rewrite Em. cbn [printLines].
    rewrite (proj2 (Z.leb_gt (2 ^ 32 + price - 9) (price + 9))) by lia. reflexivity.
  - intros [E9|Hhi].
    + rewrite E9. change (u32 (9 - 9)) with 0. change (9 + 9) with 18.
      rewrite <- (u32_small 18) at 1 by lia.
      rewrite (printLines_wraps s 18 W ltac:(unfold NUM_PRICES; lia) 19 20 18); try lia.
      reflexivity.
    + rewrite (u32_small (price - 9)) by (unfold NUM_PRICES in *; lia).
      cbn [printLines]. rewrite (proj2 (Z.leb_le (price - 9) (price + 9))) by lia.
      rewrite printLine_outside by lia. reflexivity.
Qed.

Lemma book_window_at_the_ends_witness :
  ((bid (with_ask 10 (with_bid 9 book4)) + ask (with_ask 10 (with_bid 9 book4))) / 2 < 9 ->
   printBook (with_ask 10 (with_bid 9 book4)) (fun _ => CH_SPACE)
   = Ok (store (fun _ => CH_SPACE) (numOrderBookLines * lineWidth) 0)) /\
  ((bid (with_ask 10 (with_bid 9 book4)) + ask (with_ask 10 (with_bid 9 book4))) / 2 = 9 \/
   NUM_PRICES
   <= (bid (with_ask 10 (with_bid 9 book4)) + ask (with_ask 10 (with_bid 9 book4))) / 2 + 9 ->
   printBook (with_ask 10 (with_bid 9 book4)) (fun _ => CH_SPACE) = Fault OutOfBounds).
Proof.
  apply (book_window_at_the_ends (with_ask 10 (with_bid 9 book4)) (fun _ => CH_SPACE)).
  - apply wf_with_ask, wf_with_bid, built_wf. exact built_book4.
  - cbn [bid with_ask with_bid]. unfold NUM_PRICES. lia.
  - cbn [ask with_ask with_bid]. unfold NUM_PRICES. lia.
Defined.

(** ** The sizes of the orders in a run *)

(** In every state that a run reaches, with keys whose sizes are values of
    type [u32], the size of every record of the pool is a value of type
    [u32]: no fill makes a size negative or lets it wrap around.  So, in
    every such state, a market order of [size] shares returns if the
    orders that have not expired hold [size] shares from the quote to the
    end of the book, and stops the program with the message of the
    exhausted side if they hold fewer. *)
Theorem run_keeps_sizes_u32 (x : sim) :
  reachable x ->
  (forall h, 0 <= limitOrder.size (pool (eng x) h) < 2 ^ 32) /\
  forall (sell : bool) (size t : Z),
    0 <= size ->
    (available (eng x) t (pricesFrom sell (quote sell (eng x))) < size /\
     (if sell then marketSell size t (eng x) else marketBuy size t (eng x))
     = Fault (if sell then BuySideExhausted else SellSideExhausted)) \/
    (size <= available (eng x) t (pricesFrom sell (quote sell (eng x))) /\
     exists s' o,
       (if sell then marketSell size t (eng x) else marketBuy size t (eng x))
       = Ok (s', o)).
Proof.
  intros H. pose proof (reachable_sizes x H) as Hs.
  destruct (reachable_keeps x H) as (W & (Q0 & Q1 & Q2)).
  split; [exact Hs|]. intros sell size t Hsz.
  apply marketOrder_short; [exact W | | exact Hsz | unfold quote; destruct sell; lia].
  apply sizesOk_pool. intros h. apply Hs.
Qed.

Lemma run_keeps_sizes_u32_witness :
  (forall h, 0 <= limitOrder.size (pool (eng sim2) h) < 2 ^ 32) /\
  forall (sell : bool) (size t : Z),
    0 <= size ->
    (available (eng sim2) t (pricesFrom sell (quote sell (eng sim2))) < size /\
     (if sell then marketSell size t (eng sim2) else marketBuy size t (eng sim2))
     = Fault (if sell then BuySideExhausted else SellSideExhausted)) \/
    (size <= available (eng sim2) t (pricesFrom sell (quote sell (eng sim2))) /\
     exists s' o,
       (if sell then marketSell size t (eng sim2) else marketBuy size t (eng sim2))
       = Ok (s', o)).
Proof.
  apply (run_keeps_sizes_u32 sim2). exact reachable_sim2.
Defined.

(** ** The spread in a run *)

(** In every state that a run reaches the bid is below the ask and no
    order rests at a price strictly between them: whatever the book holds
    rests at the bid or below it, or at the ask or above it.  (A limit
    order that is placed inside the spread moves the quote of its side to
    its own price; a market order leaves its quote at the last price it has
    taken from.) *)
Theorem run_keeps_spread_empty (x : sim) :
  reachable x ->
  bid (eng x) < ask (eng x) /\
  forall q, bid (eng x) < q < ask (eng x) -> ordersAt (eng x) q = [].
Proof.
  intros H. destruct (reachable_keeps x H) as (_ & (_ & Q & _)).
  split; [exact Q|]. exact (reachable_spread x H).
Qed.

Lemma run_keeps_spread_empty_witness :
  bid (eng sim2) < ask (eng sim2) /\
  forall q, bid (eng sim2) < q < ask (eng sim2) -> ordersAt (eng sim2) q = [].
Proof.
  apply (run_keeps_spread_empty sim2). exact reachable_sim2.
Defined.

(** ** The backspace key and the next frame *)

(** The backspace key takes effect at the next sweep of a frame: after
    [withdrawAll] the sweep of every price, at any time [t >= 0], returns,
    and none of the orders that the user had tracked rests at any price of
    the book any more; the orders that were not tracked and have not
    expired all stay, in their order. *)
Theorem backspace_takes_effect_at_next_frame (s : state) (t : Z) :
  wf s -> 0 <= t ->
  exists s',
    sweepAll t (withdrawAll s) = Ok s' /\ wf s' /\
    userLimitOrders s' = [] /\
    (forall q h, 0 <= q < NUM_PRICES -> In h (userLimitOrders s) -> ~ In h (ordersAt s' q)) /\
    (forall q, 0 <= q < NUM_PRICES ->
       ordersAt s' q
       = filter (fun h => alive (pool s) t h && negb (existsb (Nat.eqb h) (userLimitOrders s)))
                (ordersAt s q)).
Proof.
  intros W Ht. pose proof (wf_withdrawAll s W) as W1. unfold sweepAll.
  destruct (sweepFrom_spec t (Z.to_nat NUM_PRICES) 0 (withdrawAll s) W1)
    as (s' & E & W' & L & _ & S).
  { lia. }
  { rewrite Z2Nat.id by (unfold NUM_PRICES; lia). lia. }
  rewrite Z2Nat.id in L by (unfold NUM_PRICES; lia).
  assert (Data : forall x,
             alive (pool (withdrawAll s)) t x
             = alive (pool s) t x && negb (existsb (Nat.eqb x) (userLimitOrders s))).
  { intros x. destruct (withdraw_fold_data (userLimitOrders s) (pool s) x) as (_ & _ & A & B).
    change (fold_left _ (userLimitOrders s) (pool s)) with (pool (withdrawAll s)) in A, B.
    unfold alive, expired.
    destruct (existsb (Nat.eqb x) (userLimitOrders s)) eqn:Ex.
    - apply existsb_exists in Ex. destruct Ex as (y & Hy & Exy).
      apply Nat.eqb_eq in Exy. subst y. rewrite (A Hy).
      rewrite (proj2 (Z.leb_le 0 t) Ht). cbn. now rewrite andb_false_r.
    - rewrite B; [cbn; now rewrite andb_true_r|].
      intros Hin. assert (existsb (Nat.eqb x) (userLimitOrders s) = true); [|congruence].
      apply existsb_exists. exists x. split; [exact Hin | apply Nat.eqb_refl]. }
  assert (L' : forall q, 0 <= q < NUM_PRICES ->
             ordersAt s' q
             = filter (fun h => alive (pool s) t h
                                && negb (existsb (Nat.eqb h) (userLimitOrders s)))
                      (ordersAt s q)).
  { intros q Hq. rewrite L.
    rewrite (proj2 (Z.leb_le 0 q)), (proj2 (Z.ltb_lt q (0 + NUM_PRICES))) by lia.
    cbn [andb]. rewrite withdrawAll_ordersAt by exact W.
    apply filter_ext. exact Data. }
  exists s'. split; [exact E|]. split; [exact W'|]. split; [|split; [|exact L']].
  - destruct S as (_ & _ & _ & Eu & _). rewrite Eu. reflexivity.
  - intros q h Hq Hu Hin. rewrite (L' q Hq) in Hin. apply filter_In in Hin.
    destruct Hin as (_ & Hf). apply andb_true_iff in Hf. destruct Hf as (_ & Hf).
    apply negb_true_iff in Hf.
    assert (existsb (Nat.eqb h) (userLimitOrders s) = true); [|congruence].
    apply existsb_exists. exists h. split; [exact Hu | apply Nat.eqb_refl].
Qed.

Lemma backspace_takes_effect_at_next_frame_witness :
  exists s',
    sweepAll 10 (withdrawAll mixedBuys) = Ok s' /\ wf s' /\
    userLimitOrders s' = [] /\
    (forall q h, 0 <= q < NUM_PRICES -> In h (userLimitOrders mixedBuys) ->
       ~ In h (ordersAt s' q)) /\
    (forall q, 0 <= q < NUM_PRICES ->
       ordersAt s' q
       = filter (fun h => alive (pool mixedBuys) 10 h
                          && negb (existsb (Nat.eqb h) (userLimitOrders mixedBuys)))
                (ordersAt mixedBuys q)).
Proof.
  apply (backspace_takes_effect_at_next_frame mixedBuys 10).
  - apply built_wf. exact built_mixedBuys.
  - lia.
Defined.

(** ** A limit order outside the book *)

(** [mainCycle] does not check the price of a synthetic limit order.  When
    a record is free and the price drawn leaves the book (a sell whose
    [bid + distance] reaches [NUM_PRICES], or a buy whose distance is
    larger than the ask, so that [ask - distance] wraps around),
    [addLimitOrder] indexes [limitOrderHead] outside its bounds. *)
Theorem limit_order_outside_book_overruns (d : draws) (now : Z) (s : state) :
  quotesApart s -> validDraws d -> isMarket d = false ->
  numFreeLimitOrders s <> 0%nat ->
  (if isSell d then NUM_PRICES <= bid s + distance d else ask s < distance d) ->
  orderCreation d now s = Fault OutOfBounds.
Proof.
  unfold validDraws, numFreeLimitOrders. intros (H0 & H1 & H2) Hd Hm Hf Hout.
  unfold orderCreation. rewrite Hm.
  assert (Hadd : forall p size e,
             inRange p = false -> addLimitOrder p size e false s = Fault OutOfBounds).
  { intros p size e Hp. unfold addLimitOrder.
    destruct (freeLimitOrders s) as [|lo rest]; [cbn [length] in Hf; congruence|].
    cbn [bind]. unfold readHead. rewrite Hp. reflexivity. }
  assert (Hrange : forall p, NUM_PRICES <= p -> inRange p = false).
  { intros p Hp. unfold inRange. rewrite (proj2 (Z.ltb_ge p NUM_PRICES) Hp).
    apply andb_false_r. }
  destruct (isSell d).
  - rewrite Hadd; [reflexivity|]. apply Hrange.
    rewrite u32_small by (unfold NUM_PRICES in *; lia). exact Hout.
  - rewrite Hadd; [reflexivity|]. apply Hrange.
    unfold u32. rewrite <- (Z.mod_add _ 1) by lia.
    rewrite Z.mod_small by (unfold NUM_PRICES in *; lia). unfold NUM_PRICES in *. lia.
Qed.

Lemma limit_order_outside_book_overruns_witness :
  orderCreation synBuy200 0 book4 = Fault OutOfBounds.
Proof.
  apply (limit_order_outside_book_overruns synBuy200 0 book4).
  - unfold quotesApart. change (bid book4) with 100. change (ask book4) with 105.
    unfold NUM_PRICES. lia.
  - unfold validDraws, synBuy200, NUM_PRICES. cbn. lia.
  - reflexivity.
  - vm_compute. discriminate.
  - change (ask book4) with 105. cbn. lia.
Defined.

(** * Entries removed from the list of tracked orders *)

Lemma deleteUserOrder_firstRemoved h : forall l, firstRemoved h l (deleteUserOrder h l).
Proof.
  induction l as [|x l IH]; cbn [deleteUserOrder].
  - left. split; [intros []|reflexivity].
  - destruct (Nat.eqb_spec x h) as [->|N].
    + right. exists [], l. split; [reflexivity|]. split; [intros []|reflexivity].
    + destruct IH as [(Nin & E)|(l1 & l2 & E & Nin & E')].
      * left. split; [intros [H|H]; [now apply N | now apply Nin] | now rewrite E].
      * right. exists (x :: l1), l2. split; [now rewrite E|]. split.
        -- intros [H|H]; [now apply N | now apply Nin].
        -- now rewrite E'.
Qed.

Lemma deleteUserOrders_entriesRemoved : forall hs l,
  entriesRemoved hs l (deleteUserOrders hs l).
Proof.
  unfold deleteUserOrders.
  induction hs as [|h hs IH]; intros l; cbn [fold_left].
  - constructor.
  - econstructor; [apply deleteUserOrder_firstRemoved | apply IH].
Qed.

Lemma filter_notin h : forall l,
  ~ In h l -> filter (fun x => negb (Nat.eqb x h)) l = l.
Proof.
  induction l as [|x l IH]; intros N; cbn [filter]; [reflexivity|].
  destruct (Nat.eqb_spec x h) as [->|Nx]; [exfalso; apply N; now left|].
  cbn [negb]. f_equal. apply IH. intros H. apply N. now right.
Qed.

Lemma firstRemoved_NoDup h l l' :
  NoDup l -> firstRemoved h l l' ->
  l' = filter (fun x => negb (Nat.eqb x h)) l /\ NoDup l'.
Proof.
  intros D [(Nin & ->)|(l1 & l2 & -> & Nin & ->)].
  - split; [symmetry; now apply filter_notin | exact D].
  - apply NoDup_remove in D. destruct D as (D & N).
    split; [|exact D].
    rewrite filter_app. cbn [filter]. rewrite Nat.eqb_refl. cbn [negb].
    rewrite !filter_notin; [reflexivity | | exact Nin].
    intros H. apply N. apply in_or_app. now right.
Qed.

Lemma entriesRemoved_NoDup hs l l' :
  entriesRemoved hs l l' -> NoDup l ->
  l' = filter (fun x => negb (existsb (Nat.eqb x) hs)) l.
Proof.
  induction 1 as [l | h hs l l1 l' H1 H IH]; intros D.
  - cbn [existsb negb]. symmetry. apply forallb_filter_id. apply forallb_forall. reflexivity.
  - destruct (firstRemoved_NoDup h l l1 D H1) as (E1 & D1).
    rewrite (IH D1), E1. clear.
    induction l as [|x l IHl]; cbn [filter existsb]; [reflexivity|].
    destruct (Nat.eqb x h); cbn [negb orb filter]; [exact IHl|].
    destruct (existsb (Nat.eqb x) hs); cbn [negb]; [exact IHl | now rewrite IHl].
Qed.

(** * Market orders and the orders withdrawn *)

Lemma bookPortions_alive s t : forall ps size x,
  In x (bookPortions s t ps size) -> alive (pool s) t (orderOf x) = true.
Proof.
  induction ps as [|p ps IH]; intros size x Hx; cbn [bookPortions] in Hx; [contradiction|].
  destruct (0 <? size); [|contradiction].
  apply in_app_or in Hx. destruct Hx as [Hx|Hx].
  - apply in_map_iff in Hx. destruct Hx as (y & <- & Hy). unfold orderOf. cbn [fst snd].
    apply portions_In in Hy. apply filter_In in Hy. tauto.
  - eapply IH. exact Hx.
Qed.

Lemma takenInPart_none m P h :
  (forall x, In x P -> orderOf x <> h) -> takenInPart m P h = 0.
Proof.
  intros N. unfold takenInPart.
  replace (filter (fun x => Nat.eqb (orderOf x) h && negb (takenWhole m x)) P) with
    (@nil (Z * nat * Z)); [reflexivity|].
  symmetry. induction P as [|x P IH]; cbn [filter]; [reflexivity|].
  rewrite (proj2 (Nat.eqb_neq (orderOf x) h)) by (apply N; now left).
  cbn [andb]. apply IH. intros y Hy. apply N. now right.
Qed.

Lemma filter_nothing {A : Type} (f : A -> bool) : forall l,
  (forall x, In x l -> f x = false) -> filter f l = [].
Proof.
  induction l as [|x l IH]; intros H; cbn [filter]; [reflexivity|].
  rewrite (H x) by now left. apply IH. intros y Hy. apply H. now right.
Qed.

(** What a market order that returns leaves behind. *)
Lemma marketOrder_after (sell : bool) size t s s' o :
  wf s -> 0 <= size -> 0 <= quote sell s < NUM_PRICES ->
  (if sell then marketSell size t s else marketBuy size t s) = Ok (s', o) ->
  poolSize s' = poolSize s /\
  (forall q, ordersAt s' q = bookAfter s t (pricesFrom sell (quote sell s)) size q) /\
  freeLimitOrders s'
  = rev (releasedAlong s t (pricesFrom sell (quote sell s)) size) ++ freeLimitOrders s /\
  (forall h,
     limitOrder.size (pool s' h)
     = limitOrder.size (pool s h)
       - takenInPart (pool s) (bookPortions s t (pricesFrom sell (quote sell s)) size) h) /\
  balance s'
  = (if sell
     then i32 (balance s - notional (userBook (pool s)
                 (bookPortions s t (pricesFrom sell (quote sell s)) size)))
     else i32 (balance s + notional (userBook (pool s)
                 (bookPortions s t (pricesFrom sell (quote sell s)) size)))) /\
  sharesOpen s'
  = ledgerShares sell (sharesOpen s)
      (volume (userBook (pool s) (bookPortions s t (pricesFrom sell (quote sell s)) size))).
Proof.
  intros W Hs Hq E. rewrite (marketOrder_eq sell size t s Hq) in E.
  assert (Ho : 0 <= 0 < 2 ^ 32) by lia.
  assert (Hz : -1 <= quote sell s <= NUM_PRICES) by lia.
  destruct (marketLoop_after sell t _ _ _ _ _ _ _ W Ho Hs Hz E) as (E1 & E2 & E3 & E4).
  destruct (marketLoop_ledger sell t _ _ _ _ _ _ _ W Ho Hs Hz E) as (E5 & E6).
  auto 10.
Qed.

(** After [withdrawAll] no portion of a market order comes from an order
    that was tracked. *)
Lemma withdrawn_not_taken s t ps size x :
  0 <= t -> In x (bookPortions (withdrawAll s) t ps size) ->
  ~ In (orderOf x) (userLimitOrders s).
Proof.
  intros Ht Hx Hin. apply bookPortions_alive in Hx.
  destruct (withdraw_fold_data (userLimitOrders s) (pool s) (orderOf x)) as (_ & _ & Eexp & _).
  unfold alive, expired, withdrawAll in Hx. cbn [pool with_user with_pool] in Hx.
  rewrite (Eexp Hin) in Hx. rewrite (proj2 (Z.leb_le 0 t) Ht) in Hx. discriminate.
Qed.

(** * Market orders: what is taken, what is settled, what is released *)

(** C4, as stated, fails when the arithmetic of the ledger wraps around:
    the user's buy order of 30000000 shares at 100 is filled completely by
    [fillOrders] for a selling market order; the notional is 3000000000 and
    the balance, a 32-bit [int], goes from 0 up to 1294967296. *)
Lemma fill_of_user_buy_can_raise_balance :
  ordersAt largeUserBuy 100 = [5%nat] /\
  limitOrder.user (pool largeUserBuy 5%nat) = true /\
  limitOrder.size (pool largeUserBuy 5%nat) = 30000000 /\
  balance largeUserBuy = 0 /\
  exists s',
    fillOrders 100 30000000 0 true largeUserBuy = Ok (s', 0, u32 3000000000) /\
    ordersAt s' 100 = [] /\
    balance s' = 1294967296 /\
    ~ (balance s' = balance largeUserBuy - 3000000000) /\
    balance largeUserBuy < balance s'.
Proof.
  repeat (split; [vm_compute; reflexivity|]).
  eexists. split; [vm_compute; reflexivity|].
  split; [vm_compute; reflexivity|].
  split; [vm_compute; reflexivity|].
  split; [vm_compute; discriminate | vm_compute; reflexivity].
Qed.

(** C4 (amended).  [fillOrders p size o sell] on a well-formed state returns.
    With [F] the portions taken from the orders at [p], head first, and [U]
    those taken from orders of the user:
    - the balance and the position, 32-bit [int]s, are updated by the
      notional and the quantity of [U] with wrap-around: a selling market
      order (the resting orders buy) lowers the balance by [quantity U * p]
      and raises the position by [quantity U], a buying one raises the
      balance and lowers the position; without overflow these are the exact
      differences;
    - the orders filled completely are released to the free stack, head
      first; for each of them that is the user's, in this order, the first
      entry that holds it leaves [userLimitOrders] and the entries behind
      move up; when no order is tracked twice, the list afterwards is the
      list before without the user's orders filled completely, so that none
      of them is tracked any more and the order of the others is kept;
    - the order filled in part, if any, stays at the head of the list of [p]
      with its size reduced by the quantity taken ([afterFill]). *)
Theorem fill_settles_user_orders (s : state) (p size o : Z) (sell : bool) :
  wf s -> 0 <= p < NUM_PRICES -> 0 <= o < 2 ^ 32 ->
  exists s',
    fillOrders p size o sell s
      = Ok (s', size - quantity (portions (pool s) (ordersAt s p) size),
            u32 (o + quantity (portions (pool s) (ordersAt s p) size) * p)) /\
    wf s' /\
    balance s'
      = ledgerBalance sell (balance s)
          (quantity (userPortions (pool s) (portions (pool s) (ordersAt s p) size))) p /\
    sharesOpen s'
      = ledgerShares sell (sharesOpen s)
          (quantity (userPortions (pool s) (portions (pool s) (ordersAt s p) size))) /\
    (forall U, U = quantity (userPortions (pool s) (portions (pool s) (ordersAt s p) size)) ->
       (sell = true -> int32 (balance s - U * p) -> int32 (sharesOpen s + U) ->
          balance s' = balance s - U * p /\ sharesOpen s' = sharesOpen s + U) /\
       (sell = false -> int32 (balance s + U * p) -> int32 (sharesOpen s - U) ->
          balance s' = balance s + U * p /\ sharesOpen s' = sharesOpen s - U)) /\
    entriesRemoved (userOwned (pool s) (filled (pool s) (ordersAt s p) size))
                   (userLimitOrders s) (userLimitOrders s') /\
    (NoDup (userLimitOrders s) ->
       userLimitOrders s'
       = filter (fun h => negb (existsb (Nat.eqb h)
                                  (userOwned (pool s) (filled (pool s) (ordersAt s p) size))))
                (userLimitOrders s) /\
       forall h, In h (filled (pool s) (ordersAt s p) size) ->
                 limitOrder.user (pool s h) = true -> ~ In h (userLimitOrders s')) /\
    freeLimitOrders s' = rev (filled (pool s) (ordersAt s p) size) ++ freeLimitOrders s /\
    ordersAt s' p = unfilled (pool s) (ordersAt s p) size /\
    pool s' = afterFill (pool s) (ordersAt s p) size.
Proof.
  intros (R & Hb & Hn) Hp Ho. apply inRange_iff in Hp.
  destruct (fillOrders_rep s _ p size o sell R Hp Ho Hb Hn)
    as (s' & Hrun & R' & Hpool & Hfree & Husr & Hbal & Hsh & _).
  exists s'. split; [exact Hrun|].
  split; [apply (wf_intro _ _ R'); [rewrite Hbal | rewrite Hsh]; apply ledger_int32; exact 0|].
  split; [exact Hbal|]. split; [exact Hsh|]. split.
  - intros U ->. rewrite Hbal, Hsh. unfold ledgerBalance, ledgerShares. split.
    + intros -> H1 H2. split; now apply i32_small.
    + intros -> H1 H2. split; now apply i32_small.
  - assert (Hrem : entriesRemoved
                     (userOwned (pool s) (filled (pool s) (ordersAt s p) size))
                     (userLimitOrders s) (userLimitOrders s'))
      by (rewrite Husr; apply deleteUserOrders_entriesRemoved).
    split; [exact Hrem|]. split.
    + intros D. pose proof (entriesRemoved_NoDup _ _ _ Hrem D) as E.
      split; [exact E|]. intros h Hin Hu Hin'. rewrite E in Hin'.
      apply filter_In in Hin'. destruct Hin' as (_ & Hneg).
      apply negb_true_iff in Hneg.
      assert (Hex : existsb (Nat.eqb h)
                      (userOwned (pool s) (filled (pool s) (ordersAt s p) size)) = true).
      { apply existsb_exists. exists h. split; [|apply Nat.eqb_refl].
        unfold userOwned. apply filter_In. auto. }
      congruence.
    + split; [exact Hfree|]. split; [|exact Hpool].
      rewrite (rep_ordersAt _ _ p R'). now rewrite Z.eqb_refl.
Qed.

Lemma fill_settles_user_orders_witness :
  exists s',
    fillOrders 100 12 0 true userFirst
      = Ok (s', 12 - quantity (portions (pool userFirst) (ordersAt userFirst 100) 12),
            u32 (0 + quantity (portions (pool userFirst) (ordersAt userFirst 100) 12) * 100)) /\
    wf s' /\
    balance s'
      = ledgerBalance true (balance userFirst)
          (quantity (userPortions (pool userFirst)
                       (portions (pool userFirst) (ordersAt userFirst 100) 12))) 100 /\
    sharesOpen s'
      = ledgerShares true (sharesOpen userFirst)
          (quantity (userPortions (pool userFirst)
                       (portions (pool userFirst) (ordersAt userFirst 100) 12))) /\
    (forall U, U = quantity (userPortions (pool userFirst)
                               (portions (pool userFirst) (ordersAt userFirst 100) 12)) ->
       (true = true -> int32 (balance userFirst - U * 100) -> int32 (sharesOpen userFirst + U) ->
          balance s' = balance userFirst - U * 100 /\ sharesOpen s' = sharesOpen userFirst + U) /\
       (true = false -> int32 (balance userFirst + U * 100) -> int32 (sharesOpen userFirst - U) ->
          balance s' = balance userFirst + U * 100 /\ sharesOpen s' = sharesOpen userFirst - U)) /\
    entriesRemoved (userOwned (pool userFirst) (filled (pool userFirst) (ordersAt userFirst 100) 12))
                   (userLimitOrders userFirst) (userLimitOrders s') /\
    (NoDup (userLimitOrders userFirst) ->
       userLimitOrders s'
       = filter (fun h => negb (existsb (Nat.eqb h)
                                  (userOwned (pool userFirst)
                                     (filled (pool userFirst) (ordersAt userFirst 100) 12))))
                (userLimitOrders userFirst) /\
       forall h, In h (filled (pool userFirst) (ordersAt userFirst 100) 12) ->
                 limitOrder.user (pool userFirst h) = true -> ~ In h (userLimitOrders s')) /\
    freeLimitOrders s'
      = rev (filled (pool userFirst) (ordersAt userFirst 100) 12) ++ freeLimitOrders userFirst /\
    ordersAt s' 100 = unfilled (pool userFirst) (ordersAt userFirst 100) 12 /\
    pool s' = afterFill (pool userFirst) (ordersAt userFirst 100) 12.
Proof.
  apply (fill_settles_user_orders userFirst 100 12 0 true).
  - apply built_wf. exact built_userFirst.
  - unfold NUM_PRICES. lia.
  - lia.
Defined.

(** C3, as stated, fails when the amount wraps around: a market buy of
    50000000 shares takes the whole of the user's sell order of 50000000
    shares at 105; price times quantity is 5250000000, and the [u32] value
    returned is 955032704. *)
Lemma market_buy_amount_wraps :
  ordersAt largeUserSell 105 = [5%nat] /\
  limitOrder.size (pool largeUserSell 5%nat) = 50000000 /\
  bookPortions largeUserSell 0 (pricesFrom false (ask largeUserSell)) 50000000
    = [(105, 5%nat, 50000000)] /\
  notional [(105, 5%nat, 50000000)] = 5250000000 /\
  exists s',
    marketBuy 50000000 0 largeUserSell = Ok (s', 955032704) /\
    955032704 <> 5250000000.
Proof.
  repeat (split; [vm_compute; reflexivity|]).
  eexists. split; [vm_compute; reflexivity | discriminate].
Qed.

(** C3 (amended).  On a well-formed state a market buy of [size] shares at
    time [t] stops with the fault of the exhausted sell side or returns.
    The portions [P] that it takes are those of the orders not expired at
    [t], from the ask upwards in ascending price and, at each price, from
    the head of the list on.  The value returned is the sum of price times
    quantity over [P] modulo [2 ^ 32] (the return type is [u32]): it is that
    sum itself whenever the sum is below [2 ^ 32]; the quantities of [P]
    add up to [size].  The state returned shows what has been taken, and
    in which order:
    - at every price that the scan has reached with shares still to take,
      the expired orders are gone and, from the head of the list on, the
      orders taken whole; the orders behind them rest as before, and so do
      the orders at the other prices;
    - the size of an order is what it was, less the quantity that [P] takes
      from it in part;
    - the records released lie on the free stack in the order of their
      release, the last one on top; those among them that had not expired
      are the orders that [P] takes whole, in the order of [P]; so every
      order that [P] takes whole is on the free stack and rests at no
      price.
    The same holds for a market sell ([sell = true]), from the bid downwards
    in descending price. *)
Theorem market_order_amount (s : state) (sell : bool) (size t : Z) :
  wf s -> 0 <= size -> 0 <= quote sell s < NUM_PRICES ->
  StronglySorted (if sell then Z.ge else Z.le)
    (map priceOf (bookPortions s t (pricesFrom sell (quote sell s)) size)) /\
  (forall p sz, exists rest,
      filter (alive (pool s) t) (ordersAt s p)
      = map fst (portions (pool s) (filter (alive (pool s) t) (ordersAt s p)) sz) ++ rest) /\
  ((if sell then marketSell size t s else marketBuy size t s)
     = Fault (if sell then BuySideExhausted else SellSideExhausted) \/
   exists s',
     (if sell then marketSell size t s else marketBuy size t s)
       = Ok (s', u32 (notional (bookPortions s t (pricesFrom sell (quote sell s)) size))) /\
     wf s' /\
     volume (bookPortions s t (pricesFrom sell (quote sell s)) size) = size /\
     (0 <= notional (bookPortions s t (pricesFrom sell (quote sell s)) size) < 2 ^ 32 ->
      (if sell then marketSell size t s else marketBuy size t s)
        = Ok (s', notional (bookPortions s t (pricesFrom sell (quote sell s)) size))) /\
     (forall q, ordersAt s' q = bookAfter s t (pricesFrom sell (quote sell s)) size q) /\
     (forall h,
        limitOrder.size (pool s' h)
        = limitOrder.size (pool s h)
          - takenInPart (pool s)
              (bookPortions s t (pricesFrom sell (quote sell s)) size) h) /\
     freeLimitOrders s'
     = rev (releasedAlong s t (pricesFrom sell (quote sell s)) size) ++ freeLimitOrders s /\
     filter (alive (pool s) t) (releasedAlong s t (pricesFrom sell (quote sell s)) size)
     = map orderOf
         (filter (takenWhole (pool s))
                 (bookPortions s t (pricesFrom sell (quote sell s)) size)) /\
     (forall x, In x (bookPortions s t (pricesFrom sell (quote sell s)) size) ->
        takenWhole (pool s) x = true ->
        In (orderOf x) (freeLimitOrders s') /\ forall q, ~ In (orderOf x) (ordersAt s' q))).
Proof.
  intros W Hs Hq. split; [|split].
  - destruct sell.
    + apply bookPortions_sorted; [intros p; lia | apply pricesFrom_sorted_sell].
    + apply bookPortions_sorted; [intros p; lia | apply pricesFrom_sorted_buy].
  - intros p sz. apply portions_prefix.
  - destruct (marketOrder_amount sell size t s W Hs Hq) as [E | (s' & E & W' & Ev)];
      [now left|].
    right. exists s'.
    destruct (marketOrder_after sell size t s s' _ W Hs Hq E) as (_ & E2 & E3 & E4 & _).
    split; [exact E|]. split; [exact W'|]. split; [exact Ev|].
    split; [intros Hn; rewrite E; now rewrite u32_small|].
    split; [exact E2|]. split; [exact E4|]. split; [exact E3|].
    split; [apply released_alive|].
    intros x Hx Hw.
    assert (Hfree : In (orderOf x) (freeLimitOrders s')).
    { rewrite E3. apply in_or_app. left. apply in_rev. rewrite rev_involutive.
      assert (H : In (orderOf x)
                    (filter (alive (pool s) t)
                       (releasedAlong s t (pricesFrom sell (quote sell s)) size))).
      { rewrite released_alive. apply in_map. apply filter_In. auto. }
      apply filter_In in H. tauto. }
    split; [exact Hfree|].
    intros q Hin. destruct W' as (R' & _). exact (rep_sep _ _ R' q _ Hin Hfree).
Qed.

Lemma market_order_amount_witness :
  marketBuy 10 0 book4 = Fault SellSideExhausted \/
  exists s',
    marketBuy 10 0 book4
      = Ok (s', u32 (notional (bookPortions book4 0 (pricesFrom false (ask book4)) 10))) /\
    wf s' /\
    volume (bookPortions book4 0 (pricesFrom false (ask book4)) 10) = 10 /\
    (0 <= notional (bookPortions book4 0 (pricesFrom false (ask book4)) 10) < 2 ^ 32 ->
     marketBuy 10 0 book4
       = Ok (s', notional (bookPortions book4 0 (pricesFrom false (ask book4)) 10))) /\
    (forall q, ordersAt s' q = bookAfter book4 0 (pricesFrom false (ask book4)) 10 q) /\
    (forall h,
       limitOrder.size (pool s' h)
       = limitOrder.size (pool book4 h)
         - takenInPart (pool book4)
             (bookPortions book4 0 (pricesFrom false (ask book4)) 10) h) /\
    freeLimitOrders s'
    = rev (releasedAlong book4 0 (pricesFrom false (ask book4)) 10) ++ freeLimitOrders book4 /\
    filter (alive (pool book4) 0) (releasedAlong book4 0 (pricesFrom false (ask book4)) 10)
    = map orderOf
        (filter (takenWhole (pool book4))
                (bookPortions book4 0 (pricesFrom false (ask book4)) 10)) /\
    (forall x, In x (bookPortions book4 0 (pricesFrom false (ask book4)) 10) ->
       takenWhole (pool book4) x = true ->
       In (orderOf x) (freeLimitOrders s') /\ forall q, ~ In (orderOf x) (ordersAt s' q)).
Proof.
  destruct (market_order_amount book4 false 10 0) as (_ & _ & H).
  - apply built_wf. exact built_book4.
  - lia.
  - change (quote false book4) with 105. unfold NUM_PRICES. lia.
  - exact H.
Defined.

(** C10, as stated, fails: no market order fills an order that the user has
    withdrawn.  The user's buy order of 10 shares rests at the head of the
    list of the bid 100, before a participant's order of 5 shares, and is
    tracked.  The user withdraws it, and before any frame has swept the
    book a market sell of 3 shares arrives: [marketSell] sweeps the price
    100 first, which releases the order withdrawn without a fill, and takes
    the 3 shares from the participant's order.  The balance and the
    position of the user are what they were. *)
Lemma withdrawn_order_is_not_filled :
  ordersAt userFirst 100 = [5%nat; 4%nat] /\
  limitOrder.user (pool userFirst 5%nat) = true /\
  userLimitOrders userFirst = [5%nat] /\
  limitOrder.expirationTime (pool (withdrawAll userFirst) 5%nat) = 0 /\
  userLimitOrders (withdrawAll userFirst) = [] /\
  ordersAt (withdrawAll userFirst) 100 = [5%nat; 4%nat] /\
  exists s',
    marketSell 3 0 (withdrawAll userFirst) = Ok (s', 300) /\
    balance s' = balance userFirst /\
    sharesOpen s' = sharesOpen userFirst /\
    ~ (balance s' = balance userFirst - 3 * 100) /\
    ~ (sharesOpen s' = sharesOpen userFirst + 3) /\
    freeLimitOrders s' = 5%nat :: freeLimitOrders userFirst /\
    limitOrder.size (pool s' 5%nat) = 10 /\
    ordersAt s' 100 = [4%nat] /\
    limitOrder.size (pool s' 4%nat) = 2.
Proof.
  repeat (split; [vm_compute; reflexivity|]).
  eexists. split; [vm_compute; reflexivity|].
  split; [vm_compute; reflexivity|].
  split; [vm_compute; reflexivity|].
  split; [vm_compute; discriminate|].
  split; [vm_compute; discriminate|].
  repeat (split; [vm_compute; reflexivity|]).
  vm_compute; reflexivity.
Qed.

(** C10 (amended).  After [withdrawAll] (every tracked order has expiration
    time 0, the list of tracked orders is empty) a market order that
    arrives at any time [t], before or after the next sweep of a frame,
    takes nothing from an order withdrawn: [marketSell] and [marketBuy]
    call [updateLimitOrders] at each price before [fillOrders], and since
    [0 <= t] this releases the order.  A market order stops with the fault
    of its side or returns; when it returns,
    - no portion comes from an order that was tracked, and the amount
      returned is that of the portions;
    - the balance and the position are updated by the portions taken from
      the user's orders that were not tracked only; when every order of the
      user in the book was tracked, they stay as they are;
    - an order that was tracked keeps its size; when the scan reaches its
      price with shares still to take, the order rests there no more and
      its record is on the free stack; otherwise it rests where it was. *)
Theorem withdrawn_order_is_released_unfilled (s : state) (sell : bool) (size t : Z) :
  wf s -> 0 <= size -> 0 <= t -> 0 <= quote sell s < NUM_PRICES ->
  userLimitOrders (withdrawAll s) = [] /\
  (forall h, In h (userLimitOrders s) ->
     limitOrder.expirationTime (pool (withdrawAll s) h) = 0) /\
  (forall x,
     In x (bookPortions (withdrawAll s) t (pricesFrom sell (quote sell s)) size) ->
     ~ In (orderOf x) (userLimitOrders s)) /\
  ((if sell then marketSell size t (withdrawAll s) else marketBuy size t (withdrawAll s))
     = Fault (if sell then BuySideExhausted else SellSideExhausted) \/
   exists s',
     (if sell then marketSell size t (withdrawAll s) else marketBuy size t (withdrawAll s))
       = Ok (s', u32 (notional (bookPortions (withdrawAll s) t
                                  (pricesFrom sell (quote sell s)) size))) /\
     balance s'
     = (if sell
        then i32 (balance s - notional (userBook (pool s)
                    (bookPortions (withdrawAll s) t (pricesFrom sell (quote sell s)) size)))
        else i32 (balance s + notional (userBook (pool s)
                    (bookPortions (withdrawAll s) t (pricesFrom sell (quote sell s)) size)))) /\
     sharesOpen s'
     = ledgerShares sell (sharesOpen s)
         (volume (userBook (pool s)
            (bookPortions (withdrawAll s) t (pricesFrom sell (quote sell s)) size))) /\
     ((forall q h, In h (ordersAt s q) -> limitOrder.user (pool s h) = true ->
                   In h (userLimitOrders s)) ->
      balance s' = balance s /\ sharesOpen s' = sharesOpen s) /\
     (forall q h, In h (userLimitOrders s) -> In h (ordersAt s q) ->
        limitOrder.size (pool s' h) = limitOrder.size (pool s h) /\
        (0 < requestAt (withdrawAll s) t (pricesFrom sell (quote sell s)) size q ->
         ~ In h (ordersAt s' q) /\ In h (freeLimitOrders s')) /\
        (requestAt (withdrawAll s) t (pricesFrom sell (quote sell s)) size q <= 0 ->
         In h (ordersAt s' q)))).
Proof.
  intros W Hs Ht Hq.
  pose proof (wf_withdrawAll s W) as Ww.
  set (w := withdrawAll s) in *.
  assert (Hqw : quote sell w = quote sell s) by (destruct sell; reflexivity).
  assert (Hdata : forall h,
             limitOrder.size (pool w h) = limitOrder.size (pool s h) /\
             limitOrder.user (pool w h) = limitOrder.user (pool s h) /\
             (In h (userLimitOrders s) -> limitOrder.expirationTime (pool w h) = 0)).
  { intros h.
    destruct (withdraw_fold_data (userLimitOrders s) (pool s) h) as (E1 & E2 & E3 & _).
    auto. }
  assert (Hnot : forall x,
             In x (bookPortions w t (pricesFrom sell (quote sell s)) size) ->
             ~ In (orderOf x) (userLimitOrders s))
    by (intros x; now apply withdrawn_not_taken).
  split; [reflexivity|]. split; [intros h; apply Hdata|]. split; [exact Hnot|].
  assert (Hqw' : 0 <= quote sell w < NUM_PRICES) by (rewrite Hqw; exact Hq).
  destruct (marketOrder_amount sell size t w Ww Hs Hqw') as [E | (s' & E & W' & Ev)];
    [now left|].
  right. exists s'.
  destruct (marketOrder_after sell size t w s' _ Ww Hs Hqw' E)
    as (Eps & Ebook & _ & Esize & Ebal & Esh).
  rewrite Hqw in E, Ebook, Esize, Ebal, Esh.
  set (P := bookPortions w t (pricesFrom sell (quote sell s)) size) in *.
  assert (Eub : userBook (pool w) P = userBook (pool s) P).
  { unfold userBook. apply filter_ext. intros x. apply Hdata. }
  rewrite Eub in Ebal, Esh.
  split; [exact E|]. split; [exact Ebal|]. split; [exact Esh|]. split.
  - intros Hall.
    assert (Enil : userBook (pool s) P = []).
    { unfold userBook. apply filter_nothing. intros x Hx.
      destruct (limitOrder.user (pool s (snd (fst x)))) eqn:Hu; [|reflexivity].
      exfalso. apply (Hnot x Hx).
      destruct (bookPortions_In w t _ _ x Hx) as (_ & Hin).
      unfold w in Hin. rewrite withdrawAll_ordersAt in Hin by exact W.
      exact (Hall _ _ Hin Hu). }
    rewrite Ebal, Esh, Enil. destruct W as (_ & Hb & Hn).
    cbn [notional volume fold_right]. rewrite Z.sub_0_r, Z.add_0_r.
    rewrite ledgerShares_zero by exact Hn.
    split; [destruct sell; now apply i32_small | reflexivity].
  - intros q h Htr Hin.
    assert (Hinw : In h (ordersAt w q))
      by (unfold w; rewrite withdrawAll_ordersAt by exact W; exact Hin).
    split; [|split].
    + rewrite Esize, takenInPart_none; [rewrite (proj1 (Hdata h)); lia|].
      intros x Hx Eh. apply (Hnot x Hx). now rewrite Eh.
    + intros Hr.
      assert (Nin : ~ In h (ordersAt s' q)).
      { rewrite Ebook. intros Hb. apply (bookAfter_alive _ _ _ _ _ _ Hr) in Hb.
        unfold alive, expired in Hb. rewrite (proj2 (proj2 (Hdata h)) Htr) in Hb.
        rewrite (proj2 (Z.leb_le 0 t) Ht) in Hb. discriminate. }
      split; [exact Nin|].
      destruct W' as (R' & _). destruct Ww as (Rw & _).
      assert (Hslot : (h < poolSize s')%nat).
      { rewrite Eps. apply (rep_slots _ _ Rw). right. exists q. exact Hinw. }
      apply (rep_slots _ _ R') in Hslot. destruct Hslot as [Hf|(q' & Hq')]; [exact Hf|].
      exfalso. rewrite Ebook in Hq'. pose proof (bookAfter_incl _ _ _ _ _ _ Hq') as Hq''.
      assert (q' = q) by exact (rep_levels _ _ Rw _ _ _ Hq'' Hinw). subst q'.
      apply Nin. rewrite Ebook. exact Hq'.
    + intros Hr. rewrite Ebook. unfold bookAfter.
      rewrite (proj2 (Z.ltb_ge _ _) Hr). exact Hinw.
Qed.

Lemma withdrawn_order_is_released_unfilled_witness :
  marketSell 3 0 (withdrawAll userFirst) = Fault BuySideExhausted \/
  exists s',
    marketSell 3 0 (withdrawAll userFirst)
      = Ok (s', u32 (notional (bookPortions (withdrawAll userFirst) 0
                                 (pricesFrom true (quote true userFirst)) 3))) /\
    balance s'
    = i32 (balance userFirst
           - notional (userBook (pool userFirst)
               (bookPortions (withdrawAll userFirst) 0
                  (pricesFrom true (quote true userFirst)) 3))) /\
    sharesOpen s'
    = ledgerShares true (sharesOpen userFirst)
        (volume (userBook (pool userFirst)
           (bookPortions (withdrawAll userFirst) 0
              (pricesFrom true (quote true userFirst)) 3))) /\
    ((forall q h, In h (ordersAt userFirst q) -> limitOrder.user (pool userFirst h) = true ->
                  In h (userLimitOrders userFirst)) ->
     balance s' = balance userFirst /\ sharesOpen s' = sharesOpen userFirst) /\
    (forall q h, In h (userLimitOrders userFirst) -> In h (ordersAt userFirst q) ->
       limitOrder.size (pool s' h) = limitOrder.size (pool userFirst h) /\
       (0 < requestAt (withdrawAll userFirst) 0 (pricesFrom true (quote true userFirst)) 3 q ->
        ~ In h (ordersAt s' q) /\ In h (freeLimitOrders s')) /\
       (requestAt (withdrawAll userFirst) 0 (pricesFrom true (quote true userFirst)) 3 q <= 0 ->
        In h (ordersAt s' q))).
Proof.
  destruct (withdrawn_order_is_released_unfilled userFirst true 3 0) as (_ & _ & _ & H).
  - apply built_wf. exact built_userFirst.
  - lia.
  - lia.
  - change (quote true userFirst) with 100. unfold NUM_PRICES. lia.
  - exact H.
Defined.
